(* ===== verification/_CoqProject ===== *)
-Q . S2P
Prelude.v
Wide.v
CpuMonitor.v
Numbers.v
Performance.v
Profiler.v
RingBuffer.v
Packet.v
Codec.v
FreeList.v
Sector.v
Message.v
World.v
PacketHeap.v
Iocp.v
Chat.v
Threads.v
Players.v
Sends.v
Receive.v
Stream.v
Sessions.v
Delivery.v
Replies.v
Broadcast.v
Lifecycle.v
Interference.v
Calls.v
ChatCalls.v
Locks.v
Room.v
Handlers.v
Requests.v
Logins.v
Server.v
Loops.v
