(* ===== verification/Prelude.v ===== *)
(** * ChattingServer: a verification of the server

    The program is a chat server for Windows built on I/O completion ports.  [IOCPServer]
    accepts clients, gives each a [Session] of a fixed array, receives its byte stream into a
    ring buffer, cuts the stream into frames, decodes each frame into a [CPacket] and calls
    the virtual [OnRecv]; what the derived class answers is encoded, queued on the session and
    sent by one [WSASend] at a time.  [ChatServer] derives from it: a [Player] for each
    session, a grid of 50 x 50 sectors, login through a Redis thread, broadcast to the nine
    sectors around a player, a heartbeat.  Packets and players come from lock-free pools
    ([CLFFreeList]).  A statistics thread asks [CpuMonitor] once a second; a profiler
    (monitor.cpp) stands beside the rest.

    ** Files, and the source they model

    Models, each with the theorems that need nothing else:
    - [Prelude]: results with faults ([res]), integers of a machine width, blocks of memory
      as lists of bytes, [memcpy] and [memcpy_s] with their bounds, shared lemmas and tactics;
      [Wide]: strings of [WCHAR]s, [wcscpy_s], numbers printed and read.
    - [RingBuffer]: CRingBuffer.cpp.  Positions and block; the abstract queue is
      [ByteQueue].
    - [Packet], [Codec]: CPacket.cpp and CPacket.h.  The block, the positions, typed and raw
      access; the header and the in-place encoding and decoding.  Where the code loops for
      ever the model runs out of fuel for every fuel.
    - [FreeList]: CLFFreeList.h.  [tstep] is one atomic step of one thread inside [Alloc] or
      [Free], one rule for each access to shared memory; [Alloc] and [Free] as functions are the
      same calls uninterrupted.
    - [Sector]: the grid and the locks of ChatServer.cpp: [MakeAround], the numbering of the
      sectors, the SRW locks as a step system ([lstep]).
    - [Message]: Protocol.h and the bodies of the replies; the library's [wcscpy_s].
    - [World]: IOCPServer.h.  A [Session] is a record, a [Session *] the index of its slot; the
      world holds the slots, the stack of free ones, the packet objects by the block of the
      pool they live in, what has been posted to the kernel, what has been sent, and the
      derived object.  [M] is the monad the server's functions run in: the world is passed on,
      a fault ends the run.
    - [Iocp]: IOCPServer.cpp, one definition for each function, and the turns of the worker and
      accept threads.
    - [Chat]: ChatServer.cpp, one definition for each function; [chat_app] is the instance of
      [ServerApp] through which [Iocp] calls [OnClientJoin] and [OnClientLeave].
    - [Threads]: [Start], [Stop] and the loops of the threads of both classes, each over what
      its blocking call returns, with the calls they make on sockets, handles and threads.
    - [Interference]: the accesses to [ioCount], [isReleased] and [sessionID] of IOCPServer.cpp
      as a step system for any number of threads on one session.
    - [CpuMonitor]: CpuMonitor.cpp, what Windows answers being a parameter.
    - [Profiler]: monitor.cpp, the tables of timers and the report.
    - [Room]: the chat room, the abstract specification of [Chat]: who is connected, under which
      account and in which sector, and the four things that can happen to that.

    Theorems on them: [PacketHeap] (packet objects and their references), [Players], [Broadcast],
    [Handlers], [Requests] (the requests of a client and the heartbeat, run to their end),
    [Logins] (the end of a login) and [Server] (all on [Chat]; [Server] also holds
    [server_turn], the turns of all the threads), [Sends], [Receive], [Stream], [Sessions] and
    [Delivery] (on [Iocp]), [Replies] (reading a request and answering it), [Lifecycle] and
    [Loops] (on [Threads]), [Locks] (on the locks both take), [Numbers] and [Performance] (on
    [CpuMonitor]).  [Calls] and [ChatCalls] carry a relation down through the functions of
    [Iocp] and of [Chat].

    ** Interfaces

    - [Runtime] (Packet): [malloc], and fuel for the one loop that may not end.
    - [LockfreeQueue] (World): [boost::lockfree::queue], by the laws of a bounded FIFO queue.
      [list_queue] is an instance.
    - [Windows] (World): the results of [WSASend] and [WSARecv], [GetTickCount64], [rand], each
      by the number of the call.
    - [ServerApp] (World): the virtual functions that do not call back into the server.
    - [Receiver] (Stream): what the receive path asks of [OnRecv]; the theorems on the stream
      are proved against it.
    - [AppRel] (Calls): a relation on the derived object that [OnClientLeave] respects, and that
      therefore every call into the server respects (the accept thread's turn apart, which
      also joins).  Its instances are the preorders of [Handlers] and [Loops].
    - [Indeterminate], [RedisServer] (Chat): uninitialised locals (words and blocks of bytes), the
      Redis server's replies.
    - [Startup] (Threads): the calls of [Start] and [Stop] on sockets, ports and threads.
    - [Pdh] (CpuMonitor): Windows and its performance-data helper.

    ** What the theorems show

    - Pool: for any number of threads every run of [Alloc] and [Free] is a run of an atomic
      stack of blocks, nobody dereferences a null top (the counters bound the pops), among
      enough steps somebody makes progress, at rest the counters account for every block.
      Runs are counted: the theorems hold for the first 2^62 steps, before a counter wraps.
    - Ring and codec: the ring refines a bounded queue of bytes; encoding then receiving gives
      the payload back; decoding accepts exactly what its checks say; [PutData] is described on
      every branch, the overruns and the endless loop included.
    - Receiving: a receive is posted into exactly the free part of the ring; one completion
      delivers exactly the messages it completes; however the stream is cut into completions
      the handler gets the messages in order; ill-formed frames.
    - Sending: one send at a time, at most a hundred packets, in queue order; the end of a send
      gives its packets back and posts the next one.
    - Sessions: releasing gives back exactly what the session owns; looking a session up; the
      effect of an identifier that is out of date, up to a new client being given slot 0 while
      another is connected there, from any state in which such an identifier is used.  Under
      interference a session is released at most once and only when disconnected, as long as
      nobody looks up a session whose count is 0; without that it is released again.
    - The room: every run of turns keeps the invariant of the chat server's state and is a run
      of the room; what a player can look like in a state such a run reaches.
    - Requests, each handler run to its end, from the bytes of the request to the outboxes of
      the sessions: who hears a chat message, and which message; what a move does, and what it
      refuses; what each verdict on a login does to the account and the player; whom the
      heartbeat disconnects.  A second login of one client, and the entry it leaves behind.
      The sessions written to are assumed to be reachable: an operation in progress, as while
      a receive is pending, and room in the queue.
    - Chat: joining and leaving keep the map, the sectors and the accounts consistent; the
      player blocks that are never returned; the replies are parsed back to what was put in.
    - Locks: every turn of every thread takes its locks in one order; threads that perform the
      locks of any turns never deadlock.
    - Threads: the loops of the threads are runs of turns; the workers exit once [Stop] has
      posted a status for each; what [Stop] gives back and what it does not; the Redis thread's
      inner loop ends.
    - Monitor and profiler: a number is printed in groups of three, as long as no group but the
      first is 0; which process the monitor takes for its own; from which differences the
      rates come; which of the fifty samples of a table a timer's name is given.

    ** Bounds and fuel

    Integers wrap at the width of their C++ type ([u8] to [u64], [i8] to [i64]).  Ring sizes are
    at most 2^30 so that sums of positions stay in [int].  Loops over a count run on that count;
    [recv_loop] gets one more than the bytes in the ring, each turn taking at least six off or
    ending; [gather] gets 101 for at most 100 packets; [release_all] the length of the queue;
    [redis_drain] ends with fuel above the length of the job queue ([redis_drain_ends]);
    the walks over Windows' lists of names get the length of the block they walk.
    [grow_loop] gets [fuel] of [Runtime], and the theorems that say it never ends hold for every
    fuel.  The theorems on runs of turns hold for fewer than [POOL_LIMIT] (2^62) turns, before a
    counter of the player pool wraps.  Floating point is IEEE 754, computed.

    ** Not modelled

    [Iocp], [Chat] and [Threads] run one turn at a time ([workers] is a scheduler of the
    development: it hands each completion to some worker); interference between threads is
    modelled for the pool, the locks and one session.  A completion is what
    [GetQueuedCompletionStatus] returns and leaves in its out parameters.  Left out: the address structure that [Start]
    binds, the console output of the statistics threads, the file the profiler's report goes to,
    the crash dump (CrashDumpClass.h) and [main].  The kernel's part of a receive is [scatter]
    and [kernel_fills]; completions are not generated, a theorem takes the ones it is about.

    ** Next

    The invariant that slots in use and the stack of free ones partition the array as long as
    no identifier is out of date; [Receiver] for the chat server's own [OnRecv]; the accounting
    of packet references over a whole run; a session under interference before its first
    receive, and several sessions at once; bounds of the percentages the monitor computes. *)

From Stdlib Require Export ZArith Lia.
From stdpp Require Export base numbers list gmap sets fin_maps tactics.

#[global] Open Scope Z_scope.

(** ** Results

    A C++ operation either returns, hits behaviour the standard leaves undefined (or the
    run-time turns into a crash), or has not finished within the fuel given to its loops. *)

Inductive fault :=
  | OutOfBounds        (** an access outside the memory block it starts from *)
  | InvalidParameter   (** the invalid-parameter handler of a [_s] function fires *)
  | NullDeref          (** an access through a null (or never allocated) pointer *)
  | BadAlloc           (** [new] throws *)
  | DivByZero
  | EmptyTop           (** [std::stack::top] of an empty stack *)
  | SignedOverflow     (** an [int] counted past its largest value *)
  | BadIndex.          (** an array index outside the array *)

#[export] Instance fault_eq_dec : EqDecision fault.
Proof. solve_decision. Defined.

Inductive res (A : Type) : Type :=
  | Ok (a : A)
  | Fault (e : fault)
  | OutOfFuel.
Arguments Ok {A} a.
Arguments Fault {A} e.
Arguments OutOfFuel {A}.

#[export] Instance res_ret : MRet res := fun A a => Ok a.
#[export] Instance res_bind : MBind res := fun A B f m =>
  match m with
  | Ok a => f a
  | Fault e => Fault e
  | OutOfFuel => OutOfFuel
  end.

(** [guard c e]: go on when the test holds, fault otherwise. *)
Definition check (c : bool) (e : fault) : res unit :=
  if c then Ok tt else Fault e.

Definition of_opt {A} (e : fault) (o : option A) : res A :=
  match o with Some a => Ok a | None => Fault e end.

Lemma bind_Ok {A B} (f : A -> res B) (m : res A) b :
  m ≫= f = Ok b <-> exists a, m = Ok a /\ f a = Ok b.
Proof.
  destruct m; cbn; split; try discriminate; try (intros (? & [=] & ?); done).
  - eauto.
  - by intros (? & [= ->] & ?).
Qed.

Lemma check_Ok c e u : check c e = Ok u <-> c = true.
Proof. by destruct c, u. Qed.

Lemma check_true e : check true e = Ok tt.
Proof. reflexivity. Qed.

Lemma of_opt_Ok {A} e (o : option A) a : of_opt e o = Ok a <-> o = Some a.
Proof. destruct o; cbn; split; congruence. Qed.

Lemma bind_Ok_l {A B} (f : A -> res B) a : (Ok a : res A) ≫= f = f a.
Proof. reflexivity. Qed.

Lemma bind_assoc {A B C} (m : res A) (f : A -> res B) (g : B -> res C) :
  (m ≫= f) ≫= g = m ≫= (fun a => f a ≫= g).
Proof. by destruct m. Qed.

Create Rewrite HintDb res.
#[export] Hint Rewrite @bind_Ok_l @check_true : res.

(** Splits a hypothesis "this composed computation returned" into its steps. *)
Ltac res_inv :=
  repeat match goal with
  | H : _ ≫= _ = Ok _ |- _ =>
      apply bind_Ok in H; destruct H as (?a & ? & H)
  | H : check _ _ = Ok _ |- _ => apply check_Ok in H
  | H : of_opt _ _ = Ok _ |- _ => apply of_opt_Ok in H
  | H : Ok _ = Ok _ |- _ => injection H as H; try subst
  | H : mret _ = Ok _ |- _ => injection H as H; try subst
  | H : Fault _ = Ok _ |- _ => discriminate H
  | H : OutOfFuel = Ok _ |- _ => discriminate H
  end.

(** ** Machine integers

    Integers are [Z] with the wrap-around of their width written out. *)

Definition wrap_u (w z : Z) : Z := z mod 2 ^ w.
Definition wrap_s (w z : Z) : Z := (z + 2 ^ (w - 1)) mod 2 ^ w - 2 ^ (w - 1).

Abbreviation u8 := (wrap_u 8).
Abbreviation u16 := (wrap_u 16).
Abbreviation u32 := (wrap_u 32).
Abbreviation u64 := (wrap_u 64).
Abbreviation i8 := (wrap_s 8).
Abbreviation i16 := (wrap_s 16).
Abbreviation i32 := (wrap_s 32).
Abbreviation i64 := (wrap_s 64).

Lemma wrap_u_range w z : 0 <= w -> 0 <= wrap_u w z < 2 ^ w.
Proof. intros. unfold wrap_u. apply Z.mod_pos_bound. lia. Qed.

Lemma wrap_u_id w z : 0 <= z < 2 ^ w -> wrap_u w z = z.
Proof. intros. unfold wrap_u. by apply Z.mod_small. Qed.

Lemma wrap_s_id w z : 0 < w -> - 2 ^ (w - 1) <= z < 2 ^ (w - 1) -> wrap_s w z = z.
Proof.
  intros Hw H. unfold wrap_s.
  replace (2 ^ w) with (2 * 2 ^ (w - 1)).
  - rewrite Z.mod_small; lia.
  - rewrite <- Z.pow_succ_r by lia. f_equal. lia.
Qed.

Lemma wrap_s_mod w z : 0 < w -> wrap_s w z mod 2 ^ w = z mod 2 ^ w.
Proof.
  intros Hw. unfold wrap_s.
  rewrite Zminus_mod_idemp_l. f_equal. lia.
Qed.

Lemma u8_range z : 0 <= u8 z < 256.
Proof. by apply (wrap_u_range 8). Qed.

Lemma u8_id z : 0 <= z < 256 -> u8 z = z.
Proof. by apply (wrap_u_id 8). Qed.

Lemma u16_id z : 0 <= z < 65536 -> u16 z = z.
Proof. by apply (wrap_u_id 16). Qed.

Lemma i64_id z : - 9223372036854775808 <= z < 9223372036854775808 -> i64 z = z.
Proof. intros. by apply (wrap_s_id 64). Qed.

Lemma i32_id z : - 2147483648 <= z < 2147483648 -> i32 z = z.
Proof. intros. by apply (wrap_s_id 32). Qed.

(** Bitwise exclusive or commutes with the truncation. *)
Lemma wrap_u_lxor w a b : 0 <= w -> wrap_u w (Z.lxor a b) = Z.lxor (wrap_u w a) (wrap_u w b).
Proof.
  intros Hw. unfold wrap_u. apply Z.bits_inj'. intros i Hi. rewrite Z.lxor_spec.
  destruct (Z.lt_ge_cases i w).
  - by rewrite !Z.mod_pow2_bits_low, Z.lxor_spec by lia.
  - by rewrite !Z.mod_pow2_bits_high by lia.
Qed.

Lemma u8_i8 z : 0 <= z < 256 -> u8 (i8 z) = z.
Proof. intros. unfold wrap_u. rewrite wrap_s_mod by lia. by apply Z.mod_small. Qed.

(** Removes the wrap-arounds [lia] shows to be the identity, innermost first. *)
Ltac unwrap :=
  repeat match goal with
  | |- context [wrap_s 32 ?z] => rewrite (i32_id z) by lia
  | |- context [wrap_s 64 ?z] => rewrite (i64_id z) by lia
  | |- context [wrap_u 8 ?z] => rewrite (u8_id z) by lia
  | |- context [wrap_u 16 ?z] => rewrite (u16_id z) by lia
  end.

(** ** Blocks of bytes

    A block of memory is the list of its bytes; [load] and [store] fault outside it. *)

Abbreviation byte_ok b := (0 <= b < 256).
Abbreviation bytes_ok l := (Forall (fun b => 0 <= b < 256) l).

Definition zlen {A} (l : list A) : Z := Z.of_nat (length l).

Definition slice (m : list Z) (off n : Z) : list Z :=
  take (Z.to_nat n) (drop (Z.to_nat off) m).

Definition splice (m : list Z) (off : Z) (bs : list Z) : list Z :=
  take (Z.to_nat off) m ++ bs ++ drop (Z.to_nat off + length bs) m.

Definition in_block (m : list Z) (off n : Z) : bool :=
  (0 <=? off) && (0 <=? n) && (off + n <=? zlen m).

Definition load (m : list Z) (off n : Z) : res (list Z) :=
  if in_block m off n then Ok (slice m off n) else Fault OutOfBounds.

Definition store (m : list Z) (off : Z) (bs : list Z) : res (list Z) :=
  if in_block m off (zlen bs) then Ok (splice m off bs) else Fault OutOfBounds.

(** [memcpy(dst + doff, src + soff, n)]; the count is a [size_t]. *)
Definition memcpy (dst : list Z) (doff : Z) (src : list Z) (soff n : Z) : res (list Z) :=
  bs ← load src soff (u64 n);
  store dst doff bs.

(** [memcpy_s(dst + doff, destsz, src + soff, n)]: both sizes are [rsize_t]; a count of 0
    succeeds, a count above [destsz] fires the invalid-parameter handler. *)
Definition memcpy_s (dst : list Z) (doff destsz : Z) (src : list Z) (soff n : Z)
    : res (list Z) :=
  if u64 n =? 0 then Ok dst
  else if u64 destsz <? u64 n then Fault InvalidParameter
  else memcpy dst doff src soff n.

(** [memset(m + off, 0, n)], which is what [ZeroMemory] expands to. *)
Definition zero_memory (m : list Z) (off n : Z) : res (list Z) :=
  store m off (replicate (Z.to_nat (u64 n)) 0).

Definition nthz (m : list Z) (i : Z) : Z := nth (Z.to_nat i) m 0.

(** Reading and writing one byte through an index. *)
Definition get_byte (m : list Z) (i : Z) : res Z :=
  if (0 <=? i) && (i <? zlen m) then Ok (nthz m i) else Fault OutOfBounds.

Definition set_byte (m : list Z) (i b : Z) : res (list Z) := store m i [b].

(** *** Lemmas on blocks *)

Lemma zlen_nonneg {A} (l : list A) : 0 <= zlen l.
Proof. unfold zlen. lia. Qed.

Lemma zlen_app {A} (l k : list A) : zlen (l ++ k) = zlen l + zlen k.
Proof. unfold zlen. rewrite length_app. lia. Qed.

Lemma zlen_cons {A} (x : A) l : zlen (x :: l) = 1 + zlen l.
Proof. unfold zlen. simpl. lia. Qed.

Lemma zlen_replicate {A} n (x : A) : 0 <= n -> zlen (replicate (Z.to_nat n) x) = n.
Proof. intros. unfold zlen. rewrite length_replicate. lia. Qed.

Lemma zlen_slice m off n :
  0 <= off -> 0 <= n -> off + n <= zlen m -> zlen (slice m off n) = n.
Proof. unfold zlen, slice. intros. rewrite length_take, length_drop. lia. Qed.

Lemma zlen_splice m off bs :
  0 <= off -> off + zlen bs <= zlen m -> zlen (splice m off bs) = zlen m.
Proof.
  unfold zlen, splice. intros. rewrite !length_app, length_take, length_drop. lia.
Qed.

Lemma in_block_true m off n :
  in_block m off n = true <-> 0 <= off /\ 0 <= n /\ off + n <= zlen m.
Proof. unfold in_block. rewrite !andb_true_iff, !Z.leb_le. tauto. Qed.

Lemma load_ok m off n :
  0 <= off -> 0 <= n -> off + n <= zlen m -> load m off n = Ok (slice m off n).
Proof. intros. unfold load. by rewrite (proj2 (in_block_true _ _ _)). Qed.

Lemma store_ok m off bs :
  0 <= off -> off + zlen bs <= zlen m -> store m off bs = Ok (splice m off bs).
Proof.
  intros. unfold store. rewrite (proj2 (in_block_true _ _ _)); [done|].
  pose proof (zlen_nonneg bs). lia.
Qed.

Lemma u64_id z : 0 <= z < 18446744073709551616 -> u64 z = z.
Proof. by apply (wrap_u_id 64). Qed.

Lemma memcpy_ok dst doff src soff n :
  0 <= doff -> 0 <= soff -> 0 <= n < 2147483648 ->
  soff + n <= zlen src -> doff + n <= zlen dst ->
  memcpy dst doff src soff n = Ok (splice dst doff (slice src soff n)).
Proof.
  intros. unfold memcpy. rewrite u64_id by lia. rewrite load_ok by lia. cbn.
  apply store_ok; rewrite ?zlen_slice; lia.
Qed.

(** [memcpy] from a readable range: it faults exactly when the destination is too short. *)
Lemma memcpy_cases dst doff src soff n :
  0 <= doff -> 0 <= soff -> 0 <= n < 2147483648 -> soff + n <= zlen src ->
  memcpy dst doff src soff n =
  if doff + n <=? zlen dst then Ok (splice dst doff (slice src soff n)) else Fault OutOfBounds.
Proof.
  intros. destruct (Z.leb_spec (doff + n) (zlen dst)); [by apply memcpy_ok|].
  unfold memcpy. rewrite u64_id by lia. rewrite load_ok by lia. cbn.
  unfold store, in_block. rewrite zlen_slice by lia.
  destruct (Z.leb_spec (doff + n) (zlen dst)); [lia|]. by rewrite !andb_false_r.
Qed.

(** A copy never changes the length of the block it writes to. *)
Lemma memcpy_zlen dst doff src soff n out :
  memcpy dst doff src soff n = Ok out -> zlen out = zlen dst.
Proof.
  unfold memcpy. destruct (load src soff (u64 n)) as [bs| |]; try discriminate. cbn.
  unfold store, in_block. destruct (_ && _) eqn:E; [|discriminate]. intros [= <-].
  rewrite !andb_true_iff, !Z.leb_le in E. unfold zlen, splice in *.
  rewrite !length_app, length_take, length_drop. lia.
Qed.

Lemma splice_nil m off : 0 <= off -> splice m off [] = m.
Proof.
  intros. unfold splice. cbn. rewrite Nat.add_0_r. apply take_drop.
Qed.

Lemma splice_all m bs : zlen bs = zlen m -> splice m 0 bs = bs.
Proof.
  unfold zlen. intros. unfold splice. change (Z.to_nat 0) with O. cbn.
  rewrite drop_ge by lia. apply app_nil_r.
Qed.

Lemma slice_zero m off : slice m off 0 = [].
Proof. done. Qed.

Lemma memcpy_s_ok dst doff destsz src soff n :
  0 <= doff -> 0 <= soff -> 0 <= n < 2147483648 -> n <= destsz < 2147483648 ->
  soff + n <= zlen src -> doff + n <= zlen dst ->
  memcpy_s dst doff destsz src soff n = Ok (splice dst doff (slice src soff n)).
Proof.
  intros. unfold memcpy_s. rewrite !u64_id by lia.
  destruct (Z.eqb_spec n 0) as [->|].
  - by rewrite slice_zero, splice_nil.
  - destruct (Z.ltb_spec destsz n); [lia|]. by apply memcpy_ok.
Qed.

(** A copy that reaches past the end of the destination block. *)
Lemma memcpy_s_overruns dst doff destsz src soff n :
  0 < n <= destsz -> destsz < 18446744073709551616 -> 0 <= soff -> soff + n <= zlen src ->
  zlen dst < doff + n ->
  memcpy_s dst doff destsz src soff n = Fault OutOfBounds.
Proof.
  intros. unfold memcpy_s. rewrite !u64_id by lia.
  destruct (Z.eqb_spec n 0); [lia|]. destruct (Z.ltb_spec destsz n); [lia|].
  unfold memcpy. rewrite u64_id by lia. rewrite load_ok by lia. cbn [mbind res_bind].
  unfold store, in_block. rewrite zlen_slice by lia.
  destruct (Z.leb_spec (doff + n) (zlen dst)); [lia|]. by rewrite !andb_false_r.
Qed.

Lemma nthz_slice m off n i :
  0 <= off -> 0 <= i < n -> off + n <= zlen m ->
  nthz (slice m off n) i = nthz m (off + i).
Proof.
  unfold zlen, slice, nthz. intros.
  rewrite !nth_lookup, lookup_take_lt by lia. rewrite lookup_drop.
  do 2 f_equal. lia.
Qed.

Lemma nthz_splice_in m off bs i :
  0 <= off -> off + zlen bs <= zlen m -> off <= i < off + zlen bs ->
  nthz (splice m off bs) i = nthz bs (i - off).
Proof.
  unfold zlen, splice, nthz. intros. rewrite !nth_lookup.
  rewrite lookup_app_r by (rewrite length_take; lia).
  rewrite length_take. rewrite lookup_app_l by lia.
  do 2 f_equal. lia.
Qed.

Lemma nthz_splice_out m off bs i :
  0 <= off -> off + zlen bs <= zlen m -> 0 <= i ->
  i < off \/ off + zlen bs <= i ->
  nthz (splice m off bs) i = nthz m i.
Proof.
  unfold zlen, splice, nthz. intros ? ? ? Hi. rewrite !nth_lookup. f_equal.
  destruct Hi.
  - rewrite lookup_app_l by (rewrite length_take; lia).
    by rewrite lookup_take_lt by lia.
  - rewrite lookup_app_r by (rewrite length_take; lia).
    rewrite length_take. rewrite lookup_app_r by lia.
    rewrite lookup_drop. f_equal. lia.
Qed.

(** Two lists of the same length with the same bytes are equal. *)
Lemma nthz_ext l k :
  zlen l = zlen k -> (forall i, 0 <= i < zlen l -> nthz l i = nthz k i) -> l = k.
Proof.
  unfold zlen, nthz. intros Hlen H. apply nth_ext with 0 0; [lia|].
  intros n Hn. specialize (H (Z.of_nat n)). rewrite Nat2Z.id in H. apply H. lia.
Qed.

Lemma nthz_app_l l k i : 0 <= i < zlen l -> nthz (l ++ k) i = nthz l i.
Proof.
  unfold zlen, nthz. intros. rewrite !nth_lookup, lookup_app_l by lia. done.
Qed.

Lemma nthz_app_r l k i : zlen l <= i -> nthz (l ++ k) i = nthz k (i - zlen l).
Proof.
  unfold zlen, nthz. intros. rewrite !nth_lookup, lookup_app_r by lia.
  do 2 f_equal. lia.
Qed.

Lemma slice_all m : slice m 0 (zlen m) = m.
Proof. unfold slice, zlen. cbn. rewrite Nat2Z.id. by apply firstn_all. Qed.

Lemma slice_splice_same m off bs :
  0 <= off -> off + zlen bs <= zlen m -> slice (splice m off bs) off (zlen bs) = bs.
Proof.
  intros. pose proof (zlen_nonneg bs).
  apply nthz_ext.
  - rewrite zlen_slice; rewrite ?zlen_splice; lia.
  - intros i Hi. rewrite zlen_slice in Hi by (rewrite ?zlen_splice; lia).
    rewrite nthz_slice by (rewrite ?zlen_splice; lia).
    rewrite nthz_splice_in by lia. f_equal. lia.
Qed.

Lemma slice_splice_other m off bs off' n :
  0 <= off -> off + zlen bs <= zlen m ->
  0 <= off' -> 0 <= n -> off' + n <= zlen m ->
  off' + n <= off \/ off + zlen bs <= off' ->
  slice (splice m off bs) off' n = slice m off' n.
Proof.
  intros. apply nthz_ext.
  - rewrite !zlen_slice; rewrite ?zlen_splice; lia.
  - intros i Hi. rewrite zlen_slice in Hi by (rewrite ?zlen_splice; lia).
    rewrite !nthz_slice by (rewrite ?zlen_splice; lia).
    rewrite nthz_splice_out; lia.
Qed.

Lemma slice_slice m off n a b :
  0 <= off -> 0 <= a -> 0 <= b -> a + b <= n -> off + n <= zlen m ->
  slice (slice m off n) a b = slice m (off + a) b.
Proof.
  intros. apply nthz_ext; [rewrite !zlen_slice; rewrite ?zlen_slice; lia|].
  intros i. rewrite zlen_slice by (rewrite ?zlen_slice; lia). intros.
  rewrite !nthz_slice; rewrite ?zlen_slice; try lia. f_equal. lia.
Qed.

(** Two writes one after the other are one write. *)
Lemma splice_splice_app m off a b :
  0 <= off -> off + zlen a + zlen b <= zlen m ->
  splice (splice m off a) (off + zlen a) b = splice m off (a ++ b).
Proof.
  intros. pose proof (zlen_nonneg a). pose proof (zlen_nonneg b).
  apply nthz_ext.
  - rewrite !zlen_splice; rewrite ?zlen_splice, ?zlen_app; lia.
  - intros i Hi. rewrite !zlen_splice in Hi by (rewrite ?zlen_splice; lia).
    destruct (Z.lt_ge_cases i off);
      [|destruct (Z.lt_ge_cases i (off + zlen a));
        [|destruct (Z.lt_ge_cases i (off + zlen a + zlen b))]].
    + rewrite !nthz_splice_out; rewrite ?zlen_splice, ?zlen_app; lia.
    + rewrite nthz_splice_out by (rewrite ?zlen_splice; lia).
      rewrite !nthz_splice_in by (rewrite ?zlen_app; lia).
      by rewrite nthz_app_l by lia.
    + rewrite nthz_splice_in by (rewrite ?zlen_splice; lia).
      rewrite nthz_splice_in by (rewrite ?zlen_app; lia).
      rewrite nthz_app_r by lia. f_equal. lia.
    + rewrite !nthz_splice_out; rewrite ?zlen_splice, ?zlen_app; lia.
Qed.

Lemma get_byte_ok m i : 0 <= i < zlen m -> get_byte m i = Ok (nthz m i).
Proof.
  intros. unfold get_byte.
  destruct (Z.leb_spec 0 i), (Z.ltb_spec i (zlen m)); lia || done.
Qed.

Lemma slice_cons m off n :
  0 <= off -> 0 < n -> off + n <= zlen m ->
  slice m off n = nthz m off :: slice m (off + 1) (n - 1).
Proof.
  unfold slice, zlen, nthz. intros. replace (Z.to_nat n) with (S (Z.to_nat (n - 1))) by lia.
  destruct (drop (Z.to_nat off) m) as [|x k] eqn:E.
  - apply (f_equal length) in E. rewrite length_drop in E. cbn in E. lia.
  - rewrite nth_lookup.
    assert (Hx : m !! Z.to_nat off = Some x) by (rewrite <- (Nat.add_0_r (Z.to_nat off)), <- lookup_drop, E; done).
    rewrite Hx. cbn. f_equal. f_equal.
    replace (Z.to_nat (off + 1)) with (Z.to_nat off + 1)%nat by lia.
    by rewrite <- drop_drop, E.
Qed.

Lemma nthz_byte m i : bytes_ok m -> byte_ok (nthz m i).
Proof.
  intros Hm. unfold nthz. destruct (nth_in_or_default (Z.to_nat i) m 0) as [Hin| ->]; [|lia].
  rewrite Forall_forall in Hm. by apply Hm.
Qed.

Lemma bytes_ok_slice m off n : bytes_ok m -> bytes_ok (slice m off n).
Proof. intros. unfold slice. by apply Forall_take, Forall_drop. Qed.

Lemma bytes_ok_splice m off bs : bytes_ok m -> bytes_ok bs -> bytes_ok (splice m off bs).
Proof.
  intros. unfold splice. apply Forall_app. split; [by apply Forall_take|].
  apply Forall_app. split; [done|by apply Forall_drop].
Qed.

Lemma bytes_ok_zeros n : bytes_ok (replicate n 0).
Proof. apply Forall_replicate. lia. Qed.

#[export] Hint Resolve bytes_ok_slice bytes_ok_splice bytes_ok_zeros zlen_nonneg : core.

(** Closes [bytes_ok] of a list of literals. *)
Ltac solve_bytes := repeat first [apply Forall_nil_2 | apply Forall_cons_2; [lia|]].

Create Rewrite HintDb blocks.
#[export] Hint Rewrite @zlen_app @zlen_cons : blocks.
#[export] Hint Rewrite zlen_slice zlen_splice using lia : blocks.

(** ** Sums over a list *)

Fixpoint sumz {A} (f : A -> Z) (l : list A) : Z :=
  match l with [] => 0 | x :: l => f x + sumz f l end.

Lemma sumz_insert {A} (f : A -> Z) l i x y :
  l !! i = Some x -> sumz f (<[i := y]> l) = sumz f l - f x + f y.
Proof.
  revert i. induction l as [|z l IH]; intros [|i] Hi; cbn in *; try done.
  - injection Hi as ->. lia.
  - rewrite IH by done. lia.
Qed.

Lemma sumz_le {A} (f g : A -> Z) l : (forall x, f x <= g x) -> sumz f l <= sumz g l.
Proof. intros H. induction l as [|x l IH]; cbn; [lia|]. specialize (H x). lia. Qed.

Lemma sumz_ext {A} (f g : A -> Z) l : (forall x, f x = g x) -> sumz f l = sumz g l.
Proof. intros H. induction l as [|x l IH]; cbn; [done|]. by rewrite H, IH. Qed.

Lemma sumz_bound {A} (f : A -> Z) l k : (forall x, f x <= k) -> sumz f l <= k * zlen l.
Proof.
  intros H. induction l as [|x l IH]; [change (zlen []) with 0; cbn; lia|].
  rewrite zlen_cons. cbn. specialize (H x). lia.
Qed.

Lemma sumz_nonneg {A} (f : A -> Z) l : (forall x, 0 <= f x) -> 0 <= sumz f l.
Proof. intros H. induction l as [|x l IH]; cbn; [lia|]. specialize (H x). lia. Qed.

Lemma sumz_in {A} (f : A -> Z) l i x :
  (forall x, 0 <= f x) -> l !! i = Some x -> f x <= sumz f l.
Proof.
  intros H. revert i. induction l as [|y l IH]; intros [|i] Hi; cbn in *; try done.
  - injection Hi as ->. pose proof (sumz_nonneg f l H). lia.
  - specialize (IH i Hi). specialize (H y). lia.
Qed.

Lemma sumz_replicate {A} (f : A -> Z) n x : f x = 0 -> sumz f (replicate n x) = 0.
Proof. intros H. induction n; cbn; lia. Qed.

(** ** Sequences of steps

    Reflexive-transitive closure, shared by the state machines of the development. *)
Section Steps.
Context {S : Type} (step : S -> S -> Prop).

Inductive steps : S -> S -> Prop :=
  | steps_refl s : steps s s
  | steps_cons s1 s2 s3 : step s1 s2 -> steps s2 s3 -> steps s1 s3.

Lemma steps_trans s1 s2 s3 : steps s1 s2 -> steps s2 s3 -> steps s1 s3.
Proof. induction 1; eauto using steps. Qed.

(** An invariant every step preserves holds in every reachable state. *)
Lemma steps_invariant (I : S -> Prop) :
  (forall s s', I s -> step s s' -> I s') ->
  forall s s', steps s s' -> I s -> I s'.
Proof. intros HI s s'. induction 1; eauto. Qed.
End Steps.
#[export] Hint Constructors steps : core.
