(* ===== verification/Wide.v ===== *)
(** * Wide strings

    A [WCHAR] string is the list of its characters up to the null, a block of [WCHAR]s the list
    of all of them.  [cstr] reads the string a pointer into a block points at; [put_str] is
    the bound every [_s] function checks before it writes; decimal numbers are printed by
    [utoa] and read back by [atou]. *)

From Stdlib Require Import Ascii String.
From S2P Require Import Prelude.

Abbreviation wstr := (list Z).

(** An ASCII literal [L"..."]. *)
Definition L (s : string) : wstr := map (fun c => Z.of_nat (nat_of_ascii c)) (list_ascii_of_string s).

(** The string at the start of a block; its length is [wcslen]. *)
Fixpoint cstr (b : list Z) : res wstr :=
  match b with
  | [] => Fault OutOfBounds
  | c :: b => if c =? 0 then Ok [] else s ← cstr b; Ok (c :: s)
  end.

Definition no_null (s : wstr) : Prop := Forall (fun c => c <> 0) s.

(** [wcscpy_s(dst, n, s)] and [swprintf_s(dst, n, ...)] of the characters [s]: they and the null
    fit, or the invalid-parameter handler fires. *)
Definition put_str (n : Z) (s : wstr) : res wstr :=
  if zlen s <? n then Ok s else Fault InvalidParameter.

(** [_wcsicmp(a, b) == 0] in the C locale. *)
Definition towlower (c : Z) : Z := if (65 <=? c) && (c <=? 90) then c + 32 else c.
Definition wcsicmp_eq (a b : wstr) : bool := bool_decide (map towlower a = map towlower b).

(** ** Decimal *)

Fixpoint utoa_loop (k : nat) (n : Z) : wstr :=
  match k with
  | O => []
  | S k => if n <? 10 then [48 + n] else utoa_loop k (n / 10) ++ [48 + n mod 10]
  end.

(** [%llu]; a 64-bit number has at most 20 digits. *)
Definition utoa (n : Z) : wstr := utoa_loop 20 n.

(** [%lld] *)
Definition itoa (n : Z) : wstr := if n <? 0 then 45 :: utoa (- n) else utoa n.

(** [%03llu] *)
Definition utoa3 (n : Z) : wstr :=
  let s := utoa n in replicate (3 - length s) 48 ++ s.

(** The number a string of digits denotes. *)
Definition atou (s : wstr) : Z := fold_left (fun a c => 10 * a + (c - 48)) s 0.

(** ** Lemmas *)

Lemma cstr_app s b : no_null s -> cstr (s ++ 0 :: b) = Ok s.
Proof.
  induction 1 as [|c s Hc Hs IH]; cbn; [done|].
  destruct (Z.eqb_spec c 0); [done|]. by rewrite IH.
Qed.

Lemma put_str_ok n s : zlen s < n -> put_str n s = Ok s.
Proof. intros H. unfold put_str. by destruct (Z.ltb_spec (zlen s) n); [|lia]. Qed.

Lemma put_str_inv n s s' : put_str n s = Ok s' -> s' = s /\ zlen s < n.
Proof. unfold put_str. destruct (Z.ltb_spec (zlen s) n); [|discriminate]. by intros [= <-]. Qed.

Lemma atou_acc s a : fold_left (fun a c => 10 * a + (c - 48)) s a = a * 10 ^ zlen s + atou s.
Proof.
  unfold atou. revert a. induction s as [|c s IH]; intros a.
  - change (zlen []) with 0. rewrite Z.pow_0_r. cbn [fold_left]. lia.
  - cbn [fold_left]. rewrite IH, (IH (10 * 0 + (c - 48))), zlen_cons, Z.pow_add_r.
    + lia.
    + lia.
    + unfold zlen. lia.
Qed.

Lemma atou_app a b : atou (a ++ b) = atou a * 10 ^ zlen b + atou b.
Proof. unfold atou at 1. rewrite fold_left_app. apply atou_acc. Qed.

Lemma utoa_loop_value k n : 0 <= n < 10 ^ Z.of_nat k -> atou (utoa_loop k n) = n.
Proof.
  revert n. induction k as [|k IH]; intros n Hn; [cbn in *; lia|].
  cbn [utoa_loop]. destruct (Z.ltb_spec n 10); [unfold atou; cbn; lia|].
  rewrite atou_app, IH.
  - change (zlen [48 + n mod 10]) with 1. unfold atou. cbn [fold_left].
    pose proof (Z.div_mod n 10). lia.
  - replace (10 ^ Z.of_nat (S k)) with (10 * 10 ^ Z.of_nat k) in Hn
      by (rewrite Nat2Z.inj_succ, Z.pow_succ_r; lia).
    split; [apply Z.div_pos; lia|apply Z.div_lt_upper_bound; lia].
Qed.

Lemma atou_utoa n : 0 <= n < 10 ^ 20 -> atou (utoa n) = n.
Proof. apply (utoa_loop_value 20). Qed.

(** A number of [d] digits. *)
Lemma utoa_loop_zlen k n d :
  (0 < d <= k)%nat -> (if Nat.eqb d 1 then 0 else 10 ^ (Z.of_nat d - 1)) <= n < 10 ^ Z.of_nat d ->
  zlen (utoa_loop k n) = Z.of_nat d.
Proof.
  revert n d. induction k as [|k IH]; intros n d Hd Hn; [lia|]. cbn [utoa_loop].
  destruct (Nat.eqb_spec d 1) as [->|Hd1].
  - destruct (Z.ltb_spec n 10); [done|]. lia.
  - assert (E : 10 ^ (Z.of_nat d - 1) = 10 * 10 ^ (Z.of_nat (d - 1) - 1)).
    { replace (Z.of_nat d - 1) with (Z.succ (Z.of_nat (d - 1) - 1)) by lia. rewrite Z.pow_succ_r; lia. }
    assert (E' : 10 ^ Z.of_nat d = 10 * 10 ^ Z.of_nat (d - 1)).
    { replace (Z.of_nat d) with (Z.succ (Z.of_nat (d - 1))) by lia. rewrite Z.pow_succ_r; lia. }
    pose proof (Z.pow_pos_nonneg 10 (Z.of_nat (d - 1) - 1)).
    destruct (Z.ltb_spec n 10); [lia|]. rewrite zlen_app, (IH _ (d - 1)%nat); [|lia|].
    + change (zlen [48 + n mod 10]) with 1. lia.
    + split; [|apply Z.div_lt_upper_bound; lia].
      destruct (Nat.eqb_spec (d - 1) 1); [apply Z.div_pos; lia|apply Z.div_le_lower_bound; lia].
Qed.

Lemma utoa_zlen_small n : 0 <= n < 1000 ->
  zlen (utoa n) = if n <? 10 then 1 else if n <? 100 then 2 else 3.
Proof.
  intros Hn. unfold utoa.
  destruct (Z.ltb_spec n 10); [by apply (utoa_loop_zlen 20 n 1); cbn; lia|].
  destruct (Z.ltb_spec n 100).
  - apply (utoa_loop_zlen 20 n 2); cbn; lia.
  - apply (utoa_loop_zlen 20 n 3); cbn; lia.
Qed.

Lemma atou_zeros k : atou (replicate k 48) = 0.
Proof.
  unfold atou. induction k as [|k IH]; [done|]. cbn. exact IH.
Qed.

Lemma utoa3_zlen n : 0 <= n < 1000 -> zlen (utoa3 n) = 3.
Proof.
  intros Hn. pose proof (utoa_zlen_small n Hn) as E. unfold utoa3, zlen in *.
  rewrite length_app, length_replicate. destruct (n <? 10), (n <? 100); lia.
Qed.

Lemma atou_utoa3 n : 0 <= n < 1000 -> atou (utoa3 n) = n.
Proof. intros Hn. unfold utoa3. rewrite atou_app, atou_zeros, atou_utoa; lia. Qed.
