(* ===== verification/CpuMonitor.v ===== *)
(** * CpuMonitor (CpuMonitor.h, CpuMonitor.cpp)

    The performance monitor the statistics thread asks: processor time from the system's
    counters, memory, handles, threads and network traffic from Windows' performance-data
    helper.  What Windows answers is [Pdh], each call by its number; [E] passes that number
    along.  Floating point is IEEE 754, computed ([SpecFloat]), not approximated. *)

From Stdlib Require Import SpecFloat String.
From S2P Require Import Prelude Wide.

(** ** Windows *)

(** An object's instances come as a block of null-terminated names and an empty one; a failed
    call is [None], and leaves its out parameter alone. *)
Class Pdh := {
  GetCurrentProcess : nat -> Z;
  GetProcessId : nat -> Z -> Z;
  dwNumberOfProcessors : nat -> Z;
  GetSystemTimes : nat -> option (Z * Z * Z);
  GetSystemTimeAsFileTime : nat -> Z;
  GetProcessTimes : nat -> Z -> option (Z * Z);
  QueryFullProcessImageNameW : nat -> Z -> option wstr;
  PdhOpenQueryW : nat -> option Z;
  EnumObjectItems_sizes : nat -> wstr -> option (Z * Z);
  EnumObjectItems : nat -> wstr -> option (list Z);
  PdhAddCounterW : nat -> Z -> wstr -> option Z;
  FormattedLong : nat -> Z -> option Z;
  FormattedLarge : nat -> Z -> option Z;
  FormattedDouble : nat -> Z -> option spec_float
}.

Definition E (A : Type) : Type := nat -> res (A * nat).
#[export] Instance E_ret : MRet E := fun A a t => Ok (a, t).
#[export] Instance E_bind : MBind E := fun A B f m t => '(a, t) ← m t; f a t.

Definition call {A} (f : nat -> A) : E A := fun t => Ok (f t, S t).
Definition pure {A} (r : res A) : E A := fun t => a ← r; Ok (a, t).

(** ** Doubles and floats *)

Definition double (z : Z) : spec_float := binary_normalize 53 1024 z 0 false.
Definition dadd := SFadd 53 1024.
Definition dmul := SFmul 53 1024.
Definition ddiv := SFdiv 53 1024.

(** The conversion to [float]. *)
Definition to_float (x : spec_float) : spec_float :=
  match x with
  | S754_finite s m e => binary_normalize 24 128 (if s then Z.neg m else Z.pos m) e s
  | _ => x
  end.

Definition zero : spec_float := S754_zero false.

(** [(float)(x / y * 100.0)] *)
Definition percent (x y : spec_float) : spec_float := to_float (dmul (ddiv x y) (double 100)).

(** ** The object *)

Record st_ETHERNET := mkNic {
  bUse : bool;
  szName : wstr;
  pdhRecv : option Z;
  pdhSend : option Z
}.

Definition PDH_ETHERNET_MAX : Z := 8.

(** Two sets of rates, each with the sample they are counted from. *)
Record Rates := mkRates { r_total : spec_float; r_user : spec_float; r_kernel : spec_float }.

Record SysCpu := mkSys {
  mProcessor : Rates;
  mSysLastKernel : Z;
  mSysLastUser : Z;
  mSysLastIdle : Z;
  mSysCpuInitialized : bool
}.

Record ProcCpu := mkProc {
  mProcess : Rates;
  mProcLastKernel : Z;
  mProcLastUser : Z;
  mProcLastTime : Z;
  mProcCpuInitialized : bool
}.

(** The six counters: the handle ([None] is null) and the last value. *)
Record Counter := mkCounter { c_handle : option Z; c_value : Z }.

Record Counters := mkCounters {
  mProcessUserMemory : Counter;
  mProcessNonPagedMemory : Counter;
  mAvailableMemory : Counter;
  mNonPagedMemory : Counter;
  mProcessHandleCount : Counter;
  mProcessThreadCount : Counter
}.

Record CpuMonitor := mkMonitor {
  mProcessHandle : Z;
  mPid : Z;
  mNumberOfProcessors : Z;
  mSys : SysCpu;
  mProc : ProcCpu;
  mQuery : option Z;
  mPdhProcessInstance : wstr;
  mCounters : Counters;
  mNics : list st_ETHERNET;
  mNetworkRecvBps : spec_float;
  mNetworkSendBps : spec_float
}.

Definition with_counters m v := mkMonitor (mProcessHandle m) (mPid m) (mNumberOfProcessors m)
  (mSys m) (mProc m) (mQuery m) (mPdhProcessInstance m) v (mNics m) (mNetworkRecvBps m)
  (mNetworkSendBps m).
Definition with_nics m v := mkMonitor (mProcessHandle m) (mPid m) (mNumberOfProcessors m)
  (mSys m) (mProc m) (mQuery m) (mPdhProcessInstance m) (mCounters m) v (mNetworkRecvBps m)
  (mNetworkSendBps m).
Definition with_instance m v := mkMonitor (mProcessHandle m) (mPid m) (mNumberOfProcessors m)
  (mSys m) (mProc m) (mQuery m) v (mCounters m) (mNics m) (mNetworkRecvBps m)
  (mNetworkSendBps m).
Definition with_cpu m v w := mkMonitor (mProcessHandle m) (mPid m) (mNumberOfProcessors m)
  v w (mQuery m) (mPdhProcessInstance m) (mCounters m) (mNics m) (mNetworkRecvBps m)
  (mNetworkSendBps m).
Definition with_query m v := mkMonitor (mProcessHandle m) (mPid m) (mNumberOfProcessors m)
  (mSys m) (mProc m) v (mPdhProcessInstance m) (mCounters m) (mNics m) (mNetworkRecvBps m)
  (mNetworkSendBps m).
Definition with_network m r s := mkMonitor (mProcessHandle m) (mPid m) (mNumberOfProcessors m)
  (mSys m) (mProc m) (mQuery m) (mPdhProcessInstance m) (mCounters m) (mNics m) r s.

Definition no_rates : Rates := mkRates zero zero zero.
Definition no_counter : Counter := mkCounter None 0.
Definition no_nic : st_ETHERNET := mkNic false [] None None.

(** The initializers of the members. *)
Definition CpuMonitor_default : CpuMonitor :=
  mkMonitor (u64 (-1)) 0 0 (mkSys no_rates 0 0 0 false) (mkProc no_rates 0 0 0 false) None []
    (mkCounters no_counter no_counter no_counter no_counter no_counter no_counter)
    (replicate 8 no_nic) zero zero.

Section CpuMonitor.
Context {W : Pdh}.

(** *** Names *)

(** The part after the last backslash. *)
Fixpoint base_name (base p : wstr) : wstr :=
  match p with
  | [] => base
  | c :: p => base_name (if c =? 92 then p else base) p
  end.

(** The loop from the last character down: cut at the first dot met, unless a backslash comes
    first.  [i] is the number of characters still to look at. *)
Fixpoint cut_extension (i : nat) (tmp : wstr) : wstr :=
  match i with
  | O => tmp
  | S i =>
      if nthz tmp (Z.of_nat i) =? 46 then take i tmp
      else if nthz tmp (Z.of_nat i) =? 92 then tmp
      else cut_extension i tmp
  end.

Definition GetExeBaseNameFromHandle (hProcess outCount : Z) : E (option wstr) :=
  if outCount =? 0 then mret None
  else
    full ← call (fun t => QueryFullProcessImageNameW t hProcess);
    match full with
    | None => mret None
    | Some full =>
        tmp ← pure (put_str 260 (base_name full full));
        out ← pure (put_str outCount (cut_extension (length tmp) tmp));
        mret (Some out)
    end.

(** *** Looking the process up *)

Definition special (p : wstr) : bool := wcsicmp_eq p (L "_Total") || wcsicmp_eq p (L "Idle").
Definition id_path (p : wstr) : wstr := (L "\Process(" ++ p ++ L ")\ID Process")%list.

(** The loop over the instances, [b] the block from [p] on. *)
Fixpoint resolve_loop (k : nat) (b : list Z) (q pid outCount : Z) : E (option wstr) :=
  match k with
  | O => pure OutOfFuel
  | S k =>
      match b with
      | [] => pure (Fault OutOfBounds)
      | c :: _ =>
          if c =? 0 then mret None
          else
            p ← pure (cstr b);
            let next := resolve_loop k (drop (length p + 1) b) q pid outCount in
            if special p then next
            else
              path ← pure (put_str 512 (id_path p));
              c ← call (fun t => PdhAddCounterW t q path);
              match c with
              | None => next
              | Some c =>
                  call (fun _ => tt);;
                  v ← call (fun t => FormattedLong t c);
                  match v with
                  | Some v =>
                      if u32 v =? pid then s ← pure (put_str outCount p); mret (Some s) else next
                  | None => next
                  end
              end
      end
  end.

(** The two calls that enumerate an object's instances. *)
Definition enum_instances (object : wstr) : E (option (list Z)) :=
  sizes ← call (fun t => EnumObjectItems_sizes t object);
  match sizes with
  | None => mret None
  | Some (_, instSize) =>
      if instSize =? 0 then mret None else call (fun t => EnumObjectItems t object)
  end.

Definition ResolvePdhProcessInstanceByPid (pid outCount : Z) : E (option wstr) :=
  if outCount =? 0 then mret None
  else
    insts ← enum_instances (L "Process");
    match insts with
    | None => mret None
    | Some insts =>
        q ← call PdhOpenQueryW;
        match q with
        | None => mret None
        | Some q => resolve_loop (length insts) insts q pid outCount
        end
    end.

(** *** Counters *)

Definition set_handle (c : Counter) (h : Z) : Counter := mkCounter (Some h) (c_value c).

(** The counters of [AddProcessCounters], in order: the path and the member of the handle. *)
Definition process_counters (inst : wstr) : list (wstr * (Counters -> Z -> Counters)) :=
  let of_process (what : wstr) := (L "\Process(" ++ inst ++ what)%list in
  [ (of_process (L ")\Private Bytes"), fun c h =>
       mkCounters (set_handle (mProcessUserMemory c) h) (mProcessNonPagedMemory c)
         (mAvailableMemory c) (mNonPagedMemory c) (mProcessHandleCount c) (mProcessThreadCount c));
    (of_process (L ")\Pool Nonpaged Bytes"), fun c h =>
       mkCounters (mProcessUserMemory c) (set_handle (mProcessNonPagedMemory c) h)
         (mAvailableMemory c) (mNonPagedMemory c) (mProcessHandleCount c) (mProcessThreadCount c));
    (of_process (L ")\Handle Count"), fun c h =>
       mkCounters (mProcessUserMemory c) (mProcessNonPagedMemory c) (mAvailableMemory c)
         (mNonPagedMemory c) (set_handle (mProcessHandleCount c) h) (mProcessThreadCount c));
    (of_process (L ")\Thread Count"), fun c h =>
       mkCounters (mProcessUserMemory c) (mProcessNonPagedMemory c) (mAvailableMemory c)
         (mNonPagedMemory c) (mProcessHandleCount c) (set_handle (mProcessThreadCount c) h));
    (L "\Memory\Available MBytes", fun c h =>
       mkCounters (mProcessUserMemory c) (mProcessNonPagedMemory c)
         (set_handle (mAvailableMemory c) h) (mNonPagedMemory c) (mProcessHandleCount c)
         (mProcessThreadCount c));
    (L "\Memory\Pool Nonpaged Bytes", fun c h =>
       mkCounters (mProcessUserMemory c) (mProcessNonPagedMemory c) (mAvailableMemory c)
         (set_handle (mNonPagedMemory c) h) (mProcessHandleCount c) (mProcessThreadCount c)) ].

(** Up to the first that cannot be added. *)
Fixpoint add_counters (q : Z) (l : list (wstr * (Counters -> Z -> Counters))) (c : Counters)
    : E (Counters * bool) :=
  match l with
  | [] => mret (c, true)
  | (path, set) :: l =>
      path ← pure (put_str 512 path);
      h ← call (fun t => PdhAddCounterW t q path);
      match h with Some h => add_counters q l (set c h) | None => mret (c, false) end
  end.

Definition AddProcessCounters (m : CpuMonitor) : E (CpuMonitor * bool) :=
  match mQuery m with
  | None => mret (m, false)
  | Some q =>
      match mPdhProcessInstance m with
      | [] => mret (m, false)
      | inst =>
          '(c, ok) ← add_counters q (process_counters inst) (mCounters m);
          mret (with_counters m c, ok)
      end
  end.

(** *** Network interfaces *)

Fixpoint ethernet_loop (k : nat) (b : list Z) (q idx : Z) (nics : list st_ETHERNET)
    : E (list st_ETHERNET) :=
  match k with
  | O => pure OutOfFuel
  | S k =>
      match b with
      | [] => pure (Fault OutOfBounds)
      | c :: _ =>
          if (c =? 0) || negb (idx <? PDH_ETHERNET_MAX) then mret nics
          else
            p ← pure (cstr b);
            old ← pure (of_opt BadIndex (nics !! Z.to_nat idx));
            name ← pure (put_str 128 p);
            path ← pure (put_str 512 (L "\Network Interface(" ++ p ++ L ")\Bytes Received/sec")%list);
            r ← call (fun t => PdhAddCounterW t q path);
            path ← pure (put_str 512 (L "\Network Interface(" ++ p ++ L ")\Bytes Sent/sec")%list);
            s ← call (fun t => PdhAddCounterW t q path);
            let nic := mkNic (bool_decide (is_Some r) && bool_decide (is_Some s)) name
              (match r with Some _ => r | None => pdhRecv old end)
              (match s with Some _ => s | None => pdhSend old end) in
            ethernet_loop k (drop (length p + 1) b) q (idx + 1) (<[Z.to_nat idx := nic]> nics)
      end
  end.

Definition AddEthernetCounters (m : CpuMonitor) : E (CpuMonitor * bool) :=
  match mQuery m with
  | None => mret (m, false)
  | Some q =>
      insts ← enum_instances (L "Network Interface");
      match insts with
      | None => mret (m, false)
      | Some insts =>
          nics ← ethernet_loop (length insts) insts q 0 (mNics m);
          mret (with_nics m nics, true)
      end
  end.

(** *** The constructor and the destructor *)

Definition CpuMonitor_new (processHandle : Z) : E CpuMonitor :=
  handle ← (if (processHandle =? u64 (-1)) || (processHandle =? 0) then call GetCurrentProcess
            else mret processHandle);
  pid ← call (fun t => GetProcessId t handle);
  n ← call dwNumberOfProcessors;
  let d := CpuMonitor_default in
  let m := mkMonitor handle pid (i32 n) (mSys d) (mProc d) None [] (mCounters d) (mNics d) zero zero in
  q ← call PdhOpenQueryW;
  match q with
  | None => mret m
  | Some q =>
      let m := with_query m (Some q) in
      inst ← ResolvePdhProcessInstanceByPid pid 260;
      inst ←
        match inst with
        | Some inst => mret inst
        | None =>
            base ← GetExeBaseNameFromHandle handle 260;
            pure (put_str 260 (default [] base))
        end;
      '(m, _) ← AddProcessCounters (with_instance m inst);
      '(m, _) ← AddEthernetCounters m;
      call (fun _ => tt);;
      mret m
  end.

Definition CpuMonitor_delete (m : CpuMonitor) : CpuMonitor :=
  match mQuery m with Some _ => with_query m None | None => m end.

(** *** Update *)

Definition system_rates (kDiff uDiff iDiff : Z) : Rates :=
  let total := u64 (kDiff + uDiff) in
  if total =? 0 then no_rates
  else mkRates (percent (double (u64 (total - iDiff))) (double total))
               (percent (double uDiff) (double total))
               (percent (double (u64 (kDiff - iDiff))) (double total)).

Definition UpdateSystem (s : SysCpu) : E SysCpu :=
  times ← call GetSystemTimes;
  match times with
  | None => mret s
  | Some (idle, kernel, user) =>
      if negb (mSysCpuInitialized s) then mret (mkSys (mProcessor s) kernel user idle true)
      else
        let kDiff := u64 (kernel - mSysLastKernel s) in
        let uDiff := u64 (user - mSysLastUser s) in
        let iDiff := u64 (idle - mSysLastIdle s) in
        mret (mkSys (system_rates kDiff uDiff iDiff) kernel user idle true)
  end.

(** [(float)((double)x / denom * 100.0)] with [denom] the processors times the time. *)
Definition process_rates (n timeDiff userDiff kernelDiff : Z) : Rates :=
  let total := u64 (userDiff + kernelDiff) in
  if (timeDiff =? 0) || (n <=? 0) then no_rates
  else
    let denom := dmul (double n) (double timeDiff) in
    mkRates (percent (double total) denom) (percent (double userDiff) denom)
            (percent (double kernelDiff) denom).

Definition UpdateProcess (handle n : Z) (p : ProcCpu) : E ProcCpu :=
  nowTime ← call GetSystemTimeAsFileTime;
  times ← call (fun t => GetProcessTimes t handle);
  match times with
  | None => mret p
  | Some (pKernel, pUser) =>
      if negb (mProcCpuInitialized p) then mret (mkProc (mProcess p) pKernel pUser nowTime true)
      else
        let timeDiff := u64 (nowTime - mProcLastTime p) in
        let userDiff := u64 (pUser - mProcLastUser p) in
        let kernelDiff := u64 (pKernel - mProcLastKernel p) in
        mret (mkProc (process_rates n timeDiff userDiff kernelDiff) pKernel pUser nowTime true)
  end.

(** A counter that has a handle and can be read takes the value read. *)
Definition UpdateCounter (read : nat -> Z -> option Z) (conv : Z -> Z) (c : Counter) : E Counter :=
  match c_handle c with
  | None => mret c
  | Some h =>
      v ← call (fun t => read t h);
      mret (match v with Some v => mkCounter (Some h) (conv v) | None => c end)
  end.

Definition UpdateCounters (c : Counters) : E Counters :=
  c1 ← UpdateCounter FormattedLarge (fun v => v) (mProcessUserMemory c);
  c2 ← UpdateCounter FormattedLarge (fun v => v) (mProcessNonPagedMemory c);
  c3 ← UpdateCounter FormattedLarge (fun v => v) (mAvailableMemory c);
  c4 ← UpdateCounter FormattedLarge (fun v => v) (mNonPagedMemory c);
  c5 ← UpdateCounter FormattedLong u32 (mProcessHandleCount c);
  c6 ← UpdateCounter FormattedLong u32 (mProcessThreadCount c);
  mret (mkCounters c1 c2 c3 c4 c5 c6).

(** The sums over the interfaces in use. *)
Definition add_traffic (h : option Z) (sum : spec_float) : E spec_float :=
  match h with
  | None => mret sum
  | Some h =>
      v ← call (fun t => FormattedDouble t h);
      mret (match v with Some v => dadd sum v | None => sum end)
  end.

Fixpoint network_loop (nics : list st_ETHERNET) (recv send : spec_float)
    : E (spec_float * spec_float) :=
  match nics with
  | [] => mret (recv, send)
  | nic :: nics =>
      if negb (bUse nic) then network_loop nics recv send
      else
        recv ← add_traffic (pdhRecv nic) recv;
        send ← add_traffic (pdhSend nic) send;
        network_loop nics recv send
  end.

Definition Update (m : CpuMonitor) : E CpuMonitor :=
  s ← UpdateSystem (mSys m);
  p ← UpdateProcess (mProcessHandle m) (mNumberOfProcessors m) (mProc m);
  let m := with_cpu m s p in
  match mQuery m with
  | None => mret m
  | Some _ =>
      call (fun _ => tt);;
      c ← UpdateCounters (mCounters m);
      '(recv, send) ← network_loop (mNics m) zero zero;
      mret (with_network (with_counters m c) recv send)
  end.
End CpuMonitor.

(** ** Numbers with separators *)

(** [swprintf_s(s + idx, size - idx, ...)] of the characters [piece], after the string [s] of
    [idx] characters. *)
Definition append_str (size : Z) (s piece : wstr) : res wstr :=
  piece ← put_str (size - zlen s) piece;
  Ok (s ++ piece)%list.

(** One [if] of the function: a group of digits and a comma, when there is one. *)
Definition print_group (size value unit : Z) (st : wstr * bool) : res (wstr * bool) :=
  let '(s, first) := st in
  if value >=? unit then
    s ← append_str size s ((if first then utoa (value / unit) else utoa3 (value / unit)) ++ L ",");
    Ok (s, false)
  else Ok (s, first).

(** [s] is the buffer's string, [None] a null pointer. *)
Definition GetBigNumberStr (value : Z) (s : option wstr) (size : Z) : res (option wstr) :=
  match s with
  | None => Ok None
  | Some old =>
      if size <=? 0 then Ok (Some old)
      else if value <? 0 then s ← put_str size (itoa value); Ok (Some s)
      else
        st ← print_group size value 1000000000 ([], true);
        let value := value mod 1000000000 in
        st ← print_group size value 1000000 st;
        let value := value mod 1000000 in
        st ← print_group size value 1000 st;
        s ← append_str size st.1
              (if st.2 : bool then utoa (value mod 1000) else utoa3 (value mod 1000));
        Ok (Some s)
  end.
