(* ===== verification/Numbers.v ===== *)
(** * Numbers with separators (theorems on [CpuMonitor.GetBigNumberStr])

    [grouped] is what the function is for: the digits of a number in groups of three.  The
    function prints exactly that when no group but the first is zero, and drops the groups
    that are. *)

From Stdlib Require Import String.
From S2P Require Import Prelude Wide CpuMonitor.



(** The number a reader sees. *)
Definition number_of (s : wstr) : Z := atou (filter (fun c => c <> 44) s).

(** No group but the first is zero. *)
Definition plain (v : Z) : Prop :=
  ~ (1000000 <= v /\ v / 1000 mod 1000 = 0) /\ ~ (1000000000 <= v /\ v / 1000000 mod 1000 = 0).

#[export] Instance plain_dec v : Decision (plain v).
Proof. unfold plain. apply _. Defined.

(** ** What the function prints when the buffer is long enough *)








(** ** Groups *)




Section Four.
Context (a b c d : Z).
Context (Ha : 0 <= a < 1000) (Hb : 0 <= b < 1000) (Hc : 0 <= c < 1000) (Hd : 0 <= d < 1000).






End Four.

(** ** Reading back *)

Definition digits (s : wstr) : Prop := Forall (fun c => 48 <= c <= 57) s.

Lemma digits_utoa_loop k n : 0 <= n -> digits (utoa_loop k n).
Proof.
  revert n. induction k as [|k IH]; intros n Hn; cbn; [constructor|].
  destruct (Z.ltb_spec n 10).
  - repeat constructor; lia.
  - apply Forall_app. split; [apply IH, Z.div_pos; lia|].
    pose proof (Z.mod_pos_bound n 10). repeat constructor; lia.
Qed.

Lemma digits_utoa n : 0 <= n -> digits (utoa n).
Proof. apply digits_utoa_loop. Qed.

Lemma digits_utoa3 n : 0 <= n -> digits (utoa3 n).
Proof.
  intros Hn. apply Forall_app. split; [|by apply digits_utoa].
  apply list.Forall_forall. intros c Hc. apply elem_of_replicate in Hc as [-> _]. lia.
Qed.

Lemma filter_digits s : digits s -> filter (fun c => c <> 44) s = s.
Proof.
  induction 1 as [|c s Hc Hs IH]; [done|]. rewrite filter_cons_True by lia. by rewrite IH.
Qed.

Lemma number_of_app s t :
  number_of (s ++ t)%list = number_of s * 10 ^ zlen (filter (fun c => c <> 44) t) + number_of t.
Proof. unfold number_of. rewrite list.filter_app. apply atou_app. Qed.

Lemma number_of_comma s : number_of (s ++ L ",")%list = number_of s.
Proof. unfold number_of. rewrite list.filter_app. by rewrite app_nil_r. Qed.

Lemma number_of_utoa q : 0 <= q < 1000 -> number_of (utoa q) = q.
Proof. intros. unfold number_of. rewrite filter_digits by (apply digits_utoa; lia). apply atou_utoa. lia. Qed.

Lemma number_of_utoa3 s q : 0 <= q < 1000 -> number_of (s ++ utoa3 q)%list = number_of s * 1000 + q.
Proof.
  intros Hq. rewrite number_of_app. unfold number_of at 2.
  rewrite filter_digits by (apply digits_utoa3; lia). by rewrite utoa3_zlen, atou_utoa3.
Qed.

Lemma number_of_nil : number_of [] = 0.
Proof. done. Qed.

Create Rewrite HintDb number.
#[export] Hint Rewrite @app_nil_l number_of_nil number_of_comma : number.
#[export] Hint Rewrite number_of_utoa number_of_utoa3 using lia : number.







