(* ===== verification/Performance.v ===== *)
(** * What the performance monitor finds (theorems on [CpuMonitor])

    The walk over a block of names, which process and which interfaces it picks, the name of
    the executable, and from which differences the processor's rates are computed. *)

From Stdlib Require Import SpecFloat String.
From S2P Require Import Prelude Wide CpuMonitor.

(** ** One call after the other *)

Lemma E_run {A B} (m : E A) (f : A -> E B) t a t' : m t = Ok (a, t') -> (m ≫= f) t = f a t'.
Proof. intros H. unfold mbind, E_bind. by rewrite H. Qed.

Lemma pure_bind {A B} (r : res A) (f : A -> E B) t a : r = Ok a -> (pure r ≫= f) t = f a t.
Proof. intros ->. done. Qed.

Lemma call_bind {A B} (g : nat -> A) (f : A -> E B) t : (call g ≫= f) t = f (g t) (S t).
Proof. done. Qed.

(** ** Blocks of names *)

Definition msz (names : list wstr) : list Z := (flat_map (fun s => s ++ [0]) names ++ [0])%list.

Definition names_ok (names : list wstr) : Prop := Forall (fun s => s <> [] /\ no_null s) names.

(** The first name of a block, and where the loops go next. *)
Lemma msz_cons s names rest : s <> [] -> no_null s ->
  exists c b, (msz (s :: names) ++ rest = c :: b)%list /\ c <> 0 /\
    cstr (c :: b) = Ok s /\ drop (length s + 1) (c :: b) = (msz names ++ rest)%list.
Proof.
  intros Hs Hn. assert (E : (msz (s :: names) ++ rest = s ++ 0 :: (msz names ++ rest))%list).
  { unfold msz. cbn [flat_map]. by rewrite <- !app_assoc. }
  rewrite E. destruct s as [|c s]; [done|]. exists c, (s ++ 0 :: msz names ++ rest)%list.
  split; [done|]. split; [by inversion Hn|]. split; [by apply (cstr_app (c :: s))|].
  change (drop (length (c :: s) + 1) ((c :: s) ++ 0 :: (msz names ++ rest))%list =
          (msz names ++ rest)%list).
  rewrite drop_app_ge by lia. by replace (_ - _)%nat with 1%nat by lia.
Qed.

Lemma msz_zlen s names : zlen s + zlen (msz names) < zlen (msz (s :: names)).
Proof. unfold msz. cbn [flat_map]. rewrite !zlen_app. change (zlen [0]) with 1. lia. Qed.

Lemma msz_le names rest : (length names < length (msz names ++ rest))%nat.
Proof.
  rewrite length_app. unfold msz. induction names as [|s names IH]; cbn; [lia|].
  rewrite <- app_assoc, !length_app. rewrite length_app in IH. cbn in *. lia.
Qed.

Lemma enum_instances_ok {W : Pdh} object n m b t :
  m <> 0 -> (forall t, EnumObjectItems_sizes t object = Some (n, m)) ->
  (forall t, EnumObjectItems t object = Some b) ->
  enum_instances object t = Ok (Some b, S (S t)).
Proof.
  intros Hm Hs He. unfold enum_instances. rewrite call_bind, Hs.
  destruct (Z.eqb_spec m 0); [done|]. unfold call. by rewrite He.
Qed.

(** ** The process *)

Section Process.
Context {W : Pdh}.

(** Windows is stable while the loop runs: [pid_of] is what the counter of each name reads. *)
Context (q : Z) (pid_of : wstr -> option Z).

Definition answers : Prop := forall t p, special p = false ->
  match PdhAddCounterW t q (id_path p) with
  | Some c => forall t', FormattedLong t' c = pid_of p
  | None => pid_of p = None
  end.

Definition is_process (pid : Z) (p : wstr) : bool :=
  negb (special p) && match pid_of p with Some v => u32 v =? pid | None => false end.

Lemma resolve_loop_ok k names rest pid t :
  answers -> names_ok names -> Forall (fun s => zlen s < 260) names -> (length names < k)%nat ->
  exists t', resolve_loop k (msz names ++ rest)%list q pid 260 t =
    Ok (List.find (is_process pid) names, t').
Proof.
  intros HA. revert k t. induction names as [|s names IH]; intros k t Hok Hlen Hk.
  - destruct k; [lia|]. by exists t.
  - destruct k as [|k]; [cbn in Hk; lia|]. inversion Hok as [|? ? [Hs Hn] Hok']; subst.
    inversion Hlen as [|? ? Hl Hlen']; subst.
    destruct (msz_cons s names rest Hs Hn) as (c & b & E & Hc & Ecs & Edr).
    cbn [resolve_loop]. rewrite E. destruct (Z.eqb_spec c 0); [done|].
    rewrite (pure_bind _ _ _ _ Ecs). cbv zeta. rewrite Edr. cbn [List.find]. unfold is_process at 1.
    assert (Hnext : forall t, exists t', resolve_loop k (msz names ++ rest)%list q pid 260 t =
      Ok (List.find (is_process pid) names, t')) by (intros; apply IH; [done..|cbn in Hk; lia]).
    destruct (special s) eqn:Esp; cbn [negb andb]; [done|]. pose proof (HA t s Esp) as Ha.
    erewrite pure_bind by (apply put_str_ok; unfold id_path; rewrite !zlen_app;
      change (zlen (L "\Process(")) with 9; change (zlen (L ")\ID Process")) with 12; lia).
    rewrite call_bind. destruct (PdhAddCounterW t q (id_path s)) as [h|]; [|by rewrite Ha].
    rewrite !call_bind, Ha. destruct (pid_of s) as [v|]; [|done].
    destruct (u32 v =? pid); [|done]. erewrite pure_bind by by apply put_str_ok.
    eexists. reflexivity.
Qed.

(** C38.  Finding the process.  When Windows lists the processes [names] and answers for each
    with the identifier [pid_of] gives (or not at all), [ResolvePdhProcessInstanceByPid]
    ends, without fault, and returns the first name other than _Total and Idle whose identifier
    is the one looked for, or none when there is none. *)
Theorem Resolve_spec names rest pid n m t :
  answers -> names_ok names -> Forall (fun s => zlen s < 260) names -> m <> 0 ->
  (forall t, EnumObjectItems_sizes t (L "Process") = Some (n, m)) ->
  (forall t, EnumObjectItems t (L "Process") = Some (msz names ++ rest)%list) ->
  (forall t, PdhOpenQueryW t = Some q) ->
  exists t', ResolvePdhProcessInstanceByPid pid 260 t =
    Ok (List.find (is_process pid) names, t').
Proof.
  intros HA Hok Hlen Hm Hs He Hq. unfold ResolvePdhProcessInstanceByPid. cbn [Z.eqb].
  rewrite (E_run _ _ t (Some (msz names ++ rest)%list) (S (S t))).
  - rewrite call_bind, Hq. apply resolve_loop_ok; [done..|apply msz_le].
  - by apply (enum_instances_ok _ n m).
Qed.
End Process.

(** ** The network interfaces *)

Section Ethernet.
Context {W : Pdh}.

(** The entry of an interface, whatever Windows answered. *)
Definition nic_for (s : wstr) (nic : st_ETHERNET) : Prop :=
  szName nic = s /\ (bUse nic = true -> is_Some (pdhRecv nic) /\ is_Some (pdhSend nic)).

Lemma ethernet_loop_ok k names rest q idx nics t :
  names_ok names -> (length names < k)%nat -> 0 <= idx -> length nics = 8%nat ->
  Forall (fun s => zlen s < 128) (take (8 - Z.to_nat idx) names) ->
  exists nics' t', ethernet_loop k (msz names ++ rest)%list q idx nics t = Ok (nics', t') /\
    length nics' = 8%nat /\
    forall i nic, nics' !! i = Some nic ->
      match (if (i <? Z.to_nat idx)%nat then None else names !! (i - Z.to_nat idx)%nat) with
      | Some s => nic_for s nic
      | None => nics !! i = Some nic
      end.
Proof.
  revert k idx nics t. induction names as [|s names IH]; intros k idx nics t Hok Hk Hi H8 Hlen.
  - destruct k; [lia|]. exists nics, t. split; [done|]. split; [done|]. intros i nic H.
    by destruct (_ <? _)%nat.
  - destruct k as [|k]; [cbn in Hk; lia|]. inversion Hok as [|? ? [Hs Hn] Hok']; subst.
    destruct (msz_cons s names rest Hs Hn) as (c & b & E & Hc & Ecs & Edr).
    cbn [ethernet_loop]. rewrite E. destruct (Z.eqb_spec c 0); [done|]. cbn [orb].
    unfold PDH_ETHERNET_MAX. destruct (Z.ltb_spec idx 8) as [H|H]; cbn [negb].
    2: { exists nics, t. split; [done|]. split; [done|]. intros i nic Hnic.
         destruct (Nat.ltb_spec i (Z.to_nat idx)); [done|]. apply lookup_lt_Some in Hnic. lia. }
    replace (8 - Z.to_nat idx)%nat with (S (8 - Z.to_nat (idx + 1))) in Hlen by lia.
    cbn [take] in Hlen. inversion Hlen as [|? ? Hl Hlen']; subst.
    rewrite (pure_bind _ _ _ _ Ecs).
    destruct (lookup_lt_is_Some_2 nics (Z.to_nat idx)) as [old Hold]; [lia|].
    erewrite pure_bind by by rewrite Hold.
    rewrite (pure_bind _ _ _ s) by by apply put_str_ok.
    erewrite pure_bind by (apply put_str_ok; rewrite !zlen_app;
      change (zlen (L "\Network Interface(")) with 19;
      change (zlen (L ")\Bytes Received/sec")) with 20; lia).
    rewrite call_bind.
    erewrite pure_bind by (apply put_str_ok; rewrite !zlen_app;
      change (zlen (L "\Network Interface(")) with 19;
      change (zlen (L ")\Bytes Sent/sec")) with 16; lia).
    rewrite call_bind, Edr. cbv zeta.
    match goal with |- context [ethernet_loop k _ q _ ?ns ?u] => set (nics1 := ns); set (t1 := u) end.
    destruct (IH k (idx + 1) nics1 t1) as (nics' & t' & E' & H8' & Hsp); [done|cbn in Hk; lia|lia| |done|].
    { subst nics1. by rewrite length_insert. }
    exists nics', t'. split; [exact E'|]. split; [done|]. intros i nic Hnic.
    specialize (Hsp i nic Hnic). destruct (Nat.ltb_spec i (Z.to_nat (idx + 1))) as [Hlt|Hge].
    + subst nics1. destruct (Nat.ltb_spec i (Z.to_nat idx)).
      * by rewrite list_lookup_insert_ne in Hsp by lia.
      * assert (i = Z.to_nat idx) as -> by lia. rewrite Nat.sub_diag. cbn.
        rewrite list_lookup_insert_eq in Hsp by lia. injection Hsp as <-. split; [done|]. cbn.
        rewrite andb_true_iff, !bool_decide_eq_true. intros [[h1 ->] [h2 ->]]. eauto.
    + destruct (Nat.ltb_spec i (Z.to_nat idx)); [lia|].
      replace (i - Z.to_nat idx)%nat with (S (i - Z.to_nat (idx + 1))) by lia. cbn [lookup list_lookup].
      change (list_lookup ?n ?l) with (l !! n) in *.
      destruct (names !! (i - Z.to_nat (idx + 1))%nat); [done|].
      subst nics1. by rewrite list_lookup_insert_ne in Hsp by lia.
Qed.

(** The first eight interfaces Windows lists, in its order, whatever it answers about their
    counters; one is used only if both its counters are there.  The other entries are as they were. *)
Theorem AddEthernet_spec m q names rest n sz t :
  mQuery m = Some q -> length (mNics m) = 8%nat -> sz <> 0 -> names_ok names ->
  Forall (fun s => zlen s < 128) (take 8 names) ->
  (forall t, EnumObjectItems_sizes t (L "Network Interface") = Some (n, sz)) ->
  (forall t, EnumObjectItems t (L "Network Interface") = Some (msz names ++ rest)%list) ->
  exists nics t', AddEthernetCounters m t = Ok (with_nics m nics, true, t') /\
    length nics = 8%nat /\
    forall i nic, nics !! i = Some nic ->
      match names !! i with Some s => nic_for s nic | None => mNics m !! i = Some nic end.
Proof.
  intros Hq H8 Hsz Hok Hlen Hs He. unfold AddEthernetCounters. rewrite Hq.
  rewrite (E_run _ _ t (Some (msz names ++ rest)%list) (S (S t))) by by apply (enum_instances_ok _ n sz).
  destruct (ethernet_loop_ok (length (msz names ++ rest)) names rest q 0 (mNics m) (S (S t)))
    as (nics & t' & E & H8' & Hsp); [done|apply msz_le|lia|done|done|].
  exists nics, t'. rewrite (E_run _ _ _ _ _ E). split; [done|]. split; [done|]. intros i nic Hnic.
  specialize (Hsp i nic Hnic). change (Z.to_nat 0) with 0%nat in Hsp. cbn in Hsp.
  by rewrite Nat.sub_0_r in Hsp.
Qed.
End Ethernet.

(** ** The name of the executable *)

Definition free_of (c : Z) (s : wstr) : Prop := Forall (fun d => d <> c) s.

Lemma base_name_free base p : free_of 92 p -> base_name base p = base.
Proof.
  revert base. induction p as [|c p IH]; intros base H; [done|]. inversion H; subst. cbn.
  destruct (Z.eqb_spec c 92); [done|]. by apply IH.
Qed.

Lemma base_name_path base dir name : free_of 92 name -> base_name base (dir ++ 92 :: name)%list = name.
Proof.
  intros Hn. revert base. induction dir as [|c dir IH]; intros base; cbn; [by apply base_name_free|].
  apply IH.
Qed.

Lemma nthz_app_tail a c b : nthz (a ++ c :: b)%list (zlen a) = c.
Proof. unfold nthz, zlen. rewrite Nat2Z.id, app_nth2, Nat.sub_diag by lia. done. Qed.

Lemma cut_extension_ext stem ext i :
  free_of 46 ext -> free_of 92 ext -> (i <= length ext)%nat ->
  cut_extension (length stem + 1 + i) (stem ++ 46 :: ext)%list = stem.
Proof.
  intros Hd Hb. induction i as [|i IH]; intros Hi.
  - replace (length stem + 1 + 0)%nat with (S (length stem)) by lia. cbn [cut_extension].
    change (Z.of_nat (length stem)) with (zlen stem). rewrite nthz_app_tail, Z.eqb_refl.
    apply take_app_length.
  - replace (length stem + 1 + S i)%nat with (S (length stem + 1 + i)) by lia. cbn [cut_extension].
    destruct (lookup_lt_is_Some_2 ext i) as [d Hdi]; [lia|].
    assert (E : nthz (stem ++ 46 :: ext)%list (Z.of_nat (length stem + 1 + i)) = d).
    { unfold nthz. rewrite Nat2Z.id. rewrite app_nth2 by lia.
      replace (length stem + 1 + i - length stem)%nat with (S i) by lia. cbn. by apply nth_lookup_Some. }
    rewrite E. pose proof (proj1 (Forall_lookup _ _) Hd _ _ Hdi). pose proof (proj1 (Forall_lookup _ _) Hb _ _ Hdi).
    cbn in *. destruct (Z.eqb_spec d 46); [done|]. destruct (Z.eqb_spec d 92); [done|]. apply IH. lia.
Qed.

(** The name of a process from the path of its image: what is between the last backslash and
    the last dot. *)
Theorem GetExeBaseName_spec {W : Pdh} h dir stem ext t :
  free_of 92 stem -> free_of 92 ext -> free_of 46 ext -> zlen stem + zlen ext + 1 < 260 ->
  QueryFullProcessImageNameW t h = Some (dir ++ 92 :: stem ++ 46 :: ext)%list ->
  GetExeBaseNameFromHandle h 260 t = Ok (Some stem, S t).
Proof.
  intros Hs Hb Hd Hlen HQ. unfold GetExeBaseNameFromHandle. cbn [Z.eqb].
  rewrite call_bind, HQ.
  assert (E : base_name (dir ++ 92 :: stem ++ 46 :: ext)%list (dir ++ 92 :: stem ++ 46 :: ext)%list =
              (stem ++ 46 :: ext)%list).
  { apply base_name_path. apply Forall_app. split; [done|]. by constructor. }
  rewrite E. erewrite pure_bind by (apply put_str_ok; rewrite zlen_app, zlen_cons; lia).
  replace (length (stem ++ 46 :: ext)%list) with (length stem + 1 + length ext)%nat
    by (rewrite length_app; cbn; lia).
  rewrite cut_extension_ext by done.
  erewrite pure_bind by (apply put_str_ok; pose proof (zlen_nonneg ext); lia). done.
Qed.

(** ** Processor time *)

(** One sample of the three counters, as they would be without a width. *)
Record sample := mkSample { s_kernel : Z; s_user : Z; s_idle : Z }.

(** The monitor has seen the sample [x]. *)
Definition seen (s : SysCpu) (x : sample) : Prop :=
  mSysCpuInitialized s = true /\ mSysLastKernel s = u64 (s_kernel x) /\
  mSysLastUser s = u64 (s_user x) /\ mSysLastIdle s = u64 (s_idle x).

Lemma u64_diff a b : 0 <= b - a < 2 ^ 64 -> u64 (u64 b - u64 a) = b - a.
Proof.
  intros H. unfold wrap_u. rewrite <- Zminus_mod. by apply Z.mod_small.
Qed.

(** C37.  Processor time.  Let [x] be the sample of the last [Update], [y] the next one, no
    counter having gone back, less than 2^64 of time between them.  The rates are the
    quotients of the true differences, also when a 64-bit counter has wrapped around, and the
    next interval starts at [y]: nothing is counted twice or lost.  The kernel's time includes
    the idle time; in an interval where more idle than kernel time is reported the unsigned
    difference wraps, and the kernel's rate is that of nearly 2^64 units. *)
Theorem UpdateSystem_spec {W : Pdh} s x y t :
  seen s x -> s_kernel x <= s_kernel y -> s_user x <= s_user y -> s_idle x <= s_idle y ->
  s_kernel y - s_kernel x + (s_user y - s_user x) < 2 ^ 64 -> s_idle y - s_idle x < 2 ^ 64 ->
  GetSystemTimes t = Some (u64 (s_idle y), u64 (s_kernel y), u64 (s_user y)) ->
  exists s', UpdateSystem s t = Ok (s', S t) /\ seen s' y /\
    let kernel := s_kernel y - s_kernel x in
    let user := s_user y - s_user x in
    let idle := s_idle y - s_idle x in
    (kernel + user = 0 -> mProcessor s' = no_rates) /\
    (0 < kernel + user -> idle <= kernel -> mProcessor s' =
       mkRates (percent (double (kernel + user - idle)) (double (kernel + user)))
               (percent (double user) (double (kernel + user)))
               (percent (double (kernel - idle)) (double (kernel + user)))) /\
    (0 < kernel + user -> kernel < idle -> r_kernel (mProcessor s') =
       percent (double (2 ^ 64 - (idle - kernel))) (double (kernel + user))).
Proof.
  intros (Hinit & EK & EU & EI) HK HU HI Hlt Hidle HG. unfold UpdateSystem. rewrite call_bind, HG, Hinit.
  cbn [negb]. rewrite EK, EU, EI, !u64_diff by lia.
  eexists. split; [reflexivity|]. split; [done|]. cbv zeta. cbn [mProcessor].
  unfold system_rates.
  set (kernel := s_kernel y - s_kernel x) in *. set (user := s_user y - s_user x) in *.
  set (idle := s_idle y - s_idle x) in *.
  assert (Et : u64 (kernel + user) = kernel + user) by (apply wrap_u_id; lia). rewrite Et.
  split; [|split]; intros H0.
  - rewrite H0. done.
  - intros Hle. destruct (Z.eqb_spec (kernel + user) 0); [lia|].
    assert (E1 : u64 (kernel + user - idle) = kernel + user - idle) by (apply wrap_u_id; lia).
    assert (E2 : u64 (kernel - idle) = kernel - idle) by (apply wrap_u_id; lia). by rewrite E1, E2.
  - intros Hgt. destruct (Z.eqb_spec (kernel + user) 0); [lia|]. cbn [r_kernel]. do 2 f_equal.
    unfold wrap_u. symmetry. apply (Z.mod_unique _ _ (-1)); lia.
Qed.

(** ** Witnesses: a machine *)

(** Two processes can be looked up, with the handles 1 and 2 for their counters. *)
Definition desk_handle (path : wstr) : option Z :=
  if bool_decide (path = id_path (L "svchost")) then Some 1
  else if bool_decide (path = id_path (L "chat")) then Some 2 else None.
Definition desk_value (h : Z) : option Z := if h =? 1 then Some 804 else Some 4242.
Definition desk_names : list wstr := [L "_Total"; L "Idle"; L "svchost"; L "chat"].

(** The kernel counter is about to wrap around. *)
Definition before : sample := mkSample (2 ^ 64 - 30) 500 700.
Definition after : sample := mkSample (2 ^ 64 + 30) 540 730.

Definition desk : Pdh := {|
  GetCurrentProcess _ := 1;
  GetProcessId _ _ := 4242;
  dwNumberOfProcessors _ := 4;
  GetSystemTimes _ := Some (u64 (s_idle after), u64 (s_kernel after), u64 (s_user after));
  GetSystemTimeAsFileTime t := 10000000 * Z.of_nat t;
  GetProcessTimes _ _ := None;
  QueryFullProcessImageNameW _ _ := None;
  PdhOpenQueryW _ := Some 7;
  EnumObjectItems_sizes _ _ := Some (1, 100);
  EnumObjectItems _ object :=
    if bool_decide (object = L "Process") then Some (msz desk_names ++ [])%list else None;
  PdhAddCounterW _ _ path := desk_handle path;
  FormattedLong _ h := desk_value h;
  FormattedLarge _ _ := None;
  FormattedDouble _ _ := None
|}.

Lemma Resolve_spec_witness :
  exists t, ResolvePdhProcessInstanceByPid (W := desk) 4242 260 0%nat = Ok (Some (L "chat"), t).
Proof.
  destruct (Resolve_spec (W := desk) 7
    (fun p => match desk_handle (id_path p) with Some h => desk_value h | None => None end)
    desk_names [] 4242 1 100 0%nat) as (t & H).
  - intros t p Hp. cbn [PdhAddCounterW desk]. destruct (desk_handle (id_path p)); [|reflexivity].
    intros t'. reflexivity.
  - unfold names_ok, no_null. apply (bool_decide_unpack _). vm_compute. exact I.
  - unfold desk_names. repeat (constructor; [reflexivity|]). constructor.
  - lia.
  - intros t. reflexivity.
  - intros t. reflexivity.
  - intros t. reflexivity.
  - exists t. rewrite H. vm_compute. reflexivity.
Defined.

Definition watching : SysCpu :=
  mkSys no_rates (u64 (s_kernel before)) (u64 (s_user before)) (u64 (s_idle before)) true.

(** 60 units of kernel time, 30 of them idle, and 40 of user time: 70, 40 and 30 per cent. *)
Lemma UpdateSystem_spec_witness :
  exists s, UpdateSystem (W := desk) watching 0%nat = Ok (s, 1%nat) /\ seen s after /\
    mProcessor s = mkRates (percent (double 70) (double 100)) (percent (double 40) (double 100))
                           (percent (double 30) (double 100)) /\
    r_user (mProcessor s) = to_float (double 40).
Proof.
  destruct (UpdateSystem_spec (W := desk) watching before after 0%nat) as (s & E & Hs & _ & H & _).
  - repeat split.
  - cbn. lia.
  - cbn. lia.
  - cbn. lia.
  - cbn. lia.
  - cbn. lia.
  - reflexivity.
  - exists s. split; [exact E|]. split; [exact Hs|].
    assert (Hr : mProcessor s = mkRates (percent (double 70) (double 100)) (percent (double 40) (double 100))
      (percent (double 30) (double 100))) by (apply H; cbn; lia).
    split; [exact Hr|]. rewrite Hr. vm_compute. reflexivity.
Defined.
