(* ===== verification/Profiler.v ===== *)
(** * The profiler (monitor.h, monitor.cpp)

    Named timers, fifty per thread, in tables reached through thread-local storage and listed
    in [_stProfileThread] for [SaveProfile].  No other part of the program uses it.  A table is
    known by the thread that allocated it; times are readings of the performance counter. *)

From Stdlib Require Import SpecFloat.
From S2P Require Import Prelude Wide CpuMonitor.

Definition dfTAG_NAME_MAX : Z := 64.
Definition dfTHREAD_MAX : Z := 50.
Definition dfSAMPLE_MAX : Z := 50.

(** [DBL_MAX] *)
Definition DBL_MAX : spec_float := S754_finite false (2 ^ 53 - 1) 971.

Record PROFILE_SAMPLE := mkProfile {
  bFlag : bool;
  tag : wstr;
  lStartTime : Z;
  dTotalTime : spec_float;
  dMin0 : spec_float;
  dMin1 : spec_float;
  dMax0 : spec_float;
  dMax1 : spec_float;
  iCall : Z
}.

(** [tables] are the threads' tables, [_stProfileThread] pairs of [lThreadID] and [pSample]. *)
Record Profiler := mkProfiler {
  dMicroFrequency : spec_float;
  stProfileThread : list (Z * option Z);
  tables : gmap Z (list PROFILE_SAMPLE)
}.

Definition set_table (p : Profiler) (tid : Z) (t : list PROFILE_SAMPLE) : Profiler :=
  mkProfiler (dMicroFrequency p) (stProfileThread p) (<[tid := t]> (tables p)).

Section Profiler.
(** What [new PROFILE_SAMPLE[]] leaves in the members, by the thread and the index. *)
Context (junk : Z -> nat -> PROFILE_SAMPLE).

Definition ProfileInit (frequency : Z) (TlsAlloc_ok : bool) : Profiler * bool :=
  (mkProfiler (ddiv (double frequency) (double 1000000))
     (replicate (Z.to_nat dfTHREAD_MAX) (0, None)) ∅, TlsAlloc_ok).

(** [memset(&pSample[i], 0, sizeof(dfSAMPLE_MAX))] clears the first four bytes: [bFlag] and
    [szName[0]], so that the name is the empty string. *)
Definition clear4 (s : PROFILE_SAMPLE) : PROFILE_SAMPLE :=
  mkProfile false [] (lStartTime s) (dTotalTime s) (dMin0 s) (dMin1 s) (dMax0 s) (dMax1 s) (iCall s).

Definition new_table (tid : Z) : list PROFILE_SAMPLE :=
  (fun i => clear4 (junk tid i)) <$> seq 0 (Z.to_nat dfSAMPLE_MAX).

(** The first free entry of the list of threads; none when it is full. *)
Fixpoint register (tid : Z) (l : list (Z * option Z)) : list (Z * option Z) :=
  match l with
  | [] => []
  | (id, s) :: l =>
      if (id =? 0) && bool_decide (s = None) then (tid, Some tid) :: l
      else (id, s) :: register tid l
  end.

Definition fresh_sample (name : wstr) : PROFILE_SAMPLE :=
  mkProfile true name 0 zero DBL_MAX DBL_MAX zero zero 0.

(** [wsprintf(szName, pszName)]: the name is the format, so a [%] in it reads arguments that
    are not there; and nothing bounds it by the 64 characters of [szName]. *)
Definition wsprintf_name (name : wstr) : res wstr :=
  if bool_decide (Forall (fun c => c <> 37) name) && (zlen name <? dfTAG_NAME_MAX) then Ok name
  else Fault OutOfBounds.

(** The loop over the samples, [n] of them to go, [t] the table from the current one on: the
    index found, the table with a fresh sample there if the entry was free. *)
Fixpoint find_sample (n : nat) (name : wstr) (t : list PROFILE_SAMPLE)
    : res (list PROFILE_SAMPLE * option nat) :=
  match n with
  | O => Ok (t, None)
  | S n =>
      match t with
      | [] => Fault OutOfBounds
      | s :: t =>
          if bFlag s && bool_decide (tag s = name) then Ok (s :: t, Some 0%nat)
          else if bool_decide (tag s = []) then
            name ← wsprintf_name name;
            Ok (fresh_sample name :: t, Some 0%nat)
          else
            '(t, i) ← find_sample n name t;
            Ok (s :: t, option_map S i)
      end
  end.

(** Thread [tid] asks for the sample [name]: the index is [*pOutSample], [None] for null. *)
Definition GetSample (tid : Z) (TlsSetValue_ok : bool) (name : wstr) (p : Profiler)
    : res (Profiler * option nat) :=
  match tables p !! tid with
  | Some t =>
      '(t, i) ← find_sample (Z.to_nat dfSAMPLE_MAX) name t;
      Ok (set_table p tid t, i)
  | None =>
      if negb TlsSetValue_ok then Ok (p, None)
      else
        let p := mkProfiler (dMicroFrequency p) (register tid (stProfileThread p)) (tables p) in
        '(t, i) ← find_sample (Z.to_nat dfSAMPLE_MAX) name (new_table tid);
        Ok (set_table p tid t, i)
  end.

Definition sample_at (p : Profiler) (tid : Z) (i : nat) : res PROFILE_SAMPLE :=
  of_opt NullDeref (tables p !! tid ≫= fun t => t !! i).
Definition put_sample (p : Profiler) (tid : Z) (i : nat) (s : PROFILE_SAMPLE) : Profiler :=
  mkProfiler (dMicroFrequency p) (stProfileThread p) (alter (fun t => <[i := s]> t) tid (tables p)).

Definition ProfileBegin (tid : Z) (tls_ok : bool) (now : Z) (name : wstr) (p : Profiler)
    : res (Profiler * bool) :=
  '(p, i) ← GetSample tid tls_ok name p;
  match i with
  | None => Ok (p, false)
  | Some i =>
      s ← sample_at p tid i;
      if negb (lStartTime s =? 0) then Ok (p, false)
      else
        Ok (put_sample p tid i
              (mkProfile (bFlag s) (tag s) now (dTotalTime s) (dMin0 s) (dMin1 s) (dMax0 s) (dMax1 s)
                 (iCall s)), true)
  end.

(** The two tests compare a number of microseconds with a number of counts. *)
Definition ProfileEnd (tid : Z) (tls_ok : bool) (now : Z) (name : wstr) (p : Profiler)
    : res (Profiler * bool) :=
  '(p, i) ← GetSample tid tls_ok name p;
  match i with
  | None => Ok (p, false)
  | Some i =>
      s ← sample_at p tid i;
      let time := i64 (now - lStartTime s) in
      let micros := ddiv (double time) (dMicroFrequency p) in
      let '(max0, max1) := if SFltb (dMax1 s) (double time) then (dMax1 s, micros)
                           else (dMax0 s, dMax1 s) in
      let '(min0, min1) := if SFltb (double time) (dMin1 s) then (dMin1 s, micros)
                           else (dMin0 s, dMin1 s) in
      Ok (put_sample p tid i
            (mkProfile (bFlag s) (tag s) 0 (dadd (dTotalTime s) micros) min0 min1 max0 max1
               (i64 (iCall s + 1))), true)
  end.

(** *** [SaveProfile] *)

(** One line of the report: thread, name, average, minimum, maximum, calls. *)
Definition line : Type := Z * wstr * spec_float * spec_float * spec_float * Z.

Fixpoint sample_lines (tid : Z) (t : list PROFILE_SAMPLE) : list line :=
  match t with
  | [] => []
  | s :: t =>
      if negb (bFlag s) then []
      else (tid, tag s, ddiv (dTotalTime s) (double (iCall s)), dMin1 s, dMax1 s, iCall s)
           :: sample_lines tid t
  end.

(** [for (iThCnt = 0; dfTHREAD_MAX; iThCnt++)]: only an entry without thread ends it. *)
Fixpoint SaveProfile_loop (p : Profiler) (l : list (Z * option Z)) : res (list line) :=
  match l with
  | [] => Fault OutOfBounds
  | (tid, s) :: l =>
      if tid =? 0 then Ok []
      else
        owner ← of_opt NullDeref s;
        t ← of_opt NullDeref (tables p !! owner);
        rest ← SaveProfile_loop p l;
        Ok (sample_lines tid t ++ rest)
  end.

Definition SaveProfile (p : Profiler) : res (list line) := SaveProfile_loop p (stProfileThread p).

(** ** What it keeps *)

(** A table of fifty samples: those in use, under different names, then the free ones. *)
Definition used_by (used : list PROFILE_SAMPLE) (t : list PROFILE_SAMPLE) : Prop :=
  exists fs, t = used ++ fs /\ zlen t = dfSAMPLE_MAX /\
    Forall (fun s => bFlag s = true /\ tag s <> []) used /\ NoDup (tag <$> used) /\
    Forall (fun s => bFlag s = false /\ tag s = []) fs.

Definition name_ok (name : wstr) : Prop :=
  name <> [] /\ Forall (fun c => c <> 37) name /\ zlen name < dfTAG_NAME_MAX.

Lemma wsprintf_name_ok name : name_ok name -> wsprintf_name name = Ok name.
Proof.
  intros (_ & H1 & H2). unfold wsprintf_name. rewrite bool_decide_eq_true_2 by done.
  by destruct (Z.ltb_spec (zlen name) dfTAG_NAME_MAX); [|lia].
Qed.

Lemma find_sample_used n name used rest i :
  Forall (fun s => bFlag s = true /\ tag s <> []) used -> NoDup (tag <$> used) ->
  (tag <$> used) !! i = Some name -> (length used <= n)%nat ->
  find_sample n name (used ++ rest) = Ok (used ++ rest, Some i).
Proof.
  intros Hu Hnd. revert i n. induction used as [|s used IH]; intros i n Hi Hn; [done|].
  destruct n as [|n]; [cbn in Hn; lia|]. cbn in Hn.
  apply list.Forall_cons in Hu as [[Hf Ht] Hu]. apply list.NoDup_cons in Hnd as [Hs Hnd].
  change ((s :: used) ++ rest) with (s :: (used ++ rest)). cbn [find_sample]. rewrite Hf. cbn [andb].
  destruct i as [|i]; cbn in Hi.
  - injection Hi as ->. by rewrite bool_decide_eq_true_2.
  - rewrite bool_decide_eq_false_2.
    2: { intros E. apply Hs. rewrite E. by eapply list_elem_of_lookup_2. }
    rewrite bool_decide_eq_false_2 by done. by rewrite (IH Hu Hnd i n Hi) by lia.
Qed.

Lemma find_sample_new k name used rest :
  Forall (fun s => bFlag s = true /\ tag s <> []) used -> name ∉ tag <$> used ->
  find_sample (length used + k) name (used ++ rest) =
    ('(t, i) ← find_sample k name rest; Ok (used ++ t, option_map (fun k => length used + k)%nat i)).
Proof.
  intros Hu Hn. induction used as [|s used IH].
  - change ([] ++ rest) with rest. cbn [length Nat.add].
    destruct (find_sample k name rest) as [[t [i|]]| |]; done.
  - apply list.Forall_cons in Hu as [[Hf Ht] Hu]. cbn in Hn. apply not_elem_of_cons in Hn as [Hne Hn].
    change ((s :: used) ++ rest) with (s :: (used ++ rest)). cbn [length Nat.add find_sample].
    rewrite Hf. cbn [andb]. rewrite !bool_decide_eq_false_2 by done. rewrite IH by done.
    destruct (find_sample k name rest) as [[t [i|]]| |]; done.
Qed.

(** A new name on a table with a free sample. *)
Lemma find_sample_free name used t :
  used_by used t -> name_ok name -> name ∉ tag <$> used -> zlen used < dfSAMPLE_MAX ->
  exists t', find_sample (Z.to_nat dfSAMPLE_MAX) name t = Ok (t', Some (length used)) /\
    used_by (used ++ [fresh_sample name]) t'.
Proof.
  intros (fs & -> & Hz & Hu & Hnd & Hf) Hok Hn Hlt. rewrite zlen_app in Hz.
  replace (Z.to_nat dfSAMPLE_MAX) with (length used + length fs)%nat by (unfold zlen in Hz; lia).
  rewrite find_sample_new by done.
  destruct fs as [|s fs]; [change (zlen []) with 0 in Hz; lia|].
  apply list.Forall_cons in Hf as [[Hs1 Hs2] Hf]. cbn [length find_sample]. rewrite Hs1, Hs2. cbn [andb].
  rewrite bool_decide_eq_true_2, wsprintf_name_ok by done. cbn.
  eexists. split; [do 3 f_equal; lia|]. exists fs. rewrite <- app_assoc. split; [done|].
  rewrite zlen_cons in Hz. rewrite zlen_app, zlen_cons. split; [lia|]. split; [|split; [|done]].
  - apply Forall_app. split; [done|]. repeat constructor. apply Hok.
  - rewrite fmap_app. apply list.NoDup_app. split; [done|]. split; [|apply NoDup_singleton].
    intros x Hx. cbn. intros ->%list_elem_of_singleton. done.
Qed.

Lemma new_table_free tid : used_by [] (new_table tid).
Proof.
  exists (new_table tid). split; [done|]. split.
  { unfold zlen, new_table. by rewrite length_fmap, length_seq. }
  split; [constructor|]. split; [constructor|]. apply Forall_fmap, list.Forall_forall. done.
Qed.

Lemma set_table_same p tid t : tables p !! tid = Some t -> set_table p tid t = p.
Proof. intros H. unfold set_table. rewrite insert_id by done. by destruct p. Qed.

(** C39.  Looking a timer up, for a name that can be stored.  The first time, a thread is given
    a table of fifty samples, the first of them under the name, and is entered in the list of
    threads (nothing happens when thread-local storage cannot be set).  Later a name in use
    gives its own sample, nothing changing; a new name takes the next free sample, reset; and
    when all fifty are in use it gives nothing and nothing changes.  The table stays a table of
    fifty samples under different names. *)
Theorem GetSample_spec tid ok name p :
  name_ok name ->
  (tables p !! tid = None ->
     (ok = false -> GetSample tid ok name p = Ok (p, None)) /\
     (ok = true -> exists t, used_by [fresh_sample name] t /\
        GetSample tid ok name p =
          Ok (mkProfiler (dMicroFrequency p) (register tid (stProfileThread p))
                (<[tid := t]> (tables p)), Some 0%nat))) /\
  (forall used t, tables p !! tid = Some t -> used_by used t ->
     (forall i, (tag <$> used) !! i = Some name -> GetSample tid ok name p = Ok (p, Some i)) /\
     (name ∉ tag <$> used -> zlen used = 50 -> GetSample tid ok name p = Ok (p, None)) /\
     (name ∉ tag <$> used -> zlen used < 50 -> exists t',
        GetSample tid ok name p = Ok (set_table p tid t', Some (length used)) /\
        used_by (used ++ [fresh_sample name]) t')).
Proof.
  intros Hok. unfold GetSample. split.
  - intros ->. split; intros ->; [done|]. cbn [negb].
    destruct (find_sample_free name [] (new_table tid)) as (t & E & Ht);
      [apply new_table_free|done|by intros ?%elem_of_nil|done|].
    exists t. split; [exact Ht|]. by rewrite E.
  - intros used t Ht Hu. rewrite Ht. pose proof Hu as (fs & -> & Hz & Hused & Hnd & Hf). rewrite zlen_app in Hz.
    assert (Hlen : Z.to_nat dfSAMPLE_MAX = (length used + length fs)%nat) by (unfold zlen in Hz; lia).
    split; [|split].
    + intros i Hi. rewrite (find_sample_used _ _ _ _ i) by (done || lia). cbn.
      by rewrite set_table_same.
    + intros Hn Hfull. destruct fs as [|s fs]; [|rewrite zlen_cons in Hz; pose proof (zlen_nonneg fs); unfold dfSAMPLE_MAX in *; lia].
      rewrite Hlen, find_sample_new by done. cbn.
      by rewrite set_table_same.
    + intros Hn Hlt. destruct (find_sample_free name used _ Hu Hok Hn Hlt) as (t' & E & Hu').
      exists t'. by rewrite E.
Qed.

(** With fifty threads registered [SaveProfile] reads past the list. *)
Theorem SaveProfile_overruns p :
  Forall (fun e => e.1 <> 0 /\ exists owner t, e.2 = Some owner /\ tables p !! owner = Some t)
    (stProfileThread p) ->
  SaveProfile p = Fault OutOfBounds.
Proof.
  unfold SaveProfile. induction 1 as [|[tid s] l [Hne (o & t & E & Ht)] _ IH]; [done|].
  cbn in *. destruct (Z.eqb_spec tid 0); [done|]. rewrite E. cbn. rewrite Ht. cbn. by rewrite IH.
Qed.
End Profiler.

(** ** Witnesses *)

Definition no_sample (_ : Z) (_ : nat) : PROFILE_SAMPLE := mkProfile true [7] 0 zero zero zero zero zero 0.

Definition two_samples : list PROFILE_SAMPLE :=
  [fresh_sample [82]; fresh_sample [83]] ++ take 48 (new_table no_sample 5).

Definition two_timers : Profiler := mkProfiler zero [(5, Some 5)] {[5 := two_samples]}.

Lemma two_samples_used : used_by [fresh_sample [82]; fresh_sample [83]] two_samples.
Proof.
  exists (take 48 (new_table no_sample 5)). split; [reflexivity|]. split; [vm_compute; reflexivity|].
  split; [repeat constructor; discriminate|]. split; apply (bool_decide_unpack _); vm_compute; exact I.
Defined.

Lemma GetSample_spec_witness :
  GetSample no_sample 5 true [83] two_timers = Ok (two_timers, Some 1%nat) /\
  (exists t, GetSample no_sample 5 true [84] two_timers = Ok (set_table two_timers 5 t, Some 2%nat) /\
     used_by [fresh_sample [82]; fresh_sample [83]; fresh_sample [84]] t) /\
  GetSample no_sample 6 false [83] two_timers = Ok (two_timers, None).
Proof.
  assert (Hok : forall c, c = 83 \/ c = 84 -> name_ok [c]).
  { intros c Hc. split; [discriminate|]. split; [|destruct Hc as [-> | ->]; vm_compute; reflexivity].
    repeat constructor. lia. }
  assert (H5 : tables two_timers !! 5 = Some two_samples) by reflexivity.
  destruct (GetSample_spec no_sample 5 true [83] two_timers (Hok 83 ltac:(lia))) as [_ H83].
  destruct (GetSample_spec no_sample 5 true [84] two_timers (Hok 84 ltac:(lia))) as [_ H84].
  destruct (GetSample_spec no_sample 6 false [83] two_timers (Hok 83 ltac:(lia))) as [H6 _].
  split; [|split].
  - by apply (H83 _ _ H5 two_samples_used).
  - apply (H84 _ _ H5 two_samples_used); [apply (bool_decide_unpack _); vm_compute; exact I|reflexivity].
  - by apply H6.
Defined.

(** A counter of ten counts per microsecond; a call of 50 microseconds, then one of 20. *)
Definition timed (start stop : Z) (p : Profiler) : res Profiler :=
  '(p, _) ← ProfileBegin no_sample 5 true start [82] p;
  '(p, _) ← ProfileEnd no_sample 5 true stop [82] p;
  Ok p.

(** The longest call is forgotten: 200 counts are more than 50 microseconds to the test. *)
Theorem longest_call_forgotten :
  exists p s, (p ← timed 1000 1500 (ProfileInit 10000000 true).1; timed 2000 2200 p) = Ok p /\
    sample_at p 5 0 = Ok s /\ iCall s = 2 /\ dMax0 s = double 50 /\ dMax1 s = double 20.
Proof.
  destruct (p ← timed 1000 1500 (ProfileInit 10000000 true).1; timed 2000 2200 p) as [p| |] eqn:E;
    vm_compute in E; [|discriminate..].
  injection E as <-. eexists _, _. split; [reflexivity|]. vm_compute. repeat split; reflexivity.
Qed.
