(* ===== verification/RingBuffer.v ===== *)
(** * CRingBuffer: the receive ring buffer (CRingBuffer.h, CRingBuffer.cpp)

    The object is its three positions and the block behind [data].  The abstract view is the
    queue of bytes between the two positions ([contents]); every operation is shown to be the
    operation of a bounded byte queue of capacity [iBufSize - 1] (module [ByteQueue]).
    [int] arithmetic is wrapped at 32 bits; the invariant [wf] keeps it from wrapping. *)

From S2P Require Import Prelude.

Definition BUF_SIZE : Z := 65536.

Record CRingBuffer := mkRing {
  iFrontPos : Z;
  iRearPos : Z;
  iBufSize : Z;
  data : list Z
}.

(** [new char[n]] followed by [ZeroMemory(data, n)]. *)
Definition CRingBuffer_new (iBuffSize : Z) : res CRingBuffer :=
  check (0 <=? iBuffSize) BadAlloc;;
  Ok (mkRing 0 0 iBuffSize (replicate (Z.to_nat iBuffSize) 0)).

Definition CRingBuffer_default : CRingBuffer :=
  mkRing 0 0 BUF_SIZE (replicate (Z.to_nat BUF_SIZE) 0).

(** The [%] of C++ on [int]s: truncated, undefined for a zero divisor. *)
Definition c_rem (a b : Z) : res Z :=
  if b =? 0 then Fault DivByZero else Ok (Z.rem a b).

Definition GetBufferSize (rb : CRingBuffer) : Z := iBufSize rb.

Definition GetUseSize (rb : CRingBuffer) : Z :=
  if iRearPos rb >=? iFrontPos rb
  then i32 (iRearPos rb - iFrontPos rb)
  else i32 (i32 (iBufSize rb - iFrontPos rb) + iRearPos rb).

Definition GetFreeSize (rb : CRingBuffer) : Z :=
  i32 (i32 (iBufSize rb - 1) - GetUseSize rb).

Definition DirectEnqueueSize (rb : CRingBuffer) : Z :=
  if iFrontPos rb >? iRearPos rb
  then i32 (i32 (iFrontPos rb - iRearPos rb) - 1)
  else i32 (i32 (iBufSize rb - iRearPos rb) - (if iFrontPos rb =? 0 then 1 else 0)).

Definition DirectDequeueSize (rb : CRingBuffer) : Z :=
  if iFrontPos rb <=? iRearPos rb
  then i32 (iRearPos rb - iFrontPos rb)
  else i32 (iBufSize rb - iFrontPos rb).

(** The pointers the accessors return, as offsets into [data]. *)
Definition GetBufferPtr (rb : CRingBuffer) : Z := 0.
Definition GetFrontBufferPtr (rb : CRingBuffer) : Z := iFrontPos rb.
Definition GetRearBufferPtr (rb : CRingBuffer) : Z := iRearPos rb.

(** [nd] is the block [new char[size]] returns: its contents are indeterminate. *)
Definition ReSize (rb : CRingBuffer) (size : Z) (nd : list Z) : res CRingBuffer :=
  if size <=? 0 then Ok rb
  else
    let use := GetUseSize rb in
    nd' ←
      (if iFrontPos rb <=? iRearPos rb
       then memcpy nd 0 (data rb) (iFrontPos rb) use
       else
         let first := i32 (iBufSize rb - iFrontPos rb) in
         nd1 ← memcpy nd 0 (data rb) (iFrontPos rb) first;
         memcpy nd1 first (data rb) 0 (iRearPos rb));
    rear ← c_rem use size;
    Ok (mkRing 0 rear size nd').

(** [chpData] is the caller's block, read from its start. *)
Definition Enqueue (rb : CRingBuffer) (chpData : list Z) (iSize : Z)
    : res (CRingBuffer * Z) :=
  let writeSize := if GetFreeSize rb <? iSize then GetFreeSize rb else iSize in
  d ←
    (if i32 (iRearPos rb + writeSize) >? iBufSize rb
     then
       let first := i32 (iBufSize rb - iRearPos rb) in
       d1 ← memcpy_s (data rb) (iRearPos rb) (i32 (iBufSize rb - iRearPos rb))
                     chpData 0 first;
       memcpy_s d1 0 (iBufSize rb) chpData first (i32 (writeSize - first))
     else
       memcpy_s (data rb) (iRearPos rb) (i32 (iBufSize rb - iRearPos rb))
                chpData 0 writeSize);
  rear ← c_rem (i32 (iRearPos rb + writeSize)) (iBufSize rb);
  Ok (mkRing (iFrontPos rb) rear (iBufSize rb) d, writeSize).

(** The copying part [Dequeue] and [Peek] have in common: [chpDest + doff] is the
    destination; the result is the block written and the number of bytes read. *)
Definition Peek (rb : CRingBuffer) (chpDest : list Z) (doff iSize : Z)
    : res (list Z * Z) :=
  let readSize := if GetUseSize rb <? iSize then GetUseSize rb else iSize in
  d ←
    (if i32 (iFrontPos rb + readSize) >? iBufSize rb
     then
       let size := i32 (iBufSize rb - iFrontPos rb) in
       d1 ← memcpy_s chpDest doff iSize (data rb) (iFrontPos rb) size;
       memcpy_s d1 (doff + size) (i32 (iSize - size)) (data rb) 0 (i32 (readSize - size))
     else
       memcpy_s chpDest doff iSize (data rb) (iFrontPos rb) readSize);
  Ok (d, readSize).

Definition Dequeue (rb : CRingBuffer) (chpDest : list Z) (doff iSize : Z)
    : res (CRingBuffer * list Z * Z) :=
  let readSize := if GetUseSize rb <? iSize then GetUseSize rb else iSize in
  d ←
    (if i32 (iFrontPos rb + readSize) >? iBufSize rb
     then
       let size := i32 (iBufSize rb - iFrontPos rb) in
       d1 ← memcpy_s chpDest doff iSize (data rb) (iFrontPos rb) size;
       memcpy_s d1 (doff + size) (i32 (iSize - size)) (data rb) 0 (i32 (readSize - size))
     else
       memcpy_s chpDest doff iSize (data rb) (iFrontPos rb) readSize);
  front ← c_rem (i32 (iFrontPos rb + readSize)) (iBufSize rb);
  Ok (mkRing front (iRearPos rb) (iBufSize rb) (data rb), d, readSize).

Definition MoveFront (rb : CRingBuffer) (iSize : Z) : res (CRingBuffer * Z) :=
  let can := GetUseSize rb in
  let iSize := if iSize >? can then can else iSize in
  front ← c_rem (i32 (iFrontPos rb + iSize)) (iBufSize rb);
  Ok (mkRing front (iRearPos rb) (iBufSize rb) (data rb), front).

Definition MoveRear (rb : CRingBuffer) (iSize : Z) : res (CRingBuffer * Z) :=
  let can := GetFreeSize rb in
  let iSize := if iSize >? can then can else iSize in
  rear ← c_rem (i32 (iRearPos rb + iSize)) (iBufSize rb);
  Ok (mkRing (iFrontPos rb) rear (iBufSize rb) (data rb), rear).

Definition ClearBuffer (rb : CRingBuffer) : CRingBuffer :=
  mkRing 0 0 (iBufSize rb) (data rb).

(** ** The abstract queue of bytes *)

Module ByteQueue.
Definition free (cap : Z) (q : list Z) : Z := cap - zlen q.

(** Accepts as much of [bs] as fits; returns the new queue and the count accepted. *)
Definition push (cap : Z) (q bs : list Z) : list Z * Z :=
  let n := Z.min (free cap q) (zlen bs) in
  (q ++ take (Z.to_nat n) bs, n).

(** Takes at most [n] bytes off the front. *)
Definition peek (q : list Z) (n : Z) : list Z := take (Z.to_nat n) q.
Definition drop (q : list Z) (n : Z) : list Z := drop (Z.to_nat n) q.
End ByteQueue.

(** ** Invariant and abstraction *)

(** [iBufSize] up to 2^30: the sums of two positions stay in [int]. *)
Record wf (rb : CRingBuffer) : Prop := mkWf {
  wf_size : 0 < iBufSize rb <= 1073741824;
  wf_front : 0 <= iFrontPos rb < iBufSize rb;
  wf_rear : 0 <= iRearPos rb < iBufSize rb;
  wf_data : zlen (data rb) = iBufSize rb;
  wf_bytes : bytes_ok (data rb)
}.

Definition used (rb : CRingBuffer) : Z :=
  (iRearPos rb - iFrontPos rb) mod iBufSize rb.

Definition capacity (rb : CRingBuffer) : Z := iBufSize rb - 1.

(** The [n] bytes of the ring from position [p] on, going round the end. *)
Definition arc (d : list Z) (p n : Z) : list Z :=
  (fun i => nthz d ((p + i) mod zlen d)) <$> seqZ 0 n.

Definition contents (rb : CRingBuffer) : list Z :=
  arc (data rb) (iFrontPos rb) (used rb).

(** ** Arcs *)

Lemma mod_once a m : 0 <= a < 2 * m -> a mod m = if a <? m then a else a - m.
Proof.
  intros. destruct (Z.ltb_spec a m).
  - apply Z.mod_small. lia.
  - symmetry. apply Z.mod_unique with 1; lia.
Qed.

Lemma zlen_arc d p n : 0 <= n -> zlen (arc d p n) = n.
Proof. intros. unfold zlen, arc. rewrite length_fmap, length_seqZ. lia. Qed.

Lemma nthz_arc d p n i : 0 <= i < n -> nthz (arc d p n) i = nthz d ((p + i) mod zlen d).
Proof.
  intros. unfold nthz at 1, arc. rewrite nth_lookup, list_lookup_fmap.
  rewrite lookup_seqZ_lt by lia. cbn. do 3 f_equal. lia.
Qed.

Lemma arc_slice d p n : 0 <= p -> 0 <= n -> p + n <= zlen d -> arc d p n = slice d p n.
Proof.
  intros. apply nthz_ext.
  - rewrite zlen_arc, zlen_slice; lia.
  - intros i. rewrite zlen_arc by lia. intros.
    rewrite nthz_arc, nthz_slice, Z.mod_small; lia || done.
Qed.

Lemma arc_app d p a b : 0 <= a -> 0 <= b -> arc d p (a + b) = arc d p a ++ arc d (p + a) b.
Proof.
  intros. apply nthz_ext.
  - rewrite zlen_app, !zlen_arc; lia.
  - intros i. rewrite zlen_arc by lia. intros. rewrite nthz_arc by lia.
    destruct (Z.lt_ge_cases i a).
    + by rewrite nthz_app_l, nthz_arc; rewrite ?zlen_arc; try lia.
    + rewrite nthz_app_r, zlen_arc, nthz_arc; rewrite ?zlen_arc; try lia.
      do 2 f_equal. lia.
Qed.

Lemma arc_mod d p n : arc d (p mod zlen d) n = arc d p n.
Proof.
  unfold arc. apply list_fmap_ext. intros i x _. by rewrite Zplus_mod_idemp_l.
Qed.

Lemma arc_drop d p n k :
  0 <= k <= n -> drop (Z.to_nat k) (arc d p n) = arc d (p + k) (n - k).
Proof.
  intros. replace n with (k + (n - k)) at 1 by lia. rewrite arc_app by lia.
  rewrite drop_app_length' by (pose proof (zlen_arc d p k); unfold zlen in *; lia). done.
Qed.

Lemma arc_take d p n k : 0 <= k <= n -> take (Z.to_nat k) (arc d p n) = arc d p k.
Proof.
  intros. replace n with (k + (n - k)) by lia. rewrite arc_app by lia.
  rewrite take_app_length' by (pose proof (zlen_arc d p k); unfold zlen in *; lia). done.
Qed.

(** An arc that reaches the end of the block is read in two pieces. *)
Lemma arc_wrap d p n :
  0 <= p <= zlen d -> zlen d - p <= n <= zlen d ->
  arc d p n = slice d p (zlen d - p) ++ slice d 0 (n - (zlen d - p)).
Proof.
  intros. replace n with ((zlen d - p) + (n - (zlen d - p))) at 1 by lia.
  rewrite arc_app, arc_slice by lia. f_equal.
  replace (p + (zlen d - p)) with (zlen d) by lia.
  rewrite <- arc_mod, Z_mod_same_full, arc_slice by lia. done.
Qed.

Lemma bytes_ok_arc d p n : bytes_ok d -> bytes_ok (arc d p n).
Proof.
  intros Hd. apply Forall_fmap, Forall_true. intros i. by apply nthz_byte.
Qed.

(** *** Writing an arc: [memcpy] in one piece, or two when it goes round the end *)

Definition ring_put (d : list Z) (p : Z) (bs : list Z) : list Z :=
  if p + zlen bs <=? zlen d then splice d p bs
  else splice (splice d p (slice bs 0 (zlen d - p))) 0
              (slice bs (zlen d - p) (zlen bs - (zlen d - p))).

Section RingPut.
Context (d bs : list Z) (p : Z).
Context (Hp : 0 <= p < zlen d) (Hbs : zlen bs <= zlen d).

Lemma zlen_ring_put : zlen (ring_put d p bs) = zlen d.
Proof.
  unfold ring_put. pose proof (zlen_nonneg bs).
  destruct (Z.leb_spec (p + zlen bs) (zlen d)).
  - rewrite zlen_splice; lia.
  - rewrite !zlen_splice; rewrite ?zlen_splice; rewrite ?zlen_slice; lia.
Qed.

Lemma bytes_ok_ring_put : bytes_ok d -> bytes_ok bs -> bytes_ok (ring_put d p bs).
Proof. intros. unfold ring_put. destruct (_ <=? _); auto. Qed.

Lemma nthz_ring_put i :
  0 <= i < zlen d ->
  nthz (ring_put d p bs) ((p + i) mod zlen d) =
  if i <? zlen bs then nthz bs i else nthz d ((p + i) mod zlen d).
Proof.
  intros. unfold ring_put. pose proof (zlen_nonneg bs). rewrite mod_once by lia.
  destruct (Z.leb_spec (p + zlen bs) (zlen d)), (Z.ltb_spec i (zlen bs)),
    (Z.ltb_spec (p + i) (zlen d)); try lia.
  - rewrite nthz_splice_in by lia. f_equal. lia.
  - rewrite nthz_splice_out; lia.
  - rewrite nthz_splice_out; lia.
  - rewrite nthz_splice_out; rewrite ?zlen_splice; rewrite ?zlen_slice; try lia.
    rewrite nthz_splice_in; rewrite ?zlen_slice; try lia.
    rewrite nthz_slice by lia. f_equal. lia.
  - rewrite nthz_splice_in; rewrite ?zlen_splice; rewrite ?zlen_slice; try lia.
    rewrite nthz_slice by lia. f_equal. lia.
  - rewrite !nthz_splice_out; rewrite ?zlen_splice; rewrite ?zlen_slice; lia.
Qed.

Lemma arc_ring_put_same : arc (ring_put d p bs) p (zlen bs) = bs.
Proof.
  pose proof (zlen_nonneg bs). apply nthz_ext.
  - rewrite zlen_arc; lia.
  - intros i. rewrite zlen_arc by lia. intros.
    rewrite nthz_arc by lia. rewrite zlen_ring_put, nthz_ring_put by lia.
    destruct (Z.ltb_spec i (zlen bs)); lia.
Qed.

(** The bytes of an arc that ends where the write begins are untouched. *)
Lemma arc_ring_put_before q n :
  0 <= n -> n + zlen bs <= zlen d -> (q + n) mod zlen d = p ->
  arc (ring_put d p bs) q n = arc d q n.
Proof.
  intros Hn Hfit Hend. pose proof (zlen_nonneg bs). apply nthz_ext.
  - rewrite !zlen_arc; lia.
  - intros j. rewrite zlen_arc by lia. intros.
    rewrite !nthz_arc by lia. rewrite zlen_ring_put.
    replace ((q + j) mod zlen d) with ((p + (zlen d - n + j)) mod zlen d).
    + rewrite nthz_ring_put by lia.
      destruct (Z.ltb_spec (zlen d - n + j) (zlen bs)); lia.
    + rewrite <- Hend, Zplus_mod_idemp_l.
      replace (q + n + (zlen d - n + j)) with (q + j + 1 * zlen d) by lia.
      apply Z_mod_plus_full.
Qed.
End RingPut.

(** ** Sizes *)

Section Sizes.
Context (rb : CRingBuffer) (Hwf : wf rb).

Lemma used_range : 0 <= used rb <= capacity rb.
Proof.
  destruct Hwf. unfold used, capacity.
  pose proof (Z.mod_pos_bound (iRearPos rb - iFrontPos rb) (iBufSize rb)). lia.
Qed.

Lemma used_cases :
  used rb = if iRearPos rb >=? iFrontPos rb then iRearPos rb - iFrontPos rb
            else iBufSize rb - iFrontPos rb + iRearPos rb.
Proof.
  destruct Hwf. unfold used. rewrite Z.geb_leb.
  destruct (Z.leb_spec (iFrontPos rb) (iRearPos rb)).
  - apply Z.mod_small. lia.
  - symmetry. apply Z.mod_unique with (-1); lia.
Qed.

Lemma GetUseSize_used : GetUseSize rb = used rb.
Proof.
  destruct Hwf. rewrite used_cases. unfold GetUseSize. rewrite Z.geb_leb.
  destruct (Z.leb_spec (iFrontPos rb) (iRearPos rb)); by unwrap.
Qed.

Lemma GetFreeSize_free : GetFreeSize rb = capacity rb - used rb.
Proof.
  pose proof used_range. destruct Hwf. unfold GetFreeSize, capacity in *.
  rewrite GetUseSize_used. by unwrap.
Qed.

Lemma zlen_contents : zlen (contents rb) = used rb.
Proof. apply zlen_arc. apply used_range. Qed.

Lemma rear_after_used : (iFrontPos rb + used rb) mod iBufSize rb = iRearPos rb.
Proof.
  destruct Hwf. unfold used. rewrite Zplus_mod_idemp_r.
  replace (_ + _) with (iRearPos rb) by lia. by apply Z.mod_small.
Qed.

Lemma bytes_ok_contents : bytes_ok (contents rb).
Proof. apply bytes_ok_arc. apply Hwf. Qed.
End Sizes.
#[export] Hint Resolve bytes_ok_contents : core.

(** ** Operations *)

Lemma c_rem_pos a m : 0 <= a -> 0 < m -> c_rem a m = Ok (a mod m).
Proof.
  intros. unfold c_rem. destruct (Z.eqb_spec m 0); [lia|].
  by rewrite Z.rem_mod_nonneg by lia.
Qed.

Lemma Zgtb_ltb_if {A} a b (x y : A) : (if a >? b then x else y) = if b <? a then x else y.
Proof. by rewrite Z.gtb_ltb. Qed.

(** The [min] both copying loops compute. *)
Lemma clamp_min a b : (if a <? b then a else b) = Z.min a b.
Proof. destruct (Z.ltb_spec a b); lia. Qed.

Lemma clamp_min' a b : (if a >? b then b else a) = Z.min b a.
Proof. rewrite Z.gtb_ltb. destruct (Z.ltb_spec b a); lia. Qed.

(** Copying [n] bytes of an arc out, in one piece or two. *)
Lemma copy_out d p n (dest : list Z) doff iSize :
  0 <= p < zlen d -> 0 <= n <= zlen d -> n <= iSize < 2147483648 ->
  zlen d <= 1073741824 ->
  0 <= doff -> doff + n <= zlen dest ->
  (if i32 (p + n) >? zlen d
   then
     d1 ← memcpy_s dest doff iSize d p (i32 (zlen d - p));
     memcpy_s d1 (doff + i32 (zlen d - p)) (i32 (iSize - i32 (zlen d - p))) d 0
              (i32 (n - i32 (zlen d - p)))
   else memcpy_s dest doff iSize d p n) = Ok (splice dest doff (arc d p n)).
Proof.
  intros. unwrap. rewrite Zgtb_ltb_if. destruct (Z.ltb_spec (zlen d) (p + n)).
  - rewrite memcpy_s_ok by lia. cbn.
    rewrite memcpy_s_ok by (rewrite ?zlen_splice; rewrite ?zlen_slice; lia).
    rewrite arc_wrap by lia. f_equal.
    rewrite <- splice_splice_app by (rewrite ?zlen_slice; lia).
    by rewrite zlen_slice by lia.
  - rewrite memcpy_s_ok by lia. by rewrite arc_slice by lia.
Qed.

(** Copying [zlen bs] bytes in at the write position, in one piece or two. *)
Lemma copy_in d p bs n :
  0 <= p < zlen d -> zlen d <= 1073741824 -> 0 <= n <= zlen d -> n <= zlen bs ->
  (if i32 (p + n) >? zlen d
   then
     d1 ← memcpy_s d p (i32 (zlen d - p)) bs 0 (i32 (zlen d - p));
     memcpy_s d1 0 (zlen d) bs (i32 (zlen d - p)) (i32 (n - i32 (zlen d - p)))
   else memcpy_s d p (i32 (zlen d - p)) bs 0 n)
  = Ok (ring_put d p (slice bs 0 n)).
Proof.
  intros. unwrap. unfold ring_put. rewrite Zgtb_ltb_if, zlen_slice by lia.
  destruct (Z.ltb_spec (zlen d) (p + n)), (Z.leb_spec (p + n) (zlen d)); try lia.
  - rewrite memcpy_s_ok by lia. cbn.
    rewrite memcpy_s_ok by (rewrite ?zlen_splice; rewrite ?zlen_slice; lia).
    by rewrite !slice_slice by lia.
  - by rewrite memcpy_s_ok by lia.
Qed.

(** A write of [bs] behind the queue extends the queue by [bs]. *)
Lemma contents_ring_put rb bs :
  wf rb -> bytes_ok bs -> zlen bs <= capacity rb - used rb ->
  let rb' := mkRing (iFrontPos rb) ((iRearPos rb + zlen bs) mod iBufSize rb) (iBufSize rb)
                    (ring_put (data rb) (iRearPos rb) bs) in
  wf rb' /\ contents rb' = contents rb ++ bs.
Proof.
  intros Hwf Hb Hfit rb'. pose proof (used_range rb Hwf). pose proof (zlen_nonneg bs).
  pose proof (rear_after_used rb Hwf) as Hrear.
  destruct Hwf as [Hs Hf Hr Hd Hby]. unfold capacity in *.
  assert (Hused : used rb' = used rb + zlen bs).
  { unfold used at 1. cbn. rewrite Zminus_mod_idemp_l.
    replace (_ - _) with ((iRearPos rb - iFrontPos rb) + zlen bs) by lia.
    rewrite <- Zplus_mod_idemp_l. fold (used rb). apply Z.mod_small. lia. }
  split.
  - split; cbn; try done.
    + apply Z.mod_pos_bound; lia.
    + rewrite zlen_ring_put; lia.
    + apply bytes_ok_ring_put; lia || done.
  - unfold contents. rewrite Hused. cbn. rewrite arc_app by lia. f_equal.
    + apply arc_ring_put_before; rewrite ?Hd; lia || done.
    + rewrite <- arc_mod, zlen_ring_put, Hd, Hrear by lia.
      apply arc_ring_put_same; lia.
Qed.

Lemma Enqueue_ok rb src iSize :
  wf rb -> bytes_ok src -> 0 <= iSize <= zlen src -> zlen src < 2147483648 ->
  let n := Z.min (capacity rb - used rb) iSize in
  let rb' := mkRing (iFrontPos rb) ((iRearPos rb + n) mod iBufSize rb) (iBufSize rb)
                    (ring_put (data rb) (iRearPos rb) (slice src 0 n)) in
  Enqueue rb src iSize = Ok (rb', n) /\ wf rb' /\ contents rb' = contents rb ++ slice src 0 n.
Proof.
  intros Hwf Hb Hi Hsrc n rb'. pose proof (used_range rb Hwf).
  assert (Hn : zlen (slice src 0 n) = n) by (apply zlen_slice; lia).
  pose proof (contents_ring_put rb (slice src 0 n) Hwf) as Hc. cbn in Hc. rewrite Hn in Hc.
  split; [|apply Hc; auto; lia].
  unfold Enqueue. rewrite clamp_min, GetFreeSize_free by done. fold n. clear Hc Hn.
  destruct (Hwf) as [Hs Hf Hr Hd _]. unfold capacity in *. subst rb'.
  rewrite <- Hd. rewrite copy_in by lia. cbn. unwrap. by rewrite c_rem_pos by lia.
Qed.

Lemma Peek_ok rb dest doff iSize :
  wf rb -> 0 <= iSize < 2147483648 -> 0 <= doff ->
  let n := Z.min (used rb) iSize in
  doff + n <= zlen dest ->
  Peek rb dest doff iSize = Ok (splice dest doff (take (Z.to_nat iSize) (contents rb)), n).
Proof.
  intros Hwf Hi Hdoff n Hfit. pose proof (used_range rb Hwf).
  unfold Peek. rewrite clamp_min, GetUseSize_used by done. fold n.
  destruct (Hwf) as [Hs Hf Hr Hd _]. unfold capacity in *.
  rewrite <- Hd. rewrite copy_out by lia. cbn. do 3 f_equal.
  unfold contents. destruct (Z.le_ge_cases iSize (used rb)).
  - rewrite arc_take by lia. f_equal. lia.
  - rewrite take_ge; [f_equal; lia|].
    pose proof (zlen_arc (data rb) (iFrontPos rb) (used rb)). unfold zlen in *. lia.
Qed.

(** Taking [n] bytes off the front by moving the read position. *)
Lemma contents_advance rb n :
  wf rb -> 0 <= n <= used rb ->
  let rb' := mkRing ((iFrontPos rb + n) mod iBufSize rb) (iRearPos rb) (iBufSize rb) (data rb) in
  wf rb' /\ contents rb' = drop (Z.to_nat n) (contents rb).
Proof.
  intros Hwf Hn rb'. pose proof (used_range rb Hwf). destruct Hwf as [Hs Hf Hr Hd Hby].
  unfold capacity in *.
  assert (Hused : used rb' = used rb - n).
  { unfold used at 1. cbn. rewrite Zminus_mod_idemp_r.
    replace (_ - _) with ((iRearPos rb - iFrontPos rb) - n) by lia.
    rewrite <- Zminus_mod_idemp_l. fold (used rb). apply Z.mod_small. lia. }
  split.
  - split; cbn; try done. apply Z.mod_pos_bound; lia.
  - unfold contents at 1. rewrite Hused. cbn. rewrite <- Hd at 1. rewrite arc_mod.
    symmetry. by apply arc_drop.
Qed.

Lemma MoveFront_ok rb n :
  wf rb -> 0 <= n ->
  let m := Z.min (used rb) n in
  exists rb', MoveFront rb n = Ok (rb', (iFrontPos rb + m) mod iBufSize rb) /\
    rb' = mkRing ((iFrontPos rb + m) mod iBufSize rb) (iRearPos rb) (iBufSize rb) (data rb) /\
    wf rb' /\ contents rb' = drop (Z.to_nat n) (contents rb).
Proof.
  intros Hwf Hn m. pose proof (used_range rb Hwf).
  pose proof (zlen_contents rb Hwf) as Hlen.
  eexists. split; [|split; [reflexivity|]].
  - destruct Hwf. unfold MoveFront, capacity in *.
    rewrite clamp_min', GetUseSize_used by (split; auto). fold m. unwrap.
    by rewrite c_rem_pos by lia.
  - destruct (contents_advance rb m Hwf) as [Hwf' ->]; [lia|]. split; [done|].
    destruct (Z.le_ge_cases n (used rb)); [f_equal; lia|].
    unfold zlen in Hlen. rewrite !drop_ge; lia || done.
Qed.

Lemma Dequeue_ok rb dest doff iSize :
  wf rb -> 0 <= iSize < 2147483648 -> 0 <= doff ->
  let n := Z.min (used rb) iSize in
  doff + n <= zlen dest ->
  exists rb', Dequeue rb dest doff iSize =
      Ok (rb', splice dest doff (take (Z.to_nat iSize) (contents rb)), n) /\
    iBufSize rb' = iBufSize rb /\ wf rb' /\ contents rb' = drop (Z.to_nat iSize) (contents rb).
Proof.
  intros Hwf Hi Hdoff n Hfit.
  destruct (MoveFront_ok rb iSize Hwf ltac:(lia)) as (rb' & Hm & Hrb' & Hwf' & Hc).
  exists rb'. split; [|by subst].
  pose proof (Peek_ok rb dest doff iSize Hwf Hi Hdoff Hfit) as Hp.
  unfold Dequeue, Peek in *.
  apply bind_Ok in Hp. destruct Hp as (d & -> & Hp). injection Hp as -> Hmin. cbn.
  unfold MoveFront in Hm. rewrite clamp_min' in Hm. rewrite !clamp_min in *.
  apply bind_Ok in Hm. destruct Hm as (fr & -> & Hm). cbn.
  injection Hm as <- _. by rewrite Hmin.
Qed.

(** A read of more bytes than the destination has room for. *)
Lemma Dequeue_overruns rb dest doff n :
  wf rb -> 0 < n <= used rb -> 0 <= doff -> zlen dest < doff + n ->
  Dequeue rb dest doff n = Fault OutOfBounds.
Proof.
  intros Hwf Hn Hd Hover. pose proof (used_range rb Hwf). unfold Dequeue.
  rewrite clamp_min, GetUseSize_used, Z.min_r by (done || lia).
  destruct Hwf as [Hs Hf Hr Hz _]. unfold capacity in *. unwrap.
  rewrite Zgtb_ltb_if. destruct (Z.ltb_spec (iBufSize rb) (iFrontPos rb + n)).
  - destruct (Z.lt_ge_cases (zlen dest) (doff + (iBufSize rb - iFrontPos rb))).
    + by rewrite memcpy_s_overruns by lia.
    + rewrite memcpy_s_ok by lia. cbn [mbind res_bind].
      rewrite memcpy_s_overruns; [done|lia|lia|lia|lia|].
      rewrite zlen_splice; rewrite ?zlen_slice; lia.
  - by rewrite memcpy_s_overruns by lia.
Qed.

Lemma ClearBuffer_ok rb : wf rb -> wf (ClearBuffer rb) /\ contents (ClearBuffer rb) = [].
Proof.
  intros [Hs Hf Hr Hd Hby]. split; [split; cbn; auto; lia|].
  unfold contents, used. cbn. by rewrite Z.mod_0_l by lia.
Qed.

Lemma fresh_ring_ok n :
  0 < n <= 1073741824 ->
  let rb := mkRing 0 0 n (replicate (Z.to_nat n) 0) in
  wf rb /\ contents rb = [] /\ capacity rb = n - 1.
Proof.
  intros Hn rb. split_and!; [|unfold contents, used; cbn; by rewrite Z.mod_0_l by lia|done].
  split; cbn; auto; try lia. apply zlen_replicate. lia.
Qed.

Lemma CRingBuffer_default_ok :
  wf CRingBuffer_default /\ contents CRingBuffer_default = [] /\
  capacity CRingBuffer_default = BUF_SIZE - 1.
Proof. apply fresh_ring_ok. unfold BUF_SIZE. lia. Qed.

(** The contiguous sizes: what is left before the end of the block. *)
Lemma DirectEnqueueSize_ok rb :
  wf rb -> DirectEnqueueSize rb = Z.min (capacity rb - used rb) (iBufSize rb - iRearPos rb).
Proof.
  intros Hwf. rewrite used_cases by done. destruct Hwf. unfold DirectEnqueueSize, capacity.
  rewrite Z.gtb_ltb, Z.geb_leb.
  destruct (Z.ltb_spec (iRearPos rb) (iFrontPos rb)),
    (Z.leb_spec (iFrontPos rb) (iRearPos rb)), (Z.eqb_spec (iFrontPos rb) 0);
    try lia; unwrap; lia.
Qed.

Lemma DirectDequeueSize_ok rb :
  wf rb -> DirectDequeueSize rb = Z.min (used rb) (iBufSize rb - iFrontPos rb).
Proof.
  intros Hwf. rewrite used_cases by done. destruct Hwf. unfold DirectDequeueSize.
  rewrite Z.geb_leb. destruct (Z.leb_spec (iFrontPos rb) (iRearPos rb)); unwrap; lia.
Qed.

(** [MoveRear] after bytes were written behind the queue from outside. *)
Lemma MoveRear_ok rb bs :
  wf rb -> bytes_ok bs -> zlen bs <= capacity rb - used rb ->
  let rb1 := mkRing (iFrontPos rb) (iRearPos rb) (iBufSize rb)
                    (ring_put (data rb) (iRearPos rb) bs) in
  exists rb2, MoveRear rb1 (zlen bs) = Ok (rb2, iRearPos rb2) /\
    iBufSize rb2 = iBufSize rb /\ wf rb2 /\ contents rb2 = contents rb ++ bs.
Proof.
  intros Hwf Hb Hfit rb1. pose proof (used_range rb Hwf). pose proof (zlen_nonneg bs).
  destruct (contents_ring_put rb bs Hwf Hb Hfit) as [Hwf2 Hc].
  eexists. split; [|split; [|split; [exact Hwf2|exact Hc]]]; [|done].
  assert (Hwf1 : wf rb1).
  { destruct Hwf. unfold capacity in *. split; cbn; try done.
    - rewrite zlen_ring_put; lia.
    - apply bytes_ok_ring_put; lia || done. }
  unfold MoveRear. rewrite clamp_min', GetFreeSize_free by done.
  assert (Hu : used rb1 = used rb) by done. destruct Hwf. unfold capacity in *. rewrite Hu. cbn.
  rewrite Z.min_r by lia. unwrap. by rewrite c_rem_pos by lia.
Qed.

(** ** The ring is a bounded byte queue

    Runs of operations on the ring and on the abstract queue, with what each returns. *)

Inductive op :=
  | OEnqueue (bs : list Z) (n : Z)
  | ODequeue (n : Z)
  | OPeek (n : Z)
  | OMoveFront (n : Z)
  | OReceive (bs : list Z)   (** the kernel writes [bs] behind the queue, then [MoveRear] *)
  | OClear.

Definition valid_op (o : op) : Prop :=
  match o with
  | OEnqueue bs n => bytes_ok bs /\ 0 <= n <= zlen bs /\ zlen bs < 2147483648
  | ODequeue n | OPeek n => 0 <= n < 2147483648
  | OMoveFront n => 0 <= n
  | OReceive bs => bytes_ok bs
  | OClear => True
  end.

Definition run_op (rb : CRingBuffer) (o : op) : res (CRingBuffer * (list Z * Z)) :=
  match o with
  | OEnqueue bs n => '(rb', k) ← Enqueue rb bs n; Ok (rb', ([], k))
  | ODequeue n =>
      '(rb', d, k) ← Dequeue rb (replicate (Z.to_nat n) 0) 0 n;
      Ok (rb', (slice d 0 k, k))
  | OPeek n =>
      '(d, k) ← Peek rb (replicate (Z.to_nat n) 0) 0 n; Ok (rb, (slice d 0 k, k))
  | OMoveFront n => '(rb', _) ← MoveFront rb n; Ok (rb', ([], 0))
  | OReceive bs =>
      let bs' := slice bs 0 (Z.min (GetFreeSize rb) (zlen bs)) in
      let rb1 := mkRing (iFrontPos rb) (iRearPos rb) (iBufSize rb)
                        (ring_put (data rb) (iRearPos rb) bs') in
      '(rb', _) ← MoveRear rb1 (zlen bs'); Ok (rb', ([], 0))
  | OClear => Ok (ClearBuffer rb, ([], 0))
  end.

Definition abs_op (cap : Z) (q : list Z) (o : op) : list Z * (list Z * Z) :=
  match o with
  | OEnqueue bs n =>
      let '(q', k) := ByteQueue.push cap q (take (Z.to_nat n) bs) in (q', ([], k))
  | ODequeue n => (ByteQueue.drop q n, (ByteQueue.peek q n, Z.min (zlen q) n))
  | OPeek n => (q, (ByteQueue.peek q n, Z.min (zlen q) n))
  | OMoveFront n => (ByteQueue.drop q n, ([], 0))
  | OReceive bs => (fst (ByteQueue.push cap q bs), ([], 0))
  | OClear => ([], ([], 0))
  end.

Fixpoint run_ops (rb : CRingBuffer) (os : list op) : res (CRingBuffer * list (list Z * Z)) :=
  match os with
  | [] => Ok (rb, [])
  | o :: os =>
      '(rb1, out) ← run_op rb o;
      '(rb2, outs) ← run_ops rb1 os;
      Ok (rb2, out :: outs)
  end.

Fixpoint abs_ops (cap : Z) (q : list Z) (os : list op) : list Z * list (list Z * Z) :=
  match os with
  | [] => (q, [])
  | o :: os =>
      let '(q1, out) := abs_op cap q o in
      let '(q2, outs) := abs_ops cap q1 os in
      (q2, out :: outs)
  end.

Lemma take_slice l n : take (Z.to_nat n) l = slice l 0 n.
Proof. unfold slice. by rewrite drop_0. Qed.

(** What a read copies to the start of a block as large as the request. *)
Lemma read_back q n :
  0 <= n ->
  slice (splice (replicate (Z.to_nat n) 0) 0 (take (Z.to_nat n) q)) 0 (Z.min (zlen q) n)
  = take (Z.to_nat n) q.
Proof.
  intros. assert (Hl : zlen (take (Z.to_nat n) q) = Z.min (zlen q) n).
  { unfold zlen. rewrite length_take. lia. }
  rewrite <- Hl. apply slice_splice_same; rewrite ?zlen_replicate; lia.
Qed.

Lemma run_op_refines rb o :
  wf rb -> valid_op o ->
  exists rb' out, run_op rb o = Ok (rb', out) /\ wf rb' /\ capacity rb' = capacity rb /\
    abs_op (capacity rb) (contents rb) o = (contents rb', out).
Proof.
  intros Hwf Hv. pose proof (zlen_contents rb Hwf) as Hl. pose proof (used_range rb Hwf).
  destruct o as [bs n|n|n|n|bs|]; cbn in Hv |- *.
  - destruct Hv as (Hb & Hn & Hs).
    destruct (Enqueue_ok rb bs n Hwf Hb Hn Hs) as (-> & Hwf' & Hc). cbn.
    do 2 eexists. split_and!; [reflexivity|done|done|]. rewrite Hc.
    unfold ByteQueue.push, ByteQueue.free. rewrite Hl.
    assert (zlen (take (Z.to_nat n) bs) = n) as ->.
    { rewrite take_slice, zlen_slice; lia. }
    rewrite (take_slice bs n), take_slice, slice_slice by lia. done.
  - destruct (Dequeue_ok rb (replicate (Z.to_nat n) 0) 0 n Hwf ltac:(lia) ltac:(lia)
      ltac:(rewrite zlen_replicate; lia)) as (rb' & -> & Hs & Hwf' & Hc).
    cbn. do 2 eexists. split_and!; [reflexivity|done|unfold capacity; lia|].
    by rewrite Hc, <- Hl, read_back by lia.
  - rewrite (Peek_ok rb (replicate (Z.to_nat n) 0) 0 n Hwf ltac:(lia) ltac:(lia)
      ltac:(rewrite zlen_replicate; lia)). cbn.
    do 2 eexists. split_and!; [reflexivity|done|done|].
    by rewrite <- Hl, read_back by lia.
  - destruct (MoveFront_ok rb n Hwf Hv) as (rb' & -> & Hrb & Hwf' & Hc). cbn.
    do 2 eexists. split_and!; [reflexivity|done|by subst|]. by rewrite Hc.
  - pose proof (zlen_nonneg bs). rewrite GetFreeSize_free by done.
    set (bs' := slice bs 0 _).
    assert (zlen bs' = Z.min (capacity rb - used rb) (zlen bs)) by (apply zlen_slice; lia).
    destruct (MoveRear_ok rb bs' Hwf) as (rb' & -> & Hs & Hwf' & Hc); [by apply bytes_ok_slice|lia|].
    cbn. do 2 eexists. split_and!; [reflexivity|done|unfold capacity; lia|].
    unfold ByteQueue.push, ByteQueue.free. cbn. by rewrite Hc, Hl, take_slice.
  - destruct (ClearBuffer_ok rb Hwf) as [Hwf' Hc].
    do 2 eexists. split_and!; [reflexivity|done|done|]. by rewrite Hc.
Qed.

(** C3.  Refinement: any sequence of [CRingBuffer] calls whose arguments describe readable
    memory runs without fault and returns exactly what a bounded FIFO queue of bytes of
    capacity [iBufSize - 1] returns, call by call; the ring's contents stay those of the
    queue and the invariant is kept (so no position leaves the block and no [int] wraps). *)
Theorem ring_refines_queue rb os :
  wf rb -> Forall valid_op os ->
  exists rb' outs, run_ops rb os = Ok (rb', outs) /\ wf rb' /\
    abs_ops (capacity rb) (contents rb) os = (contents rb', outs).
Proof.
  intros Hwf Hos. revert rb Hwf. induction Hos as [|o os Ho _ IH]; intros rb Hwf; cbn; [eauto|].
  destruct (run_op_refines rb o Hwf Ho) as (rb1 & out & -> & Hwf1 & Hcap & ->). cbn.
  destruct (IH rb1 Hwf1) as (rb2 & outs & -> & Hwf2 & Habs). cbn.
  rewrite Hcap in Habs. rewrite Habs. eauto.
Qed.

Definition ring5 : CRingBuffer := mkRing 0 0 5 [0; 0; 0; 0; 0].

Lemma ring5_wf : wf ring5.
Proof. split; cbn; try lia; [done|solve_bytes]. Qed.

(** Fills the ring, drains part of it, goes round the end and overfills. *)
Definition ring5_ops : list op :=
  [OEnqueue [1; 2; 3] 3; ODequeue 2; OReceive [4; 5]; OEnqueue [6; 7; 8] 3; OPeek 9; ODequeue 4].

Lemma ring_refines_queue_witness :
  exists rb' outs, run_ops ring5 ring5_ops = Ok (rb', outs) /\ wf rb' /\
    abs_ops 4 [] ring5_ops = (contents rb', outs) /\
    outs = [([], 3); ([1; 2], 2); ([], 0); ([], 1); ([3; 4; 5; 6], 4); ([3; 4; 5; 6], 4)].
Proof.
  destruct (ring_refines_queue ring5 ring5_ops ring5_wf) as (rb' & outs & H & Hwf & Habs).
  { repeat first [apply Forall_nil_2 | apply Forall_cons_2];
    cbn; rewrite ?zlen_cons; unfold zlen; cbn; split_and?; try lia; solve_bytes. }
  exists rb', outs. split_and!; [exact H|exact Hwf|exact Habs|].
  vm_compute in Habs. congruence.
Defined.

(** The copy of [ReSize], in one piece or two: the bytes in flight, when they fit. *)
Lemma ReSize_copy rb size nd :
  wf rb -> 0 < size <= 1073741824 -> zlen nd = size ->
    (if iFrontPos rb <=? iRearPos rb
     then memcpy nd 0 (data rb) (iFrontPos rb) (used rb)
     else
       nd1 ← memcpy nd 0 (data rb) (iFrontPos rb) (i32 (iBufSize rb - iFrontPos rb));
       memcpy nd1 (i32 (iBufSize rb - iFrontPos rb)) (data rb) 0 (iRearPos rb))
    = if used rb <=? size then Ok (splice nd 0 (contents rb)) else Fault OutOfBounds.
Proof.
  intros Hwf Hsize Hnd. pose proof (used_range rb Hwf) as Hu.
  pose proof (used_cases rb Hwf) as Hc. pose proof (zlen_contents rb Hwf) as Hl.
  unfold capacity in *. unfold contents in *. destruct Hwf as [Hs Hf Hr Hd Hby].
  rewrite Z.geb_leb in Hc. destruct (Z.leb_spec (iFrontPos rb) (iRearPos rb)).
  - rewrite memcpy_cases by lia. rewrite arc_slice by lia. by rewrite Hnd, Z.add_0_l.
  - unwrap. rewrite memcpy_cases by lia. rewrite Hnd, Z.add_0_l.
    rewrite arc_wrap by lia. rewrite Hd.
    destruct (Z.leb_spec (iBufSize rb - iFrontPos rb) size);
      destruct (Z.leb_spec (used rb) size); try lia; try done; cbn;
      rewrite memcpy_cases by (rewrite ?zlen_splice; rewrite ?zlen_slice; lia);
      rewrite zlen_splice by (rewrite ?zlen_slice; lia).
    + destruct (Z.leb_spec (iBufSize rb - iFrontPos rb + iRearPos rb) (zlen nd)); [|lia].
      rewrite <- splice_splice_app by (rewrite ?zlen_slice; lia).
      rewrite zlen_slice by lia. do 3 f_equal; lia.
    + destruct (Z.leb_spec (iBufSize rb - iFrontPos rb + iRearPos rb) (zlen nd)); [lia|done].
Qed.

Lemma ReSize_cases rb size nd :
  wf rb -> 0 < size <= 1073741824 -> zlen nd = size ->
  ReSize rb size nd =
    if used rb <=? size then Ok (mkRing 0 (used rb mod size) size (splice nd 0 (contents rb)))
    else Fault OutOfBounds.
Proof.
  intros Hwf Hsize Hnd. pose proof (used_range rb Hwf) as Hu.
  unfold ReSize. destruct (Z.leb_spec size 0); [lia|].
  rewrite GetUseSize_used, (ReSize_copy rb size nd) by done.
  destruct (Z.leb_spec (used rb) size); cbn; [|done]. by rewrite c_rem_pos by lia.
Qed.

(** C40.  [ReSize] keeps the bytes in flight exactly when they fit with a byte to spare: with
    [size] larger than what is in use the contents survive; with [size] equal to it the
    result is the empty ring (every byte is lost, since front and rear coincide); with less
    room the copy runs over the new block. *)
Theorem ReSize_spec rb size nd :
  wf rb -> 0 < size <= 1073741824 -> zlen nd = size -> bytes_ok nd ->
  (used rb < size ->
     exists rb', ReSize rb size nd = Ok rb' /\ wf rb' /\ contents rb' = contents rb /\
                 capacity rb' = size - 1) /\
  (used rb = size ->
     exists rb', ReSize rb size nd = Ok rb' /\ wf rb' /\ contents rb' = []) /\
  (size < used rb -> ReSize rb size nd = Fault OutOfBounds).
Proof.
  intros Hwf Hsize Hnd Hnb. pose proof (used_range rb Hwf) as Hu.
  rewrite ReSize_cases by done. pose proof (zlen_contents rb Hwf) as Hl.
  assert (Hwf' : used rb <= size ->
    wf (mkRing 0 (used rb mod size) size (splice nd 0 (contents rb)))).
  { intros. split; cbn; try lia.
    - apply Z.mod_pos_bound. lia.
    - rewrite zlen_splice; lia.
    - auto. }
  unfold capacity in Hu. destruct (Z.leb_spec (used rb) size); split_and!; intros; try lia.
  - eexists. split_and!; [done|auto| |done].
    set (q := contents rb) in *. set (u := used rb) in *. unfold contents, used.
    cbn. rewrite Z.sub_0_r, Zmod_mod, Z.mod_small by lia.
    rewrite arc_slice by (rewrite ?zlen_splice; lia). rewrite <- Hl at 1.
    by rewrite slice_splice_same by lia.
  - eexists. split_and!; [done|auto|].
    set (q := contents rb) in *. set (u := used rb) in *. unfold contents, used. cbn.
    replace u with size by lia. by rewrite Z_mod_same_full.
  - done.
Qed.

Lemma ReSize_spec_witness :
  let rb := mkRing 3 1 5 [9; 0; 0; 7; 8] in
  contents rb = [7; 8; 9] /\
  (exists rb', ReSize rb 4 [0; 0; 0; 0] = Ok rb' /\ contents rb' = [7; 8; 9]) /\
  (exists rb', ReSize rb 3 [0; 0; 0] = Ok rb' /\ contents rb' = []) /\
  ReSize rb 2 [0; 0] = Fault OutOfBounds.
Proof.
  cbn zeta. assert (Hwf : wf (mkRing 3 1 5 [9; 0; 0; 7; 8])).
  { split; cbn; try lia; [done|solve_bytes]. }
  split; [reflexivity|]. split_and!.
  - destruct (ReSize_spec _ 4 [0; 0; 0; 0] Hwf) as ((rb' & ? & ? & Hc & _) & _);
      [lia|done|solve_bytes|done|]. exists rb'. split; [done|by rewrite Hc].
  - destruct (ReSize_spec _ 3 [0; 0; 0] Hwf) as (_ & (rb' & ? & ? & Hc) & _);
      [lia|done|solve_bytes|done|]. by exists rb'.
  - destruct (ReSize_spec _ 2 [0; 0] Hwf) as (_ & _ & Hc);
      [lia|done|solve_bytes|by apply Hc].
Defined.
