(* ===== verification/Packet.v ===== *)
(** * CPacket: the serialization buffer (CPacket.h, CPacket.cpp)

    A packet is one heap block: a 5-byte message header followed by the payload, with read
    and write positions into the payload.  [Runtime] is what the code gets from the C
    library: the result of [malloc], and the fuel of the loops (no loop of a returning call
    uses any).  The last part characterises every write: appended in place, past the end of
    the block, or never returning. *)

From S2P Require Import Prelude.

Class Runtime := {
  fuel : nat;
  malloc : Z -> option (list Z);
  malloc_size : forall n m, malloc n = Some m -> zlen m = n
}.

Definition MESSAGE_HEADER_LEN : Z := 5.
Definition eBUFFER_DEFAULT : Z := 512.
Definition eBUFFER_HEADER_SIZE : Z := MESSAGE_HEADER_LEN.

(** [m_cpHead] is the block behind [m_cpHeadPtr] ([None] for the null pointer);
    [m_cpPayloadBuffer] is always [m_cpHeadPtr + eBUFFER_HEADER_SIZE]. *)
Record CPacket := mkPacket {
  m_iMaxSize : Z;
  m_iFront : Z;
  m_iRear : Z;
  m_iUsingSize : Z;
  m_lRefCount : Z;
  m_cpHead : option (list Z);
  m_bIsEncoded : bool
}.

Definition with_pos (p : CPacket) (front rear use : Z) : CPacket :=
  mkPacket (m_iMaxSize p) front rear use (m_lRefCount p) (m_cpHead p) (m_bIsEncoded p).

Definition with_head (p : CPacket) (max : Z) (m : list Z) : CPacket :=
  mkPacket max (m_iFront p) (m_iRear p) (m_iUsingSize p) (m_lRefCount p) (Some m)
           (m_bIsEncoded p).

Definition with_ref (p : CPacket) (r : Z) : CPacket :=
  mkPacket (m_iMaxSize p) (m_iFront p) (m_iRear p) (m_iUsingSize p) r (m_cpHead p)
           (m_bIsEncoded p).

Definition with_encoded (p : CPacket) (b : bool) : CPacket :=
  mkPacket (m_iMaxSize p) (m_iFront p) (m_iRear p) (m_iUsingSize p) (m_lRefCount p)
           (m_cpHead p) b.

(** The block behind the pointer; using it through null is a fault. *)
Definition head (p : CPacket) : res (list Z) := of_opt NullDeref (m_cpHead p).

(** ** Values written with [operator<<] and read with [operator>>]

    One constructor per overload; [FLOAT] and [DOUBLE] stand for their IEEE bit patterns,
    which is what the [memcpy] moves.  Values are little-endian on the target. *)
Inductive ty := BYTE | CHAR | WCHAR | SHORT | WORD | INT | DWORD | FLOAT | LONG | INT64 | DOUBLE.

#[export] Instance ty_eq_dec : EqDecision ty.
Proof. solve_decision. Defined.

Definition sizeof (t : ty) : Z :=
  match t with
  | BYTE | CHAR => 1
  | WCHAR | SHORT | WORD => 2
  | INT | DWORD | FLOAT | LONG => 4
  | INT64 | DOUBLE => 8
  end.

(** How the bits of a [t] are read as a number. *)
Definition of_bits (t : ty) (z : Z) : Z :=
  match t with
  | CHAR | SHORT | INT | LONG | INT64 => wrap_s (8 * sizeof t) z
  | _ => wrap_u (8 * sizeof t) z
  end.

Definition in_range (t : ty) (v : Z) : Prop :=
  match t with
  | CHAR | SHORT | INT | LONG | INT64 => - 2 ^ (8 * sizeof t - 1) <= v < 2 ^ (8 * sizeof t - 1)
  | _ => 0 <= v < 2 ^ (8 * sizeof t)
  end.

Fixpoint le_bytes (n : nat) (v : Z) : list Z :=
  match n with
  | O => []
  | S n => v mod 256 :: le_bytes n (v / 256)
  end.

Fixpoint le_value (bs : list Z) : Z :=
  match bs with
  | [] => 0
  | b :: bs => b + 256 * le_value bs
  end.

Definition bytes_of (t : ty) (v : Z) : list Z := le_bytes (Z.to_nat (sizeof t)) v.

(** ** Construction and the accessors *)

Definition GetBufferSize (p : CPacket) : Z := m_iMaxSize p.
Definition GetDataSize (p : CPacket) : Z := m_iUsingSize p.
Definition GetFreeSize (p : CPacket) : Z := i32 (m_iMaxSize p - m_iUsingSize p).
Definition PayloadCapacity (p : CPacket) : Z := i32 (m_iMaxSize p - eBUFFER_HEADER_SIZE).
Definition GetFront (p : CPacket) : Z := m_iFront p.
Definition GetRear (p : CPacket) : Z := m_iRear p.

(** Offsets of the two pointers into the block. *)
Definition GetHeaderPtr (p : CPacket) : Z := 0.
Definition GetBufferPtr (p : CPacket) : Z := eBUFFER_HEADER_SIZE.

Definition CPacket_new `{Runtime} : res CPacket :=
  m ← of_opt NullDeref (malloc eBUFFER_DEFAULT);
  m ← zero_memory m 0 eBUFFER_DEFAULT;
  Ok (mkPacket eBUFFER_DEFAULT 0 0 0 0 (Some m) false).

(** [Release]: frees the block; also what the destructor does. *)
Definition Release (p : CPacket) : CPacket :=
  mkPacket (m_iMaxSize p) (m_iFront p) (m_iRear p) (m_iUsingSize p) (m_lRefCount p) None
           (m_bIsEncoded p).

Definition Clear (p : CPacket) : res CPacket :=
  let p := with_encoded (with_pos p 0 0 0) false in
  match m_cpHead p with
  | None => Ok p
  | Some m => m ← zero_memory m 0 (m_iMaxSize p); Ok (with_head p (m_iMaxSize p) m)
  end.

(** [ZeroMemory] takes two arguments: the third is dropped, so the length is the literal 0. *)
Definition ClearPayload (p : CPacket) : res CPacket :=
  match m_cpHead p with
  | None => Ok p
  | Some m => m ← zero_memory m (GetBufferPtr p) 0; Ok (with_head p (m_iMaxSize p) m)
  end.

Definition AddRef (p : CPacket) : CPacket := with_ref p (i32 (m_lRefCount p + 1)).

(** The new packet, and whether its count reached 0 (it then goes back to the pool). *)
Definition SubRef (p : CPacket) : CPacket * bool :=
  let r := i32 (m_lRefCount p - 1) in (with_ref p r, r =? 0).

(** Both positions go back to the start once everything has been read. *)
Definition rewind (p : CPacket) : CPacket :=
  if m_iFront p =? m_iRear p then with_pos p 0 0 (m_iUsingSize p) else p.

Definition MoveWritePos (p : CPacket) (size : Z) : CPacket * Z :=
  if size <=? 0 then (p, 0)
  else
    let canWrite := GetFreeSize p in
    let move := if size >? canWrite then canWrite else size in
    (with_pos p (m_iFront p) (i32 (m_iRear p + move)) (i32 (m_iUsingSize p + move)), move).

Definition MoveReadPos (p : CPacket) (size : Z) : CPacket * Z :=
  if size <=? 0 then (p, 0)
  else
    let canRead := GetDataSize p in
    let move := if size >? canRead then canRead else size in
    (rewind (with_pos p (i32 (m_iFront p + move)) (m_iRear p) (i32 (m_iUsingSize p - move))),
     move).

(** [while (payloadcap < size) newSize = (newSize <= 0) ? size : newSize * 2;]
    The condition reads [payloadcap], which the body does not change. *)
Fixpoint grow_loop (n : nat) (payloadcap size newSize : Z) : res Z :=
  if payloadcap <? size then
    match n with
    | O => OutOfFuel
    | S n =>
        grow_loop n payloadcap size (if newSize <=? 0 then size else i32 (newSize * 2))
    end
  else Ok newSize.

Definition IncreaseBufferSize `{Runtime} (p : CPacket) (addSize : Z) : res CPacket :=
  if addSize <=? 0 then Ok p
  else
    let payloadcap := PayloadCapacity p in
    let size := i32 (m_iUsingSize p + addSize) in
    if payloadcap >=? size then Ok p
    else
      newSize ← grow_loop fuel payloadcap size payloadcap;
      let newTotal := i32 (eBUFFER_HEADER_SIZE + newSize) in
      match malloc (u64 newTotal) with
      | None => Ok p
      | Some newBuffer =>
          newBuffer ← zero_memory newBuffer 0 newTotal;
          old ← head p;
          newBuffer ← memcpy newBuffer 0 old 0 (m_iMaxSize p);
          Ok (with_head p newTotal newBuffer)
      end.

(** Copies [bs] to the write position and moves it: the common end of [PutData] and
    [WriteValue]. *)
Definition append_raw (p : CPacket) (bs : list Z) (size : Z) : res CPacket :=
  m ← head p;
  m ← memcpy m (GetBufferPtr p + m_iRear p) bs 0 size;
  Ok (with_pos (with_head p (m_iMaxSize p) m) (m_iFront p) (i32 (m_iRear p + size))
               (i32 (m_iUsingSize p + size))).

Definition PutData `{Runtime} (p : CPacket) (bs : list Z) (size : Z) : res CPacket :=
  p ← (if GetFreeSize p <? size then IncreaseBufferSize p size else Ok p);
  append_raw p bs size.

Definition WriteValue `{Runtime} (p : CPacket) (t : ty) (v : Z) : res CPacket :=
  let need := sizeof t in
  p ← (if GetFreeSize p <? need then IncreaseBufferSize p (i32 (need * 2)) else Ok p);
  append_raw p (bytes_of t v) need.

(** [GetData(dst + doff, size)]: without enough data it returns having done nothing. *)
Definition GetData (p : CPacket) (dst : list Z) (doff size : Z) : res (CPacket * list Z) :=
  if GetDataSize p <? size then Ok (p, dst)
  else
    m ← head p;
    dst ← memcpy dst doff m (GetBufferPtr p + m_iFront p) size;
    Ok (rewind (with_pos p (i32 (m_iFront p + size)) (m_iRear p)
                         (i32 (m_iUsingSize p - size))), dst).

(** [val] keeps the value it had ([old]) when there is not enough data. *)
Definition ReadValue (p : CPacket) (t : ty) (old : Z) : res (CPacket * Z) :=
  let need := sizeof t in
  if GetDataSize p <? need then Ok (p, old)
  else
    m ← head p;
    bs ← load m (GetBufferPtr p + m_iFront p) need;
    Ok (rewind (with_pos p (i32 (m_iFront p + need)) (m_iRear p)
                         (i32 (m_iUsingSize p - need))), of_bits t (le_value bs)).

Definition SetMessageHeader (p : CPacket) (header : list Z) (len : Z) : res CPacket :=
  m ← head p;
  m ← memcpy m 0 header 0 len;
  Ok (with_head p (m_iMaxSize p) m).

(** ** Little-endian values *)

Lemma zlen_le_bytes n v : zlen (le_bytes n v) = Z.of_nat n.
Proof.
  revert v. induction n as [|n IH]; intros v; cbn [le_bytes]; [done|].
  rewrite zlen_cons, IH. lia.
Qed.

Lemma bytes_ok_le_bytes n v : bytes_ok (le_bytes n v).
Proof.
  revert v. induction n; intros v; cbn; constructor; [|done].
  apply Z.mod_pos_bound. lia.
Qed.

Lemma le_value_le_bytes n v : le_value (le_bytes n v) = v mod 2 ^ (8 * Z.of_nat n).
Proof.
  revert v. induction n as [|n IH]; intros v; cbn [le_bytes le_value]; [by rewrite Z.mod_1_r|].
  rewrite IH, Nat2Z.inj_succ.
  replace (8 * Z.succ (Z.of_nat n)) with (8 + 8 * Z.of_nat n) by lia.
  rewrite Z.pow_add_r by lia. change (2 ^ 8) with 256.
  assert (0 < 2 ^ (8 * Z.of_nat n)) by (apply Z.pow_pos_nonneg; lia).
  rewrite Z.rem_mul_r by lia. done.
Qed.

Lemma zlen_bytes_of t v : zlen (bytes_of t v) = sizeof t.
Proof. unfold bytes_of. rewrite zlen_le_bytes. by destruct t. Qed.

Lemma sizeof_range t : 1 <= sizeof t <= 8.
Proof. destruct t; cbn; lia. Qed.

Lemma bytes_ok_bytes_of t v : bytes_ok (bytes_of t v).
Proof. apply bytes_ok_le_bytes. Qed.
#[export] Hint Resolve bytes_ok_bytes_of : core.

(** What is written is what is read back. *)
Lemma of_bits_bytes_of t v : in_range t v -> of_bits t (le_value (bytes_of t v)) = v.
Proof.
  intros Hv. unfold bytes_of. rewrite le_value_le_bytes, Z2Nat.id by (destruct t; cbn; lia).
  unfold of_bits, in_range in *. pose proof (sizeof_range t) as Hs.
  assert (Hu : wrap_u (8 * sizeof t) (v mod 2 ^ (8 * sizeof t)) = v mod 2 ^ (8 * sizeof t)).
  { unfold wrap_u. apply Zmod_mod. }
  assert (Hw : wrap_s (8 * sizeof t) (v mod 2 ^ (8 * sizeof t)) = wrap_s (8 * sizeof t) v).
  { unfold wrap_s. by rewrite Zplus_mod_idemp_l. }
  destruct t; rewrite ?Hu, ?Hw; try (by apply Z.mod_small); by apply wrap_s_id; [lia|].
Qed.

(** ** The packet invariant *)

Definition PAYLOAD_MAX : Z := 507.

(** A live packet whose positions are inside its block; [m_iMaxSize] is still the initial
    one, as no write ever enlarges the block ([write_cases]). *)
Record wf (p : CPacket) (m : list Z) : Prop := mkWf {
  wf_head : m_cpHead p = Some m;
  wf_max : m_iMaxSize p = eBUFFER_DEFAULT;
  wf_len : zlen m = eBUFFER_DEFAULT;
  wf_bytes : bytes_ok m;
  wf_front : 0 <= m_iFront p;
  wf_using : m_iUsingSize p = m_iRear p - m_iFront p;
  wf_order : m_iFront p <= m_iRear p;
  wf_rear : m_iRear p <= PAYLOAD_MAX
}.

(** The bytes written and not yet read. *)
Definition payload (p : CPacket) (m : list Z) : list Z :=
  slice m (GetBufferPtr p + m_iFront p) (m_iUsingSize p).

Ltac packet_unfold :=
  unfold GetBufferPtr, GetDataSize, GetFreeSize, PayloadCapacity, PAYLOAD_MAX,
    eBUFFER_HEADER_SIZE, MESSAGE_HEADER_LEN, eBUFFER_DEFAULT in *.

Lemma head_ok p m : wf p m -> head p = Ok m.
Proof. intros Hwf. unfold head. by rewrite (wf_head p m Hwf). Qed.

Lemma head_with_head p max m : head (with_head p max m) = Ok m.
Proof. done. Qed.

Lemma zlen_payload p m : wf p m -> zlen (payload p m) = m_iUsingSize p.
Proof. intros []. unfold payload. packet_unfold. apply zlen_slice; lia. Qed.

Lemma CPacket_new_ok `{Runtime} m :
  malloc eBUFFER_DEFAULT = Some m ->
  exists p z, CPacket_new = Ok p /\ wf p z /\ payload p z = [] /\ m_lRefCount p = 0.
Proof.
  intros Hm. unfold CPacket_new. rewrite Hm. cbn. pose proof (malloc_size _ _ Hm) as Hlen.
  unfold zero_memory. rewrite u64_id by (packet_unfold; lia).
  rewrite store_ok by (rewrite ?zlen_replicate; packet_unfold; lia). cbn.
  do 2 eexists. split_and!; [reflexivity| |by unfold payload|done].
  split; cbn; try done; packet_unfold; try lia.
  - rewrite zlen_splice; rewrite ?zlen_replicate; lia.
  - rewrite splice_all; [auto|]. rewrite zlen_replicate; lia.
Qed.

Lemma Clear_ok p m :
  wf p m ->
  exists p' z, Clear p = Ok p' /\ wf p' z /\ payload p' z = [] /\ m_bIsEncoded p' = false /\
    m_lRefCount p' = m_lRefCount p /\ m_iFront p' = 0 /\ m_iRear p' = 0.
Proof.
  intros [Hh Hmax Hlen Hb Hf Hu Ho Hr]. unfold Clear. cbn. rewrite Hh, Hmax. cbn.
  unfold zero_memory. rewrite u64_id by (packet_unfold; lia).
  rewrite store_ok by (rewrite ?zlen_replicate; packet_unfold; lia). cbn.
  do 2 eexists. split_and!; [reflexivity| |by unfold payload|done|done|done|done].
  split; cbn; try done; packet_unfold; try lia.
  - rewrite zlen_splice; rewrite ?zlen_replicate; lia.
  - auto.
Qed.

(** ** Growth *)

Lemma grow_loop_diverges n payloadcap size newSize :
  payloadcap < size -> grow_loop n payloadcap size newSize = OutOfFuel.
Proof.
  intros H. revert newSize. induction n; intros newSize; cbn;
    destruct (Z.ltb_spec payloadcap size); (lia || done || apply IHn).
Qed.

(** [p'] is [p] with [bs] behind its payload and nothing else changed. *)
Record appended (p : CPacket) (m bs : list Z) (p' : CPacket) (m' : list Z) : Prop := {
  app_wf : wf p' m';
  app_payload : payload p' m' = payload p m ++ bs;
  app_rear : m_iRear p' = m_iRear p + zlen bs;
  app_front : m_iFront p' = m_iFront p;
  app_encoded : m_bIsEncoded p' = m_bIsEncoded p;
  app_ref : m_lRefCount p' = m_lRefCount p
}.

Section Writes.
Context `{Runtime}.
Context (p : CPacket) (m : list Z) (Hwf : wf p m).

(** A request the payload can hold changes nothing; any other never returns, whatever
    the fuel. *)
Lemma IncreaseBufferSize_cases addSize :
  - 2147483000 <= addSize <= 2147483000 ->
  IncreaseBufferSize p addSize =
    if (addSize <=? 0) || (m_iUsingSize p + addSize <=? PAYLOAD_MAX) then Ok p else OutOfFuel.
Proof.
  intros Hadd. destruct Hwf as [Hh Hmax Hlen Hb Hf Hu Ho Hr]. unfold IncreaseBufferSize.
  destruct (Z.leb_spec addSize 0); [done|]. cbn [orb].
  packet_unfold. rewrite Hmax. unwrap. rewrite Z.geb_leb. change (512 - 5) with 507.
  destruct (Z.leb_spec (m_iUsingSize p + addSize) 507); [done|].
  rewrite grow_loop_diverges by lia. done.
Qed.

Lemma append_raw_cases bs size :
  bytes_ok bs -> 0 <= size <= zlen bs -> size <= 1073741824 ->
  if m_iRear p + size <=? PAYLOAD_MAX
  then exists p' m', append_raw p bs size = Ok p' /\
         appended p m (slice bs 0 size) p' m'
  else append_raw p bs size = Fault OutOfBounds.
Proof.
  intros Hbs Hsize Hbig. pose proof (zlen_payload p m Hwf) as Hpl.
  destruct Hwf as [Hh Hmax Hlen Hb Hf Hu Ho Hr]. unfold append_raw, head. rewrite Hh. cbn.
  packet_unfold. rewrite memcpy_cases, Hlen by lia.
  destruct (Z.leb_spec (m_iRear p + size) 507), (Z.leb_spec (5 + m_iRear p + size) 512);
    try lia; [|done]. cbn. unwrap.
  assert (Hs : zlen (slice bs 0 size) = size) by (apply zlen_slice; lia).
  do 2 eexists. split; [reflexivity|]. split; cbn; try (done || lia).
  - split; cbn; packet_unfold; try done; try lia.
    + rewrite zlen_splice; lia.
    + auto.
  - unfold payload in *. cbn. packet_unfold. apply nthz_ext.
    + rewrite zlen_app, Hpl, Hs, zlen_slice; rewrite ?zlen_splice; lia.
    + intros i Hi. rewrite zlen_slice in Hi by (rewrite ?zlen_splice; lia).
      rewrite nthz_slice by (rewrite ?zlen_splice; lia).
      destruct (Z.lt_ge_cases i (m_iUsingSize p)).
      * rewrite nthz_splice_out, nthz_app_l, nthz_slice by lia. done.
      * rewrite nthz_splice_in, nthz_app_r by lia. f_equal. lia.
Qed.

(** The whole write, once [need] bytes have been asked for and [grow] more on a shortage. *)
Lemma write_cases bs size grow :
  bytes_ok bs -> 0 <= size <= zlen bs -> size <= grow <= 1073741824 ->
  let r := p ← (if GetFreeSize p <? size then IncreaseBufferSize p grow else Ok p);
           append_raw p bs size in
  (m_iUsingSize p + size <= eBUFFER_DEFAULT -> m_iRear p + size <= PAYLOAD_MAX ->
     exists p' m', r = Ok p' /\ appended p m (slice bs 0 size) p' m') /\
  (m_iUsingSize p + size <= eBUFFER_DEFAULT -> PAYLOAD_MAX < m_iRear p + size ->
     r = Fault OutOfBounds) /\
  (eBUFFER_DEFAULT < m_iUsingSize p + size -> r = OutOfFuel).
Proof.
  intros Hbs Hsize Hgrow. cbn zeta.
  pose proof (append_raw_cases bs size Hbs Hsize ltac:(lia)) as Hraw.
  destruct Hwf as [Hh Hmax Hlen Hb Hf Hu Ho Hr]. rewrite IncreaseBufferSize_cases by lia.
  unfold GetFreeSize. rewrite Hmax. packet_unfold. unwrap.
  destruct (Z.ltb_spec (512 - m_iUsingSize p) size), (Z.leb_spec (m_iRear p + size) 507);
    split_and!; intros; try lia; try exact Hraw.
  all: destruct (Z.leb_spec grow 0), (Z.leb_spec (m_iUsingSize p + grow) 507);
    cbn; lia || done.
Qed.
End Writes.

Lemma PutData_cases `{Runtime} p m bs size :
  wf p m -> bytes_ok bs -> 0 <= size <= zlen bs -> size <= 1073741824 ->
  (m_iUsingSize p + size <= eBUFFER_DEFAULT -> m_iRear p + size <= PAYLOAD_MAX ->
     exists p' m', PutData p bs size = Ok p' /\ appended p m (slice bs 0 size) p' m') /\
  (m_iUsingSize p + size <= eBUFFER_DEFAULT -> PAYLOAD_MAX < m_iRear p + size ->
     PutData p bs size = Fault OutOfBounds) /\
  (eBUFFER_DEFAULT < m_iUsingSize p + size -> PutData p bs size = OutOfFuel).
Proof. intros Hwf Hbs Hsize Hbig. apply (write_cases p m Hwf bs size size); lia || done. Qed.

(** C33.  Every [PutData] falls in one of three cases, decided by the positions: it appends in
    place; or the bytes fit the room [GetFreeSize] reports (which counts the header and the
    bytes already read) but not the block, and the copy runs past its end; or
    [IncreaseBufferSize] is asked to grow the block and its loop never ends, whatever the
    fuel.  The block is never enlarged. *)
Theorem PutData_spec `{Runtime} p m bs size :
  wf p m -> bytes_ok bs -> 0 <= size <= zlen bs -> size <= 1073741824 ->
  (m_iUsingSize p + size <= eBUFFER_DEFAULT -> m_iRear p + size <= PAYLOAD_MAX ->
     exists p' m', PutData p bs size = Ok p' /\ appended p m (slice bs 0 size) p' m') /\
  (m_iUsingSize p + size <= eBUFFER_DEFAULT -> PAYLOAD_MAX < m_iRear p + size ->
     PutData p bs size = Fault OutOfBounds) /\
  (eBUFFER_DEFAULT < m_iUsingSize p + size -> PutData p bs size = OutOfFuel).
Proof. intros Hwf Hbs Hsize Hbig. apply (write_cases p m Hwf bs size size); lia || done. Qed.

Lemma WriteValue_spec `{Runtime} p m t v :
  wf p m -> m_iRear p + sizeof t <= PAYLOAD_MAX ->
  exists p' m', WriteValue p t v = Ok p' /\ appended p m (bytes_of t v) p' m'.
Proof.
  intros Hwf Hfit. pose proof (sizeof_range t). pose proof (zlen_bytes_of t v) as Hz.
  destruct (write_cases p m Hwf (bytes_of t v) (sizeof t) (sizeof t * 2)) as (Hok & _);
    auto; try lia.
  assert (Hs : slice (bytes_of t v) 0 (sizeof t) = bytes_of t v).
  { rewrite <- Hz. apply slice_all. }
  rewrite Hs in Hok. destruct Hwf. unfold WriteValue. unwrap. apply Hok; packet_unfold; lia.
Qed.

(** ** Reading *)

Lemma rewind_cases p m :
  wf p m -> wf (rewind p) m /\ payload (rewind p) m = payload p m /\
    (payload p m = [] -> m_iFront (rewind p) = 0 /\ m_iRear (rewind p) = 0).
Proof.
  intros Hwf. pose proof (zlen_payload p m Hwf) as Hl.
  destruct Hwf as [Hh Hmax Hlen Hb Hf Hu Ho Hr]. unfold rewind.
  destruct (Z.eqb_spec (m_iFront p) (m_iRear p)) as [He|He].
  - split_and!.
    + split; cbn; packet_unfold; try done; lia.
    + unfold payload. cbn. rewrite Hu, He, Z.sub_diag. done.
    + done.
  - split_and!; [by split|done|]. intros Hnil. rewrite Hnil in Hl. unfold zlen in Hl. cbn in Hl. lia.
Qed.

(** Taking [n] bytes off the front of the payload. *)
Lemma consume p m n :
  wf p m -> 0 <= n <= m_iUsingSize p ->
  let p' := rewind (with_pos p (i32 (m_iFront p + n)) (m_iRear p) (i32 (m_iUsingSize p - n))) in
  load m (GetBufferPtr p + m_iFront p) n = Ok (slice (payload p m) 0 n) /\
  wf p' m /\ payload p' m = slice (payload p m) n (m_iUsingSize p - n) /\
  (n = m_iUsingSize p -> m_iFront p' = 0 /\ m_iRear p' = 0).
Proof.
  intros Hwf Hn. cbn zeta. destruct (Hwf) as [Hh Hmax Hlen Hb Hf Hu Ho Hr]. packet_unfold. unwrap.
  set (q := with_pos p (m_iFront p + n) (m_iRear p) (m_iUsingSize p - n)).
  assert (Hq : wf q m) by (split; cbn; packet_unfold; try done; lia).
  assert (Hpq : payload q m = slice (payload p m) n (m_iUsingSize p - n)).
  { unfold payload. cbn. packet_unfold. rewrite slice_slice by lia. f_equal. lia. }
  destruct (rewind_cases q m Hq) as (Hw & Hpl & Hnil). split_and!.
  - rewrite load_ok by lia. unfold payload. packet_unfold. rewrite slice_slice by lia.
    do 2 f_equal. lia.
  - done.
  - by rewrite Hpl.
  - intros ->. apply Hnil. by rewrite Hpq, Z.sub_diag.
Qed.

(** [p'] is [p] with the first [n] payload bytes consumed. *)
Record consumed (p : CPacket) (m : list Z) (n : Z) (p' : CPacket) : Prop := {
  con_wf : wf p' m;
  con_payload : payload p' m = slice (payload p m) n (m_iUsingSize p - n);
  con_using : m_iUsingSize p' = m_iUsingSize p - n;
  con_empty : n = m_iUsingSize p -> m_iFront p' = 0 /\ m_iRear p' = 0;
  con_encoded : m_bIsEncoded p' = m_bIsEncoded p;
  con_ref : m_lRefCount p' = m_lRefCount p
}.

Lemma consume_consumed p m n :
  wf p m -> 0 <= n <= m_iUsingSize p ->
  consumed p m n
    (rewind (with_pos p (i32 (m_iFront p + n)) (m_iRear p) (i32 (m_iUsingSize p - n)))).
Proof.
  intros Hwf Hn. destruct (consume p m n Hwf Hn) as (_ & Hw & Hp & He).
  destruct (Hwf) as [? ? ? ? ? ? ? ?]. packet_unfold.
  assert (i32 (m_iUsingSize p - n) = m_iUsingSize p - n) by (unwrap; lia).
  split; try done; unfold rewind; cbn; destruct (_ =? _); cbn; done.
Qed.

Lemma ReadValue_spec p m t old :
  wf p m ->
  (m_iUsingSize p < sizeof t -> ReadValue p t old = Ok (p, old)) /\
  (sizeof t <= m_iUsingSize p ->
     exists p', ReadValue p t old
                = Ok (p', of_bits t (le_value (slice (payload p m) 0 (sizeof t)))) /\
       consumed p m (sizeof t) p').
Proof.
  intros Hwf. pose proof (sizeof_range t). unfold ReadValue, GetDataSize, head.
  rewrite (wf_head p m Hwf).
  split; intros Hs; destruct (Z.ltb_spec (m_iUsingSize p) (sizeof t)); try lia; [done|].
  destruct (consume p m (sizeof t) Hwf ltac:(lia)) as (Hl & _). cbn -[Z.add]. rewrite Hl. cbn.
  eexists. split; [reflexivity|]. apply consume_consumed; [done|lia].
Qed.

Lemma GetData_spec p m dst doff size :
  wf p m -> 0 <= size -> 0 <= doff ->
  (m_iUsingSize p < size -> GetData p dst doff size = Ok (p, dst)) /\
  (size <= m_iUsingSize p -> doff + size <= zlen dst ->
     exists p', GetData p dst doff size
                = Ok (p', splice dst doff (slice (payload p m) 0 size)) /\
       consumed p m size p').
Proof.
  intros Hwf Hsz Hdoff. unfold GetData, GetDataSize, head. rewrite (wf_head p m Hwf).
  split; intros Hs; destruct (Z.ltb_spec (m_iUsingSize p) size); try lia; [done|].
  intros Hfit. destruct (consume p m size Hwf ltac:(lia)) as (Hl & _). cbn -[Z.add].
  unfold memcpy. destruct Hwf. packet_unfold. rewrite u64_id by lia. rewrite Hl. cbn.
  rewrite store_ok; rewrite ?zlen_slice; rewrite ?zlen_payload by (by split); try lia. cbn.
  eexists. split; [reflexivity|]. apply consume_consumed; [by split|lia].
Qed.

(** ** Field lists: the round trip *)

Fixpoint write_all `{Runtime} (p : CPacket) (fs : list (ty * Z)) : res CPacket :=
  match fs with
  | [] => Ok p
  | (t, v) :: fs => p ← WriteValue p t v; write_all p fs
  end.

Fixpoint read_all (p : CPacket) (ts : list ty) : res (CPacket * list Z) :=
  match ts with
  | [] => Ok (p, [])
  | t :: ts =>
      '(p, v) ← ReadValue p t 0;
      '(p, vs) ← read_all p ts;
      Ok (p, v :: vs)
  end.

Definition fields_bytes (fs : list (ty * Z)) : list Z := fs ≫= (fun f => bytes_of f.1 f.2).

Lemma fields_bytes_cons t v fs : fields_bytes ((t, v) :: fs) = bytes_of t v ++ fields_bytes fs.
Proof. done. Qed.

Lemma write_all_spec `{Runtime} fs p m :
  wf p m -> m_iRear p + zlen (fields_bytes fs) <= PAYLOAD_MAX ->
  exists p' m', write_all p fs = Ok p' /\ appended p m (fields_bytes fs) p' m'.
Proof.
  revert p m. induction fs as [|[t v] fs IH]; intros p m Hwf Hfit.
  - exists p, m. split; [done|]. split; try done; [by rewrite app_nil_r|].
    unfold zlen. cbn. lia.
  - rewrite fields_bytes_cons, zlen_app, zlen_bytes_of in Hfit.
    pose proof (zlen_nonneg (fields_bytes fs)).
    destruct (WriteValue_spec p m t v Hwf ltac:(lia)) as (p1 & m1 & Hw & Ha).
    destruct Ha as [Hwf1 Hp1 Hr1 Hf1 He1 Hc1]. rewrite zlen_bytes_of in Hr1.
    destruct (IH p1 m1 Hwf1 ltac:(lia)) as (p2 & m2 & Hw2 & [Hwf2 Hp2 Hr2 Hf2 He2 Hc2]).
    exists p2, m2. split; [cbn; by rewrite Hw|].
    rewrite fields_bytes_cons. split; try congruence.
    + by rewrite Hp2, Hp1, app_assoc.
    + rewrite zlen_app, zlen_bytes_of. lia.
Qed.

Lemma slice_app_l (l k : list Z) : slice (l ++ k) 0 (zlen l) = l.
Proof. unfold slice, zlen. rewrite Nat2Z.id. apply take_app_length. Qed.

Lemma slice_app_r (l k : list Z) : slice (l ++ k) (zlen l) (zlen (l ++ k) - zlen l) = k.
Proof.
  unfold slice, zlen. rewrite length_app, Nat2Z.id, drop_app_length. apply take_ge. lia.
Qed.

Lemma read_all_spec fs p m rest :
  wf p m -> payload p m = fields_bytes fs ++ rest -> Forall (fun f => in_range f.1 f.2) fs ->
  exists p', read_all p (fs.*1) = Ok (p', fs.*2) /\ wf p' m /\ payload p' m = rest /\
    (rest = [] -> fs <> [] -> m_iFront p' = 0 /\ m_iRear p' = 0).
Proof.
  intros Hwf Hpl Hin. revert p Hwf Hpl.
  induction Hin as [|[t v] fs Hv _ IH]; intros p Hwf Hpl; cbn.
  - exists p. split_and!; [done|done|done|]. intros _ Hne. by destruct Hne.
  - rewrite fields_bytes_cons, <- app_assoc in Hpl.
    pose proof (zlen_payload p m Hwf) as Hu. rewrite Hpl in Hu.
    assert (Hz := zlen_bytes_of t v). assert (Hs := Hu). rewrite zlen_app, Hz in Hs.
    pose proof (zlen_nonneg (fields_bytes fs ++ rest)) as Hn.
    destruct (ReadValue_spec p m t 0 Hwf) as (_ & Hr).
    destruct Hr as (p1 & -> & [Hwf1 Hp1 Hu1 He1 _ _]); [lia|]. cbn.
    rewrite Hpl, <- Hz, slice_app_l, of_bits_bytes_of by done.
    rewrite Hpl, <- Hu, <- Hz, slice_app_r in Hp1.
    destruct (IH p1 Hwf1 Hp1) as (p2 & Hra & Hwf2 & Hp2 & He2). rewrite Hra. cbn.
    exists p2. split_and!; auto. intros -> _.
    destruct fs as [|f fs]; [|by apply He2]. injection Hra as <-.
    apply He1. unfold zlen in Hs. cbn in Hs. lia.
Qed.

(** Round trip: fields streamed with [operator<<] into a cleared packet, while they fit
    the block, are read back by [operator>>] with the same types as the same values; the
    reader consumes the packet entirely and both positions return to the start. *)
Theorem write_read_roundtrip `{Runtime} p m fs :
  wf p m -> m_iFront p = 0 -> m_iRear p = 0 -> fs <> [] ->
  Forall (fun f => in_range f.1 f.2) fs -> zlen (fields_bytes fs) <= PAYLOAD_MAX ->
  exists p1 p2 m', write_all p fs = Ok p1 /\ read_all p1 (fs.*1) = Ok (p2, fs.*2) /\
    wf p2 m' /\ m_iUsingSize p2 = 0 /\ m_iFront p2 = 0 /\ m_iRear p2 = 0.
Proof.
  intros Hwf Hf Hr Hne Hin Hfit.
  destruct (write_all_spec fs p m Hwf ltac:(lia)) as (p1 & m1 & Hw & [Hwf1 Hp1 _ _ _ _]).
  assert (Hnil : payload p m = []).
  { unfold payload. destruct Hwf as [_ _ _ _ _ -> _ _]. by rewrite Hf, Hr. }
  rewrite Hnil, <- (app_nil_r (fields_bytes fs)) in Hp1.
  destruct (read_all_spec fs p1 m1 [] Hwf1 Hp1 Hin) as (p2 & Hra & Hwf2 & _ & He).
  destruct (He eq_refl Hne) as [Hf2 Hr2].
  exists p1, p2, m1. split_and!; auto. destruct Hwf2 as [_ _ _ _ _ -> _ _]. lia.
Qed.

(** ** Witnesses *)

(** A run-time whose [malloc] hands out zeroed blocks and whose loops may run [n] times. *)
Lemma zero_malloc_size n m :
  (if 0 <=? n then Some (replicate (Z.to_nat n) 0) else None) = Some m -> zlen m = n.
Proof. destruct (Z.leb_spec 0 n); intros [= <-]. by apply zlen_replicate. Qed.

Definition zero_runtime (n : nat) : Runtime := {|
  fuel := n;
  malloc := fun n => if 0 <=? n then Some (replicate (Z.to_nat n) 0) else None;
  malloc_size := zero_malloc_size
|}.

Definition empty_block : list Z := replicate 512 0.
Definition empty_packet : CPacket := mkPacket 512 0 0 0 1 (Some empty_block) false.

Lemma empty_packet_wf : wf empty_packet empty_block.
Proof.
  split; try done; try apply bytes_ok_zeros; cbn; unfold PAYLOAD_MAX; lia.
Qed.

Lemma PutData_spec_witness :
  let bs := replicate 600 65 in
  (exists p' m', PutData (H := zero_runtime 3) empty_packet bs 507 = Ok p' /\
     appended empty_packet empty_block (slice bs 0 507) p' m') /\
  PutData (H := zero_runtime 3) empty_packet bs 510 = Fault OutOfBounds /\
  PutData (H := zero_runtime 3) empty_packet bs 600 = OutOfFuel.
Proof.
  assert (Hb : bytes_ok (replicate 600 65)) by (apply Forall_replicate; lia).
  assert (Hl : zlen (replicate 600 65) = 600) by done.
  pose proof (fun n H1 H2 => @PutData_spec (zero_runtime 3) empty_packet empty_block _ n
    empty_packet_wf Hb H1 H2) as Hspec.
  split_and!.
  - apply (Hspec 507); rewrite ?Hl; cbn; unfold PAYLOAD_MAX, eBUFFER_DEFAULT; lia.
  - apply (Hspec 510); rewrite ?Hl; cbn; unfold PAYLOAD_MAX, eBUFFER_DEFAULT; lia.
  - apply (Hspec 600); rewrite ?Hl; cbn; unfold PAYLOAD_MAX, eBUFFER_DEFAULT; lia.
Defined.

Definition sample_fields : list (ty * Z) :=
  [(WORD, 4); (INT64, -9007199254740993); (CHAR, -1); (DWORD, 4294967295); (SHORT, -2)].

Lemma write_read_roundtrip_witness :
  exists p1 p2 m', write_all (H := zero_runtime 0) empty_packet sample_fields = Ok p1 /\
    read_all p1 [WORD; INT64; CHAR; DWORD; SHORT]
      = Ok (p2, [4; -9007199254740993; -1; 4294967295; -2]) /\
    wf p2 m' /\ m_iUsingSize p2 = 0 /\ m_iFront p2 = 0 /\ m_iRear p2 = 0.
Proof.
  apply (@write_read_roundtrip (zero_runtime 0) empty_packet empty_block sample_fields
    empty_packet_wf); try done.
  repeat first [apply Forall_nil_2 | apply Forall_cons_2]; cbn; lia.
Defined.
