(* ===== verification/Codec.v ===== *)
(** * The message codec (CPacket::SetEncodingCode, CPacket::SetDecodingCode)

    A sent message is the 5-byte [st_PACKET_HEADER] (code, little-endian length, random key,
    checksum) followed by the payload, encoded byte by byte with two running keys.  Both
    loops work in place on the packet's block; they are related to the list functions
    [enc_list] and [dec_list], which are inverse to each other. *)

From S2P Require Import Prelude Packet.

Definition FIX_KEY : Z := 50.        (* 0x32 *)
Definition PACKET_CODE : Z := 119.   (* 0x77 *)

(** [st_PACKET_HEADER], packed on 1. *)
Record st_PACKET_HEADER := mkHeader {
  code : Z;
  len : Z;
  randKey : Z;
  checkSum : Z
}.

Definition header_bytes (h : st_PACKET_HEADER) : list Z :=
  [code h; len h mod 256; len h / 256; randKey h; checkSum h].

Definition header_of_bytes (m : list Z) : st_PACKET_HEADER :=
  mkHeader (nthz m 0) (nthz m 1 + 256 * nthz m 2) (nthz m 3) (nthz m 4).

(** [checkSum += pPayload[i]] over [n] bytes from [i]: [char] is signed, the sum is a
    [LONG]. *)
Fixpoint sum_loop (n : nat) (i : Z) (m : list Z) (acc : Z) : res Z :=
  match n with
  | O => Ok acc
  | S n =>
      b ← get_byte m (eBUFFER_HEADER_SIZE + i);
      sum_loop n (i + 1) m (i32 (acc + i8 b))
  end.

Fixpoint encode_loop (n : nat) (i E_n P_n key : Z) (m : list Z) : res (list Z) :=
  match n with
  | O => Ok m
  | S n =>
      b ← get_byte m (eBUFFER_HEADER_SIZE + i);
      let E_n := u8 (Z.lxor (i8 b) (E_n + key + i + 1)) in
      let c := u8 (Z.lxor E_n (P_n + FIX_KEY + i + 1)) in
      m ← set_byte m (eBUFFER_HEADER_SIZE + i) c;
      encode_loop n (i + 1) E_n c key m
  end.

(** [rnd] is the value [rand()] returns. *)
Definition SetEncodingCode (p : CPacket) (rnd : Z) : res CPacket :=
  if m_bIsEncoded p then Ok p
  else
    let hlen := u16 (GetDataSize p) in
    let key := u8 (Z.rem rnd 256) in
    m ← head p;
    sum ← sum_loop (Z.to_nat hlen) 0 m 0;
    let header := mkHeader PACKET_CODE hlen key (u8 (Z.rem sum 256)) in
    p ← SetMessageHeader p (header_bytes header) MESSAGE_HEADER_LEN;
    m ← head p;
    m ← encode_loop (Z.to_nat hlen) 0 0 0 key m;
    Ok (with_encoded (with_head p (m_iMaxSize p) m) true).

Fixpoint decode_loop (n : nat) (i E_n P_before key : Z) (m : list Z) : res (list Z) :=
  match n with
  | O => Ok m
  | S n =>
      b ← get_byte m (eBUFFER_HEADER_SIZE + i);
      let P_n := u8 (Z.lxor (i8 b) (E_n + FIX_KEY + i + 1)) in
      let D_n := u8 (Z.lxor P_n (P_before + key + i + 1)) in
      m ← set_byte m (eBUFFER_HEADER_SIZE + i) D_n;
      decode_loop n (i + 1) b P_n key m
  end.

(** [iCheck += pPayload[i]]: the sum is a [DWORD]. *)
Fixpoint check_loop (n : nat) (i : Z) (m : list Z) (acc : Z) : res Z :=
  match n with
  | O => Ok acc
  | S n =>
      b ← get_byte m (eBUFFER_HEADER_SIZE + i);
      check_loop n (i + 1) m (u32 (acc + i8 b))
  end.

Definition SetDecodingCode (p : CPacket) : res (CPacket * bool) :=
  m ← head p;
  hcode ← get_byte m 0;
  if negb (hcode =? PACKET_CODE) then Ok (p, false)
  else
    key ← get_byte m 3;
    let dataSize := GetDataSize p in
    m ← decode_loop (Z.to_nat dataSize) 0 0 0 key m;
    iCheck ← check_loop (Z.to_nat dataSize) 0 m 0;
    sum ← get_byte m 4;
    Ok (with_head p (m_iMaxSize p) m, sum =? u8 (iCheck mod 256)).

(** ** The list functions *)

Fixpoint enc_list (key i E P : Z) (ds : list Z) : list Z :=
  match ds with
  | [] => []
  | d :: ds =>
      let e := Z.lxor d (u8 (E + key + i + 1)) in
      let c := Z.lxor e (u8 (P + FIX_KEY + i + 1)) in
      c :: enc_list key (i + 1) e c ds
  end.

Fixpoint dec_list (key i E P : Z) (cs : list Z) : list Z :=
  match cs with
  | [] => []
  | c :: cs =>
      let e := Z.lxor c (u8 (E + FIX_KEY + i + 1)) in
      Z.lxor e (u8 (P + key + i + 1)) :: dec_list key (i + 1) c e cs
  end.

Fixpoint sum_list (ds : list Z) : Z :=
  match ds with [] => 0 | d :: ds => d + sum_list ds end.

Lemma lxor_twice a b : Z.lxor (Z.lxor a b) b = a.
Proof. by rewrite Z.lxor_assoc, Z.lxor_nilpotent, Z.lxor_0_r. Qed.

Lemma dec_enc key i E P ds : dec_list key i P E (enc_list key i E P ds) = ds.
Proof.
  revert i E P. induction ds as [|d ds IH]; intros i E P; cbn; [done|].
  by rewrite !lxor_twice, IH.
Qed.

Lemma enc_dec key i E P cs : enc_list key i P E (dec_list key i E P cs) = cs.
Proof.
  revert i E P. induction cs as [|c cs IH]; intros i E P; cbn; [done|].
  by rewrite !lxor_twice, IH.
Qed.

Lemma zlen_enc key i E P ds : zlen (enc_list key i E P ds) = zlen ds.
Proof.
  revert i E P. induction ds as [|d ds IH]; intros; cbn; [done|].
  by rewrite !zlen_cons, IH.
Qed.

Lemma zlen_dec key i E P cs : zlen (dec_list key i E P cs) = zlen cs.
Proof.
  revert i E P. induction cs as [|c cs IH]; intros; cbn; [done|].
  by rewrite !zlen_cons, IH.
Qed.

Lemma lxor_byte a b : byte_ok a -> byte_ok b -> byte_ok (Z.lxor a b).
Proof.
  intros Ha Hb. rewrite <- (u8_id a Ha), <- (u8_id b Hb), <- wrap_u_lxor by lia.
  apply u8_range.
Qed.

Lemma bytes_ok_enc key i E P ds : bytes_ok ds -> bytes_ok (enc_list key i E P ds).
Proof.
  intros Hds. revert i E P. induction Hds; intros; cbn; constructor; auto.
  repeat apply lxor_byte; auto using u8_range.
Qed.

Lemma bytes_ok_dec key i E P cs : bytes_ok cs -> bytes_ok (dec_list key i E P cs).
Proof.
  intros Hcs. revert i E P. induction Hcs; intros; cbn; constructor; auto.
  repeat apply lxor_byte; auto using u8_range.
Qed.

(** The byte the loops compute from a signed [char] and an [int] key. *)
Lemma xor_step b k : byte_ok b -> u8 (Z.lxor (i8 b) k) = Z.lxor b (u8 k).
Proof. intros. by rewrite wrap_u_lxor, u8_i8 by lia. Qed.

Lemma xor_step' b k : byte_ok b -> u8 (Z.lxor b k) = Z.lxor b (u8 k).
Proof. intros. by rewrite wrap_u_lxor, (u8_id b) by lia. Qed.

(** ** The loops *)

(** Writing [c] at the head of the region still to do. *)
Lemma region_step m off n c :
  0 <= off -> 0 < n -> off + n <= zlen m -> byte_ok c -> bytes_ok m ->
  set_byte m off c = Ok (splice m off [c]) /\
  zlen (splice m off [c]) = zlen m /\ bytes_ok (splice m off [c]) /\
  slice (splice m off [c]) (off + 1) (n - 1) = slice m (off + 1) (n - 1) /\
  (forall rest, zlen rest = n - 1 ->
     splice (splice m off [c]) (off + 1) rest = splice m off (c :: rest)).
Proof.
  intros Hoff Hn Hfit Hc Hm. unfold set_byte. assert (zlen [c] = 1) by done. split_and!.
  - apply store_ok; lia.
  - apply zlen_splice; lia.
  - apply bytes_ok_splice; [done|]. by constructor.
  - apply slice_splice_other; lia.
  - intros rest Hrest. exact (splice_splice_app m off [c] rest Hoff ltac:(lia)).
Qed.

Section Loops.
Context (key : Z).

Lemma encode_loop_spec n i E P m :
  bytes_ok m -> byte_ok E -> byte_ok P -> 0 <= i -> eBUFFER_HEADER_SIZE + i + Z.of_nat n <= zlen m ->
  encode_loop n i E P key m =
  Ok (splice m (eBUFFER_HEADER_SIZE + i)
        (enc_list key i E P (slice m (eBUFFER_HEADER_SIZE + i) (Z.of_nat n)))).
Proof.
  assert (Hh : eBUFFER_HEADER_SIZE = 5) by done. revert i E P m. induction n as [|n IH]; intros i E P m Hm HE HP Hi Hfit.
  - cbn. by rewrite splice_nil by lia.
  - cbn [encode_loop]. rewrite get_byte_ok by lia. cbn [mbind res_bind].
    pose proof (nthz_byte m (eBUFFER_HEADER_SIZE + i) Hm) as Hb. rewrite xor_step by done.
    set (e := Z.lxor _ _). assert (He : byte_ok e) by (apply lxor_byte; auto using u8_range).
    rewrite xor_step' by done. set (c := Z.lxor e _).
    assert (Hc : byte_ok c) by (apply lxor_byte; auto using u8_range).
    destruct (region_step m (eBUFFER_HEADER_SIZE + i) (Z.of_nat (S n)) c)
      as (-> & Hz & Hok & Hsl & Hsp); try lia; auto.
    cbn [mbind res_bind]. rewrite IH by (auto; lia).
    replace (eBUFFER_HEADER_SIZE + (i + 1)) with (eBUFFER_HEADER_SIZE + i + 1) by lia.
    replace (Z.of_nat n) with (Z.of_nat (S n) - 1) by lia. rewrite Hsl.
    rewrite Hsp by (rewrite zlen_enc, zlen_slice; lia).
    by rewrite (slice_cons m (eBUFFER_HEADER_SIZE + i) (Z.of_nat (S n))) by lia.
Qed.

Lemma decode_loop_spec n i E P m :
  bytes_ok m -> byte_ok E -> byte_ok P -> 0 <= i -> eBUFFER_HEADER_SIZE + i + Z.of_nat n <= zlen m ->
  decode_loop n i E P key m =
  Ok (splice m (eBUFFER_HEADER_SIZE + i)
        (dec_list key i E P (slice m (eBUFFER_HEADER_SIZE + i) (Z.of_nat n)))).
Proof.
  assert (Hh : eBUFFER_HEADER_SIZE = 5) by done. revert i E P m. induction n as [|n IH]; intros i E P m Hm HE HP Hi Hfit.
  - cbn. by rewrite splice_nil by lia.
  - cbn [decode_loop]. rewrite get_byte_ok by lia. cbn [mbind res_bind].
    pose proof (nthz_byte m (eBUFFER_HEADER_SIZE + i) Hm) as Hb. rewrite xor_step by done.
    set (e := Z.lxor _ _). assert (He : byte_ok e) by (apply lxor_byte; auto using u8_range).
    rewrite xor_step' by done. set (d := Z.lxor e _).
    assert (Hd : byte_ok d) by (apply lxor_byte; auto using u8_range).
    destruct (region_step m (eBUFFER_HEADER_SIZE + i) (Z.of_nat (S n)) d)
      as (-> & Hz & Hok & Hsl & Hsp); try lia; auto.
    cbn [mbind res_bind]. rewrite IH by (auto; lia).
    replace (eBUFFER_HEADER_SIZE + (i + 1)) with (eBUFFER_HEADER_SIZE + i + 1) by lia.
    replace (Z.of_nat n) with (Z.of_nat (S n) - 1) by lia. rewrite Hsl.
    rewrite Hsp by (rewrite zlen_dec, zlen_slice; lia).
    by rewrite (slice_cons m (eBUFFER_HEADER_SIZE + i) (Z.of_nat (S n))) by lia.
Qed.
End Loops.

(** ** Checksums: both sums are the sum of the unsigned bytes modulo 256 *)

Lemma mod_256 w z : 8 <= w -> (z mod 2 ^ w) mod 256 = z mod 256.
Proof.
  intros. change 256 with (2 ^ 8). apply Z.mod_mod_divide.
  exists (2 ^ (w - 8)). rewrite <- Z.pow_add_r by lia. f_equal. lia.
Qed.

Lemma wrap_s_256 w z : 8 <= w -> wrap_s w z mod 256 = z mod 256.
Proof.
  intros. rewrite <- (mod_256 w (wrap_s w z)), wrap_s_mod by lia. by apply mod_256.
Qed.

Lemma rem_256 z : u8 (Z.rem z 256) = z mod 256.
Proof.
  unfold wrap_u. change (2 ^ 8) with 256.
  rewrite (Z.quot_rem' z 256) at 2. rewrite Z.add_comm, Z.mul_comm, Z.mod_add by lia. done.
Qed.

Section Sums.
Context (m : list Z).

Lemma sum_step acc b rest :
  (i32 (acc + i8 b) + rest) mod 256 = (acc + (b + rest)) mod 256 /\
  (u32 (acc + i8 b) + rest) mod 256 = (acc + (b + rest)) mod 256.
Proof.
  assert (E : (acc + i8 b) mod 256 = (acc + b) mod 256).
  { rewrite <- (Zplus_mod_idemp_r (i8 b)), wrap_s_256 by lia. by rewrite Zplus_mod_idemp_r. }
  split.
  - rewrite <- Zplus_mod_idemp_l, wrap_s_256, E, Zplus_mod_idemp_l by lia. f_equal. lia.
  - unfold wrap_u. rewrite <- Zplus_mod_idemp_l, mod_256, E, Zplus_mod_idemp_l by lia.
    f_equal. lia.
Qed.

Lemma sum_loop_spec n i acc :
  0 <= i -> eBUFFER_HEADER_SIZE + i + Z.of_nat n <= zlen m ->
  exists s, sum_loop n i m acc = Ok s /\
    s mod 256 = (acc + sum_list (slice m (eBUFFER_HEADER_SIZE + i) (Z.of_nat n))) mod 256.
Proof.
  assert (Hh : eBUFFER_HEADER_SIZE = 5) by done.
  revert i acc. induction n as [|n IH]; intros i acc Hi Hfit.
  - exists acc. split; [done|]. rewrite slice_zero. by rewrite Z.add_0_r.
  - cbn [sum_loop]. rewrite get_byte_ok by lia. cbn [mbind res_bind].
    rewrite slice_cons by lia. cbn [sum_list].
    destruct (IH (i + 1) (i32 (acc + i8 (nthz m (eBUFFER_HEADER_SIZE + i))))) as (s & -> & Hs);
      [lia|lia|].
    exists s. split; [done|]. rewrite Hs, (proj1 (sum_step _ _ _)). do 5 f_equal; lia.
Qed.

Lemma check_loop_spec n i acc :
  0 <= i -> eBUFFER_HEADER_SIZE + i + Z.of_nat n <= zlen m ->
  exists s, check_loop n i m acc = Ok s /\
    s mod 256 = (acc + sum_list (slice m (eBUFFER_HEADER_SIZE + i) (Z.of_nat n))) mod 256.
Proof.
  assert (Hh : eBUFFER_HEADER_SIZE = 5) by done.
  revert i acc. induction n as [|n IH]; intros i acc Hi Hfit.
  - exists acc. split; [done|]. rewrite slice_zero. by rewrite Z.add_0_r.
  - cbn [check_loop]. rewrite get_byte_ok by lia. cbn [mbind res_bind].
    rewrite slice_cons by lia. cbn [sum_list].
    destruct (IH (i + 1) (u32 (acc + i8 (nthz m (eBUFFER_HEADER_SIZE + i))))) as (s & -> & Hs);
      [lia|lia|].
    exists s. split; [done|]. rewrite Hs, (proj2 (sum_step _ _ _)). do 5 f_equal; lia.
Qed.
End Sums.

(** ** Encoding and decoding a packet *)

(** Replacing the payload bytes in the block of a packet that starts at 0. *)
Lemma payload_splice p m bs :
  wf p m -> m_iFront p = 0 -> bytes_ok bs -> zlen bs = m_iUsingSize p ->
  let p' := with_head p (m_iMaxSize p) (splice m eBUFFER_HEADER_SIZE bs) in
  wf p' (splice m eBUFFER_HEADER_SIZE bs) /\
  payload p' (splice m eBUFFER_HEADER_SIZE bs) = bs.
Proof.
  intros [Hh Hmax Hlen Hb Hf Hu Ho Hr] H0 Hbs Hz. cbn zeta. packet_unfold. split.
  - split; cbn; packet_unfold; try done.
    + rewrite zlen_splice; lia.
    + auto.
  - unfold payload. cbn. packet_unfold. rewrite H0, <- Hz. apply slice_splice_same; lia.
Qed.

(** What a successful encoding leaves in the block. *)
Record encoded (p : CPacket) (m : list Z) (key : Z) (p' : CPacket) (m' : list Z) : Prop := {
  enc_wf : wf p' m';
  enc_payload : payload p' m' = enc_list key 0 0 0 (payload p m);
  enc_header : slice m' 0 MESSAGE_HEADER_LEN =
    header_bytes (mkHeader PACKET_CODE (m_iUsingSize p) key (sum_list (payload p m) mod 256));
  enc_flag : m_bIsEncoded p' = true;
  enc_front : m_iFront p' = 0;
  enc_using : m_iUsingSize p' = m_iUsingSize p;
  enc_ref : m_lRefCount p' = m_lRefCount p
}.

Lemma SetEncodingCode_spec p m rnd :
  wf p m -> m_iFront p = 0 -> m_bIsEncoded p = false ->
  exists p' m', SetEncodingCode p rnd = Ok p' /\ encoded p m (rnd mod 256) p' m'.
Proof.
  intros Hwf H0 Henc. pose proof (zlen_payload p m Hwf) as Hz.
  assert (Hpl : payload p m = slice m eBUFFER_HEADER_SIZE (m_iUsingSize p)).
  { unfold payload. by rewrite H0. }
  destruct (Hwf) as [Hh Hmax Hlen Hb Hf Hu Ho Hr]. unfold SetEncodingCode. rewrite Henc.
  rewrite (head_ok p m) by done. cbn [mbind res_bind].
  packet_unfold. rewrite u16_id by lia.
  destruct (sum_loop_spec m (Z.to_nat (m_iUsingSize p)) 0 0) as (s & Hs & Hmod);
    [lia|unfold eBUFFER_HEADER_SIZE, MESSAGE_HEADER_LEN; lia|].
  rewrite Z.add_0_r, Z2Nat.id, Z.add_0_l in Hmod by lia.
  change eBUFFER_HEADER_SIZE with 5 in Hmod. rewrite <- Hpl in Hmod.
  rewrite Hs. cbn [mbind res_bind]. rewrite !rem_256, Hmod. clear Hs Hmod s.
  set (h := mkHeader _ _ _ _). assert (Hzh : zlen (header_bytes h) = 5) by done.
  assert (Hbh : bytes_ok (header_bytes h)).
  { subst h. unfold header_bytes. cbn. repeat apply Forall_cons_2; try apply Forall_nil_2;
      unfold PACKET_CODE; try (apply Z.mod_pos_bound; lia); try lia.
    split; [apply Z.div_pos; lia|apply Z.div_lt_upper_bound; lia]. }
  unfold SetMessageHeader. rewrite (head_ok p m) by done. cbn [mbind res_bind].
  rewrite memcpy_ok by lia. cbn [mbind res_bind].
  assert (slice (header_bytes h) 0 5 = header_bytes h) as -> by (rewrite <- Hzh; apply slice_all).
  rewrite head_with_head. cbn [mbind res_bind].
  set (m1 := splice m 0 (header_bytes h)).
  assert (Hz1 : zlen m1 = 512) by (subst m1; rewrite zlen_splice; lia).
  assert (Hb1 : bytes_ok m1) by (subst m1; auto).
  assert (Hsl : slice m1 (eBUFFER_HEADER_SIZE + 0) (m_iUsingSize p) = payload p m).
  { rewrite Hpl. subst m1. packet_unfold. apply slice_splice_other; lia. }
  rewrite encode_loop_spec by (packet_unfold; lia || done). cbn [mbind res_bind].
  rewrite Z2Nat.id, Hsl by lia. rewrite Z.add_0_r.
  set (q := with_head p _ _). set (m2 := splice m1 _ _).
  assert (Hq : wf q m1) by (split; cbn; packet_unfold; try done; lia).
  destruct (payload_splice q m1 (enc_list (rnd mod 256) 0 0 0 (payload p m))) as [Hw2 Hp2];
    [done|done|by apply bytes_ok_enc, bytes_ok_slice|by rewrite zlen_enc|].
  eexists _, m2. split; [reflexivity|]. split; cbn; try done. by destruct Hw2.
Qed.

(** What decoding leaves: the payload decoded in place, everything else as it was. *)
Record decoded (p : CPacket) (m : list Z) (p' : CPacket) (m' : list Z) : Prop := {
  dec_wf : wf p' m';
  dec_payload : payload p' m' = dec_list (nthz m 3) 0 0 0 (payload p m);
  dec_front : m_iFront p' = 0;
  dec_using : m_iUsingSize p' = m_iUsingSize p;
  dec_encoded : m_bIsEncoded p' = m_bIsEncoded p;
  dec_ref : m_lRefCount p' = m_lRefCount p
}.

Lemma SetDecodingCode_accepts p m :
  wf p m -> m_iFront p = 0 -> nthz m 0 = PACKET_CODE ->
  exists p' m', decoded p m p' m' /\
    SetDecodingCode p = Ok (p', nthz m 4 =? sum_list (payload p' m') mod 256).
Proof.
  intros Hwf H0 Hcode. pose proof (zlen_payload p m Hwf) as Hz.
  destruct (Hwf) as [Hh Hmax Hlen Hb Hf Hu Ho Hr]. unfold SetDecodingCode, GetDataSize.
  rewrite (head_ok p m) by done. cbn [mbind res_bind]. unfold PAYLOAD_MAX, eBUFFER_DEFAULT in *.
  rewrite (get_byte_ok m 0) by lia. cbn [mbind res_bind].
  destruct (Z.eqb_spec (nthz m 0) PACKET_CODE); [|done]. cbn [negb].
  assert (Hpl : payload p m = slice m (eBUFFER_HEADER_SIZE + 0) (m_iUsingSize p)).
  { unfold payload. by rewrite H0. }
  rewrite (get_byte_ok m 3) by lia. cbn [mbind res_bind].
  rewrite decode_loop_spec by (unfold eBUFFER_HEADER_SIZE, MESSAGE_HEADER_LEN; lia || done).
  cbn [mbind res_bind]. rewrite Z2Nat.id, <- Hpl, Z.add_0_r by lia.
  set (ds := dec_list (nthz m 3) 0 0 0 (payload p m)).
  assert (Hds : bytes_ok ds) by (apply bytes_ok_dec; unfold payload; auto).
  assert (Hzd : zlen ds = m_iUsingSize p) by (subst ds; by rewrite zlen_dec).
  destruct (payload_splice p m ds Hwf H0 Hds Hzd) as [Hw2 Hp2].
  set (m2 := splice m eBUFFER_HEADER_SIZE ds) in *.
  assert (Hz2 : zlen m2 = 512) by (subst m2; rewrite zlen_splice; packet_unfold; lia).
  destruct (check_loop_spec m2 (Z.to_nat (m_iUsingSize p)) 0 0) as (s & -> & Hmod);
    [lia|packet_unfold; lia|]. cbn [mbind res_bind].
  rewrite get_byte_ok by lia. cbn [mbind res_bind].
  do 2 eexists. split; cycle 1.
  - do 3 f_equal.
    + subst m2. apply nthz_splice_out; packet_unfold; lia.
    + rewrite u8_id by (apply Z.mod_pos_bound; lia). rewrite Hmod, Hp2, Z.add_0_l. do 2 f_equal.
      rewrite Z2Nat.id, Z.add_0_r by lia. rewrite <- Hzd. subst m2.
      apply slice_splice_same; packet_unfold; lia.
  - by split.
Qed.

(** C29.  Decoding accepts exactly the packets whose code byte is [PACKET_CODE] and whose
    checksum byte is the sum, modulo 256, of the bytes it decodes: with another code it
    returns FALSE having changed nothing; otherwise it leaves the decoded payload and
    returns whether the checksum agrees. *)
Theorem SetDecodingCode_spec p m :
  wf p m -> m_iFront p = 0 ->
  (nthz m 0 <> PACKET_CODE -> SetDecodingCode p = Ok (p, false)) /\
  (nthz m 0 = PACKET_CODE ->
     exists p' m', decoded p m p' m' /\
       SetDecodingCode p = Ok (p', nthz m 4 =? sum_list (payload p' m') mod 256)).
Proof.
  intros Hwf H0. split; [|by apply SetDecodingCode_accepts]. intros Hcode.
  unfold SetDecodingCode. rewrite (head_ok p m) by done. cbn [mbind res_bind].
  destruct Hwf. unfold eBUFFER_DEFAULT in *. rewrite (get_byte_ok m 0) by lia. cbn [mbind res_bind].
  destruct (Z.eqb_spec (nthz m 0) PACKET_CODE) as [E|E]; [by destruct Hcode|reflexivity].
Qed.

(** ** The wire round trip *)

(** The bytes [PostSend] hands to the socket for one packet: 5 from the header pointer, then
    [GetDataSize] from the payload pointer. *)
Definition wire (p : CPacket) (m : list Z) : list Z :=
  slice m (GetHeaderPtr p) MESSAGE_HEADER_LEN ++ slice m (GetBufferPtr p) (GetDataSize p).

(** What [RecvComplete] does with a frame in a freshly allocated packet: the header, the
    body copied to the payload pointer, [MoveWritePos], then decoding. *)
Definition receive (q : CPacket) (frame : list Z) : res (CPacket * bool) :=
  let n := zlen frame - MESSAGE_HEADER_LEN in
  q ← SetMessageHeader q frame MESSAGE_HEADER_LEN;
  m ← head q;
  m ← memcpy m (GetBufferPtr q) frame MESSAGE_HEADER_LEN n;
  SetDecodingCode (fst (MoveWritePos (with_head q (m_iMaxSize q) m) n)).

Lemma receive_loads q mq frame :
  wf q mq -> m_iFront q = 0 -> m_iRear q = 0 -> bytes_ok frame ->
  MESSAGE_HEADER_LEN < zlen frame <= eBUFFER_DEFAULT ->
  exists q1 m1, receive q frame = SetDecodingCode q1 /\ wf q1 m1 /\ m_iFront q1 = 0 /\
    slice m1 0 MESSAGE_HEADER_LEN = slice frame 0 MESSAGE_HEADER_LEN /\
    payload q1 m1 = slice frame MESSAGE_HEADER_LEN (zlen frame - MESSAGE_HEADER_LEN).
Proof.
  intros Hwf H0 Hr0 Hbf Hfr. destruct (Hwf) as [Hh Hmax Hlen Hb Hf Hu Ho Hr].
  unfold receive, SetMessageHeader. rewrite (head_ok q mq) by done. cbn [mbind res_bind].
  packet_unfold. rewrite memcpy_ok by lia. cbn [mbind res_bind].
  rewrite head_with_head. cbn [mbind res_bind].
  set (h := slice frame 0 5). assert (Hzh : zlen h = 5) by (apply zlen_slice; lia).
  set (b := slice frame 5 _).
  assert (Hzb : zlen b = zlen frame - 5) by (apply zlen_slice; lia).
  rewrite memcpy_ok by (rewrite ?zlen_splice; lia). cbn [mbind res_bind]. fold b.
  set (m1 := splice (splice mq 0 h) 5 b).
  assert (Hz1 : zlen m1 = 512) by (subst m1; rewrite !zlen_splice; rewrite ?zlen_splice; lia).
  unfold MoveWritePos, GetFreeSize. cbn -[SetDecodingCode]. rewrite Hmax, Hu, H0, Hr0. unwrap.
  destruct (Z.leb_spec (zlen frame - 5) 0); [lia|]. rewrite Z.gtb_ltb.
  destruct (Z.ltb_spec (512 - (0 - 0)) (zlen frame - 5)); [lia|]. cbn -[SetDecodingCode]. unwrap.
  do 2 eexists. split; [reflexivity|]. split_and!.
  - split; cbn; packet_unfold; try done; try lia.
    subst m1 h b. apply bytes_ok_splice; [apply bytes_ok_splice|]; auto.
  - done.
  - subst m1. rewrite slice_splice_other by (rewrite ?zlen_splice; lia).
    rewrite <- Hzh at 1. apply slice_splice_same; lia.
  - unfold payload. cbn. packet_unfold. subst m1. rewrite <- Hzb, Z.add_0_l.
    apply slice_splice_same; rewrite ?zlen_splice; lia.
Qed.

Lemma nthz_of_slice m n i : 0 <= i < n -> n <= zlen m -> nthz (slice m 0 n) i = nthz m i.
Proof. intros. by rewrite nthz_slice by lia. Qed.

(** C4.  Wire round trip: a packet of 1 to 507 payload bytes, encoded with any random key and
    sent, is accepted by the receiver's packet and yields the sender's payload; the length
    in the header is the number of payload bytes on the wire. *)
Theorem codec_roundtrip p m q mq rnd :
  wf p m -> m_iFront p = 0 -> m_bIsEncoded p = false -> 0 < m_iUsingSize p ->
  wf q mq -> m_iFront q = 0 -> m_iRear q = 0 ->
  exists p' m', SetEncodingCode p rnd = Ok p' /\ m_cpHead p' = Some m' /\
    len (header_of_bytes (wire p' m')) = zlen (wire p' m') - MESSAGE_HEADER_LEN /\
    exists q' mq', receive q (wire p' m') = Ok (q', true) /\ wf q' mq' /\
      payload q' mq' = payload p m.
Proof.
  intros Hwf H0 Henc Hpos Hwq Hq0 Hqr.
  destruct (SetEncodingCode_spec p m rnd Hwf H0 Henc) as (p' & m' & HE & [Hw' Hp' Hh' _ Hf' Hu' _]).
  assert (Hbody : slice m' (GetBufferPtr p') (GetDataSize p') = payload p' m').
  { unfold payload. by rewrite Hf', Z.add_0_r. }
  pose proof (zlen_payload p m Hwf) as Hz. pose proof (zlen_payload p' m' Hw') as Hz'.
  exists p', m'. split; [done|]. split; [by destruct Hw'|].
  unfold wire. rewrite Hbody. unfold GetHeaderPtr. rewrite Hh'.
  set (hb := header_bytes _). assert (Hzh : zlen hb = 5) by done.
  set (frame := hb ++ payload p' m').
  assert (Hzf : zlen frame = 5 + m_iUsingSize p) by (subst frame; rewrite zlen_app; lia).
  assert (Hmax : m_iUsingSize p <= 507) by (destruct Hwf; unfold PAYLOAD_MAX in *; lia).
  assert (Hs0 : slice frame 0 5 = hb) by (rewrite <- Hzh; apply slice_app_l).
  assert (Hs1 : slice frame 5 (zlen frame - 5) = payload p' m').
  { rewrite <- Hzh. apply slice_app_r. }
  assert (Hhd : forall i, 0 <= i < 5 -> nthz frame i = nthz hb i).
  { intros i Hi. apply nthz_app_l. lia. }
  split.
  { rewrite Hzf. unfold header_of_bytes, len. rewrite !Hhd by lia.
    change (nthz hb 1) with (m_iUsingSize p mod 256).
    change (nthz hb 2) with (m_iUsingSize p / 256).
    pose proof (Z.div_mod (m_iUsingSize p) 256 ltac:(lia)). unfold MESSAGE_HEADER_LEN. lia. }
  assert (Hbf : bytes_ok frame).
  { apply Forall_app. split.
    - unfold hb. rewrite <- Hh'. destruct Hw'. auto.
    - rewrite Hp'. apply bytes_ok_enc. destruct Hwf. unfold payload. auto. }
  destruct (receive_loads q mq frame) as (q1 & m1 & -> & Hw1 & H10 & Hh1 & Hp1);
    auto; [packet_unfold; lia|].
  unfold MESSAGE_HEADER_LEN in Hh1, Hp1. rewrite Hs0 in Hh1. rewrite Hs1 in Hp1.
  assert (Hnth : forall i, 0 <= i < 5 -> nthz m1 i = nthz hb i).
  { intros i Hi. rewrite <- Hh1. symmetry. apply nthz_of_slice; [lia|].
    destruct Hw1. packet_unfold. lia. }
  destruct (SetDecodingCode_accepts q1 m1 Hw1 H10) as (q' & mq' & [Hwq' Hpq' _ _ _ _] & ->).
  { by rewrite Hnth by lia. }
  rewrite Hnth, Hp1, Hp', dec_enc in Hpq' by lia.
  exists q', mq'. split; [|done]. rewrite Hnth, Hpq' by lia. do 2 f_equal. apply Z.eqb_refl.
Qed.

(** ** Witnesses *)

Definition sample_payload : list Z := [200; 7; 255; 0; 42].
Definition block_with (header body : list Z) : list Z :=
  header ++ body ++ replicate (Z.to_nat (512 - zlen header - zlen body)) 0.
Definition packet_with (header body : list Z) : CPacket :=
  mkPacket 512 0 (zlen body) (zlen body) 1 (Some (block_with header body)) false.

Lemma packet_with_wf header body :
  zlen header = 5 -> bytes_ok header -> bytes_ok body -> zlen body <= 507 ->
  wf (packet_with header body) (block_with header body).
Proof.
  intros Hh Hbh Hbb Hlen. pose proof (zlen_nonneg body).
  split; cbn; unfold PAYLOAD_MAX, eBUFFER_DEFAULT; try done; try lia.
  - unfold block_with. rewrite !zlen_app, zlen_replicate by lia. lia.
  - repeat (apply Forall_app; split); auto.
Qed.

Definition sample_packet : CPacket := packet_with [0; 0; 0; 0; 0] sample_payload.
Lemma sample_packet_wf : wf sample_packet (block_with [0; 0; 0; 0; 0] sample_payload).
Proof. apply packet_with_wf; try done; solve_bytes. Qed.

Lemma codec_roundtrip_witness :
  exists p' m', SetEncodingCode sample_packet 1234567 = Ok p' /\ m_cpHead p' = Some m' /\
    len (header_of_bytes (wire p' m')) = zlen (wire p' m') - MESSAGE_HEADER_LEN /\
    exists q' mq', receive empty_packet (wire p' m') = Ok (q', true) /\ wf q' mq' /\
      payload q' mq' = sample_payload.
Proof.
  apply (codec_roundtrip sample_packet _ empty_packet empty_block 1234567
           sample_packet_wf); try done; apply empty_packet_wf.
Defined.

(** A frame whose code byte is wrong, one whose checksum agrees, one whose does not. *)
Lemma SetDecodingCode_spec_witness :
  let bad := packet_with [118; 1; 0; 9; 66] [67] in
  let good := packet_with [119; 1; 0; 9; 122] [67] in
  let off := packet_with [119; 1; 0; 9; 121] [67] in
  SetDecodingCode bad = Ok (bad, false) /\
  (exists p', SetDecodingCode good = Ok (p', true)) /\
  (exists p', SetDecodingCode off = Ok (p', false)).
Proof.
  cbn zeta. assert (Hwf : forall h, zlen h = 5 -> bytes_ok h ->
    wf (packet_with h [67]) (block_with h [67])).
  { intros. apply packet_with_wf; try done. solve_bytes. }
  split_and!.
  - apply (SetDecodingCode_spec _ (block_with [118; 1; 0; 9; 66] [67])); [|done|done].
    apply Hwf; [done|solve_bytes].
  - destruct (SetDecodingCode_spec _ (block_with [119; 1; 0; 9; 122] [67])
      (Hwf [119; 1; 0; 9; 122] ltac:(done) ltac:(solve_bytes)) eq_refl) as (_ & Hd).
    destruct (Hd eq_refl) as (p' & m' & [_ -> _ _ _ _] & ->). exists p'. reflexivity.
  - destruct (SetDecodingCode_spec _ (block_with [119; 1; 0; 9; 121] [67])
      (Hwf [119; 1; 0; 9; 121] ltac:(done) ltac:(solve_bytes)) eq_refl) as (_ & Hd).
    destruct (Hd eq_refl) as (p' & m' & [_ -> _ _ _ _] & ->). exists p'. reflexivity.
Defined.
