(* ===== verification/FreeList.v ===== *)
(** * CLFFreeList: the lock-free object pool (CLFFreeList.h)

    A Treiber stack of free blocks with a version counter beside the top pointer, changed
    together by [InterlockedCompareExchange128].  The shared memory is the record [pool]; each
    thread is a program counter with the locals of [Alloc] or [Free]; every read, write and
    interlocked operation of the code is one step.  A block and the object behind it have
    the same identity ([loc]).  The 64-bit counters are wrapped; runs are counted, so that
    the theorems hold for the first 2^62 steps of the program. *)

From S2P Require Import Prelude.

Abbreviation loc := positive.

(** The members of [CLFFreeList], [*_pTop] and the [stpNextBlock] of every block malloc'ed. *)
Record pool := mkPool {
  pTopNode : option loc;
  lCount : Z;
  next : gmap loc (option loc);
  m_lFreeCount : Z;
  m_lMaxCount : Z;
  m_lUseCount : Z;
  m_bUsingPlacementNew : bool;
  m_lCount : Z
}.

Definition set_top (p : pool) (t : option loc) (c : Z) : pool :=
  mkPool t c (next p) (m_lFreeCount p) (m_lMaxCount p) (m_lUseCount p)
         (m_bUsingPlacementNew p) (m_lCount p).
Definition set_next (p : pool) (b : loc) (n : option loc) : pool :=
  mkPool (pTopNode p) (lCount p) (<[b := n]> (next p)) (m_lFreeCount p) (m_lMaxCount p)
         (m_lUseCount p) (m_bUsingPlacementNew p) (m_lCount p).
Definition set_counts (p : pool) (max use cnt : Z) : pool :=
  mkPool (pTopNode p) (lCount p) (next p) (m_lFreeCount p) max use
         (m_bUsingPlacementNew p) cnt.

(** The constructor: [blocks] are the addresses its [malloc]s return, in order. *)
Fixpoint build (blocks : list loc) (p : pool) : pool :=
  match blocks with
  | [] => p
  | b :: bs => build bs (set_top (set_next p b (pTopNode p)) (Some b) (lCount p))
  end.

Definition CLFFreeList_new (blocks : list loc) (bPlacementNew : bool) : pool :=
  let n := Z.of_nat (length blocks) in
  build blocks (mkPool None 0 ∅ n n 0 bPlacementNew 0).

(** ** Threads

    Where a thread is, with the locals it needs from there on. *)
Inductive pc :=
  | Idle
  (* Alloc *)
  | A_use (MaxCount : Z)                (* before InterlockedIncrement64(&m_lUseCount) *)
  | A_malloc                            (* before malloc *)
  | A_max (b : loc)                     (* before InterlockedIncrement64(&m_lMaxCount) *)
  | A_uniq                              (* before InterlockedIncrement64(&m_lCount) *)
  | A_node (u : Z)                      (* loop head: before reading _pTop->pTopNode *)
  | A_count (u : Z) (cn : option loc)   (* before reading _pTop->lCount *)
  | A_top (u : Z) (cn : option loc) (cc : Z)   (* before rereading _pTop->pTopNode *)
  | A_next (u : Z) (cn : option loc) (cc : Z) (t : option loc)
                                        (* before reading its ->stpNextBlock *)
  | A_cas (u : Z) (cn : option loc) (cc : Z) (nx : option loc)
  (* Free *)
  | F_uniq (b : loc)
  | F_node (b : loc) (u : Z)
  | F_count (b : loc) (u : Z) (cn : option loc)
  | F_top (b : loc) (u : Z) (cn : option loc) (cc : Z)
  | F_link (b : loc) (u : Z) (cn : option loc) (cc : Z) (t : option loc)
                                        (* before writing returnedBlock->stpNextBlock *)
  | F_cas (b : loc) (u : Z) (cn : option loc) (cc : Z)
  | F_use.                              (* before InterlockedDecrement64(&m_lUseCount) *)

(** What a step does, seen from outside. *)
Inductive label :=
  | Tau
  | AllocCall            (* a client calls Alloc *)
  | RetPop (b : loc)     (* Alloc takes [b] off the list *)
  | RetNew (b : loc)     (* Alloc returns a block just malloc'ed *)
  | FreeCall (b : loc)   (* a client hands [b] to Free *)
  | Push (b : loc).      (* Free puts [b] on the list *)

#[export] Instance label_eq_dec : EqDecision label.
Proof. solve_decision. Defined.

(** [InterlockedCompareExchange128] on the pair. *)
Definition cas (p : pool) (cn : option loc) (cc : Z) (t : option loc) (u : Z) : option pool :=
  if decide (pTopNode p = cn /\ lCount p = cc) then Some (set_top p t u) else None.

(** One step of one thread.  [out] is the set of blocks clients hold; a client frees only
    what it holds.  A thread at [A_next] with a null pointer has no step: it crashes. *)
Inductive tstep (p : pool) (out : gset loc) : pc -> label -> pool -> gset loc -> pc -> Prop :=
  | S_alloc :
      tstep p out Idle AllocCall p out (A_use (m_lMaxCount p))
  | S_use_new mc :
      mc < i64 (m_lUseCount p + 1) ->
      tstep p out (A_use mc) Tau
        (set_counts p (m_lMaxCount p) (i64 (m_lUseCount p + 1)) (m_lCount p)) out A_malloc
  | S_use_pop mc :
      i64 (m_lUseCount p + 1) <= mc ->
      tstep p out (A_use mc) Tau
        (set_counts p (m_lMaxCount p) (i64 (m_lUseCount p + 1)) (m_lCount p)) out A_uniq
  | S_malloc b junk :
      next p !! b = None ->
      tstep p out A_malloc Tau (set_next p b junk) out (A_max b)
  | S_max b :
      tstep p out (A_max b) (RetNew b)
        (set_counts p (i64 (m_lMaxCount p + 1)) (m_lUseCount p) (m_lCount p))
        ({[b]} ∪ out) Idle
  | S_uniq :
      tstep p out A_uniq Tau
        (set_counts p (m_lMaxCount p) (m_lUseCount p) (i64 (m_lCount p + 1))) out
        (A_node (i64 (m_lCount p + 1)))
  | S_node u : tstep p out (A_node u) Tau p out (A_count u (pTopNode p))
  | S_count u cn : tstep p out (A_count u cn) Tau p out (A_top u cn (lCount p))
  | S_top u cn cc : tstep p out (A_top u cn cc) Tau p out (A_next u cn cc (pTopNode p))
  | S_next u cn cc b nx :
      next p !! b = Some nx ->
      tstep p out (A_next u cn cc (Some b)) Tau p out (A_cas u cn cc nx)
  | S_cas_ok u b cc nx p' :
      cas p (Some b) cc nx u = Some p' ->
      tstep p out (A_cas u (Some b) cc nx) (RetPop b) p' ({[b]} ∪ out) Idle
  | S_cas_fail u cn cc nx :
      cas p cn cc nx u = None ->
      tstep p out (A_cas u cn cc nx) Tau p out (A_node u)
  | S_free b :
      b ∈ out -> tstep p out Idle (FreeCall b) p (out ∖ {[b]}) (F_uniq b)
  | S_funiq b :
      tstep p out (F_uniq b) Tau
        (set_counts p (m_lMaxCount p) (m_lUseCount p) (i64 (m_lCount p + 1))) out
        (F_node b (i64 (m_lCount p + 1)))
  | S_fnode b u : tstep p out (F_node b u) Tau p out (F_count b u (pTopNode p))
  | S_fcount b u cn : tstep p out (F_count b u cn) Tau p out (F_top b u cn (lCount p))
  | S_ftop b u cn cc : tstep p out (F_top b u cn cc) Tau p out (F_link b u cn cc (pTopNode p))
  | S_flink b u cn cc t :
      tstep p out (F_link b u cn cc t) Tau (set_next p b t) out (F_cas b u cn cc)
  | S_fcas_ok b u cn cc p' :
      cas p cn cc (Some b) u = Some p' ->
      tstep p out (F_cas b u cn cc) (Push b) p' out F_use
  | S_fcas_fail b u cn cc :
      cas p cn cc (Some b) u = None ->
      tstep p out (F_cas b u cn cc) Tau p out (F_node b u)
  | S_fuse :
      tstep p out F_use Tau
        (set_counts p (m_lMaxCount p) (i64 (m_lUseCount p - 1)) (m_lCount p)) out Idle.

Record sys := mkSys { mem : pool; out : gset loc; threads : list pc }.

Inductive step (s : sys) : label -> sys -> Prop :=
  | Step i c l p' o' c' :
      threads s !! i = Some c ->
      tstep (mem s) (out s) c l p' o' c' ->
      step s l (mkSys p' o' (<[i := c']> (threads s))).

(** [runs s tr s']: [s'] is reached from [s] by steps labelled [tr]. *)
Inductive runs (s : sys) : list label -> sys -> Prop :=
  | runs_nil : runs s [] s
  | runs_snoc tr s1 l s2 : runs s tr s1 -> step s1 l s2 -> runs s (tr ++ [l]) s2.

(** Steps of thread [i] alone. *)
Inductive solo (i : nat) : nat -> sys -> sys -> Prop :=
  | solo_0 s : solo i 0 s s
  | solo_S n s c l p' o' c' s' :
      threads s !! i = Some c -> tstep (mem s) (out s) c l p' o' c' ->
      solo i n (mkSys p' o' (<[i := c']> (threads s))) s' -> solo i (S n) s s'.

(** The start: a pool just constructed, every thread outside. *)
Definition initial (blocks : list loc) (n : nat) : sys :=
  mkSys (CLFFreeList_new blocks false) ∅ (replicate n Idle).

(** ** The specification: an atomic stack of free blocks *)

Inductive spec_step : list loc * gset loc -> label -> list loc * gset loc -> Prop :=
  | Sp_tau L o : spec_step (L, o) Tau (L, o)
  | Sp_alloc L o : spec_step (L, o) AllocCall (L, o)
  | Sp_pop b L o : b ∉ o -> spec_step (b :: L, o) (RetPop b) (L, {[b]} ∪ o)
  | Sp_new b L o : b ∉ L -> b ∉ o -> spec_step (L, o) (RetNew b) (L, {[b]} ∪ o)
  | Sp_free b L o : b ∈ o -> spec_step (L, o) (FreeCall b) (L, o ∖ {[b]})
  | Sp_push b L o : b ∉ L -> b ∉ o -> spec_step (L, o) (Push b) (b :: L, o).

Inductive spec_runs (x : list loc * gset loc) : list label -> list loc * gset loc -> Prop :=
  | spec_nil : spec_runs x [] x
  | spec_snoc tr y l z : spec_runs x tr y -> spec_step y l z -> spec_runs x (tr ++ [l]) z.

(** ** The calls of a thread that is not interfered with

    What the small steps of one uninterrupted call amount to ([Alloc_solo], [Free_solo]);
    the sequential parts of the development use these.  [fresh] is the address [malloc]
    would return, [junk] what its link field holds. *)
Definition Alloc (p : pool) (fresh : loc) (junk : option loc) : res (pool * loc) :=
  let use := i64 (m_lUseCount p + 1) in
  let p1 := set_counts p (m_lMaxCount p) use (m_lCount p) in
  if m_lMaxCount p <? use then
    let p2 := set_next p1 fresh junk in
    Ok (set_counts p2 (i64 (m_lMaxCount p + 1)) use (m_lCount p), fresh)
  else
    let u := i64 (m_lCount p + 1) in
    let p2 := set_counts p1 (m_lMaxCount p) use u in
    b ← of_opt NullDeref (pTopNode p2);
    nx ← of_opt NullDeref (next p2 !! b);
    Ok (set_top p2 nx u, b).

Definition Free (p : pool) (b : loc) : pool :=
  let u := i64 (m_lCount p + 1) in
  let p1 := set_counts p (m_lMaxCount p) (m_lUseCount p) u in
  let p2 := set_top (set_next p1 b (pTopNode p1)) (Some b) u in
  set_counts p2 (m_lMaxCount p) (i64 (m_lUseCount p - 1)) u.

Definition INT_MAX : Z := 2147483647.

(** The loop of the destructor, [n] times: frees the top block if there is one. *)
Fixpoint drain (n : nat) (t : option loc) (nx : gmap loc (option loc)) : res (list loc * option loc) :=
  match n with
  | O => Ok ([], t)
  | S n =>
      match t with
      | None => drain n t nx
      | Some b =>
          t' ← of_opt NullDeref (nx !! b);
          '(freed, t'') ← drain n t' nx;
          Ok (b :: freed, t'')
      end
  end.

(** The loop counts up to the 64-bit [m_lMaxCount] with an [int]. *)
Definition CLFFreeList_delete (p : pool) : res (list loc * option loc) :=
  r ← drain (Z.to_nat (Z.min (m_lMaxCount p) (INT_MAX + 1))) (pTopNode p) (next p);
  check (m_lMaxCount p <=? INT_MAX) SignedOverflow;;
  Ok r.

Definition GetAllocCount (p : pool) : Z := m_lMaxCount p.
Definition GetUseCount (p : pool) : Z := m_lUseCount p.

(** ** The invariant *)

(** [chain nx t L]: following [nx] from [t] visits exactly [L] and ends in null. *)
Fixpoint chain (nx : gmap loc (option loc)) (t : option loc) (L : list loc) : Prop :=
  match L with
  | [] => t = None
  | x :: L => t = Some x /\ exists t', nx !! x = Some t' /\ chain nx t' L
  end.

(** The version number a thread will publish, the one it has read, the block it owns. *)
Definition pend (c : pc) : option Z :=
  match c with
  | A_node u | A_count u _ | A_top u _ _ | A_next u _ _ _ | A_cas u _ _ _ => Some u
  | F_node _ u | F_count _ u _ | F_top _ u _ _ | F_link _ u _ _ _ | F_cas _ u _ _ => Some u
  | _ => None
  end.

Definition seen (c : pc) : option Z :=
  match c with
  | A_top _ _ cc | A_next _ _ cc _ | A_cas _ _ cc _ => Some cc
  | F_top _ _ _ cc | F_link _ _ _ cc _ | F_cas _ _ _ cc => Some cc
  | _ => None
  end.

Definition held (c : pc) : option loc :=
  match c with
  | A_max b | F_uniq b | F_node b _ | F_count b _ _ | F_top b _ _ _ | F_link b _ _ _ _
  | F_cas b _ _ _ => Some b
  | _ => None
  end.

(** Threads that have reserved a free block and not taken it yet. *)
Definition w_reserved (c : pc) : Z :=
  match c with
  | A_uniq | A_node _ | A_count _ _ | A_top _ _ _ | A_next _ _ _ _ | A_cas _ _ _ _ => 1
  | _ => 0
  end.

(** Threads for which the use count is ahead of the list: those that reserved, those that
    counted a block they still have to create, those that have pushed but not uncounted. *)
Definition w_ahead (c : pc) : Z :=
  match c with
  | A_malloc | A_max _ | F_use => 1
  | c => w_reserved c
  end.

(** Threads that are counted in use without a client holding the block. *)
Definition w_using (c : pc) : Z :=
  match c with Idle | A_use _ => 0 | _ => 1 end.

(** What a snapshot is worth: if the version it saw is still the current one, so is the
    rest of it. *)
Definition snap (p : pool) (c : pc) : Prop :=
  match c with
  | A_use mc => mc <= m_lMaxCount p
  | A_next _ _ cc t =>
      (exists x, t = Some x /\ is_Some (next p !! x)) /\ (cc = lCount p -> t = pTopNode p)
  | A_cas _ _ cc nx =>
      cc = lCount p -> exists x, pTopNode p = Some x /\ next p !! x = Some nx
  | F_link _ _ _ cc t => cc = lCount p -> t = pTopNode p
  | F_cas b _ _ cc => cc = lCount p -> next p !! b = Some (pTopNode p)
  | _ => True
  end.

Record tinv (p : pool) (o : gset loc) (L : list loc) (c : pc) : Prop := {
  ti_pend : forall u, pend c = Some u -> 0 <= u <= m_lCount p /\ u <> lCount p;
  ti_seen : forall cc, seen c = Some cc -> cc <= m_lCount p;
  ti_held : forall b, held c = Some b -> (b ∉ L) /\ (b ∉ o) /\ is_Some (next p !! b);
  ti_snap : snap p c
}.

(** Two threads never publish the same version, no thread has read a version another still
    has to publish, and no two own the same block. *)
Definition compat (c d : pc) : Prop :=
  (forall u, pend c = Some u -> pend d <> Some u /\ seen d <> Some u) /\
  (forall b, held c = Some b -> held d <> Some b).

Record inv (B n : Z) (s : sys) (L : list loc) : Prop := {
  i_chain : chain (next (mem s)) (pTopNode (mem s)) L;
  i_nodup : NoDup L;
  i_out : forall b, b ∈ out s -> (b ∉ L) /\ is_Some (next (mem s) !! b);
  i_count : 0 <= lCount (mem s) <= m_lCount (mem s) /\ m_lCount (mem s) <= n;
  i_max : 0 <= m_lMaxCount (mem s) <= B + n;
  i_use : - n <= m_lUseCount (mem s) <= n;
  i_inuse : m_lUseCount (mem s) = Z.of_nat (size (out s)) + sumz w_using (threads s);
  i_balance : zlen L =
    m_lMaxCount (mem s) - m_lUseCount (mem s) + sumz w_ahead (threads s);
  i_reserved : sumz w_reserved (threads s) <= zlen L;
  i_threads : forall i c, threads s !! i = Some c -> tinv (mem s) (out s) L c;
  i_pairs : forall i j c d, i <> j -> threads s !! i = Some c -> threads s !! j = Some d ->
    compat c d
}.

(** *** Chains *)

Lemma chain_agree nx nx' t L :
  (forall x, x ∈ L -> nx' !! x = nx !! x) -> chain nx t L -> chain nx' t L.
Proof.
  revert t. induction L as [|x L IH]; intros t Hag; cbn; [done|].
  intros (-> & t' & Hx & Hc). split; [done|]. exists t'. split.
  - rewrite Hag; [done|]. apply list_elem_of_here.
  - apply IH; [|done]. intros y Hy. apply Hag. by apply list_elem_of_further.
Qed.

Lemma chain_in_dom nx t L x : chain nx t L -> x ∈ L -> is_Some (nx !! x).
Proof.
  revert t. induction L as [|y L IH]; intros t Hc Hx; [by apply elem_of_nil in Hx|].
  destruct Hc as (_ & t' & Hy & Hc). apply elem_of_cons in Hx as [-> | Hx]; eauto.
Qed.

Lemma chain_top nx t L : 0 < zlen L -> chain nx t L -> exists x, t = Some x /\ x ∈ L.
Proof.
  destruct L as [|x L]; unfold zlen; cbn; [lia|]. intros _ [-> _].
  exists x. split; [done|apply list_elem_of_here].
Qed.

(** *** Interference: what the others' steps may do to a thread *)

Lemma tinv_stable p o L p' o' L' c :
  tinv p o L c ->
  m_lCount p <= m_lCount p' -> m_lMaxCount p <= m_lMaxCount p' ->
  (forall b, is_Some (next p !! b) -> is_Some (next p' !! b)) ->
  (pTopNode p' = pTopNode p /\ lCount p' = lCount p /\
     (forall x, pTopNode p = Some x -> next p' !! x = next p !! x)) \/
    (forall cc, seen c = Some cc -> cc <> lCount p') ->
  (forall u, pend c = Some u -> u <> lCount p') ->
  (forall b, held c = Some b -> (b ∉ L') /\ (b ∉ o') /\ next p' !! b = next p !! b) ->
  tinv p' o' L' c.
Proof.
  intros [Hp Hs Hh Hsn] Hcnt Hmax Hdom Htop Hpend Hheld. split.
  - intros u Hu. destruct (Hp u Hu). split; [lia|auto].
  - intros cc Hcc. specialize (Hs cc Hcc). lia.
  - intros b Hb. destruct (Hheld b Hb) as (? & ? & ?). destruct (Hh b Hb) as (? & ? & ?). auto.
  - destruct c; cbn in *; try done; try lia.
    + destruct Hsn as ((x & -> & Hx) & Hsn). split; [eauto|]. intros ->.
      destruct Htop as [(-> & E & _)|Hne]; [auto|by destruct (Hne _ eq_refl)].
    + intros ->. destruct Htop as [(-> & E & Hag)|Hne]; [|by destruct (Hne _ eq_refl)].
      destruct Hsn as (x & Hx & Hn); [done|]. exists x. by rewrite Hag.
    + intros ->. destruct Htop as [(-> & E & _)|Hne]; [auto|by destruct (Hne _ eq_refl)].
    + intros ->. destruct Htop as [(-> & E & _)|Hne]; [|by destruct (Hne _ eq_refl)].
      destruct (Hheld _ eq_refl) as (_ & _ & ->). auto.
Qed.

(** Puts the new state of one thread and of the pool together. *)
Lemma inv_update B n p o thr i c p' o' c' L L' :
  inv B n (mkSys p o thr) L -> thr !! i = Some c ->
  chain (next p') (pTopNode p') L' -> NoDup L' ->
  (forall b, b ∈ o' -> (b ∉ L') /\ is_Some (next p' !! b)) ->
  (0 <= lCount p' <= m_lCount p' /\ m_lCount p' <= n + 1) ->
  0 <= m_lMaxCount p' <= B + (n + 1) ->
  - (n + 1) <= m_lUseCount p' <= n + 1 ->
  m_lUseCount p' - Z.of_nat (size o') - w_using c' =
    m_lUseCount p - Z.of_nat (size o) - w_using c ->
  zlen L' - (m_lMaxCount p' - m_lUseCount p') - w_ahead c' =
    zlen L - (m_lMaxCount p - m_lUseCount p) - w_ahead c ->
  sumz w_reserved thr - w_reserved c + w_reserved c' <= zlen L' ->
  tinv p' o' L' c' ->
  (forall d, tinv p o L d -> compat c d -> compat d c -> tinv p' o' L' d) ->
  (forall d, tinv p o L d -> compat c d -> compat d c -> compat c' d /\ compat d c') ->
  inv B (n + 1) (mkSys p' o' (<[i := c']> thr)) L'.
Proof.
  intros [] Hi Hch Hnd Hout Hcnt Hmax Huse Hin Hbal Hres Hc' Hstab Hcomp. cbn in *.
  split; cbn; auto.
  - rewrite (sumz_insert _ _ _ c) by done. lia.
  - rewrite (sumz_insert _ _ _ c) by done. lia.
  - rewrite (sumz_insert _ _ _ c) by done. lia.
  - intros j d Hj. destruct (decide (i = j)) as [<-|Hne].
    + rewrite list_lookup_insert_eq in Hj by (by eapply lookup_lt_Some). by injection Hj as <-.
    + rewrite list_lookup_insert_ne in Hj by done. eauto.
  - intros j k d e Hjk Hj Hk. assert (Hlt := lookup_lt_Some _ _ _ Hi).
    destruct (decide (i = j)) as [<-|Hij], (decide (i = k)) as [<-|Hik];
      rewrite ?list_lookup_insert_eq, ?list_lookup_insert_ne in Hj by done;
      rewrite ?list_lookup_insert_eq, ?list_lookup_insert_ne in Hk by done; try done.
    + injection Hj as <-. eapply Hcomp; eauto.
    + injection Hk as <-. eapply Hcomp; eauto.
    + eauto.
Qed.

(** ** Every step keeps the invariant and is a step of the specification *)

Section Preservation.
Context (B n : Z) (p : pool) (o : gset loc) (thr : list pc) (i : nat) (c : pc) (L : list loc).
Context (Hinv : inv B n (mkSys p o thr) L) (Hi : thr !! i = Some c).
Context (HB : 0 <= B) (Hn : 0 <= n) (Hbound : B + n + 1 < 9223372036854775808).

Lemma inv_self : tinv p o L c.
Proof. destruct Hinv as [_ _ _ _ _ _ _ _ _ Ht _]. exact (Ht i c Hi). Qed.

Lemma inv_self_ahead : w_ahead c <= sumz w_ahead thr.
Proof. eapply sumz_in; [|exact Hi]. intros []; cbn; lia. Qed.

Lemma inv_self_reserved : w_reserved c <= sumz w_reserved thr.
Proof. eapply sumz_in; [|exact Hi]. intros []; cbn; lia. Qed.

Lemma reserved_le_ahead :
  sumz w_reserved thr - w_reserved c <= sumz w_ahead thr - w_ahead c.
Proof.
  pose proof (sumz_insert w_reserved thr i c Idle Hi) as H1.
  pose proof (sumz_insert w_ahead thr i c Idle Hi) as H2.
  cbn in H1, H2. assert (H := sumz_le w_reserved w_ahead (<[i := Idle]> thr)).
  rewrite H1, H2 in H. rewrite !Z.add_0_r in H. apply H. intros []; cbn; lia.
Qed.

(** Steps that only read. *)
Lemma inv_local c' :
  w_ahead c' = w_ahead c -> w_reserved c' = w_reserved c -> w_using c' = w_using c ->
  pend c' = pend c -> held c' = held c ->
  seen c' = None \/ seen c' = seen c \/ seen c' = Some (lCount p) ->
  snap p c' ->
  inv B (n + 1) (mkSys p o (<[i := c']> thr)) L.
Proof.
  intros Hwa Hwr Hwu Hpe Hhe Hse Hsn.
  destruct inv_self as [Hp Hs Hh _]. destruct (Hinv). cbn in *.
  eapply (inv_update B n p o thr i c); eauto; try lia; try (by rewrite Hwa); try (rewrite Hwr; lia).
  - split; rewrite ?Hpe, ?Hhe; auto.
    intros cc Hcc. destruct Hse as [E|[E|E]]; rewrite E in Hcc; [done|auto|].
    injection Hcc as <-. lia.
  - intros d [Hpd _ _ _] [H1 H2] [H3 H4]. split; split.
    + by rewrite Hpe.
    + by rewrite Hhe.
    + intros u Hu. rewrite Hpe. split; [by apply H3|].
      destruct Hse as [->|[->| ->]]; [done|by apply H3|].
      intros [= E]. by destruct (Hpd u Hu) as [_ []].
    + by rewrite Hhe.
Qed.

(** Steps on the counters, with the clients' blocks and the thread's own unchanged. *)
Lemma inv_counters c' max use cnt o' :
  (cnt = m_lCount p /\ pend c' = None \/
   cnt = m_lCount p + 1 /\ pend c' = Some cnt) ->
  pend c = None -> seen c' = None ->
  m_lMaxCount p <= max <= m_lMaxCount p + 1 ->
  m_lUseCount p - 1 <= use <= m_lUseCount p + 1 ->
  use - Z.of_nat (size o') - w_using c' =
    m_lUseCount p - Z.of_nat (size o) - w_using c ->
  (max - use) + w_ahead c' = (m_lMaxCount p - m_lUseCount p) + w_ahead c ->
  sumz w_reserved thr - w_reserved c + w_reserved c' <= zlen L ->
  snap (set_counts p max use cnt) c' ->
  (held c' = held c /\ o' = o \/
   exists b, held c = Some b /\ held c' = None /\ o' = {[b]} ∪ o) ->
  inv B (n + 1) (mkSys (set_counts p max use cnt) o' (<[i := c']> thr)) L.
Proof.
  intros Hcnt Hpc Hse Hmax Huse Hin Hbal Hres Hsn Hho.
  destruct inv_self as [Hp Hs Hh _]. destruct (Hinv). cbn in *.
  assert (Ho' : forall b, b ∈ o' -> b ∈ o \/ held c = Some b /\ held c' = None).
  { intros b Hb. destruct Hho as [[_ ->]|(b' & E & E' & ->)]; [by left|].
    apply elem_of_union in Hb as [Hb|Hb]; [|by left]. apply elem_of_singleton in Hb as ->. auto. }
  eapply (inv_update B n p o thr i c); eauto; cbn; try lia.
  - intros b Hb. destruct (Ho' b Hb) as [|[E _]]; [auto|].
    destruct (Hh b E) as (? & _ & ?). auto.
  - split; cbn; auto.
    + intros u Hu. destruct Hcnt as [[-> E]|[-> E]]; rewrite E in Hu; [done|].
      injection Hu as <-. lia.
    + intros cc Hcc. by rewrite Hse in Hcc.
    + intros b Hb. destruct Hho as [[E ->]|(b' & E & E' & ->)]; [|by rewrite E' in Hb].
      rewrite E in Hb. auto.
  - intros d Hd [Hc1 Hc2] [Hd1 Hd2]. pose proof Hd as [Hpd Hsd Hhd _].
    eapply tinv_stable; eauto; cbn; try lia.
    + intros u Hu. by destruct (Hpd u Hu).
    + intros b Hb. destruct (Hhd b Hb) as (? & ? & ?). split_and!; auto.
      intros Hbo. destruct (Ho' b Hbo) as [|[E _]]; [done|]. by destruct (Hd2 b Hb).
  - intros d Hd [Hc1 Hc2] [Hd1 Hd2]. pose proof Hd as [Hpd Hsd Hhd _].
    assert (Hhe : forall b, held c' = Some b -> held c = Some b).
    { intros b Hb. destruct Hho as [[E ->]|(b' & E & E' & ->)]; congruence. }
    split; split.
    + intros u Hu. destruct Hcnt as [[-> E]|[-> E]]; rewrite E in Hu; [done|].
      injection Hu as <-. split; intros E'; [apply Hpd in E'|apply Hsd in E']; lia.
    + auto.
    + intros u Hu. rewrite Hse. split; [|done].
      destruct Hcnt as [[-> E]|[-> E]]; rewrite E; [done|]. intros [= E'].
      apply Hpd in Hu. lia.
    + intros b Hb E. by destruct (Hd2 b Hb (Hhe b E)).
Qed.

(** A successful exchange: version [u] is published, so every older snapshot expires. *)
Lemma inv_publish t u c' o' L' :
  pend c = Some u -> pend c' = None -> seen c' = None -> held c' = None -> snap p c' ->
  chain (next p) t L' -> NoDup L' ->
  Z.of_nat (size o') + w_using c' = Z.of_nat (size o) + w_using c ->
  zlen L' - w_ahead c' = zlen L - w_ahead c ->
  sumz w_reserved thr - w_reserved c + w_reserved c' <= zlen L' ->
  (forall b, b ∈ o' -> (b ∉ L') /\ is_Some (next p !! b)) ->
  (forall d b, tinv p o L d -> compat c d -> held d = Some b -> (b ∉ L') /\ b ∉ o') ->
  match c' with A_use _ | A_next _ _ _ _ | A_cas _ _ _ _ | F_link _ _ _ _ _
              | F_cas _ _ _ _ => False | _ => True end ->
  inv B (n + 1) (mkSys (set_top p t u) o' (<[i := c']> thr)) L'.
Proof.
  intros Hpc Hpc' Hse Hhe Hsn Hch Hnd Hin Hbal Hres Hout Hothers Hshape.
  destruct inv_self as [Hp Hs Hh _]. destruct (Hp u Hpc) as [Hule _]. destruct (Hinv). cbn in *.
  eapply (inv_update B n p o thr i c); eauto; cbn; try lia.
  - split; cbn; rewrite ?Hpc', ?Hse, ?Hhe; try done. by destruct c'.
  - intros d Hd [Hc1 Hc2] [Hd1 Hd2]. pose proof Hd as [Hpd Hsd Hhd _].
    destruct (Hc1 u Hpc) as [Hnp Hns].
    eapply tinv_stable; eauto; cbn; try lia.
    + right. intros cc Hcc ->. done.
    + intros u' Hu' ->. done.
    + intros b Hb. destruct (Hothers d b Hd (conj Hc1 Hc2) Hb). auto.
  - intros d Hd [Hc1 Hc2] [Hd1 Hd2]. split; split; rewrite ?Hpc', ?Hse, ?Hhe; done.
Qed.

(** Writing the link of a block that is not on the list. *)
Lemma inv_link b t c' :
  (b ∉ L) ->
  pend c' = pend c -> held c' = Some b -> seen c' = None \/ seen c' = seen c ->
  held c = Some b \/ (held c = None /\ next p !! b = None) ->
  w_ahead c' = w_ahead c -> w_reserved c' = w_reserved c -> w_using c' = w_using c ->
  snap (set_next p b t) c' ->
  inv B (n + 1) (mkSys (set_next p b t) o (<[i := c']> thr)) L.
Proof.
  intros HbL Hpe Hhe Hse Hown Hwa Hwr Hwu Hsn.
  destruct inv_self as [Hp Hs Hh _]. destruct (Hinv). cbn in *.
  assert (Hdom : forall x, is_Some (next p !! x) -> is_Some (<[b := t]> (next p) !! x)).
  { intros x Hx. rewrite lookup_insert_is_Some'. auto. }
  assert (Hbo : b ∉ o).
  { intros Hb. destruct Hown as [E|[_ E]]; [by destruct (Hh b E) as (_ & [] & _)|].
    destruct (i_out0 b Hb) as [_ [? ?]]. congruence. }
  assert (Hdiff : forall d x, tinv p o L d -> compat d c -> held d = Some x -> x <> b).
  { intros d x [_ _ Hhd _] [_ H2] Hx ->. destruct Hown as [E|[_ E]].
    - by destruct (H2 b Hx).
    - destruct (Hhd b Hx) as (_ & _ & [? ?]). congruence. }
  eapply (inv_update B n p o thr i c); eauto; cbn; try lia.
  - eapply chain_agree; [|done]. intros x Hx. rewrite lookup_insert_ne; [done|]. by intros ->.
  - intros x Hx. destruct (i_out0 x Hx). auto.
  - split; cbn; rewrite ?Hpe; auto.
    + intros cc Hcc. destruct Hse as [E|E]; rewrite E in Hcc; [done|auto].
    + intros x Hx. rewrite Hhe in Hx. injection Hx as <-. split_and!; auto.
      rewrite lookup_insert_eq. eauto.
  - intros d Hd _ Hdc. pose proof Hd as [Hpd _ Hhd _].
    eapply tinv_stable; eauto; cbn; try lia.
    + left. split_and!; auto. intros x Hx. rewrite lookup_insert_ne; [done|].
      intros ->. destruct L as [|y L0]; cbn in i_chain0; [congruence|].
      destruct i_chain0 as (Hy & _). rewrite Hx in Hy. injection Hy as ->.
      apply HbL, list_elem_of_here.
    + intros u Hu. by destruct (Hpd u Hu).
    + intros x Hx. destruct (Hhd x Hx) as (? & ? & ?). split_and!; auto.
      rewrite lookup_insert_ne; [done|]. intros <-. by destruct (Hdiff d b Hd Hdc Hx).
  - intros d Hd Hcd Hdc. pose proof (Hdiff d) as Hdf. destruct Hcd as [Hc1 Hc2].
    destruct (Hdc) as [Hd1 Hd2]. split; split; rewrite ?Hpe, ?Hhe; auto.
    + intros x Hx E. injection Hx as ->. by destruct (Hdf x Hd Hdc E).
    + intros u Hu. destruct (Hd1 u Hu). split; [done|].
      destruct Hse as [->| ->]; done.
    + intros x Hx [= E]. by destruct (Hdf x Hd Hdc Hx).
Qed.
End Preservation.

Lemma cas_Some p cn cc t u p' :
  cas p cn cc t u = Some p' <-> pTopNode p = cn /\ lCount p = cc /\ p' = set_top p t u.
Proof. unfold cas. case_decide; naive_solver. Qed.

Lemma size_put (b : loc) (o : gset loc) : (b ∉ o) -> Z.of_nat (size ({[b]} ∪ o)) = Z.of_nat (size o) + 1.
Proof. intros H. rewrite size_union by set_solver. rewrite size_singleton. lia. Qed.

Lemma size_take (b : loc) (o : gset loc) : b ∈ o -> Z.of_nat (size (o ∖ {[b]})) = Z.of_nat (size o) - 1.
Proof.
  intros H. rewrite (union_difference_singleton_L b o) at 2 by done.
  rewrite size_put by set_solver. lia.
Qed.

(** A client's block leaves the clients and becomes the thread's. *)
Lemma inv_take B n p o thr i b L :
  inv B n (mkSys p o thr) L -> thr !! i = Some Idle -> b ∈ o ->
  inv B (n + 1) (mkSys p (o ∖ {[b]}) (<[i := F_uniq b]> thr)) L.
Proof.
  intros Hinv Hi Hb. destruct (Hinv). cbn in *. destruct (i_out0 b Hb) as [HbL Hbd].
  eapply (inv_update B n p o thr i Idle); eauto; cbn; try rewrite size_take by done; try lia.
  - set_solver.
  - split; cbn; try done. intros b' [= <-]. split_and!; [done|set_solver|done].
  - intros d Hd _ _. pose proof Hd as [Hpd _ Hhd _].
    eapply tinv_stable; eauto; try lia.
    + intros u Hu. by destruct (Hpd u Hu).
    + intros x Hx. destruct (Hhd x Hx) as (? & ? & ?). split_and!; [done|set_solver|done].
  - intros d [_ _ Hhd _] _ [Hd1 Hd2]. split; split; cbn; try done.
    + intros x [= <-] E. by destruct (Hhd _ E) as (_ & [] & _).
    + intros x Hx [= <-]. by destruct (Hhd _ Hx) as (_ & [] & _).
Qed.

(** The successful exchange of [Alloc] takes the top block. *)
Lemma inv_pop B n p o thr i u b cc nx p' L :
  inv B n (mkSys p o thr) L -> thr !! i = Some (A_cas u (Some b) cc nx) ->
  cas p (Some b) cc nx u = Some p' ->
  0 <= B -> 0 <= n -> B + n + 1 < 9223372036854775808 ->
  exists L', inv B (n + 1) (mkSys p' ({[b]} ∪ o) (<[i := Idle]> thr)) L' /\
    spec_step (L, o) (RetPop b) (L', {[b]} ∪ o).
Proof.
  intros Hinv Hi H HB Hn Hbound.
  pose proof (inv_self B n p o thr i _ L Hinv Hi) as Hself.
  pose proof (reserved_le_ahead thr i _ Hi) as Hra.
  pose proof (inv_self_ahead thr i _ Hi) as Hsa.
  destruct (Hinv) as [Hch Hnd Hout Hcnt Hmax Huse Hin Hbal Hres Hthr Htwo]. cbn in *.
  destruct Hself as [Hp Hs Hh Hsn]. cbn in *.
  apply cas_Some in H as (Ht & <- & ->). destruct (Hsn eq_refl) as (x & Hx & Hn').
  rewrite Ht in Hx. injection Hx as <-.
  destruct L as [|y L]; cbn in Hch; [congruence|]. destruct Hch as (Hy & t' & Ht' & Hch).
  rewrite Ht in Hy. injection Hy as ->. rewrite Hn' in Ht'. injection Ht' as ->.
  apply list.NoDup_cons in Hnd as [HyL Hnd].
  assert (Hyo : y ∉ o).
  { intros Hy. destruct (Hout y Hy) as [[] _]. apply list_elem_of_here. }
  exists L. split; [|by constructor].
  eapply (inv_publish B n p o thr i _ (y :: L)); eauto;
    rewrite ?zlen_cons, ?size_put in * by done; cbn; try lia.
  + intros b Hb. apply elem_of_union in Hb as [Hb|Hb].
    * apply elem_of_singleton in Hb as ->. eauto.
    * destruct (Hout b Hb) as [Hn1 Hn2]. split; [|done].
      intros Hb'. by apply Hn1, list_elem_of_further.
  + intros d b [_ _ Hhd _] _ Hb. destruct (Hhd b Hb) as (H1 & H2 & _). split.
    * intros Hb'. by apply H1, list_elem_of_further.
    * intros Hb'. apply elem_of_union in Hb' as [Hb'|]; [|done].
      apply elem_of_singleton in Hb' as ->. apply H1, list_elem_of_here.
Qed.

(** The successful exchange of [Free] puts its block on top. *)
Lemma inv_push B n p o thr i b u cn cc p' L :
  inv B n (mkSys p o thr) L -> thr !! i = Some (F_cas b u cn cc) ->
  cas p cn cc (Some b) u = Some p' ->
  0 <= B -> 0 <= n -> B + n + 1 < 9223372036854775808 ->
  exists L', inv B (n + 1) (mkSys p' (o) (<[i := F_use]> thr)) L' /\
    spec_step (L, o) (Push b) (L', o).
Proof.
  intros Hinv Hi H HB Hn Hbound.
  pose proof (inv_self B n p o thr i _ L Hinv Hi) as Hself.
  pose proof (reserved_le_ahead thr i _ Hi) as Hra.
  pose proof (inv_self_ahead thr i _ Hi) as Hsa.
  destruct (Hinv) as [Hch Hnd Hout Hcnt Hmax Huse Hin Hbal Hres Hthr Htwo]. cbn in *.
  destruct Hself as [Hp Hs Hh Hsn]. cbn in *.
  apply cas_Some in H as (Ht & <- & ->). specialize (Hsn eq_refl).
  destruct (Hh b eq_refl) as (HbL & Hbo & Hbd).
  exists (b :: L). split; [|by constructor].
  eapply (inv_publish B n p o thr i _ L); eauto; rewrite ?zlen_cons in *; cbn; try lia.
  + split; [done|]. eauto.
  + by constructor.
  + intros x Hx. destruct (Hout x Hx) as [Hn1 Hn2]. split; [|done].
    intros Hx'. apply elem_of_cons in Hx' as [-> |]; done.
  + intros d x [_ _ Hhd _] [_ Hc2] Hx. destruct (Hhd x Hx) as (H1 & H2 & _). split; [|done].
    intros Hx'. apply elem_of_cons in Hx' as [-> |]; [|done]. by destruct (Hc2 b eq_refl).
Qed.

Lemma inv_step B n p o thr i c l p' o' c' L :
  inv B n (mkSys p o thr) L -> thr !! i = Some c -> tstep p o c l p' o' c' ->
  0 <= B -> 0 <= n -> B + n + 1 < 9223372036854775808 ->
  exists L', inv B (n + 1) (mkSys p' o' (<[i := c']> thr)) L' /\ spec_step (L, o) l (L', o').
Proof.
  intros Hinv Hi Hst HB Hn Hbound.
  pose proof (inv_self B n p o thr i c L Hinv Hi) as Hself.
  pose proof (reserved_le_ahead thr i c Hi) as Hra.
  pose proof (inv_self_ahead thr i c Hi) as Hsa.
  destruct (Hinv) as [Hch Hnd Hout Hcnt Hmax Huse Hin Hbal Hres Hthr Htwo]. cbn in *.
  destruct Hself as [Hp Hs Hh Hsn].
  destruct Hst; cbn in *; unwrap.
  (* Alloc: entry, the two outcomes of the test, malloc, return of a new block *)
  - exists L. split; [|constructor]. eapply inv_local; eauto; cbn; lia.
  - exists L. split; [|constructor]. rewrite i64_id in H by lia.
    eapply inv_counters; eauto; cbn; auto; lia.
  - exists L. split; [|constructor]. rewrite i64_id in H by lia.
    eapply inv_counters; eauto; cbn; auto; lia.
  - exists L. split; [|constructor].
    assert (b ∉ L).
    { intros Hb. destruct (chain_in_dom _ _ _ _ Hch Hb). congruence. }
    eapply inv_link; eauto; cbn; auto.
  - exists L. destruct (Hh b eq_refl) as (HbL & Hbo & _). split; [|by constructor].
    eapply inv_counters; eauto; cbn; rewrite ?size_put by done; auto; lia.
  (* Alloc: the pop *)
  - exists L. split; [|constructor]. eapply inv_counters; eauto; cbn; auto; lia.
  - exists L. split; [|constructor]. eapply inv_local; eauto.
  - exists L. split; [|constructor]. eapply inv_local; eauto; cbn; auto.
  - exists L. split; [|constructor]. eapply inv_local; eauto; cbn; auto.
    split; [|auto]. pose proof (inv_self_reserved thr i _ Hi) as Hr. cbn in Hr.
    destruct (chain_top _ _ L ltac:(lia) Hch) as (x & -> & Hx). eauto using chain_in_dom.
  - exists L. split; [|constructor]. eapply inv_local; eauto; cbn; auto.
    destruct Hsn as [_ Hsn]. intros E. exists b. by rewrite <- Hsn.
  - by eapply inv_pop.
  - exists L. split; [|constructor]. eapply inv_local; eauto; cbn; auto.
  (* Free *)
  - exists L. split; [|by constructor]. by apply inv_take.
  - exists L. split; [|constructor]. eapply inv_counters; eauto; cbn; auto; lia.
  - exists L. split; [|constructor]. eapply inv_local; eauto.
  - exists L. split; [|constructor]. eapply inv_local; eauto; cbn; auto.
  - exists L. split; [|constructor]. eapply inv_local; eauto; cbn; auto.
  - exists L. split; [|constructor]. destruct (Hh b eq_refl) as (HbL & _).
    eapply inv_link; eauto; cbn; auto.
    intros E. rewrite lookup_insert_eq. f_equal. auto.
  - by eapply inv_push.
  - exists L. split; [|constructor]. eapply inv_local; eauto; cbn; auto.
  - exists L. split; [|constructor]. eapply inv_counters; eauto; cbn; auto; lia.
Qed.

(** ** The theorems *)

Lemma build_chain bs p L :
  chain (next p) (pTopNode p) L -> NoDup (bs ++ L) ->
  chain (next (build bs p)) (pTopNode (build bs p)) (rev bs ++ L).
Proof.
  revert p L. induction bs as [|b bs IH]; intros p L Hch Hnd; [done|].
  cbn [app] in Hnd. apply list.NoDup_cons in Hnd as [Hb Hnd].
  cbn [build rev]. rewrite <- app_assoc. apply IH.
  - cbn. split; [done|]. exists (pTopNode p). rewrite lookup_insert_eq. split; [done|].
    eapply chain_agree; [|done]. intros x Hx. rewrite lookup_insert_ne; [done|].
    intros ->. apply Hb, elem_of_app. auto.
  - apply list.NoDup_app in Hnd as (H1 & H2 & H3). apply list.NoDup_app. split_and!; [done| |].
    + intros x Hx Hx'. apply elem_of_cons in Hx' as [-> |Hx']; [|by apply (H2 x)].
      apply Hb, elem_of_app. auto.
    + apply list.NoDup_cons. split; [|done]. intros Hx. apply Hb, elem_of_app. auto.
Qed.

Lemma build_fields bs p :
  lCount (build bs p) = lCount p /\ m_lMaxCount (build bs p) = m_lMaxCount p /\
  m_lUseCount (build bs p) = m_lUseCount p /\ m_lCount (build bs p) = m_lCount p.
Proof. revert p. induction bs as [|b bs IH]; intros p; cbn; [done|]. destruct (IH (set_top (set_next p b (pTopNode p)) (Some b) (lCount p))) as (-> & -> & -> & ->). done. Qed.

Lemma inv_initial blocks n :
  NoDup blocks -> inv (zlen blocks) 0 (initial blocks n) (rev blocks).
Proof.
  intros Hnd. unfold initial, CLFFreeList_new.
  set (p0 := mkPool _ _ _ _ _ _ _ _).
  destruct (build_fields blocks p0) as (E1 & E2 & E3 & E4). cbn in *.
  split; cbn; rewrite ?E1, ?E2, ?E3, ?E4; try lia.
  - rewrite <- (app_nil_r (rev blocks)). apply build_chain; [done|]. by rewrite app_nil_r.
  - apply NoDup_ListNoDup, NoDup_rev, NoDup_ListNoDup, Hnd.
  - set_solver.
  - unfold zlen. lia.
  - by rewrite sumz_replicate, size_empty.
  - rewrite sumz_replicate by done. unfold zlen. rewrite length_rev. lia.
  - rewrite sumz_replicate by done. apply zlen_nonneg.
  - intros i c Hc. apply lookup_replicate in Hc as [-> _]. by split.
  - intros i j c d _ Hc Hd. apply lookup_replicate in Hc as [-> _].
    apply lookup_replicate in Hd as [-> _]. by split.
Qed.

(** Where every run is bounded well inside 64 bits. *)
Definition in_bounds (blocks : list loc) (tr : list label) : Prop :=
  zlen blocks + zlen tr < 4611686018427387904.

Lemma runs_inv blocks n tr s :
  NoDup blocks -> runs (initial blocks n) tr s -> in_bounds blocks tr ->
  exists L, inv (zlen blocks) (zlen tr) s L /\ spec_runs (rev blocks, ∅) tr (L, out s).
Proof.
  intros Hnd Hr. induction Hr as [|tr s1 l s2 Hr IH Hs]; intros Hb.
  - exists (rev blocks). split; [by apply inv_initial|constructor].
  - unfold in_bounds in *. rewrite zlen_app in Hb. change (zlen [l]) with 1 in Hb.
    destruct IH as (L & Hinv & Hsp); [lia|].
    destruct s1 as [p o thr]. destruct Hs as [i c l p' o' c' Hc Ht].
    pose proof (zlen_nonneg blocks). pose proof (zlen_nonneg tr).
    destruct (inv_step _ _ _ _ _ _ _ _ _ _ _ _ Hinv Hc Ht) as (L' & Hinv' & Hst); try lia.
    exists L'. rewrite zlen_app. split; [exact Hinv'|]. econstructor; eauto.
Qed.

(** C1.  Linearizability: whatever the number of threads and however their steps interleave,
    the calls of [Alloc] and [Free] behave as the operations of one atomic stack of free
    blocks.  The run has the same trace as the specification - a block popped is the top of
    the stack and held by nobody, a block created is new, a block pushed was owned by the
    thread - and the links in memory still form that stack, ending in null. *)
Theorem pool_refines_stack blocks n tr s :
  NoDup blocks -> runs (initial blocks n) tr s -> in_bounds blocks tr ->
  exists L, spec_runs (rev blocks, ∅) tr (L, out s) /\
    chain (next (mem s)) (pTopNode (mem s)) L /\ NoDup L /\ (forall b, b ∈ out s -> b ∉ L).
Proof.
  intros Hnd Hr Hb. destruct (runs_inv _ _ _ _ Hnd Hr Hb) as (L & [] & Hsp).
  exists L. split_and!; auto. intros b Hbo. by destruct (i_out0 b Hbo).
Qed.

Lemma progress_inv B k s L i c :
  inv B k s L -> threads s !! i = Some c -> c <> Idle ->
  exists l p' o' c', tstep (mem s) (out s) c l p' o' c'.
Proof.
  intros Hinv Hc Hne. destruct s as [p o thr]. cbn in *.
  pose proof (inv_self _ _ _ _ _ _ _ _ Hinv Hc) as [_ _ _ Hsn].
  assert (Hcas : forall t cn cc u, cas p cn cc t u = None \/ exists p', cas p cn cc t u = Some p').
  { intros t cn cc u. destruct (cas p cn cc t u); eauto. }
  destruct c; try done; try (do 4 eexists; by constructor).
  - destruct (Z.lt_ge_cases MaxCount (i64 (m_lUseCount p + 1))).
    + do 4 eexists. by apply S_use_new.
    + do 4 eexists. by apply S_use_pop.
  - do 4 eexists. apply (S_malloc _ _ (fresh (dom (next p))) None).
    apply not_elem_of_dom. apply is_fresh.
  - destruct Hsn as ((x & -> & [nx Hx]) & _). do 4 eexists. by apply S_next.
  - destruct (Hcas nx cn cc u) as [E|(p' & E)]; [do 4 eexists; by apply S_cas_fail|].
    pose proof E as E'. apply cas_Some in E' as (Ht & Hl & ->).
    destruct (Hsn (eq_sym Hl)) as (x & Hx & _). rewrite Hx in Ht. subst cn.
    do 4 eexists. by apply S_cas_ok.
  - destruct (Hcas (Some b) cn cc u) as [E|(p' & E)];
      do 4 eexists; [by apply S_fcas_fail|by apply S_fcas_ok].
Qed.

(** C26.  Safety: in every reachable state every thread inside a call can take its next step.
    In particular no thread is about to follow a null top pointer ([Alloc] only pops when a
    block is reserved for it) and no exchange pops from an empty list. *)
Theorem pool_never_stuck blocks n tr s i c :
  NoDup blocks -> runs (initial blocks n) tr s -> in_bounds blocks tr ->
  threads s !! i = Some c -> c <> Idle ->
  exists l p' o' c', tstep (mem s) (out s) c l p' o' c'.
Proof.
  intros Hnd Hr Hb Hc Hne. destruct (runs_inv _ _ _ _ Hnd Hr Hb) as (L & Hinv & _).
  eapply progress_inv; eauto.
Qed.

(** ** Progress without the scheduler's help

    [rank p c]: how many more steps the thread needs if the top is left alone. *)
Definition stale (p : pool) (cn : option loc) (cc : Z) : nat :=
  if decide (pTopNode p = cn /\ lCount p = cc) then 0 else 5.

Definition rank (p : pool) (c : pc) : nat :=
  match c with
  | Idle => 0
  | A_use _ => 7
  | A_malloc => 2
  | A_max _ => 1
  | A_uniq => 6
  | A_node _ => 5
  | A_count _ cn => 4 + stale p cn (lCount p)
  | A_top _ cn cc => 3 + stale p cn cc
  | A_next _ cn cc _ => 2 + stale p cn cc
  | A_cas _ cn cc _ => 1 + stale p cn cc
  | F_uniq _ => 7
  | F_node _ _ => 6
  | F_count _ _ cn => 5 + stale p cn (lCount p)
  | F_top _ _ cn cc => 4 + stale p cn cc
  | F_link _ _ cn cc _ => 3 + stale p cn cc
  | F_cas _ _ cn cc => 2 + stale p cn cc
  | F_use => 1
  end.

Lemma rank_bound p c : (rank p c <= 10)%nat.
Proof. destruct c; cbn; unfold stale; repeat case_decide; lia. Qed.

Lemma stale_same p : stale p (pTopNode p) (lCount p) = 0%nat.
Proof. unfold stale. case_decide; naive_solver. Qed.

Lemma rank_ext p p' c :
  pTopNode p' = pTopNode p -> lCount p' = lCount p -> rank p' c = rank p c.
Proof. intros E1 E2. destruct c; cbn; unfold stale; by rewrite ?E1, ?E2. Qed.

Lemma tau_step_rank p o c p' o' c' :
  tstep p o c Tau p' o' c' ->
  (rank p' c' < rank p c)%nat /\ pTopNode p' = pTopNode p /\ lCount p' = lCount p.
Proof.
  assert (Hstale : forall cn cc t u, cas p cn cc t u = None -> stale p cn cc = 5%nat).
  { unfold cas, stale. intros *. by case_decide. }
  inversion 1; subst; (split; [|done]); cbn -[stale];
    try match goal with H : cas _ _ _ _ _ = None |- _ => rewrite (Hstale _ _ _ _ H) end;
    try change (stale (set_next p b t)) with (stale p);
    rewrite ?stale_same; lia.
Qed.

(** What the threads of a state still have to do between them. *)
Definition work (s : sys) : Z := sumz (fun c => Z.of_nat (rank (mem s) c)) (threads s).

Lemma tau_step_work s s' :
  step s Tau s' -> work s' + 1 <= work s /\ length (threads s') = length (threads s).
Proof.
  intros Hs. remember Tau as l eqn:El. destruct Hs as [i c l p' o' c' Hc Ht]. subst l. unfold work; cbn [mem threads].
  destruct (tau_step_rank _ _ _ _ _ _ Ht) as (Hr & E1 & E2).
  rewrite length_insert. split; [|done].
  erewrite (sumz_ext (fun d => Z.of_nat (rank p' d)) (fun d => Z.of_nat (rank (mem s) d)))
    by (intros d; by erewrite rank_ext).
  rewrite (sumz_insert _ _ _ c) by done. rewrite <- (rank_ext _ _ c' E1 E2). lia.
Qed.

(** C27.  Lock-freedom: whatever the scheduler does, among any 10 N + 1 consecutive steps of N
    threads there is one in which a call begins, or takes effect on the pool; threads cannot
    all keep retrying their exchanges. *)
Theorem pool_lock_free s tr s' :
  runs s tr s' -> 10 * zlen (threads s) < zlen tr -> exists l, l ∈ tr /\ l <> Tau.
Proof.
  intros Hr Hlen.
  assert (H : (exists l, l ∈ tr /\ l <> Tau) \/
              zlen tr + work s' <= work s /\ length (threads s') = length (threads s)).
  { clear Hlen. induction Hr as [|tr s1 l s2 Hr IH Hs]; [right; change (zlen []) with 0; lia|].
    destruct IH as [(l' & Hl & Hne)|[Hw Hl]].
    - left. exists l'. split; [apply elem_of_app; by left|done].
    - destruct (decide (l = Tau)) as [-> |Hne].
      + right. destruct (tau_step_work _ _ Hs). rewrite zlen_app. change (zlen [Tau]) with 1. split; [lia|congruence].
      + left. exists l. split; [|done]. apply elem_of_app. right. apply list_elem_of_here. }
  destruct H as [|[Hw _]]; [done|].
  assert (work s <= 10 * zlen (threads s)).
  { unfold work. apply sumz_bound. intros c. pose proof (rank_bound (mem s) c). lia. }
  assert (0 <= work s') by (apply sumz_nonneg; lia). lia.
Qed.

(** *** A call alone is the sequential operation *)

Tactic Notation "solo_step" uconstr(c) := eapply solo_S; [apply list_lookup_insert_eq; rewrite ?length_insert; eassumption|
  apply c; cbn; eauto|cbn [mem out threads]; rewrite ?list_insert_insert_eq].

Lemma cas_same p cn cc t u :
  pTopNode p = cn -> lCount p = cc -> cas p cn cc t u = Some (set_top p t u).
Proof. intros. by apply cas_Some. Qed.

Lemma Alloc_solo B n p o thr i L fresh junk :
  inv B n (mkSys p o thr) L -> thr !! i = Some Idle -> next p !! fresh = None ->
  0 <= B -> 0 <= n -> B + n + 1 < 9223372036854775808 ->
  exists k p' b, Alloc p fresh junk = Ok (p', b) /\
    solo i k (mkSys p o thr) (mkSys p' ({[b]} ∪ o) thr).
Proof.
  intros [] Hi Hf HB Hn Hbd. cbn in *. pose proof (lookup_lt_Some _ _ _ Hi) as Hlt.
  assert (Hid : <[i := Idle]> thr = thr) by (by apply list_insert_id).
  unfold Alloc. case (Z.ltb_spec (m_lMaxCount p) (i64 (m_lUseCount p + 1))) as [Hc|Hc].
  - eexists 4%nat, _, _. split; [reflexivity|].
    eapply solo_S; [exact Hi|apply S_alloc|]. cbn [mem out threads].
    solo_step S_use_new. solo_step (S_malloc _ _ fresh junk). solo_step S_max.
    rewrite Hid. constructor.
  - assert (Hahead : 0 <= sumz w_ahead thr).
    { apply sumz_nonneg. intros []; cbn; lia. }
    rewrite i64_id in Hc by lia.
    destruct L as [|b L]; [change (zlen []) with 0 in *; lia|].
    destruct i_chain0 as (Ht & nx & Hnx & _).
    cbn [set_counts pTopNode next]. rewrite Ht. cbn [of_opt mbind res_bind]. rewrite Hnx.
    eexists 8%nat, _, b. split; [reflexivity|].
    eapply solo_S; [exact Hi|apply S_alloc|]. cbn [mem out threads].
    solo_step S_use_pop. { rewrite i64_id; lia. }
    solo_step S_uniq. solo_step S_node. solo_step S_count. solo_step S_top.
    cbn [set_counts pTopNode lCount]. rewrite Ht.
    solo_step S_next. solo_step S_cas_ok. { by apply cas_same. }
    rewrite Hid. constructor.
Qed.

Lemma Free_solo p o thr i b :
  thr !! i = Some Idle -> b ∈ o ->
  exists k, solo i k (mkSys p o thr) (mkSys (Free p b) (o ∖ {[b]}) thr).
Proof.
  intros Hi Hb. pose proof (lookup_lt_Some _ _ _ Hi) as Hlt.
  assert (Hid : <[i := Idle]> thr = thr) by (by apply list_insert_id).
  exists 8%nat. eapply solo_S; [exact Hi|by apply (S_free _ _ b)|]. cbn [mem out threads].
  solo_step S_funiq. solo_step S_fnode. solo_step S_fcount. solo_step S_ftop. solo_step S_flink.
  solo_step S_fcas_ok. { by apply cas_same. }
  solo_step S_fuse. rewrite Hid. constructor.
Qed.

(** ** A pool at rest *)

Definition quiescent (s : sys) : Prop := forall c, c ∈ threads s -> c = Idle.

Lemma sumz_idle f thr : (forall c, c ∈ thr -> c = Idle) -> f Idle = 0 -> sumz f thr = 0.
Proof.
  intros H Hf. induction thr as [|c thr IH]; [done|]. cbn.
  rewrite (H c), IH by (try apply list_elem_of_here; intros; apply H; by apply list_elem_of_further).
  lia.
Qed.

Lemma drain_chain nx k t L :
  chain nx t L -> (length L <= k)%nat -> drain k t nx = Ok (L, None).
Proof.
  revert t L. induction k as [|k IH]; intros t L Hch Hl; destruct L as [|x L]; cbn in *;
    try lia; try (by rewrite Hch).
  - rewrite Hch. apply (IH None []); [done|cbn; lia].
  - destruct Hch as (-> & t' & -> & Hch). cbn. rewrite (IH t' L) by (done || lia). done.
Qed.

Lemma drain_chain_some nx k t L : chain nx t L -> exists r, drain k t nx = Ok r.
Proof.
  revert t L. induction k as [|k IH]; intros t L Hch; [eauto|]. destruct L as [|x L]; cbn in *.
  - rewrite Hch. by apply (IH None []).
  - destruct Hch as (-> & t' & -> & Hch). cbn. destruct (IH t' L Hch) as [[freed t''] ->]. cbn. eauto.
Qed.

(** C28.  Exact accounting: when no call is in progress, [GetUseCount] is the number of
    blocks the clients hold, [GetAllocCount] is that number plus the length of the free list,
    and the destructor frees exactly the blocks of the free list, each once, without running
    into a null link, as long as its [int] can count the blocks. *)
Theorem pool_at_rest blocks n tr s :
  NoDup blocks -> runs (initial blocks n) tr s -> in_bounds blocks tr -> quiescent s ->
  exists L, (CLFFreeList_delete (mem s) =
      if GetAllocCount (mem s) <=? INT_MAX then Ok (L, None) else Fault SignedOverflow) /\ NoDup L /\
    (forall b, b ∈ out s -> b ∉ L) /\
    GetUseCount (mem s) = Z.of_nat (size (out s)) /\
    GetAllocCount (mem s) = GetUseCount (mem s) + zlen L.
Proof.
  intros Hnd Hr Hb Hq. destruct (runs_inv _ _ _ _ Hnd Hr Hb) as (L & [] & _).
  exists L. unfold GetUseCount, GetAllocCount, CLFFreeList_delete.
  rewrite (sumz_idle w_using _ Hq eq_refl) in i_inuse0.
  rewrite (sumz_idle w_ahead _ Hq eq_refl) in i_balance0.
  split_and!; auto; [|by intros b Hbo; destruct (i_out0 b Hbo)|lia|lia].
  unfold GetAllocCount. destruct (Z.leb_spec (m_lMaxCount (mem s)) INT_MAX) as [Hle|Hgt].
  - rewrite Z.min_l by lia. rewrite (drain_chain _ _ _ L) by (try done; unfold zlen in *; lia). done.
  - destruct (drain_chain_some (next (mem s)) (Z.to_nat (Z.min (m_lMaxCount (mem s)) (INT_MAX + 1)))
      (pTopNode (mem s)) L) as [r ->]; done.
Qed.

(** ** The sequential pool

    What the components that run one call at a time need: [at_rest p L o], the free list is
    [L] and the clients hold [o]. *)
Record at_rest (p : pool) (L : list loc) (o : gset loc) : Prop := {
  rest_chain : chain (next p) (pTopNode p) L;
  rest_nodup : NoDup L;
  rest_out : forall b, b ∈ o -> (b ∉ L) /\ is_Some (next p !! b);
  rest_use : m_lUseCount p = Z.of_nat (size o);
  rest_max : m_lMaxCount p = zlen L + Z.of_nat (size o)
}.

(** Machine counters do not wrap below this many blocks. *)
Definition POOL_LIMIT : Z := 4611686018427387904.

Lemma Alloc_rest p L o :
  at_rest p L o -> m_lMaxCount p < POOL_LIMIT ->
  exists p' l L', Alloc p (fresh (dom (next p))) None = Ok (p', l) /\ (l ∉ o) /\
    at_rest p' L' ({[l]} ∪ o) /\ (next p !! l = None \/ l ∈ L) /\
    dom (next p') = {[l]} ∪ dom (next p) /\ (forall b, b ∈ L' -> b ∈ L) /\
    m_lUseCount p' = m_lUseCount p + 1 /\ m_lMaxCount p' <= m_lMaxCount p + 1.
Proof.
  intros [Hch Hnd Hout Huse Hmax] Hlim. unfold POOL_LIMIT in *. unfold Alloc.
  pose proof (zlen_nonneg L). rewrite i64_id by lia.
  destruct (Z.ltb_spec (m_lMaxCount p) (m_lUseCount p + 1)).
  - destruct L as [|x L]; [|rewrite zlen_cons in *; pose proof (zlen_nonneg L); lia].
    set (f := fresh (dom (next p))). assert (Hf : f ∉ dom (next p)) by apply is_fresh.
    assert (Hfo : f ∉ o).
    { intros Hin. destruct (Hout f Hin) as [_ Hs]. by apply Hf, elem_of_dom. }
    rewrite i64_id by lia. eexists _, f, []. split; [reflexivity|]. split; [done|]. split.
    + split; cbn; rewrite ?size_put by done; try (done || lia).
      intros b Hb. split; [by intros ?%elem_of_nil|]. rewrite lookup_insert_is_Some'.
      apply elem_of_union in Hb as [->%elem_of_singleton|Hb]; [by left|right].
      exact (proj2 (Hout b Hb)).
    + split_and!; try done; [left; by apply not_elem_of_dom| |cbn; rewrite ?i64_id; lia..].
      cbn. by rewrite dom_insert_L.
  - destruct L as [|x L]; [change (zlen []) with 0 in *; lia|].
    destruct Hch as (Ht & nx & Hnx & Hch). apply list.NoDup_cons in Hnd as [Hx Hnd].
    cbn [set_counts pTopNode next]. rewrite Ht. cbn [of_opt mbind res_bind]. rewrite Hnx.
    assert (Hxo : x ∉ o).
    { intros Hin. destruct (Hout x Hin) as [[] _]. apply list_elem_of_here. }
    eexists _, x, L. split; [reflexivity|]. split; [done|]. split.
    + rewrite zlen_cons in *. split; cbn; rewrite ?size_put by done; try (done || lia).
      intros b Hb. apply elem_of_union in Hb as [->%elem_of_singleton|Hb]; [by eauto|].
      destruct (Hout b Hb) as [Hb1 Hb2]. split; [|done]. intros Hin. by apply Hb1, list_elem_of_further.
    + split_and!; try done.
      * right. apply list_elem_of_here.
      * cbn. assert (x ∈ dom (next p)) by (apply elem_of_dom; by exists nx). set_solver.
      * intros b. by apply list_elem_of_further.
      * cbn. lia.
Qed.

Lemma Free_rest p L o l :
  at_rest p L o -> l ∈ o -> m_lMaxCount p <= POOL_LIMIT ->
  at_rest (Free p l) (l :: L) (o ∖ {[l]}) /\ dom (next (Free p l)) = dom (next p) /\
  m_lUseCount (Free p l) = m_lUseCount p - 1.
Proof.
  intros [Hch Hnd Hout Huse Hmax] Hl Hlim. unfold POOL_LIMIT in *. destruct (Hout l Hl) as [HlL Hld].
  pose proof (zlen_nonneg L). unfold Free. rewrite (i64_id (m_lUseCount p - 1)) by lia.
  split; [split|split]; cbn; rewrite ?size_take, ?zlen_cons by done; try (done || lia).
  - split; [done|]. exists (pTopNode p). rewrite lookup_insert_eq. split; [done|].
    eapply chain_agree; [|done]. intros x Hx. rewrite lookup_insert_ne; [done|]. by intros ->.
  - by apply list.NoDup_cons.
  - intros b Hb. apply elem_of_difference in Hb as [Hb Hne]. destruct (Hout b Hb) as [Hb1 Hb2].
    split; [|rewrite lookup_insert_is_Some'; by right].
    intros Hin. apply elem_of_cons in Hin as [-> |]; [|done]. by apply Hne, elem_of_singleton.
  - rewrite dom_insert_L. apply elem_of_dom in Hld. set_solver.
Qed.

(** ** Witnesses: two threads on a pool of two blocks, interleaved

    Thread 0 calls [Alloc], thread 1 calls [Alloc] inside it, both read the same top; thread 1
    wins the exchange and thread 0 retries. *)
Definition t01 : list nat := [0;1; 0;1; 0;1; 0;1; 0;1; 0;1; 0;1; 1;0; 0;0;0;0;0]%nat.

Definition final01 : sys :=
  mkSys (mkPool None 1 {[1%positive := None; 2%positive := Some 1%positive]} 2 2 2 false 2)
        {[1%positive; 2%positive]} [Idle; Idle].

(** The steps a thread can make next, when they are determined by its state. *)
Definition next_step (p : pool) (out : gset loc) (c : pc) : option (label * pool * gset loc * pc) :=
  match c with
  | Idle => Some (AllocCall, p, out, A_use (m_lMaxCount p))
  | A_use mc =>
      let p' := set_counts p (m_lMaxCount p) (i64 (m_lUseCount p + 1)) (m_lCount p) in
      Some (Tau, p', out, if mc <? i64 (m_lUseCount p + 1) then A_malloc else A_uniq)
  | A_uniq => Some (Tau, set_counts p (m_lMaxCount p) (m_lUseCount p) (i64 (m_lCount p + 1)),
                    out, A_node (i64 (m_lCount p + 1)))
  | A_node u => Some (Tau, p, out, A_count u (pTopNode p))
  | A_count u cn => Some (Tau, p, out, A_top u cn (lCount p))
  | A_top u cn cc => Some (Tau, p, out, A_next u cn cc (pTopNode p))
  | A_next u cn cc (Some b) =>
      match next p !! b with Some nx => Some (Tau, p, out, A_cas u cn cc nx) | None => None end
  | A_cas u (Some b) cc nx =>
      match cas p (Some b) cc nx u with
      | Some p' => Some (RetPop b, p', {[b]} ∪ out, Idle)
      | None => Some (Tau, p, out, A_node u)
      end
  | _ => None
  end.

Lemma next_step_sound p o c l p' o' c' :
  next_step p o c = Some (l, p', o', c') -> tstep p o c l p' o' c'.
Proof.
  intros H. destruct c as [| mc | | | | | | | u cn cc [b|] | u [b|] cc nx | | | | | | |];
    cbn in H; try done;
    repeat case_match; simplify_eq; try (by constructor).
  all: try (destruct (Z.ltb_spec mc (i64 (m_lUseCount p + 1))); by constructor).
Qed.

Fixpoint exec (sched : list nat) (s : sys) : option (list label * sys) :=
  match sched with
  | [] => Some ([], s)
  | i :: sched =>
      match threads s !! i with
      | Some c =>
          match next_step (mem s) (out s) c with
          | Some (l, p', o', c') =>
              match exec sched (mkSys p' o' (<[i := c']> (threads s))) with
              | Some (tr, s') => Some (l :: tr, s')
              | None => None
              end
          | None => None
          end
      | None => None
      end
  end.

Lemma runs_cons s l s1 tr s2 : step s l s1 -> runs s1 tr s2 -> runs s (l :: tr) s2.
Proof.
  intros Hs Hr. induction Hr as [|tr s3 l' s2 Hr IH Hl].
  - change [l] with ([] ++ [l]). econstructor; [constructor|done].
  - rewrite app_comm_cons. econstructor; eauto.
Qed.

Lemma exec_runs sched s tr s' : exec sched s = Some (tr, s') -> runs s tr s'.
Proof.
  revert s tr. induction sched as [|i sched IH]; intros s tr H; cbn in H.
  - injection H as <- <-. constructor.
  - repeat case_match; simplify_eq. eapply runs_cons; [|by apply IH].
    econstructor; [done|]. by apply next_step_sound.
Qed.

Definition trace01 : list label :=
  [AllocCall; AllocCall] ++ replicate 12 Tau ++ [RetPop 2%positive] ++ replicate 5 Tau ++
  [RetPop 1%positive].

Lemma run01 : runs (initial [1%positive; 2%positive] 2) trace01 final01.
Proof. apply (exec_runs t01). vm_compute. reflexivity. Defined.

Lemma nodup12 : NoDup [1%positive; 2%positive].
Proof. apply (bool_decide_unpack _). vm_compute. exact I. Defined.

Lemma bounds01 : in_bounds [1%positive; 2%positive] trace01.
Proof. vm_compute. reflexivity. Defined.

Lemma pool_refines_stack_witness :
  exists L, spec_runs ([2%positive; 1%positive], ∅) trace01 (L, {[1%positive; 2%positive]}) /\
    chain (next (mem final01)) None L /\ NoDup L /\
    (forall b, b ∈ out final01 -> b ∉ L).
Proof. exact (pool_refines_stack _ 2 _ _ nodup12 run01 bounds01). Defined.

(** After sixteen of those steps: thread 1 has its block and thread 0 starts its retry. *)
Lemma pool_never_stuck_witness :
  exists s c l p' o' c', threads s !! 0%nat = Some c /\ c <> Idle /\
    tstep (mem s) (out s) c l p' o' c'.
Proof.
  destruct (exec (take 16 t01) (initial [1%positive; 2%positive] 2)) as [[tr s]|] eqn:E;
    [|by vm_compute in E].
  pose proof (exec_runs _ _ _ _ E) as Hr. vm_compute in E. injection E as <- <-.
  destruct (pool_never_stuck [1%positive; 2%positive] 2 _ _ 0%nat (A_node 1) nodup12 Hr)
    as (l & p' & o' & c' & H); [vm_compute; reflexivity|reflexivity|discriminate|].
  do 2 eexists. exists l, p', o', c'. split; [|split; [|exact H]]; [reflexivity|discriminate].
Defined.

Lemma pool_lock_free_witness :
  exists l, l ∈ trace01 ++ [AllocCall] /\ l <> Tau.
Proof.
  apply (pool_lock_free (initial [1%positive; 2%positive] 2) _
    (mkSys (mem final01) (out final01) (<[0%nat := A_use 2]> (threads final01)))).
  - econstructor; [exact run01|].
    apply (Step final01 0 Idle AllocCall (mem final01) (out final01) (A_use 2));
      [reflexivity|apply S_alloc].
  - vm_compute. reflexivity.
Defined.

Lemma pool_at_rest_witness :
  exists L, (CLFFreeList_delete (mem final01) =
      if GetAllocCount (mem final01) <=? INT_MAX then Ok (L, None) else Fault SignedOverflow) /\ NoDup L /\
    (forall b, b ∈ out final01 -> b ∉ L) /\
    GetUseCount (mem final01) = Z.of_nat (size (out final01)) /\
    GetAllocCount (mem final01) = GetUseCount (mem final01) + zlen L.
Proof.
  apply (pool_at_rest _ 2 _ _ nodup12 run01 bounds01).
  intros c Hc. vm_compute in Hc. repeat (apply elem_of_cons in Hc as [-> | Hc]; [reflexivity|]).
  by apply elem_of_nil in Hc.
Defined.
