(* ===== verification/Sector.v ===== *)
(** * The sector grid and its locks (ChatServer.cpp)

    The 50 x 50 grid of sectors: which sectors surround one ([MakeAround]), the number the
    constructor gives to each sector's lock, and the order in which the handlers take the
    locks.  [thread] and [lstep] are the SRW locks as a step system; threads that keep the
    discipline [disciplined] can never deadlock, and every handler keeps it. *)

From S2P Require Import Prelude.

Definition dfSECTOR_MAX_X : Z := 50.
Definition dfSECTOR_MAX_Y : Z := 50.

(** ** Around a sector *)

Record st_POSITION := mkPos { px : Z; py : Z }.

#[export] Instance st_POSITION_eq_dec : EqDecision st_POSITION.
Proof. solve_decision. Defined.

(** [map] is an array of 9; a store past its end is a fault. *)
Record st_SECTOR := mkAround { count : Z; map : list st_POSITION }.

(** The arguments are [WORD]s: a caller's [int] is truncated on the way in. *)
Definition IsValidSector (x y : Z) : bool :=
  (x <? dfSECTOR_MAX_X) && (y <? dfSECTOR_MAX_Y).

Definition around_step (x y dx dy : Z) (s : st_SECTOR) : res st_SECTOR :=
  if negb (IsValidSector (u16 (x + dx)) (u16 (y + dy))) then Ok s
  else if (0 <=? count s) && (count s <? zlen (map s)) then
    Ok (mkAround (count s + 1) (<[Z.to_nat (count s) := mkPos (x + dx) (y + dy)]> (map s)))
  else Fault OutOfBounds.

(** [for (int i = lo; i <= hi; ++i)] as the list of the values of [i]. *)
Fixpoint for_each {A} (vs : list Z) (body : Z -> A -> res A) (s : A) : res A :=
  match vs with
  | [] => Ok s
  | i :: vs => s ← body i s; for_each vs body s
  end.

Definition MakeAround (x y : Z) : res st_SECTOR :=
  let s := mkAround 0 (replicate 9 (mkPos 0 0)) in
  for_each [-1; 0; 1] (fun dy s =>
    for_each [-1; 0; 1] (fun dx s => around_step x y dx dy s) s) s.

(** The entries the callers read: the first [count]. *)
Definition entries (s : st_SECTOR) : list st_POSITION := take (Z.to_nat (count s)) (map s).

(** A sector of the grid, and sectors at most one step apart in each direction. *)
Definition on_grid (x y : Z) : Prop := 0 <= x < dfSECTOR_MAX_X /\ 0 <= y < dfSECTOR_MAX_Y.
Definition near (a b : Z) : Prop := -1 <= a - b <= 1.

Lemma on_grid_valid x y : 0 <= x -> 0 <= y -> IsValidSector x y = true <-> on_grid x y.
Proof. intros. unfold IsValidSector, on_grid. rewrite andb_true_iff, !Z.ltb_lt. lia. Qed.

(** The truncation to [WORD] sends -1 to 65535, which is not a sector either. *)
Lemma word_on_grid n d lim :
  0 <= n < lim -> lim <= 50 -> -1 <= d <= 1 ->
  (u16 (n + d) <? lim) = (0 <=? n + d) && (n + d <? lim).
Proof.
  intros Hn Hl Hd. destruct (Z.leb_spec 0 (n + d)); cbn.
  - rewrite u16_id by lia. done.
  - replace (n + d) with (-1) by lia. change (u16 (-1)) with 65535.
    apply Z.ltb_ge. lia.
Qed.

(** The nine candidates in the order the loops visit them. *)
Definition candidates (x y : Z) : list st_POSITION :=
  dy ← [-1; 0; 1]; dx ← [-1; 0; 1]; [mkPos (x + dx) (y + dy)].

Definition in_grid (p : st_POSITION) : bool :=
  (0 <=? px p) && (px p <? dfSECTOR_MAX_X) && (0 <=? py p) && (py p <? dfSECTOR_MAX_Y).

(** One visit of the loop body: the candidate is appended when it is on the grid. *)
Lemma around_step_ok x y dx dy s :
  on_grid x y -> -1 <= dx <= 1 -> -1 <= dy <= 1 ->
  0 <= count s < zlen (map s) ->
  exists s', around_step x y dx dy s = Ok s' /\ zlen (map s') = zlen (map s) /\
    count s <= count s' <= count s + 1 /\
    entries s' = entries s ++ filter (fun p => in_grid p) [mkPos (x + dx) (y + dy)].
Proof.
  intros [Hx Hy] Hdx Hdy Hc. unfold around_step, IsValidSector, dfSECTOR_MAX_X, dfSECTOR_MAX_Y in *.
  rewrite !word_on_grid by lia. rewrite filter_cons, filter_nil.
  assert (E : in_grid (mkPos (x + dx) (y + dy)) =
              (0 <=? x + dx) && (x + dx <? 50) && ((0 <=? y + dy) && (y + dy <? 50)))
    by (unfold in_grid; by rewrite !andb_assoc).
  rewrite <- E. destruct (in_grid _); cbn.
  - replace ((0 <=? count s) && (count s <? zlen (map s))) with true
      by (symmetry; apply andb_true_iff; lia).
    eexists. split; [done|]. cbn. split_and!; try lia.
    + unfold zlen. by rewrite length_insert.
    + unfold entries; cbn. unfold zlen in Hc.
      replace (Z.to_nat (count s + 1)) with (S (Z.to_nat (count s))) by lia.
      rewrite (take_S_r _ _ (mkPos (x + dx) (y + dy))) by (apply list_lookup_insert_eq; lia).
      by rewrite take_insert_ge.
  - eexists. split; [done|]. rewrite app_nil_r. split_and!; (done || lia).
Qed.

(** The loop over any list of offsets. *)
Lemma for_each_around (f : Z -> Z * Z) x y vs s :
  on_grid x y -> (forall v, v ∈ vs -> -1 <= (f v).1 <= 1 /\ -1 <= (f v).2 <= 1) ->
  0 <= count s -> count s + zlen vs <= zlen (map s) ->
  exists s', for_each vs (fun v s => around_step x y (f v).1 (f v).2 s) s = Ok s' /\
    zlen (map s') = zlen (map s) /\ count s <= count s' <= count s + zlen vs /\
    entries s' = entries s ++
      filter (fun p => in_grid p) ((fun v => mkPos (x + (f v).1) (y + (f v).2)) <$> vs).
Proof.
  intros Hg. revert s. induction vs as [|v vs IH]; intros s Hvs H0 Hc.
  - exists s. cbn. rewrite app_nil_r. change (zlen []) with 0. split_and!; (done || lia).
  - rewrite zlen_cons in *. pose proof (zlen_nonneg vs).
    destruct (Hvs v) as [H1 H2]; [apply list_elem_of_here|].
    destruct (around_step_ok x y (f v).1 (f v).2 s Hg H1 H2) as (s1 & E1 & Hl1 & Hc1 & He1);
      [lia|].
    destruct (IH s1) as (s2 & E2 & Hl2 & Hc2 & He2); try lia.
    { intros w Hw. apply Hvs. by apply list_elem_of_further. }
    exists s2. cbn [for_each]. rewrite E1. cbn [mbind res_bind]. split; [exact E2|].
    split_and!; try lia. rewrite He2, He1, <- app_assoc. f_equal.
    rewrite fmap_cons, !filter_cons, filter_nil. by case_decide.
Qed.

Lemma around_row x y dy s :
  on_grid x y -> -1 <= dy <= 1 -> 0 <= count s -> count s + 3 <= zlen (map s) ->
  exists s', for_each [-1; 0; 1] (fun dx s => around_step x y dx dy s) s = Ok s' /\
    zlen (map s') = zlen (map s) /\ count s <= count s' <= count s + 3 /\
    entries s' = entries s ++
      filter (fun p => in_grid p) ((fun dx => mkPos (x + dx) (y + dy)) <$> [-1; 0; 1]).
Proof.
  intros Hg Hdy H0 Hc. apply (for_each_around (fun dx => (dx, dy)) x y [-1; 0; 1] s Hg); try done.
  intros v Hv. repeat (apply elem_of_cons in Hv as [-> | Hv]; [cbn; lia|]).
  by apply elem_of_nil in Hv.
Qed.

Lemma MakeAround_entries x y :
  on_grid x y ->
  exists s, MakeAround x y = Ok s /\ 0 <= count s <= 9 /\ zlen (map s) = 9 /\
    entries s = filter (fun p => in_grid p) (candidates x y).
Proof.
  intros Hg. unfold MakeAround. cbn [for_each].
  set (s0 := mkAround 0 (replicate 9 (mkPos 0 0))).
  assert (Hl0 : zlen (map s0) = 9) by reflexivity. assert (Hc0 : count s0 = 0) by reflexivity.
  destruct (around_row x y (-1) s0 Hg) as (s1 & E1 & Hl1 & Hc1 & He1); [lia..|].
  destruct (around_row x y 0 s1 Hg) as (s2 & E2 & Hl2 & Hc2 & He2); [lia..|].
  destruct (around_row x y 1 s2 Hg) as (s3 & E3 & Hl3 & Hc3 & He3); [lia..|].
  cbn [for_each] in E1, E2, E3. rewrite E1. cbn [mbind res_bind]. rewrite E2.
  cbn [mbind res_bind]. rewrite E3. cbn [mbind res_bind].
  exists s3. split_and!; try done; try lia.
  rewrite He3, He2, He1. change (entries s0) with (@nil st_POSITION).
  rewrite <- !app_assoc, <- !list.filter_app. done.
Qed.

Lemma candidates_spec x y p :
  p ∈ candidates x y <-> near (px p) x /\ near (py p) y.
Proof.
  unfold candidates, near. rewrite list_elem_of_bind. split.
  - intros (dy & Hp & Hdy). apply list_elem_of_bind in Hp as (dx & Hp & Hdx).
    apply list_elem_of_singleton in Hp as ->. cbn.
    split; [revert Hdx|revert Hdy]; rewrite !elem_of_cons, elem_of_nil; lia.
  - intros [Hx Hy]. exists (py p - y). split.
    + apply list_elem_of_bind. exists (px p - x). split.
      * apply list_elem_of_singleton. destruct p; cbn. f_equal; lia.
      * rewrite !elem_of_cons. lia.
    + rewrite !elem_of_cons. lia.
Qed.

Lemma NoDup_candidates x y : NoDup (candidates x y).
Proof.
  unfold candidates; cbn.
  repeat (apply list.NoDup_cons; split;
    [rewrite ?elem_of_cons, elem_of_nil; intros H; destruct_or?; simplify_eq; (done || lia)|]).
  constructor.
Qed.

Lemma in_candidates x y p :
  p ∈ filter (fun p => in_grid p) (candidates x y) <->
  on_grid (px p) (py p) /\ near (px p) x /\ near (py p) y.
Proof.
  rewrite list_elem_of_filter, candidates_spec. unfold in_grid, on_grid, near.
  rewrite Is_true_true, !andb_true_iff, !Z.leb_le, !Z.ltb_lt. lia.
Qed.

(** [MakeAround] returns for every sector of the grid and never writes past its array of
    nine; what it lists is exactly the sectors of the grid at distance at most one in each
    direction (the sector itself included), each once.  On the edges the truncation of a
    coordinate of -1 to [WORD] lets nothing wrong through. *)
Theorem MakeAround_spec x y :
  on_grid x y ->
  exists s, MakeAround x y = Ok s /\ 0 <= count s <= 9 /\ zlen (entries s) = count s /\
    NoDup (entries s) /\
    forall p, p ∈ entries s <->
      on_grid (px p) (py p) /\ near (px p) x /\ near (py p) y.
Proof.
  intros Hg. destruct (MakeAround_entries x y Hg) as (s & E & Hc & Hl & He).
  exists s. split_and!; try done; try lia.
  - unfold entries, zlen in *. rewrite length_take. lia.
  - rewrite He. apply list.NoDup_filter, NoDup_candidates.
  - intros p. rewrite He. apply in_candidates.
Qed.

Lemma MakeAround_spec_witness :
  on_grid 49 0 /\
  exists s, MakeAround 49 0 = Ok s /\ 0 <= count s <= 9 /\ zlen (entries s) = count s /\
    NoDup (entries s) /\
    forall p, p ∈ entries s <->
      on_grid (px p) (py p) /\ near (px p) 49 /\ near (py p) 0.
Proof.
  assert (H : on_grid 49 0) by (unfold on_grid, dfSECTOR_MAX_X, dfSECTOR_MAX_Y; lia).
  split; [exact H|]. exact (MakeAround_spec 49 0 H).
Defined.

(** ** The locks

    The constructor numbers the sectors' locks row by row. *)
Fixpoint ctor_row (n : nat) (idx : Z) : list Z * Z :=
  match n with
  | O => ([], idx)
  | S n => let '(row, idx') := ctor_row n (i32 (idx + 1)) in (idx :: row, idx')
  end.

Fixpoint ctor_rows (n : nat) (idx : Z) : list (list Z) :=
  match n with
  | O => []
  | S n =>
      let '(row, idx') := ctor_row (Z.to_nat dfSECTOR_MAX_X) idx in row :: ctor_rows n idx'
  end.

Definition lockIndexes : list (list Z) := ctor_rows (Z.to_nat dfSECTOR_MAX_Y) 0.

(** [sector[y][x].lockIndex] *)
Definition lockIndex (x y : Z) : res Z :=
  if (0 <=? x) && (0 <=? y) then
    row ← of_opt BadIndex (lockIndexes !! Z.to_nat y);
    of_opt BadIndex (row !! Z.to_nat x)
  else Fault BadIndex.

Inductive lock_id := playerLock | accountLock | sectorLock (x y : Z).
Inductive mode := Exclusive | Shared.
Inductive act := Acquire (m : mode) (l : lock_id) | Release (m : mode) (l : lock_id).

#[export] Instance lock_id_eq_dec : EqDecision lock_id.
Proof. solve_decision. Defined.
#[export] Instance mode_eq_dec : EqDecision mode.
Proof. solve_decision. Defined.
#[export] Instance act_eq_dec : EqDecision act.
Proof. solve_decision. Defined.

(** The lock calls of [ChatServer], as the actions they perform. *)
Definition LockSectorExclusive (x y : Z) : list act := [Acquire Exclusive (sectorLock x y)].
Definition UnlockSectorExclusive (x y : Z) : list act := [Release Exclusive (sectorLock x y)].

Definition LockTwoSectorsExclusive (x1 y1 x2 y2 : Z) : res (list act) :=
  i1 ← lockIndex x1 y1;
  i2 ← lockIndex x2 y2;
  Ok (if i1 =? i2 then LockSectorExclusive x1 y1
      else if i1 <? i2 then LockSectorExclusive x1 y1 ++ LockSectorExclusive x2 y2
      else LockSectorExclusive x2 y2 ++ LockSectorExclusive x1 y1).

Definition UnlockTwoSectorsExclusive (x1 y1 x2 y2 : Z) : res (list act) :=
  i1 ← lockIndex x1 y1;
  i2 ← lockIndex x2 y2;
  Ok (if i1 =? i2 then UnlockSectorExclusive x1 y1
      else UnlockSectorExclusive x1 y1 ++ UnlockSectorExclusive x2 y2).

(** The global order: the two server locks before the sectors, the sectors by number. *)
Definition rank (l : lock_id) : Z :=
  match l with
  | playerLock => -2
  | accountLock => -1
  | sectorLock x y => match lockIndex x y with Ok i => i | _ => -3 end
  end.

Fixpoint remove_one (h : lock_id * mode) (held : list (lock_id * mode)) :=
  match held with
  | [] => []
  | x :: held => if decide (x = h) then held else x :: remove_one h held
  end.

(** A program that only acquires above all it holds, releases only what it holds, and ends
    holding nothing. *)
Fixpoint disciplined (held : list (lock_id * mode)) (p : list act) : bool :=
  match p with
  | [] => match held with [] => true | _ => false end
  | Acquire m l :: p =>
      forallb (fun h => rank h.1 <? rank l) held && disciplined ((l, m) :: held) p
  | Release m l :: p =>
      bool_decide ((l, m) ∈ held) && disciplined (remove_one (l, m) held) p
  end.

(** Sections one after the other. *)
Lemma disciplined_app_held held p q :
  disciplined held p = true -> disciplined [] q = true -> disciplined held (p ++ q) = true.
Proof.
  revert held. induction p as [|[m l|m l] p IH]; intros held Hp Hq; cbn in *.
  - by destruct held.
  - apply andb_true_iff in Hp as [-> Hp]. by apply IH.
  - apply andb_true_iff in Hp as [-> Hp]. by apply IH.
Qed.

Lemma disciplined_app p q :
  disciplined [] p = true -> disciplined [] q = true -> disciplined [] (p ++ q) = true.
Proof. apply disciplined_app_held. Qed.

(** ** The threads and the SRW locks as a step system *)

Record thread := mkThread { held : list (lock_id * mode); prog : list act }.

(** Nobody holds [l]; nobody holds it exclusively. *)
Definition unheld (ts : list thread) (l : lock_id) : Prop :=
  forall t m, t ∈ ts -> (l, m) ∉ held t.
Definition no_writer (ts : list thread) (l : lock_id) : Prop :=
  forall t, t ∈ ts -> (l, Exclusive) ∉ held t.

Inductive lstep (ts : list thread) : list thread -> Prop :=
  | L_exclusive i h l p :
      ts !! i = Some (mkThread h (Acquire Exclusive l :: p)) -> unheld ts l ->
      lstep ts (<[i := mkThread ((l, Exclusive) :: h) p]> ts)
  | L_shared i h l p :
      ts !! i = Some (mkThread h (Acquire Shared l :: p)) -> no_writer ts l ->
      lstep ts (<[i := mkThread ((l, Shared) :: h) p]> ts)
  | L_release i h m l p :
      ts !! i = Some (mkThread h (Release m l :: p)) -> (l, m) ∈ h ->
      lstep ts (<[i := mkThread (remove_one (l, m) h) p]> ts).

Definition start (ps : list (list act)) : list thread := (mkThread []) <$> ps.

(** What no scheduling policy of the locks can refuse: a release, or the acquisition of a
    lock nobody holds in any mode. *)
Definition runnable (ts : list thread) (t : thread) : Prop :=
  match prog t with
  | [] => False
  | Acquire _ l :: _ => unheld ts l
  | Release m l :: _ => (l, m) ∈ held t
  end.

Record lock_inv (ts : list thread) : Prop := {
  li_disc : forall t, t ∈ ts -> disciplined (held t) (prog t) = true;
  li_excl : forall i j t u l m, ts !! i = Some t -> ts !! j = Some u ->
    (l, Exclusive) ∈ held t -> (l, m) ∈ held u -> i = j
}.

Lemma remove_one_sub h x held : x ∈ remove_one h held -> x ∈ held.
Proof.
  induction held as [|y held IH]; cbn; [done|]. case_decide; rewrite !elem_of_cons; tauto.
Qed.

Lemma start_inv ps :
  (forall p, p ∈ ps -> disciplined [] p = true) -> lock_inv (start ps).
Proof.
  intros H. split.
  - intros t Ht. apply list_elem_of_fmap in Ht as (p & -> & Hp). by apply H.
  - intros i j t u l m Hi _ Hl _. unfold start in Hi.
    rewrite list_lookup_fmap in Hi. destruct (ps !! i); simplify_eq/=. by apply elem_of_nil in Hl.
Qed.

(** Replacing one thread. *)
Lemma lock_inv_update ts i t t' :
  lock_inv ts -> ts !! i = Some t -> disciplined (held t') (prog t') = true ->
  (forall l m, (l, m) ∈ held t' -> (l, m) ∈ held t \/
     (m = Exclusive /\ unheld ts l) \/ (m = Shared /\ no_writer ts l)) ->
  lock_inv (<[i := t']> ts).
Proof.
  intros [Hd Hx] Hi Hdisc Hheld. pose proof (lookup_lt_Some _ _ _ Hi) as Hlt. split.
  - intros u Hu. apply list_elem_of_lookup in Hu as [j Hj].
    apply list_lookup_insert_Some in Hj as [(-> & <- & _)|[_ Hj]]; [done|].
    apply Hd. by eapply list_elem_of_lookup_2.
  - intros j k u v l m Hj Hk Hu Hv.
    apply list_lookup_insert_Some in Hj as [(-> & <- & _)|[Hij Hj]];
      apply list_lookup_insert_Some in Hk as [(-> & <- & _)|[Hik Hk]]; try done.
    + destruct (Hheld _ _ Hu) as [Hu'|[[_ Hf]|[? _]]]; [by eapply Hx| |done].
      by destruct (Hf v m); [eapply list_elem_of_lookup_2|].
    + destruct (Hheld _ _ Hv) as [Hv'|[[_ Hf]|[_ Hf]]]; [by eapply Hx| |].
      * by destruct (Hf u Exclusive); [eapply list_elem_of_lookup_2|].
      * by destruct (Hf u); [eapply list_elem_of_lookup_2|].
    + by eapply Hx.
Qed.

Lemma lock_inv_step ts ts' : lock_inv ts -> lstep ts ts' -> lock_inv ts'.
Proof.
  intros Hinv Hs. pose proof (li_disc ts Hinv) as Hd.
  destruct Hs as [i h l p Hi Hf|i h l p Hi Hf|i h m l p Hi Hm];
    pose proof (Hd _ (list_elem_of_lookup_2 _ _ _ Hi)) as Hdi; cbn in Hdi;
    apply andb_true_iff in Hdi as [_ Hdi]; eapply lock_inv_update; try done; cbn.
  - intros l' m' H. apply elem_of_cons in H as [[= -> ->]|H]; auto.
  - intros l' m' H. apply elem_of_cons in H as [[= -> ->]|H]; auto.
  - intros l' m' H. left. by eapply remove_one_sub.
Qed.

Lemma lock_inv_reachable ps ts :
  (forall p, p ∈ ps -> disciplined [] p = true) -> steps lstep (start ps) ts -> lock_inv ts.
Proof.
  intros Hp Hs. eapply (steps_invariant lstep lock_inv); eauto using lock_inv_step, start_inv.
Qed.

(** The numbers of the locks, by evaluation of the constructor's loops. *)
Lemma lockIndexes_all :
  lockIndexes = (fun y => (fun x => 50 * Z.of_nat y + Z.of_nat x) <$> seq 0 50) <$> seq 0 50.
Proof. vm_compute. reflexivity. Qed.

Lemma lockIndex_ok x y : on_grid x y -> lockIndex x y = Ok (50 * y + x).
Proof.
  unfold on_grid, dfSECTOR_MAX_X, dfSECTOR_MAX_Y. intros [Hx Hy].
  unfold lockIndex. rewrite lockIndexes_all.
  replace ((0 <=? x) && (0 <=? y)) with true by (symmetry; apply andb_true_iff; lia).
  rewrite list_lookup_fmap, lookup_seq_lt by lia. cbn [fmap option_fmap option_map of_opt mbind res_bind].
  rewrite list_lookup_fmap, lookup_seq_lt by lia. cbn [fmap option_fmap option_map of_opt].
  f_equal. lia.
Qed.

Lemma lockIndexes_lt row i :
  row ∈ lockIndexes -> i ∈ row -> i < 2500.
Proof.
  assert (H : forallb (forallb (fun i => i <? 2500)) lockIndexes = true)
    by (vm_compute; reflexivity).
  intros Hrow Hi. rewrite forallb_forall in H.
  specialize (H row (proj1 (list_elem_of_In _ _) Hrow)). rewrite forallb_forall in H.
  specialize (H i (proj1 (list_elem_of_In _ _) Hi)). by apply Z.ltb_lt.
Qed.

Lemma rank_lt l : rank l < 2500.
Proof.
  destruct l as [| |x y]; cbn; try lia. unfold lockIndex.
  destruct ((0 <=? x) && (0 <=? y)); [|lia].
  destruct (lockIndexes !! Z.to_nat y) as [row|] eqn:Ey; cbn; [|lia].
  destruct (row !! Z.to_nat x) as [i|] eqn:Ex; cbn; [|lia].
  eapply lockIndexes_lt; by eapply list_elem_of_lookup_2.
Qed.

Lemma lockIndex_nonneg x y i : lockIndex x y = Ok i -> -3 <= i.
Proof.
  assert (H : forallb (forallb (fun i => -3 <=? i)) lockIndexes = true)
    by (vm_compute; reflexivity).
  unfold lockIndex. destruct ((0 <=? x) && (0 <=? y)); [|done]. intros E. res_inv.
  rewrite forallb_forall in H.
  apply list_elem_of_lookup_2, list_elem_of_In, H in H0. rewrite forallb_forall in H0.
  apply list_elem_of_lookup_2, list_elem_of_In, H0 in E. by apply Z.leb_le.
Qed.

(** Following the threads that wait: the holder of a lock waits, if at all, for a lock
    further along the order. *)
Lemma find_runnable ts :
  lock_inv ts -> forall n t, t ∈ ts -> prog t <> [] ->
  match prog t with Acquire _ l :: _ => 2500 - rank l <= Z.of_nat n | _ => True end ->
  (forall l, unheld ts l \/ exists u m, u ∈ ts /\ (l, m) ∈ held u) ->
  exists u, u ∈ ts /\ runnable ts u.
Proof.
  intros Hinv n. induction n as [|n IH]; intros t Ht Hne Hr Hdec;
    pose proof (li_disc ts Hinv t Ht) as Hd; unfold runnable in *;
    destruct (prog t) as [|[m l|m l] p] eqn:Ep; try done.
  - pose proof (rank_lt l). lia.
  - cbn in Hd. apply andb_true_iff in Hd as [Hm _]. apply bool_decide_eq_true in Hm.
    exists t. by rewrite Ep.
  - destruct (Hdec l) as [Hf|(u & m' & Hu & Hl)]; [exists t; by rewrite Ep|].
    pose proof (li_disc ts Hinv u Hu) as Hdu.
    apply (IH u); try done.
    + intros E. rewrite E in Hdu. cbn in Hdu. destruct (held u); [by apply elem_of_nil in Hl|done].
    + destruct (prog u) as [|[m2 l2|m2 l2] p2]; try done. cbn in Hdu.
      apply andb_true_iff in Hdu as [Hall _]. rewrite forallb_forall in Hall.
      specialize (Hall _ (proj1 (list_elem_of_In _ _) Hl)). apply Z.ltb_lt in Hall. cbn in Hall. lia.
  - cbn in Hd. apply andb_true_iff in Hd as [Hm _]. apply bool_decide_eq_true in Hm.
    exists t. by rewrite Ep.
Qed.

Lemma unheld_dec ts l : unheld ts l \/ exists u m, u ∈ ts /\ (l, m) ∈ held u.
Proof.
  destruct (decide (Exists (fun t => Exists (fun h => h.1 = l) (held t)) ts)) as [H|H].
  - right. apply list.Exists_exists in H as (t & Ht & H). apply list.Exists_exists in H as ([l' m] & Hl & E).
    cbn in E. subst. eauto.
  - left. intros t m Ht Hl. apply H, list.Exists_exists. exists t. split; [done|].
    apply list.Exists_exists. by exists (l, m).
Qed.

(** A runnable thread has a step, whatever the lock's mode. *)
Lemma runnable_step ts t : t ∈ ts -> runnable ts t -> exists ts', lstep ts ts'.
Proof.
  intros Ht Hr. apply list_elem_of_lookup in Ht as [i Hi]. destruct t as [h p].
  destruct p as [|[[] l|m l] p]; cbn in Hr; try done.
  - eexists. by eapply L_exclusive.
  - eexists. eapply L_shared; [done|]. intros t Ht. by apply Hr.
  - eexists. by eapply L_release.
Qed.

(** The acts still to be performed. *)
Definition remaining (ts : list thread) : Z := sumz (fun t => zlen (prog t)) ts.

Lemma lstep_remaining ts ts' : lstep ts ts' -> remaining ts' = remaining ts - 1.
Proof.
  intros H. unfold remaining.
  destruct H as [i h l p Hi Hf|i h l p Hi Hf|i h m l p Hi Hm];
    rewrite (sumz_insert _ _ _ _ _ Hi); cbn [prog]; rewrite zlen_cons; lia.
Qed.

(** Threads that keep the discipline never deadlock and never share a lock held
    exclusively: in every reachable state, if some thread is not done, then some thread can
    release or acquire a lock nobody holds (so that no policy of the locks can block it), a
    step is possible, and every step performs one of finitely many acts. *)
Theorem locks_never_deadlock ps ts :
  (forall p, p ∈ ps -> disciplined [] p = true) -> steps lstep (start ps) ts ->
  (forall i j t u l m, ts !! i = Some t -> ts !! j = Some u ->
     (l, Exclusive) ∈ held t -> (l, m) ∈ held u -> i = j) /\
  ((forall t, t ∈ ts -> prog t = []) \/
   (exists t, t ∈ ts /\ runnable ts t) /\
   (exists ts', lstep ts ts') /\
   (forall ts', lstep ts ts' -> 0 <= remaining ts' < remaining ts)).
Proof.
  intros Hp Hs. pose proof (lock_inv_reachable ps ts Hp Hs) as Hinv.
  split; [by destruct Hinv|].
  destruct (decide (Forall (fun t => prog t = []) ts)) as [H|H].
  - left. by rewrite list.Forall_forall in H.
  - right. apply not_Forall_Exists, list.Exists_exists in H as (t & Ht & Hne); [|apply _].
    assert (Hrun : exists u, u ∈ ts /\ runnable ts u).
    { apply (find_runnable ts Hinv 2503%nat t); auto using unheld_dec.
      destruct (prog t) as [|[m l|m l] p]; try done.
      enough (-3 <= rank l) by lia. destruct l as [| |x y]; cbn; try lia.
      destruct (lockIndex x y) as [i| |] eqn:E; try lia. by apply lockIndex_nonneg in E. }
    destruct Hrun as (u & Hu & Hr). split_and!; eauto using runnable_step.
    intros ts' Hst. rewrite (lstep_remaining _ _ Hst). split; [|lia].
    rewrite <- (lstep_remaining _ _ Hst). apply sumz_nonneg. intros. apply zlen_nonneg.
Qed.

Lemma LockTwoSectors_ok x1 y1 x2 y2 :
  on_grid x1 y1 -> on_grid x2 y2 ->
  exists lock unlock,
    LockTwoSectorsExclusive x1 y1 x2 y2 = Ok lock /\
    UnlockTwoSectorsExclusive x1 y1 x2 y2 = Ok unlock /\
    NoDup lock /\
    (forall l, Acquire Exclusive l ∈ lock <-> l = sectorLock x1 y1 \/ l = sectorLock x2 y2) /\
    (forall l, Acquire Exclusive l ∈ lock <-> Release Exclusive l ∈ unlock) /\
    forall rest, disciplined [] (lock ++ unlock ++ rest) = disciplined [] rest.
Proof.
  intros H1 H2. unfold LockTwoSectorsExclusive, UnlockTwoSectorsExclusive.
  rewrite !lockIndex_ok by done. cbn [mbind res_bind].
  assert (R1 : rank (sectorLock x1 y1) = 50 * y1 + x1) by (cbn; by rewrite lockIndex_ok).
  assert (R2 : rank (sectorLock x2 y2) = 50 * y2 + x2) by (cbn; by rewrite lockIndex_ok).
  unfold on_grid, dfSECTOR_MAX_X, dfSECTOR_MAX_Y in *.
  unfold LockSectorExclusive, UnlockSectorExclusive.
  destruct (Z.eqb_spec (50 * y1 + x1) (50 * y2 + x2)) as [E|E].
  - assert (x1 = x2 /\ y1 = y2) as [-> ->] by lia.
    do 2 eexists. split_and!; [reflexivity..|apply NoDup_singleton| | |].
    + intros l. rewrite list_elem_of_singleton. naive_solver.
    + intros l. rewrite !list_elem_of_singleton. naive_solver.
    + intros rest. cbn -[rank]. rewrite bool_decide_eq_true_2 by apply list_elem_of_here.
      by rewrite decide_True.
  - assert (Hne : sectorLock x1 y1 <> sectorLock x2 y2) by (intros [= -> ->]; lia).
    destruct (Z.ltb_spec (50 * y1 + x1) (50 * y2 + x2)) as [Hlt|Hge];
      do 2 eexists; (split_and!; [reflexivity..| | | |]);
      try (intros l; cbn [app]; rewrite !elem_of_cons, !elem_of_nil; naive_solver).
    1, 3: cbn; rewrite list.NoDup_cons, list_elem_of_singleton; split;
      [naive_solver|apply NoDup_singleton].
    all: intros rest; cbn -[rank]; rewrite ?R1, ?R2, ?andb_true_r.
    all: rewrite (proj2 (Z.ltb_lt _ _)) by lia; cbn -[rank].
    all: rewrite !bool_decide_eq_true_2 by
      (rewrite ?elem_of_cons; repeat case_decide; simplify_eq; rewrite ?elem_of_cons; auto).
    all: repeat (case_decide; simplify_eq; cbn -[rank]); try done.
Qed.

(** [LockTwoSectorsExclusive] and [UnlockTwoSectorsExclusive] return for any two sectors
    of the grid; a pair keeps the discipline from any set of locks below both; between them
    both sectors are held exclusively, a sector named twice being taken once. *)
Theorem LockTwoSectors_spec x1 y1 x2 y2 :
  on_grid x1 y1 -> on_grid x2 y2 ->
  exists lock unlock,
    LockTwoSectorsExclusive x1 y1 x2 y2 = Ok lock /\
    UnlockTwoSectorsExclusive x1 y1 x2 y2 = Ok unlock /\
    NoDup lock /\
    (forall l, Acquire Exclusive l ∈ lock <-> l = sectorLock x1 y1 \/ l = sectorLock x2 y2) /\
    (forall l, Acquire Exclusive l ∈ lock <-> Release Exclusive l ∈ unlock) /\
    forall rest, disciplined [] (lock ++ unlock ++ rest) = disciplined [] rest.
Proof. apply LockTwoSectors_ok. Qed.

(** Two players moving between sectors (0,0) and (1,0) in opposite directions: both threads
    take (0,0) first; the second one waits. *)
Definition opposite_moves : list (list act) :=
  let lock := LockSectorExclusive 0 0 ++ LockSectorExclusive 1 0 in
  [lock ++ UnlockSectorExclusive 0 0 ++ UnlockSectorExclusive 1 0;
   lock ++ UnlockSectorExclusive 1 0 ++ UnlockSectorExclusive 0 0].

Definition one_waits : list thread :=
  <[0%nat := mkThread [(sectorLock 0 0, Exclusive)]
       (Acquire Exclusive (sectorLock 1 0) :: UnlockSectorExclusive 0 0 ++
        UnlockSectorExclusive 1 0)]> (start opposite_moves).

Lemma locks_never_deadlock_witness :
  LockTwoSectorsExclusive 0 0 1 0 = LockTwoSectorsExclusive 1 0 0 0 /\
  exists t, t ∈ one_waits /\ runnable one_waits t.
Proof.
  split; [vm_compute; reflexivity|].
  assert (Hd : forall p, p ∈ opposite_moves -> disciplined [] p = true).
  { intros p Hp. repeat (apply elem_of_cons in Hp as [-> | Hp]; [vm_compute; reflexivity|]).
    by apply elem_of_nil in Hp. }
  assert (Hs : steps lstep (start opposite_moves) one_waits).
  { eapply steps_cons; [|apply steps_refl]. eapply L_exclusive; [reflexivity|].
    intros t m Ht. repeat (apply elem_of_cons in Ht as [-> | Ht]; [cbn; by intros ?%elem_of_nil|]).
    by apply elem_of_nil in Ht. }
  destruct (locks_never_deadlock opposite_moves one_waits Hd Hs) as [_ [H|[H _]]]; [|exact H].
  specialize (H _ (list_elem_of_here _ _)). discriminate.
Defined.

Lemma LockTwoSectors_spec_witness :
  on_grid 3 7 /\ on_grid 3 6 /\
  exists lock unlock,
    LockTwoSectorsExclusive 3 7 3 6 = Ok lock /\
    UnlockTwoSectorsExclusive 3 7 3 6 = Ok unlock /\
    NoDup lock /\
    (forall l, Acquire Exclusive l ∈ lock <-> l = sectorLock 3 7 \/ l = sectorLock 3 6) /\
    (forall l, Acquire Exclusive l ∈ lock <-> Release Exclusive l ∈ unlock) /\
    forall rest, disciplined [] (lock ++ unlock ++ rest) = disciplined [] rest.
Proof.
  assert (H1 : on_grid 3 7) by (unfold on_grid, dfSECTOR_MAX_X, dfSECTOR_MAX_Y; lia).
  assert (H2 : on_grid 3 6) by (unfold on_grid, dfSECTOR_MAX_X, dfSECTOR_MAX_Y; lia).
  split; [exact H1|]. split; [exact H2|]. exact (LockTwoSectors_spec 3 7 3 6 H1 H2).
Defined.
