(* ===== verification/Message.v ===== *)
(** * The chat protocol's messages (Protocol.h, the Res_ functions of ChatServer.cpp)

    What the server writes into a packet for each reply, as functions on a packet that
    [CPacket::Alloc] has just cleared ([Chat] adds the allocation and the encoding), and the
    library's string copy that the login uses.  The theorems give the layout of each message and the lengths
    for which a chat message can be built at all. *)

From S2P Require Import Prelude Packet.

Definition dfID_LEN : Z := 40.
Definition dfNiCK_LEN : Z := 40.
Definition dfSESSIONKEY_LEN : Z := 64.

(** [enum Protocol] *)
Inductive Protocol :=
  | en_PACKET_CS_CHAT_SERVER
  | en_PACKET_CS_CHAT_REQ_LOGIN
  | en_PACKET_CS_CHAT_RES_LOGIN
  | en_PACKET_CS_CHAT_REQ_SECTOR_MOVE
  | en_PACKET_CS_CHAT_RES_SECTOR_MOVE
  | en_PACKET_CS_CHAT_REQ_MESSAGE
  | en_PACKET_CS_CHAT_RES_MESSAGE
  | en_PACKET_CS_CHAT_REQ_HEARTBEAT.

Definition code_of (t : Protocol) : Z :=
  match t with
  | en_PACKET_CS_CHAT_SERVER => 0
  | en_PACKET_CS_CHAT_REQ_LOGIN => 1
  | en_PACKET_CS_CHAT_RES_LOGIN => 2
  | en_PACKET_CS_CHAT_REQ_SECTOR_MOVE => 3
  | en_PACKET_CS_CHAT_RES_SECTOR_MOVE => 4
  | en_PACKET_CS_CHAT_REQ_MESSAGE => 5
  | en_PACKET_CS_CHAT_RES_MESSAGE => 6
  | en_PACKET_CS_CHAT_REQ_HEARTBEAT => 7
  end.

Section Bodies.
Context `{Runtime}.

Definition Res_Login_body (account status : Z) (p : CPacket) : res CPacket :=
  p ← WriteValue p WORD (u16 (code_of en_PACKET_CS_CHAT_RES_LOGIN));
  p ← WriteValue p BYTE status;
  WriteValue p INT64 account.

Definition Res_SectorMove_body (account x y : Z) (p : CPacket) : res CPacket :=
  p ← WriteValue p WORD (u16 (code_of en_PACKET_CS_CHAT_RES_SECTOR_MOVE));
  p ← WriteValue p INT64 account;
  p ← WriteValue p WORD x;
  WriteValue p WORD y.

Definition MakeLoginResult_body (account : Z) (id nick : list Z) (p : CPacket) : res CPacket :=
  p ← WriteValue p INT64 account;
  p ← PutData p id dfID_LEN;
  PutData p nick dfNiCK_LEN.

(** [msg] is the caller's buffer of 1024 [WCHAR]s; the terminator written into it comes
    after its bytes have been copied. *)
Definition Res_Chat_body (accountNo : Z) (id nick msg : list Z) (len : Z) (p : CPacket)
    : res (CPacket * list Z) :=
  p ← WriteValue p WORD (u16 (code_of en_PACKET_CS_CHAT_RES_MESSAGE));
  p ← WriteValue p INT64 accountNo;
  p ← PutData p id dfID_LEN;
  p ← PutData p nick dfNiCK_LEN;
  p ← WriteValue p WORD len;
  p ← PutData p msg len;
  let wlen := Z.quot len 2 in
  let wlen := if wlen >=? 1024 then 1023 else wlen in
  msg ← store msg (2 * wlen) [0; 0];
  Ok (p, msg).
End Bodies.

(** [wcscpy_s(dst, n, src)] on blocks of bytes: the characters of [src] up to and including
    the first null are copied; when there is none among the first [n], the invalid-parameter
    handler is invoked, which ends the process. *)
Fixpoint wcslen_within (n : nat) (src : list Z) (i : Z) : option Z :=
  match n with
  | O => None
  | S n =>
      if (nthz src (2 * i) =? 0) && (nthz src (2 * i + 1) =? 0) then Some i
      else wcslen_within n src (i + 1)
  end.

Definition wcscpy_s (dst : list Z) (n : Z) (src : list Z) : res (list Z) :=
  match wcslen_within (Z.to_nat n) src 0 with
  | Some k => memcpy dst 0 src 0 (2 * (k + 1))
  | None => Fault InvalidParameter
  end.

Lemma wcscpy_s_zlen dst n src out : wcscpy_s dst n src = Ok out -> zlen out = zlen dst.
Proof. unfold wcscpy_s. destruct (wcslen_within _ _ _); [apply memcpy_zlen|discriminate]. Qed.

(** ** Layouts *)

Section Layout.
Context `{Runtime}.

(** Two writes in a row. *)
Lemma appended_trans p m b1 p1 m1 b2 p2 m2 :
  appended p m b1 p1 m1 -> appended p1 m1 b2 p2 m2 -> appended p m (b1 ++ b2) p2 m2.
Proof.
  intros [W1 P1 R1 F1 E1 C1] [W2 P2 R2 F2 E2 C2]. split; try congruence.
  - by rewrite P2, P1, app_assoc.
  - rewrite zlen_app. lia.
Qed.

Lemma write_field p m t v :
  wf p m -> m_iRear p + sizeof t <= PAYLOAD_MAX ->
  exists p' m', WriteValue p t v = Ok p' /\ appended p m (bytes_of t v) p' m' /\
    m_iRear p' = m_iRear p + sizeof t /\ wf p' m'.
Proof.
  intros Hwf Hr. destruct (WriteValue_spec p m t v Hwf Hr) as (p' & m' & E & Ha).
  exists p', m'. split_and!; try done; [|by destruct Ha].
  rewrite (app_rear _ _ _ _ _ Ha), zlen_bytes_of. lia.
Qed.

Lemma put_block p m bs n :
  wf p m -> bytes_ok bs -> zlen bs = n -> m_iRear p + n <= PAYLOAD_MAX -> n <= PAYLOAD_MAX ->
  exists p' m', PutData p bs n = Ok p' /\ appended p m bs p' m' /\
    m_iRear p' = m_iRear p + n /\ wf p' m'.
Proof.
  intros Hwf Hb <- Hr Hn. pose proof (zlen_nonneg bs).
  destruct (PutData_cases p m bs (zlen bs) Hwf Hb) as (Hok & _);
    [lia|unfold PAYLOAD_MAX in *; lia|].
  destruct Hok as (p' & m' & E & Ha); [|done|].
  { destruct Hwf. packet_unfold. lia. }
  rewrite slice_all in Ha. exists p', m'. split_and!; try done; [|by destruct Ha].
  by rewrite (app_rear _ _ _ _ _ Ha).
Qed.
End Layout.

(** A packet as [CPacket::Alloc] returns it. *)
Record cleared (p : CPacket) (m : list Z) : Prop := {
  cl_wf : wf p m;
  cl_front : m_iFront p = 0;
  cl_rear : m_iRear p = 0;
  cl_plain : m_bIsEncoded p = false
}.

Lemma cleared_payload p m : cleared p m -> payload p m = [].
Proof. intros [[] F R _]. unfold payload. rewrite wf_using, F, R. done. Qed.

(** What a finished message is: [bs], and nothing read, encoded or counted yet. *)
Record written (p : CPacket) (bs : list Z) (p' : CPacket) (m' : list Z) : Prop := {
  wr_wf : wf p' m';
  wr_payload : payload p' m' = bs;
  wr_front : m_iFront p' = 0;
  wr_plain : m_bIsEncoded p' = false;
  wr_ref : m_lRefCount p' = m_lRefCount p
}.

Lemma appended_written p m bs p' m' :
  cleared p m -> appended p m bs p' m' -> written p bs p' m'.
Proof.
  intros Hc [W P R F E C]. pose proof (cleared_payload p m Hc) as Hn. destruct Hc.
  split; try congruence. by rewrite P, Hn.
Qed.

(** Runs the next write of a message and keeps what it appended. *)
Ltac message_step :=
  match goal with
  | Hw : wf ?p ?m |- context [WriteValue ?p ?t ?v] =>
      destruct (write_field p m t v Hw) as (? & ? & -> & ? & ? & ?);
      [cbn [sizeof] in *; unfold PAYLOAD_MAX in *; lia|]
  | Hw : wf ?p ?m |- context [PutData ?p ?bs ?n] =>
      destruct (put_block p m bs n Hw) as (? & ? & -> & ? & ? & ?);
      [assumption|assumption|cbn [sizeof] in *; unfold PAYLOAD_MAX in *; lia
      |unfold PAYLOAD_MAX in *; lia|]
  end; cbn [mbind res_bind].

Ltac message_done :=
  eapply appended_written; [eassumption|];
  repeat (eapply appended_trans; [eassumption|]); eassumption.

Section Replies.
Context `{Runtime}.
Context (p : CPacket) (m : list Z) (Hc : cleared p m).

(** The replies to a login and to a move, as bytes. *)
Definition login_reply (account status : Z) : list Z :=
  fields_bytes [(WORD, 2); (BYTE, status); (INT64, account)].
Definition move_reply (account x y : Z) : list Z :=
  fields_bytes [(WORD, 4); (INT64, account); (WORD, x); (WORD, y)].
Definition chat_reply (account : Z) (id nick : list Z) (len : Z) (text : list Z) : list Z :=
  bytes_of WORD 6 ++ bytes_of INT64 account ++ id ++ nick ++ bytes_of WORD len ++ text.

Lemma Res_Login_body_ok account status :
  exists p' m', Res_Login_body account status p = Ok p' /\
    written p (login_reply account status) p' m'.
Proof.
  pose proof (cl_wf p m Hc) as Hw. pose proof (cl_rear p m Hc). unfold Res_Login_body.
  do 3 message_step. do 2 eexists. split; [reflexivity|].
  unfold login_reply. rewrite !fields_bytes_cons, app_nil_r. message_done.
Qed.

Lemma Res_SectorMove_body_ok account x y :
  exists p' m', Res_SectorMove_body account x y p = Ok p' /\
    written p (move_reply account x y) p' m'.
Proof.
  pose proof (cl_wf p m Hc) as Hw. pose proof (cl_rear p m Hc). unfold Res_SectorMove_body.
  do 4 message_step. do 2 eexists. split; [reflexivity|].
  unfold move_reply. rewrite !fields_bytes_cons, app_nil_r. message_done.
Qed.

Lemma MakeLoginResult_body_ok account id nick :
  bytes_ok id -> zlen id = dfID_LEN -> bytes_ok nick -> zlen nick = dfNiCK_LEN ->
  exists p' m', MakeLoginResult_body account id nick p = Ok p' /\
    written p (bytes_of INT64 account ++ id ++ nick) p' m'.
Proof.
  pose proof (cl_wf p m Hc) as Hw. pose proof (cl_rear p m Hc). intros Hi Hzi Hn Hzn.
  unfold MakeLoginResult_body, dfID_LEN, dfNiCK_LEN in *.
  do 3 message_step. do 2 eexists. split; [reflexivity|]. message_done.
Qed.
End Replies.

(** The request that never ends, whatever the source block. *)
Lemma PutData_diverges `{Runtime} p m bs size :
  wf p m -> 0 <= size <= 1073741824 -> eBUFFER_DEFAULT < m_iUsingSize p + size ->
  PutData p bs size = OutOfFuel.
Proof.
  intros Hwf Hs Hbig. unfold PutData. rewrite (IncreaseBufferSize_cases p m Hwf) by lia.
  destruct Hwf. unfold GetFreeSize. packet_unfold. rewrite wf_max. unwrap.
  destruct (Z.ltb_spec (512 - m_iUsingSize p) size); [|lia].
  destruct (Z.leb_spec size 0); [lia|]. destruct (Z.leb_spec (m_iUsingSize p + size) 507); [lia|].
  done.
Qed.

Lemma head_of_chat `{Runtime} p m account id nick len :
  cleared p m -> bytes_ok id -> zlen id = dfID_LEN -> bytes_ok nick -> zlen nick = dfNiCK_LEN ->
  exists p1 m1,
    (forall msg, Res_Chat_body account id nick msg len p =
       p2 ← PutData p1 msg len;
       let wlen := Z.quot len 2 in
       let wlen := if wlen >=? 1024 then 1023 else wlen in
       msg ← store msg (2 * wlen) [0; 0];
       Ok (p2, msg)) /\
    appended p m (bytes_of WORD 6 ++ bytes_of INT64 account ++ id ++ nick ++ bytes_of WORD len)
             p1 m1 /\ m_iRear p1 = 92 /\ m_iUsingSize p1 = 92 /\ wf p1 m1.
Proof.
  intros Hc Hi Hzi Hn Hzn. pose proof (cl_wf p m Hc) as Hw. pose proof (cl_rear p m Hc).
  unfold Res_Chat_body, dfID_LEN, dfNiCK_LEN in *. do 5 message_step.
  assert (Ha : appended p m
    (bytes_of WORD 6 ++ bytes_of INT64 account ++ id ++ nick ++ bytes_of WORD len) x7 x8).
  { repeat (eapply appended_trans; [eassumption|]); eassumption. }
  exists x7, x8. split; [done|]. split; [exact Ha|].
  cbn [sizeof] in *. split_and!; [lia| |done].
  destruct (app_wf _ _ _ _ _ Ha). rewrite wf_using, (app_front _ _ _ _ _ Ha), (cl_front p m Hc). lia.
Qed.

Lemma Res_Chat_body_ok `{Runtime} p m account id nick msg len :
  cleared p m -> bytes_ok id -> zlen id = dfID_LEN -> bytes_ok nick -> zlen nick = dfNiCK_LEN ->
  bytes_ok msg -> zlen msg = 2048 -> 0 <= len <= 415 ->
  exists p' m', Res_Chat_body account id nick msg len p
      = Ok (p', splice msg (2 * Z.quot len 2) [0; 0]) /\
    written p (chat_reply account id nick len (slice msg 0 len)) p' m'.
Proof.
  intros Hc Hi Hzi Hn Hzn Hm Hzm Hl.
  destruct (head_of_chat p m account id nick len Hc Hi Hzi Hn Hzn)
    as (p1 & m1 & E & Ha & Hr & Hu & Hw). rewrite E.
  destruct (PutData_cases p1 m1 msg len Hw Hm) as (Hok & _); [lia..|].
  destruct Hok as (p2 & m2 & -> & Ha2); [unfold eBUFFER_DEFAULT; lia|unfold PAYLOAD_MAX; lia|].
  cbn [mbind res_bind]. cbv zeta.
  pose proof (Z.quot_le_upper_bound len 2 1023 ltac:(lia) ltac:(lia)).
  pose proof (Z.quot_pos len 2 ltac:(lia) ltac:(lia)).
  rewrite Z.geb_leb. destruct (Z.leb_spec 1024 (Z.quot len 2)); [lia|].
  rewrite store_ok by (change (zlen [0; 0]) with 2; lia). cbn [mbind res_bind].
  do 2 eexists. split; [reflexivity|]. eapply appended_written; [exact Hc|].
  unfold chat_reply.
  pose proof (appended_trans _ _ _ _ _ _ _ _ Ha Ha2) as Ht. by rewrite <- !app_assoc in Ht.
Qed.

(** C32.  Which chat messages the server can build.  Up to 415 bytes of text the reply is the
    type, the account, the two names, the length and the text; from 416 to 420 bytes it is
    written past the end of the packet's block; from 421 on, whatever the fuel, the call
    never returns, so the worker thread that serves the message is lost. *)
Theorem Res_Chat_lengths `{Runtime} p m account id nick msg len :
  cleared p m -> bytes_ok id -> zlen id = dfID_LEN -> bytes_ok nick -> zlen nick = dfNiCK_LEN ->
  bytes_ok msg -> zlen msg = 2048 -> 0 <= len < 65536 ->
  (len <= 415 -> exists p' m' msg',
     Res_Chat_body account id nick msg len p = Ok (p', msg') /\
     written p (chat_reply account id nick len (slice msg 0 len)) p' m') /\
  (415 < len <= 420 -> Res_Chat_body account id nick msg len p = Fault OutOfBounds) /\
  (420 < len -> Res_Chat_body account id nick msg len p = OutOfFuel).
Proof.
  intros Hc Hi Hzi Hn Hzn Hm Hzm Hlen.
  destruct (head_of_chat p m account id nick len Hc Hi Hzi Hn Hzn)
    as (p1 & m1 & E & Ha & Hr & Hu & Hw). rewrite E.
  split_and!; intros Hl.
  - destruct (Res_Chat_body_ok p m account id nick msg len) as (p' & m' & E1 & H1); try done; [lia|].
    rewrite E in E1. by exists p', m', (splice msg (2 * Z.quot len 2) [0; 0]).
  - destruct (PutData_cases p1 m1 msg len Hw Hm) as (_ & Hf & _); [lia..|].
    rewrite Hf; [done|unfold eBUFFER_DEFAULT; lia|unfold PAYLOAD_MAX; lia].
  - rewrite (PutData_diverges p1 m1 msg len Hw); [done|lia|unfold eBUFFER_DEFAULT; lia].
Qed.

(** C34.  A client reads back from the replies what the server put in: for every account,
    status and coordinates in the range of their types, reading the fields of the protocol in
    order returns them and consumes the message. *)
Theorem replies_read_back `{Runtime} p m account status x y :
  cleared p m -> in_range INT64 account -> in_range BYTE status ->
  in_range WORD x -> in_range WORD y ->
  (exists p1 p2, Res_Login_body account status p = Ok p1 /\
     read_all p1 [WORD; BYTE; INT64] = Ok (p2, [2; status; account]) /\ m_iRear p2 = 0) /\
  (exists p1 p2, Res_SectorMove_body account x y p = Ok p1 /\
     read_all p1 [WORD; INT64; WORD; WORD] = Ok (p2, [4; account; x; y]) /\ m_iRear p2 = 0).
Proof.
  intros Hc Ha Hs Hx Hy.
  destruct (Res_Login_body_ok p m Hc account status) as (p1 & m1 & E1 & [W1 P1 _ _ _]).
  destruct (Res_SectorMove_body_ok p m Hc account x y) as (q1 & n1 & E2 & [W2 P2 _ _ _]).
  unfold login_reply in P1. unfold move_reply in P2.
  rewrite <- (app_nil_r (fields_bytes _)) in P1.
  rewrite <- (app_nil_r (fields_bytes _)) in P2.
  apply (read_all_spec _ p1 m1 [] W1) in P1 as (p2 & R1 & _ & _ & F1).
  - apply (read_all_spec _ q1 n1 [] W2) in P2 as (q2 & R2 & _ & _ & F2).
    + split; [exists p1, p2|exists q1, q2]; (split; [done|split; [done|]]);
        [by apply F1|by apply F2].
    + repeat first [apply Forall_nil_2 | apply Forall_cons_2; [cbn in *; lia|]].
  - repeat first [apply Forall_nil_2 | apply Forall_cons_2; [cbn in *; lia|]].
Qed.

(** ** The copy of the names at login *)

Lemma wcslen_within_spec n src i :
  match wcslen_within n src i with
  | Some k => i <= k < i + Z.of_nat n /\ nthz src (2 * k) = 0 /\ nthz src (2 * k + 1) = 0
  | None => forall k, i <= k < i + Z.of_nat n ->
      nthz src (2 * k) <> 0 \/ nthz src (2 * k + 1) <> 0
  end.
Proof.
  revert i. induction n as [|n IH]; intros i; cbn [wcslen_within]; [lia|].
  destruct (Z.eqb_spec (nthz src (2 * i)) 0) as [E1|E1], (Z.eqb_spec (nthz src (2 * i + 1)) 0)
    as [E2|E2]; cbn [andb]; try (split_and!; try done; lia); specialize (IH (i + 1));
    destruct (wcslen_within n src (i + 1)); try (split_and!; tauto || lia);
    intros k Hk; (destruct (decide (k = i)) as [-> |]; [tauto|]); apply IH; lia.
Qed.

(** ** Witnesses *)

Lemma empty_cleared : cleared empty_packet empty_block.
Proof. split; [apply empty_packet_wf|done..]. Defined.

(** A name "AB" with its terminator, and a text of 2048 bytes. *)
Definition name_AB : list Z := [65; 0; 66; 0] ++ replicate 36 0.
Definition text_A : list Z := replicate 2048 65.

Lemma bytes_ok_sample : bytes_ok name_AB /\ bytes_ok text_A.
Proof.
  split; [apply Forall_app; split; [solve_bytes|]|]; apply Forall_replicate; lia.
Defined.

Lemma Res_Chat_lengths_witness :
  exists p' m' msg',
    @Res_Chat_body (zero_runtime 9) 7 name_AB name_AB text_A 415 empty_packet = Ok (p', msg') /\
    written empty_packet (chat_reply 7 name_AB name_AB 415 (slice text_A 0 415)) p' m'.
Proof.
  destruct bytes_ok_sample as [Hn Ht].
  destruct (@Res_Chat_lengths (zero_runtime 9) empty_packet empty_block 7 name_AB name_AB text_A
    415 empty_cleared Hn eq_refl Hn eq_refl Ht eq_refl ltac:(lia)) as (H & _).
  apply H. lia.
Defined.

Lemma replies_read_back_witness :
  exists p1 p2, @Res_Login_body (zero_runtime 9) (-3) 1 empty_packet = Ok p1 /\
    read_all p1 [WORD; BYTE; INT64] = Ok (p2, [2; 1; -3]) /\ m_iRear p2 = 0.
Proof.
  apply (@replies_read_back (zero_runtime 9) empty_packet empty_block (-3) 1 49 0 empty_cleared);
    cbn; lia.
Defined.
