(* ===== verification/World.v ===== *)
(** * The world of the server: sessions, packets, the kernel

    What the IOCP server's functions read and write, as one record threaded through a small
    state monad: the session array and the counters of [IOCPServer], the packet objects and
    their pool, the application object derived from the server, the operations the kernel has
    accepted, and a clock that numbers the calls out of the program.  [Windows] is what those
    calls return; [LockfreeQueue] is what the code relies on in [boost::lockfree::queue];
    [ServerApp] is what the server needs from the class derived from it.  [wp] is the
    weakest precondition used to reason about the functions. *)

From S2P Require Import Prelude RingBuffer Packet Codec FreeList.

(** ** What is outside the program *)

(** A bounded lock-free FIFO queue: [push] may refuse only when [cap] elements are inside. *)
Class LockfreeQueue (X : Type) (cap : Z) := {
  lfq : Type;
  elems : lfq -> list X;
  lfq_empty : lfq;
  lfq_push : X -> lfq -> lfq * bool;
  lfq_pop : lfq -> option (X * lfq);
  elems_empty : elems lfq_empty = [];
  push_room : forall x q, zlen (elems q) < cap -> (lfq_push x q).2 = true;
  push_true : forall x q, (lfq_push x q).2 = true -> elems (lfq_push x q).1 = elems q ++ [x];
  push_false : forall x q, (lfq_push x q).2 = false -> elems (lfq_push x q).1 = elems q;
  pop_cons : forall q x q', lfq_pop q = Some (x, q') -> elems q = x :: elems q';
  pop_nil : forall q, lfq_pop q = None -> elems q = []
}.
Arguments lfq X cap {_}.
Arguments lfq_empty {X cap _}.

(** The plain list with a bound is such a queue. *)
Section ListQueue.
Context (X : Type) (cap : Z).
Let lq_push (x : X) (q : list X) := if zlen q <? cap then (q ++ [x], true) else (q, false).
Let lq_pop (q : list X) := match q with [] => None | x :: q => Some (x, q) end.

Lemma lq_push_room x q : zlen q < cap -> (lq_push x q).2 = true.
Proof. unfold lq_push. intros H. by apply Z.ltb_lt in H as ->. Qed.
Lemma lq_push_true x q : (lq_push x q).2 = true -> (lq_push x q).1 = q ++ [x].
Proof. unfold lq_push. by destruct (zlen q <? cap). Qed.
Lemma lq_push_false x q : (lq_push x q).2 = false -> (lq_push x q).1 = q.
Proof. unfold lq_push. by destruct (zlen q <? cap). Qed.
Lemma lq_pop_cons q x q' : lq_pop q = Some (x, q') -> q = x :: q'.
Proof. destruct q; cbn; congruence. Qed.
Lemma lq_pop_nil q : lq_pop q = None -> q = [].
Proof. by destruct q. Qed.

Definition list_queue : LockfreeQueue X cap := {|
  lfq := list X;
  elems q := q;
  lfq_empty := [];
  lfq_push := lq_push;
  lfq_pop := lq_pop;
  elems_empty := eq_refl;
  push_room := lq_push_room;
  push_true := lq_push_true;
  push_false := lq_push_false;
  pop_cons := lq_pop_cons;
  pop_nil := lq_pop_nil
|}.
End ListQueue.

(** The results of the calls into Windows and the C library, by the number of the call:
    [None] is success, [Some e] is [SOCKET_ERROR] with the error code [e]. *)
Class Windows := {
  WSASend_error : nat -> option Z;
  WSARecv_error : nat -> option Z;
  GetTickCount64 : nat -> Z;
  rand : nat -> Z
}.

Definition WSA_IO_PENDING : Z := 997.

(** What the virtual functions do to the derived object.  [OnClientJoin] and [OnClientLeave]
    do not call back into the server; [now] is the tick count [OnClientJoin] reads. *)
Class ServerApp (A : Type) := {
  OnClientJoin : forall (sessionID now : Z), A -> res A;
  OnClientLeave : forall (sessionID : Z), A -> res A;
  OnConnectionRequest : forall (port : Z), A -> bool
}.

(** ** Sessions (IOCPServer.h) *)

Abbreviation TRUE := 1.
Abbreviation FALSE := 0.

(** [GET_SESSION_INDEX] and [COMBINE_ID_INDEX] on [UINT64]s; the 16 high bits are the
    client's number, the 16 low ones its slot. *)
Definition COMBINE_ID_INDEX (id index : Z) : Z := Z.lor (u64 (Z.shiftl id 48)) index.
Definition GET_SESSION_ID (id : Z) : Z := Z.shiftr id 48.
Definition GET_SESSION_INDEX (id : Z) : Z := Z.land id 65535.

Section Session.
Context {Q : LockfreeQueue loc 4096}.

(** [sock] is [None] for [INVALID_SOCKET].  The client's address, the two [OVERLAPPED]s and
    the unused [recvPacketList] carry no state the program reads. *)
Record Session := mkSession {
  sock : option Z;
  sessionID : Z;
  index : Z;
  isSendFlag : Z;
  sendCount : Z;
  isReleased : Z;
  ioCount : Z;
  sendBuf : lfq loc 4096;
  completeSendBuf : lfq loc 4096;
  recvBuf : CRingBuffer;
  lastRecvTime : Z
}.

Definition set_sock (s : Session) v :=
  mkSession v (sessionID s) (index s) (isSendFlag s) (sendCount s) (isReleased s) (ioCount s)
    (sendBuf s) (completeSendBuf s) (recvBuf s) (lastRecvTime s).
Definition set_isSendFlag (s : Session) v :=
  mkSession (sock s) (sessionID s) (index s) v (sendCount s) (isReleased s) (ioCount s)
    (sendBuf s) (completeSendBuf s) (recvBuf s) (lastRecvTime s).
Definition set_sendCount (s : Session) v :=
  mkSession (sock s) (sessionID s) (index s) (isSendFlag s) v (isReleased s) (ioCount s)
    (sendBuf s) (completeSendBuf s) (recvBuf s) (lastRecvTime s).
Definition set_isReleased (s : Session) v :=
  mkSession (sock s) (sessionID s) (index s) (isSendFlag s) (sendCount s) v (ioCount s)
    (sendBuf s) (completeSendBuf s) (recvBuf s) (lastRecvTime s).
Definition set_ioCount (s : Session) v :=
  mkSession (sock s) (sessionID s) (index s) (isSendFlag s) (sendCount s) (isReleased s) v
    (sendBuf s) (completeSendBuf s) (recvBuf s) (lastRecvTime s).
Definition set_sendBuf (s : Session) v :=
  mkSession (sock s) (sessionID s) (index s) (isSendFlag s) (sendCount s) (isReleased s)
    (ioCount s) v (completeSendBuf s) (recvBuf s) (lastRecvTime s).
Definition set_completeSendBuf (s : Session) v :=
  mkSession (sock s) (sessionID s) (index s) (isSendFlag s) (sendCount s) (isReleased s)
    (ioCount s) (sendBuf s) v (recvBuf s) (lastRecvTime s).
Definition set_recvBuf (s : Session) v :=
  mkSession (sock s) (sessionID s) (index s) (isSendFlag s) (sendCount s) (isReleased s)
    (ioCount s) (sendBuf s) (completeSendBuf s) v (lastRecvTime s).
Definition set_lastRecvTime (s : Session) v :=
  mkSession (sock s) (sessionID s) (index s) (isSendFlag s) (sendCount s) (isReleased s)
    (ioCount s) (sendBuf s) (completeSendBuf s) (recvBuf s) v.

(** ** The world *)

(** An operation the kernel has accepted and not completed: a receive into pieces
    (offset, length) of the slot's ring, a send of the bytes of the buffers. *)
Inductive io :=
  | PendingRecv (slot : Z) (wbuf : list (Z * Z))
  | PendingSend (slot : Z) (wbuf : list (list Z)).

(** What the other side of a socket sees. *)
Inductive event :=
  | ESend (s : option Z) (bytes : list (list Z))
  | EClose (s : option Z).

Context {A : Type}.

(** [nextID] is the member [sessionID] of [IOCPServer]; [packets] are the packet objects
    constructed so far, [pktPool] is [CPacket::g_PacketPool]. *)
Record World := mkWorld {
  sessionArray : list Session;
  indexStack : list Z;
  nextID : Z;
  maxClientCount : Z;
  sessionCount : Z;
  sendTPS : Z;
  recvTPS : Z;
  acceptTPS : Z;
  acceptCount : Z;
  packets : gmap loc CPacket;
  pktPool : pool;
  app : A;
  kernel : list io;
  sent : list event;
  clock : nat
}.

Definition set_sessionArray w v :=
  mkWorld v (indexStack w) (nextID w) (maxClientCount w) (sessionCount w) (sendTPS w) (recvTPS
    w) (acceptTPS w) (acceptCount w) (packets w) (pktPool w) (app w) (kernel w) (sent w)
    (clock w).
Definition set_indexStack w v :=
  mkWorld (sessionArray w) v (nextID w) (maxClientCount w) (sessionCount w) (sendTPS w)
    (recvTPS w) (acceptTPS w) (acceptCount w) (packets w) (pktPool w) (app w) (kernel w) (sent
    w) (clock w).
Definition set_nextID w v :=
  mkWorld (sessionArray w) (indexStack w) v (maxClientCount w) (sessionCount w) (sendTPS w)
    (recvTPS w) (acceptTPS w) (acceptCount w) (packets w) (pktPool w) (app w) (kernel w) (sent
    w) (clock w).
Definition set_counters w sc st rt at_ ac :=
  mkWorld (sessionArray w) (indexStack w) (nextID w) (maxClientCount w) sc st rt at_ ac
    (packets w) (pktPool w) (app w) (kernel w) (sent w) (clock w).
Definition set_packets w v p :=
  mkWorld (sessionArray w) (indexStack w) (nextID w) (maxClientCount w) (sessionCount w)
    (sendTPS w) (recvTPS w) (acceptTPS w) (acceptCount w) v p (app w) (kernel w) (sent w)
    (clock w).
Definition set_app w v :=
  mkWorld (sessionArray w) (indexStack w) (nextID w) (maxClientCount w) (sessionCount w)
    (sendTPS w) (recvTPS w) (acceptTPS w) (acceptCount w) (packets w) (pktPool w) v (kernel w)
    (sent w) (clock w).
Definition set_kernel w v :=
  mkWorld (sessionArray w) (indexStack w) (nextID w) (maxClientCount w) (sessionCount w)
    (sendTPS w) (recvTPS w) (acceptTPS w) (acceptCount w) (packets w) (pktPool w) (app w) v
    (sent w) (clock w).
Definition set_sent w v :=
  mkWorld (sessionArray w) (indexStack w) (nextID w) (maxClientCount w) (sessionCount w)
    (sendTPS w) (recvTPS w) (acceptTPS w) (acceptCount w) (packets w) (pktPool w) (app w)
    (kernel w) v (clock w).
Definition set_clock w v :=
  mkWorld (sessionArray w) (indexStack w) (nextID w) (maxClientCount w) (sessionCount w)
    (sendTPS w) (recvTPS w) (acceptTPS w) (acceptCount w) (packets w) (pktPool w) (app w)
    (kernel w) (sent w) v.
End Session.
Arguments World {Q} A.
Arguments Session {Q}.

(** ** The monad *)

Definition M `{Q : LockfreeQueue loc 4096} (A B : Type) : Type := World A -> res (B * World A).

#[export] Instance M_ret `{Q : LockfreeQueue loc 4096} {A} : MRet (M A) :=
  fun B b w => Ok (b, w).
#[export] Instance M_bind `{Q : LockfreeQueue loc 4096} {A} : MBind (M A) :=
  fun B C f m w => match m w with
    | Ok (b, w') => f b w'
    | Fault e => Fault e
    | OutOfFuel => OutOfFuel
    end.

Section Primitives.
Context {Q : LockfreeQueue loc 4096} {A : Type}.
Context {W : Windows} {R : Runtime}.

Definition get : M A (World A) := fun w => Ok (w, w).
Definition modify (f : World A -> World A) : M A unit := fun w => Ok (tt, f w).
Definition lift {B} (r : res B) : M A B := fun w =>
  match r with Ok b => Ok (b, w) | Fault e => Fault e | OutOfFuel => OutOfFuel end.

(** One call out of the program: its number. *)
Definition tick : M A nat := fun w => Ok (clock w, set_clock w (S (clock w))).

(** [sessionArray[i]] *)
Definition slot_ok (i : Z) (w : World A) : bool := (0 <=? i) && (i <? zlen (sessionArray w)).
Definition session (i : Z) : M A Session := fun w =>
  if slot_ok i w then
    match sessionArray w !! Z.to_nat i with
    | Some s => Ok (s, w)
    | None => Fault BadIndex
    end
  else Fault BadIndex.
Definition put_session (i : Z) (s : Session) : M A unit := fun w =>
  if slot_ok i w then
    Ok (tt, set_sessionArray w (<[Z.to_nat i := s]> (sessionArray w)))
  else Fault BadIndex.
Definition update (i : Z) (f : Session -> Session) : M A unit :=
  s ← session i; put_session i (f s).

(** [InterlockedIncrement] and [InterlockedDecrement] of [ioCount], returning the new
    value. *)
Definition add_ioCount (i d : Z) : M A Z :=
  s ← session i;
  let n := i32 (ioCount s + d) in
  put_session i (set_ioCount s n);;
  mret n.

(** *** Packets: the objects behind the pointers *)

Definition packet (l : loc) : M A CPacket := fun w =>
  match packets w !! l with Some p => Ok (p, w) | None => Fault NullDeref end.
Definition put_packet (l : loc) (p : CPacket) : M A unit :=
  modify (fun w => set_packets w (<[l := p]> (packets w)) (pktPool w)).

(** Runs a member function of [CPacket] on the object behind [l]. *)
Definition on_packet {B} (l : loc) (f : CPacket -> res (CPacket * B)) : M A B :=
  p ← packet l;
  '(p, b) ← lift (f p);
  put_packet l p;;
  mret b.
Definition on_packet_ (l : loc) (f : CPacket -> res CPacket) : M A unit :=
  p ← packet l;
  p ← lift (f p);
  put_packet l p.

(** [CPacket::Alloc]: a block from the pool, its object constructed if the block is new. *)
Definition CPacket_Alloc : M A loc :=
  w ← get;
  '(pool, l) ← lift (Alloc (pktPool w) (fresh (dom (next (pktPool w)))) None);
  p ← match packets w !! l with
      | Some p => mret p
      | None => lift CPacket_new
      end;
  p ← lift (Clear p);
  modify (fun w => set_packets w (<[l := with_ref p 1]> (packets w)) pool);;
  mret l.

Definition CPacket_AddRef (l : loc) : M A unit := on_packet_ l (fun p => Ok (AddRef p)).

Definition CPacket_SubRef (l : loc) : M A unit :=
  zero ← on_packet l (fun p => Ok (SubRef p));
  if (zero : bool) then modify (fun w => set_packets w (packets w) (Free (pktPool w) l))
  else mret tt.

(** [rand()] is called only when the packet is not encoded yet. *)
Definition CPacket_SetEncodingCode (l : loc) : M A unit :=
  p ← packet l;
  if m_bIsEncoded p then mret tt
  else
    t ← tick;
    p ← lift (SetEncodingCode p (rand t));
    put_packet l p.
End Primitives.

(** ** Weakest preconditions

    [wp m P w]: run from [w], [m] returns (no fault, enough fuel) and [P] holds of the
    result and the new world. *)
Section Wp.
Context {Q : LockfreeQueue loc 4096} {A : Type}.

Definition wp {B} (m : M A B) (P : B -> World A -> Prop) (w : World A) : Prop :=
  match m w with Ok (b, w') => P b w' | _ => False end.

Lemma wp_bind {B C} (m : M A B) (f : B -> M A C) P w :
  wp (m ≫= f) P w <-> wp m (fun b w' => wp (f b) P w') w.
Proof. unfold wp, mbind, M_bind. by destruct (m w) as [[b w']| |]. Qed.

Lemma wp_ret {B} (b : B) P (w : World A) : wp (mret b) P w <-> P b w.
Proof. done. Qed.

Lemma wp_mono {B} (m : M A B) (P P' : B -> World A -> Prop) w :
  wp m P w -> (forall b w', P b w' -> P' b w') -> wp m P' w.
Proof. unfold wp. destruct (m w) as [[b w']| |]; auto. Qed.

Lemma wp_lift {B} (r : res B) b P (w : World A) : r = Ok b -> P b w -> wp (lift r) P w.
Proof. unfold wp, lift. by intros ->. Qed.

(** One step of a function that is known to return. *)
Lemma bind_run {B C} (m : M A B) (f : B -> M A C) b w w' :
  m w = Ok (b, w') -> (m ≫= f) w = f b w'.
Proof. intros H. unfold mbind, M_bind. by rewrite H. Qed.

Lemma bind_inv {B C} (m : M A B) (f : B -> M A C) c w w'' :
  (m ≫= f) w = Ok (c, w'') -> exists b w', m w = Ok (b, w') /\ f b w' = Ok (c, w'').
Proof. unfold mbind, M_bind. destruct (m w) as [[b w']| |]; [eauto|done|done]. Qed.

Lemma lift_inv {B} (r : res B) b (w w' : World A) : lift r w = Ok (b, w') -> r = Ok b /\ w' = w.
Proof. unfold lift. destruct r; naive_solver. Qed.

Lemma lift_run {B} (r : res B) b (w : World A) : r = Ok b -> lift r w = Ok (b, w).
Proof. unfold lift. by intros ->. Qed.

Lemma wp_run {B} (m : M A B) b w w' : m w = Ok (b, w') <-> wp m (fun b' v => b' = b /\ v = w') w.
Proof. unfold wp. destruct (m w) as [[c v]| |]; split; try done; [by intros [= -> ->]|by intros [-> ->]]. Qed.
End Wp.

(** ** Running the primitives *)

Section Running.
Context {Q : LockfreeQueue loc 4096} {A : Type}.

Implicit Types w : World A.

(** Slot [i] of the array holds [s]. *)
Definition at_slot (i : Z) (w : World A) (s : Session) : Prop :=
  0 <= i < zlen (sessionArray w) /\ sessionArray w !! Z.to_nat i = Some s.

Definition with_session (w : World A) (i : Z) (s : Session) : World A :=
  set_sessionArray w (<[Z.to_nat i := s]> (sessionArray w)).

Lemma slot_ok_true i w s : at_slot i w s -> slot_ok i w = true.
Proof. intros [H _]. unfold slot_ok. apply andb_true_iff. lia. Qed.

Lemma session_run i w s : at_slot i w s -> session i w = Ok (s, w).
Proof. intros H. unfold session. rewrite (slot_ok_true _ _ _ H). by destruct H as [_ ->]. Qed.

Lemma put_session_run i w s s' :
  at_slot i w s -> put_session i s' w = Ok (tt, with_session w i s').
Proof. intros H. unfold put_session. by rewrite (slot_ok_true _ _ _ H). Qed.

Lemma update_run i w s f : at_slot i w s -> update i f w = Ok (tt, with_session w i (f s)).
Proof.
  intros H. unfold update. rewrite (bind_run _ _ _ _ _ (session_run _ _ _ H)).
  by apply put_session_run with s.
Qed.

Lemma add_ioCount_run i w s d n :
  at_slot i w s -> i32 (ioCount s + d) = n ->
  add_ioCount i d w = Ok (n, with_session w i (set_ioCount s n)).
Proof.
  intros H Hn. unfold add_ioCount. rewrite (bind_run _ _ _ _ _ (session_run _ _ _ H)), Hn.
  by rewrite (bind_run _ _ _ _ _ (put_session_run _ _ _ _ H)).
Qed.

Lemma at_slot_with i w s s' : at_slot i w s -> at_slot i (with_session w i s') s'.
Proof.
  intros [Hi Hs]. split; cbn.
  - unfold zlen in *. by rewrite length_insert.
  - apply list_lookup_insert_eq. unfold zlen in Hi. lia.
Qed.

Lemma at_slot_with_ne i j w s s' :
  at_slot i w s -> 0 <= j -> i <> j -> at_slot i (with_session w j s') s.
Proof.
  intros [Hi Hs] Hj Hne. split; cbn.
  - unfold zlen in *. by rewrite length_insert.
  - rewrite list_lookup_insert_ne by lia. done.
Qed.

Lemma with_session_twice w i s s' : with_session (with_session w i s) i s' = with_session w i s'.
Proof. unfold with_session, set_sessionArray; cbn. by rewrite list_insert_insert_eq. Qed.

Lemma with_session_same w i s : at_slot i w s -> with_session w i s = w.
Proof.
  intros [_ H]. unfold with_session, set_sessionArray.
  rewrite list_insert_id by done. by destruct w.
Qed.

Lemma at_slot_fun i w s s' : at_slot i w s -> at_slot i w s' -> s = s'.
Proof. intros [_ H] [_ H']. congruence. Qed.

Lemma packet_run l w p : packets w !! l = Some p -> packet l w = Ok (p, w).
Proof. intros H. unfold packet. by rewrite H. Qed.

Lemma packet_inv l w p w' : packet l w = Ok (p, w') -> packets w !! l = Some p /\ w' = w.
Proof. unfold packet. destruct (packets w !! l); [by intros [= -> ->]|done]. Qed.
End Running.

(** Takes the first step of a composed function, by the lemma given. *)
Tactic Notation "step" uconstr(H) := erewrite bind_run by (eapply H; eassumption).

(** ** Session identifiers *)

Lemma COMBINE_value id idx :
  0 <= idx < 65536 -> COMBINE_ID_INDEX id idx = (id mod 65536) * 2 ^ 48 + idx.
Proof.
  intros Hi. unfold COMBINE_ID_INDEX, wrap_u. rewrite Z.shiftl_mul_pow2 by lia.
  replace (2 ^ 64) with (65536 * 2 ^ 48) by reflexivity.
  rewrite Z.mul_mod_distr_r by lia.
  symmetry. apply Z.add_nocarry_lor. apply Z.bits_inj'. intros n Hn.
  rewrite Z.land_spec, Z.bits_0.
  destruct (Z.lt_ge_cases n 48).
  - by rewrite Z.mul_pow2_bits_low.
  - rewrite andb_comm. replace (Z.testbit idx n) with false; [done|].
    symmetry. destruct (Z.eq_dec idx 0) as [-> |]; [apply Z.bits_0|].
    apply Z.bits_above_log2; [lia|]. apply Z.log2_lt_pow2; [lia|].
    apply Z.lt_le_trans with (2 ^ 48); [lia|]. by apply Z.pow_le_mono_r.
Qed.

Lemma COMBINE_parts id idx :
  0 <= idx < 65536 ->
  GET_SESSION_INDEX (COMBINE_ID_INDEX id idx) = idx /\
  GET_SESSION_ID (COMBINE_ID_INDEX id idx) = id mod 65536.
Proof.
  intros Hi. rewrite COMBINE_value by done. unfold GET_SESSION_INDEX, GET_SESSION_ID. split.
  - change 65535 with (Z.ones 16). rewrite Z.land_ones by lia.
    replace (id mod 65536 * 2 ^ 48 + idx) with (idx + (id mod 65536 * 2 ^ 32) * 2 ^ 16) by lia.
    rewrite Z_mod_plus_full. by apply Z.mod_small.
  - rewrite Z.shiftr_div_pow2 by lia. rewrite Z.div_add_l by lia.
    rewrite Z.div_small by lia. lia.
Qed.

(** A session's identifier determines the slot it lives in, for up to 65536 slots, and
    the number of the connection modulo 65536; two connections get the same identifier exactly
    when they are in the same slot and their numbers agree modulo 65536, so that an identifier
    is reused once 65536 further clients have connected. *)
Theorem session_ids id1 idx1 id2 idx2 :
  0 <= idx1 < 65536 -> 0 <= idx2 < 65536 ->
  GET_SESSION_INDEX (COMBINE_ID_INDEX id1 idx1) = idx1 /\
  GET_SESSION_ID (COMBINE_ID_INDEX id1 idx1) = id1 mod 65536 /\
  (COMBINE_ID_INDEX id1 idx1 = COMBINE_ID_INDEX id2 idx2 <->
     idx1 = idx2 /\ id1 mod 65536 = id2 mod 65536).
Proof.
  intros H1 H2. destruct (COMBINE_parts id1 idx1 H1) as [I1 J1].
  destruct (COMBINE_parts id2 idx2 H2) as [I2 J2]. split_and!; try done. split.
  - intros E. rewrite E in I1, J1. split; congruence.
  - intros [-> E]. rewrite !COMBINE_value by done. by rewrite E.
Qed.

Lemma session_ids_witness :
  GET_SESSION_INDEX (COMBINE_ID_INDEX 70000 300) = 300 /\
  GET_SESSION_ID (COMBINE_ID_INDEX 70000 300) = 70000 mod 65536 /\
  (COMBINE_ID_INDEX 70000 300 = COMBINE_ID_INDEX 4464 300 <->
     300 = 300 /\ 70000 mod 65536 = 4464 mod 65536).
Proof. apply (session_ids 70000 300 4464 300); lia. Defined.

(** ** Concrete surroundings for the witnesses *)

Definition queue4096 : LockfreeQueue loc 4096 := list_queue loc 4096.

(** Sends and receives are accepted at once, the time is the number of the call. *)
Definition accepting_windows : Windows := {|
  WSASend_error _ := None;
  WSARecv_error _ := None;
  GetTickCount64 t := Z.of_nat t;
  rand _ := 41
|}.

(** A server application that does nothing. *)
Definition silent_app : ServerApp unit := {|
  OnClientJoin _ _ u := Ok u;
  OnClientLeave _ u := Ok u;
  OnConnectionRequest _ _ := true
|}.
