(* ===== verification/PacketHeap.v ===== *)
(** * The packet objects and their references (theorems on [World])

    The invariant between the packet objects, their reference counts and the pool: a packet
    is in use exactly when its count is positive.  [CPacket_Alloc] gives a cleared packet with
    count 1, [CPacket_SubRef] gives it back to the pool when the count reaches 0, and nothing
    else moves. *)

From S2P Require Import Prelude RingBuffer Packet Codec FreeList Message World.

Section Heap.
Context {Q : LockfreeQueue loc 4096} {A : Type}.

Implicit Types w : World A.

(** The block of a live packet; its positions are not constrained. *)
Definition shape (p : CPacket) : Prop :=
  exists m, m_cpHead p = Some m /\ m_iMaxSize p = eBUFFER_DEFAULT /\
    zlen m = eBUFFER_DEFAULT /\ bytes_ok m.

Record pkt_inv w (o : gset loc) : Prop := {
  pk_pool : exists L, at_rest (pktPool w) L o;
  pk_dom : dom (packets w) = dom (next (pktPool w));
  pk_shape : forall l p, packets w !! l = Some p -> shape p;
  pk_refs : forall l p, packets w !! l = Some p ->
    0 <= m_lRefCount p < 1073741824 /\ (1 <= m_lRefCount p <-> l ∈ o)
}.

Lemma wf_shape p m : wf p m -> shape p.
Proof. intros []. by exists m. Qed.

Lemma Clear_cleared p :
  shape p ->
  exists p' z, Clear p = Ok p' /\ cleared p' z /\ m_lRefCount p' = m_lRefCount p.
Proof.
  intros (m & Hh & Hmax & Hlen & Hb).
  destruct (Clear_ok (with_pos p 0 0 0) m) as (p' & z & E & Hw & _ & He & Hr & Hf & Hre).
  { split; cbn; try done; packet_unfold; lia. }
  exists p', z. split; [exact E|]. split; [by split|done].
Qed.

(** Changing the object of a packet, not its count. *)
Lemma pkt_inv_put w o l p p' :
  pkt_inv w o -> packets w !! l = Some p -> shape p' -> m_lRefCount p' = m_lRefCount p ->
  pkt_inv (set_packets w (<[l := p']> (packets w)) (pktPool w)) o.
Proof.
  intros [Hp Hd Hs Hr] Hl Hs' Hr'. split; cbn.
  - done.
  - rewrite dom_insert_L, Hd. apply elem_of_dom_2 in Hl. rewrite Hd in Hl. set_solver.
  - intros l' q Hq. apply lookup_insert_Some in Hq as [[-> <-]|[_ Hq]]; eauto.
  - intros l' q Hq. apply lookup_insert_Some in Hq as [[-> <-]|[_ Hq]]; [|eauto].
    rewrite Hr'. eauto.
Qed.

Lemma pkt_inv_same w w' o :
  pkt_inv w o -> packets w' = packets w -> pktPool w' = pktPool w -> pkt_inv w' o.
Proof. intros [] E1 E2. split; rewrite ?E1, ?E2; done. Qed.

Lemma in_use_packet w o l : pkt_inv w o -> l ∈ o -> exists p, packets w !! l = Some p.
Proof.
  intros [[L [_ _ Hout _ _]] Hd _ _] Hl. destruct (Hout l Hl) as [_ Hn].
  apply elem_of_dom in Hn. rewrite <- Hd in Hn. by apply elem_of_dom in Hn.
Qed.

(** ** Allocation *)

Context {R : Runtime}.

Lemma CPacket_Alloc_ok w o :
  (exists m, malloc eBUFFER_DEFAULT = Some m) ->
  pkt_inv w o -> m_lMaxCount (pktPool w) < POOL_LIMIT ->
  exists l p m pool',
    let w' := set_packets w (<[l := p]> (packets w)) pool' in
    CPacket_Alloc w = Ok (l, w') /\ cleared p m /\ m_lRefCount p = 1 /\ (l ∉ o) /\
    pkt_inv w' ({[l]} ∪ o) /\ m_lMaxCount pool' <= m_lMaxCount (pktPool w) + 1.
Proof.
  intros [blk Hm] Hinv Hlim. pose proof Hinv as [[L Hrest] Hd Hs Hr].
  destruct (Alloc_rest _ _ _ Hrest Hlim)
    as (pool' & l & L' & Ea & Hlo & Hrest' & _ & Hdom & _ & _ & Hmax).
  assert (Hobj : exists q, shape q /\
    (match packets w !! l with Some p => mret p | None => lift CPacket_new end : M A CPacket) w
      = Ok (q, w)).
  { destruct (packets w !! l) as [q|] eqn:El; [exists q; eauto|].
    destruct (CPacket_new_ok blk Hm) as (q & z & Eq & Hw & _). exists q.
    split; [by eapply wf_shape|]. by apply lift_run. }
  destruct Hobj as (q & Hsq & Eq). destruct (Clear_cleared q Hsq) as (q' & z & Ec & Hc & _).
  assert (Hcl : cleared (with_ref q' 1) z).
  { destruct Hc as [[] F B E]. by split. }
  exists l, (with_ref q' 1), z, pool'. cbn zeta. split; [|split_and!; try done].
  - unfold CPacket_Alloc. rewrite (bind_run _ _ w _ w) by done.
    rewrite (bind_run _ _ (pool', l) _ w) by (by apply lift_run).
    rewrite (bind_run _ _ q _ w) by exact Eq.
    rewrite (bind_run _ _ q' _ w) by (by apply lift_run). done.
  - split; cbn.
    + eauto.
    + rewrite dom_insert_L, Hd, Hdom. done.
    + intros l' x Hx. apply lookup_insert_Some in Hx as [[-> <-]|[_ Hx]]; [|eauto].
      eapply wf_shape, Hcl.
    + intros l' x Hx. apply lookup_insert_Some in Hx as [[-> <-]|[Hne Hx]].
      * cbn. split; [lia|]. set_solver.
      * destruct (Hr _ _ Hx) as [H1 H2]. split; [done|]. set_solver.
Qed.

(** ** Release *)

Lemma CPacket_SubRef_ok w o l p :
  pkt_inv w o -> packets w !! l = Some p -> l ∈ o -> m_lMaxCount (pktPool w) <= POOL_LIMIT ->
  exists pool',
    let w' := set_packets w (<[l := with_ref p (m_lRefCount p - 1)]> (packets w)) pool' in
    CPacket_SubRef l w = Ok (tt, w') /\
    pkt_inv w' (if m_lRefCount p =? 1 then o ∖ {[l]} else o) /\
    m_lMaxCount pool' = m_lMaxCount (pktPool w).
Proof.
  intros Hinv Hl Hlo Hlim. pose proof Hinv as [[L Hrest] Hd Hs Hr].
  destruct (Hr _ _ Hl) as [Hb Ho]. apply Ho in Hlo as Hpos.
  assert (Esub : SubRef p = (with_ref p (m_lRefCount p - 1), m_lRefCount p - 1 =? 0)).
  { unfold SubRef. by rewrite i32_id by lia. }
  set (w1 := set_packets w (<[l := with_ref p (m_lRefCount p - 1)]> (packets w)) (pktPool w)).
  assert (Erun : on_packet l (fun p => Ok (SubRef p)) w = Ok (m_lRefCount p - 1 =? 0, w1)).
  { unfold on_packet. rewrite (bind_run _ _ p _ w) by (by apply packet_run).
    rewrite Esub. reflexivity. }
  assert (Hshape : shape (with_ref p (m_lRefCount p - 1))).
  { destruct (Hs _ _ Hl) as (m & H). by exists m. }
  assert (Hdl : {[l]} ∪ dom (packets w) = dom (next (pktPool w))).
  { apply elem_of_dom_2 in Hl. rewrite Hd in *. set_solver. }
  unfold CPacket_SubRef. destruct (Z.eqb_spec (m_lRefCount p) 1) as [E1|E1].
  - destruct (Free_rest _ _ _ l Hrest Hlo Hlim) as (Hrest' & Hdom' & _).
    exists (Free (pktPool w) l). cbn zeta. rewrite (bind_run _ _ _ _ _ Erun).
    replace (m_lRefCount p - 1 =? 0) with true by (symmetry; apply Z.eqb_eq; lia).
    split; [reflexivity|]. split; [|done]. split; cbn -[Free].
    + eauto.
    + by rewrite dom_insert_L, Hdom', Hdl.
    + intros l' x Hx. apply lookup_insert_Some in Hx as [[-> <-]|[_ Hx]]; eauto.
    + intros l' x Hx. apply lookup_insert_Some in Hx as [[-> <-]|[Hne Hx]].
      * cbn. split; [lia|]. split; [lia|set_solver].
      * destruct (Hr _ _ Hx) as [H1 H2]. split; [done|]. set_solver.
  - exists (pktPool w). cbn zeta. rewrite (bind_run _ _ _ _ _ Erun).
    replace (m_lRefCount p - 1 =? 0) with false by (symmetry; apply Z.eqb_neq; lia).
    split; [reflexivity|]. split; [|done]. split; cbn.
    + eauto.
    + by rewrite dom_insert_L.
    + intros l' x Hx. apply lookup_insert_Some in Hx as [[-> <-]|[_ Hx]]; eauto.
    + intros l' x Hx. apply lookup_insert_Some in Hx as [[-> <-]|[Hne Hx]]; [|eauto].
      cbn. split; [lia|]. split; [done|lia].
Qed.
End Heap.
