(* ===== verification/Iocp.v ===== *)
(** * IOCPServer: sessions, sends and receives (IOCPServer.cpp)

    One definition per function of the server, over the world of [World].  A [Session *] is the
    index of its slot in [sessionArray].  A function here runs without interference: what
    other threads do between its steps is outside this file.  [OnRecv] is a parameter of
    [RecvComplete], since the derived class calls back into the server. *)

From S2P Require Import Prelude RingBuffer Packet Codec FreeList World.

Section Server.
Context {Q : LockfreeQueue loc 4096} {A : Type}.
Context {W : Windows} {R : Runtime} {App : ServerApp A}.

(** [while (q.pop(p)) if (p) p->SubRef();]  No null pointer is ever pushed.  The fuel is the number of elements. *)
Fixpoint release_all (n : nat) (q : lfq loc 4096) : M A (lfq loc 4096) :=
  match n with
  | O => match lfq_pop q with None => mret q | Some _ => lift OutOfFuel end
  | S n =>
      match lfq_pop q with
      | None => mret q
      | Some (p, q) => CPacket_SubRef p;; release_all n q
      end
  end.

Definition drain_sendBuf (i : Z) : M A unit :=
  s ← session i;
  q ← release_all (length (elems (sendBuf s))) (sendBuf s);
  update i (fun s => set_sendBuf s q).

Definition drain_completeSendBuf (i : Z) : M A unit :=
  s ← session i;
  q ← release_all (length (elems (completeSendBuf s))) (completeSendBuf s);
  update i (fun s => set_completeSendBuf s q).

Definition INVALID_ID : Z := u64 (-1).

(** [Session::Init] *)
Definition Session_Init (i : Z) : M A unit :=
  update i (fun s => mkSession None INVALID_ID 0 FALSE 0 (isReleased s) (ioCount s)
                       (sendBuf s) (completeSendBuf s) (recvBuf s) 0);;
  drain_sendBuf i;;
  drain_completeSendBuf i;;
  update i (fun s => set_ioCount (set_isReleased s FALSE) 0).

(** The stack holds [int]s. *)
Definition PushIndex (idx : Z) : M A unit :=
  modify (fun w => set_indexStack w (i32 idx :: indexStack w)).

Definition PopIndex : M A Z :=
  w ← get;
  match indexStack w with
  | [] => lift (Fault EmptyTop)
  | idx :: st => modify (fun w => set_indexStack w st);; mret (u64 idx)
  end.

Definition bump_sessionCount (d : Z) : M A unit :=
  modify (fun w => set_counters w (i64 (sessionCount w + d)) (sendTPS w) (recvTPS w)
                                (acceptTPS w) (acceptCount w)).

(** [InterlockedIncrement((LONG * )&tps)]: only the low half of the [LONG64] is incremented. *)
Definition inc_low32 (v : Z) : Z := v - v mod 2 ^ 32 + (v mod 2 ^ 32 + 1) mod 2 ^ 32.

Definition bump_sendTPS : M A unit :=
  modify (fun w => set_counters w (sessionCount w) (inc_low32 (sendTPS w)) (recvTPS w)
                                (acceptTPS w) (acceptCount w)).
Definition bump_recvTPS : M A unit :=
  modify (fun w => set_counters w (sessionCount w) (sendTPS w) (inc_low32 (recvTPS w))
                                (acceptTPS w) (acceptCount w)).
Definition bump_accept : M A unit :=
  modify (fun w => set_counters w (i64 (sessionCount w + 1)) (sendTPS w) (recvTPS w)
                                (i64 (acceptTPS w + 1)) (i64 (acceptCount w + 1))).

Definition CreateSession (socket : Z) : M A Z :=
  idx ← PopIndex;
  w ← get;
  let id := u64 (nextID w + 1) in
  modify (fun w => set_nextID w id);;
  s ← session idx;
  t ← tick;
  put_session idx
    (mkSession (Some socket) (COMBINE_ID_INDEX id idx) (i64 idx) (isSendFlag s) (sendCount s)
       (isReleased s) (ioCount s) (sendBuf s) (completeSendBuf s)
       (ClearBuffer (recvBuf s)) (GetTickCount64 t));;
  bump_accept;;
  mret idx.

Definition call_OnClientLeave (sid : Z) : M A unit :=
  w ← get;
  a ← lift (OnClientLeave sid (app w));
  modify (fun w => set_app w a).

Definition call_OnClientJoin (sid : Z) : M A unit :=
  t ← tick;
  w ← get;
  a ← lift (OnClientJoin sid (GetTickCount64 t) (app w));
  modify (fun w => set_app w a).

Definition ReleaseSession (i : Z) : M A unit :=
  s ← session i;
  call_OnClientLeave (sessionID s);;
  drain_sendBuf i;;
  drain_completeSendBuf i;;
  s ← session i;
  let idx := index s in
  update i (fun s => set_recvBuf s (ClearBuffer (recvBuf s)));;
  Session_Init i;;
  PushIndex idx;;
  bump_sessionCount (-1).

Definition DisConnect (i : Z) : M A unit :=
  s ← session i;
  if isReleased s =? TRUE then mret tt
  else
    put_session i (if isReleased s =? FALSE then set_isReleased s TRUE else s);;
    modify (fun w => set_sent w (sent w ++ [EClose (sock s)]));;
    update i (fun s => set_sock s None);;
    s ← session i;
    if ioCount s =? 0 then ReleaseSession i else mret tt.

(** The slot, or [None] for [NULL].  [&sessionArray[index]] outside the array faults at the
    first access. *)
Definition SessionLock (sid : Z) : M A (option Z) :=
  let i := i32 (GET_SESSION_INDEX sid) in
  add_ioCount i 1;;
  s ← session i;
  if negb (sid =? sessionID s) || negb (isReleased s =? FALSE) then
    n ← add_ioCount i (-1);
    (if n =? 0 then ReleaseSession i else mret tt);;
    mret None
  else
    s ← session i;
    if negb (sid =? sessionID s) then add_ioCount i (-1);; mret None
    else if isReleased s =? TRUE then
      n ← add_ioCount i (-1);
      (if n =? 0 then ReleaseSession i else mret tt);;
      mret None
    else mret (Some i).

Definition SessionUnLock (i : Z) : M A unit :=
  n ← add_ioCount i (-1);
  if n =? 0 then ReleaseSession i else mret tt.

Definition Disconnect (sid : Z) : M A unit :=
  s ← SessionLock sid;
  match s with
  | None => mret tt
  | Some i => DisConnect i;; SessionUnLock i
  end.

(** *** Sending *)

Definition MAX_PACKETS : Z := 100.
Definition MAX_BUFS : Z := 200.

(** The loop that fills [wBuf]; a [WSABUF] is the bytes it points at, which nothing changes
    until the send completes (the packet is encoded and referenced). *)
Fixpoint gather (n : nat) (i : Z) (wBuf : list (list Z)) (bufCount pktCount : Z)
    : M A (list (list Z) * Z * Z) :=
  match n with
  | O => lift OutOfFuel
  | S n =>
      if (pktCount <? MAX_PACKETS) && (bufCount + 2 <=? MAX_BUFS) then
        s ← session i;
        match lfq_pop (sendBuf s) with
        | None => mret (wBuf, bufCount, pktCount)
        | Some (l, q) =>
            update i (fun s => set_sendBuf s q);;
            p ← packet l;
            m ← lift (head p);
            hdr ← lift (load m (GetHeaderPtr p) MESSAGE_HEADER_LEN);
            body ← lift (load m (GetBufferPtr p) (u32 (GetDataSize p)));
            update i (fun s => set_completeSendBuf s (lfq_push l (completeSendBuf s)).1);;
            gather n i (wBuf ++ [hdr; body]) (bufCount + 2) (pktCount + 1)
        end
      else mret (wBuf, bufCount, pktCount)
  end.

Definition PostSend (i : Z) : M A bool :=
  s ← session i;
  if negb (isSendFlag s =? 0) then mret false
  else
    put_session i (set_isSendFlag s 1);;
    '(wBuf, bufCount, pktCount) ← gather 101 i [] 0 0;
    if pktCount =? 0 then
      update i (fun s => set_isSendFlag s 0);;
      mret false
    else
      update i (fun s => set_sendCount s pktCount);;
      add_ioCount i 1;;
      s ← session i;
      t ← tick;
      match WSASend_error t with
      | Some e =>
          if e =? WSA_IO_PENDING then
            modify (fun w => set_kernel (set_sent w (sent w ++ [ESend (sock s) wBuf]))
                                        (kernel w ++ [PendingSend i wBuf]));;
            mret true
          else
            n ← add_ioCount i (-1);
            if n =? 0 then ReleaseSession i;; mret false else mret true
      | None =>
          modify (fun w => set_kernel (set_sent w (sent w ++ [ESend (sock s) wBuf]))
                                      (kernel w ++ [PendingSend i wBuf]));;
          mret true
      end.

Fixpoint complete_loop (n : nat) (i : Z) : M A unit :=
  match n with
  | O => mret tt
  | S n =>
      s ← session i;
      match lfq_pop (completeSendBuf s) with
      | None => DisConnect i
      | Some (l, q) =>
          update i (fun s => set_completeSendBuf s q);;
          CPacket_SubRef l;;
          bump_sendTPS;;
          complete_loop n i
      end
  end.

Definition SendComplete (i transferred : Z) : M A unit :=
  (if transferred =? 0 then DisConnect i else mret tt);;
  s ← session i;
  let cnt := sendCount s in
  put_session i (set_sendCount s 0);;
  complete_loop (Z.to_nat cnt) i;;
  update i (fun s => set_isSendFlag s 0);;
  s ← session i;
  if negb (isReleased s =? TRUE) then PostSend i;; mret tt else mret tt.

Definition SendPacket (sid : Z) (l : loc) : M A unit :=
  s ← SessionLock sid;
  match s with
  | None => mret tt
  | Some i =>
      CPacket_AddRef l;;
      CPacket_SetEncodingCode l;;
      update i (fun s => set_sendBuf s (lfq_push l (sendBuf s)).1);;
      s ← session i;
      (if negb (isReleased s =? TRUE) then PostSend i;; mret tt else mret tt);;
      SessionUnLock i
  end.

(** *** Receiving *)

(** The pieces of the ring a receive is posted into. *)
Definition recv_bufs (rb : CRingBuffer) : list (Z * Z) :=
  let len0 := u32 (DirectEnqueueSize rb) in
  (GetRearBufferPtr rb, len0) ::
  (if DirectEnqueueSize rb <? RingBuffer.GetFreeSize rb
   then [(RingBuffer.GetBufferPtr rb, u32 (RingBuffer.GetFreeSize rb - len0))] else []).

Definition PostRecv (i : Z) : M A bool :=
  s ← session i;
  if isReleased s =? TRUE then mret false
  else
    let wbuf := recv_bufs (recvBuf s) in
    add_ioCount i 1;;
    t ← tick;
    match WSARecv_error t with
    | Some e =>
        if e =? WSA_IO_PENDING then
          modify (fun w => set_kernel w (kernel w ++ [PendingRecv i wbuf]));; mret true
        else
          n ← add_ioCount i (-1);
          (if n =? 0 then ReleaseSession i else mret tt);;
          DisConnect i;;
          mret false
    | None => modify (fun w => set_kernel w (kernel w ++ [PendingRecv i wbuf]));; mret true
    end.

(** The kernel fills the posted pieces in order. *)
Fixpoint scatter (d : list Z) (wbuf : list (Z * Z)) (bs : list Z) : res (list Z) :=
  match wbuf with
  | [] => Ok d
  | (off, n) :: wbuf =>
      d ← store d off (take (Z.to_nat n) bs);
      scatter d wbuf (drop (Z.to_nat n) bs)
  end.

Context (OnRecv : Z -> loc -> M A unit).

Definition with_ring {B} (i : Z) (f : CRingBuffer -> res (CRingBuffer * B)) : M A B :=
  s ← session i;
  '(rb, b) ← lift (f (recvBuf s));
  update i (fun s => set_recvBuf s rb);;
  mret b.

(** The [while (true)] of [RecvComplete]; [true] when it ends by [break], [false] when the
    function returns from inside.  Every turn takes at least one byte off the ring. *)
Fixpoint recv_loop (n : nat) (i : Z) : M A bool :=
  match n with
  | O => lift OutOfFuel
  | S n =>
      s ← session i;
      let qSize := GetUseSize (recvBuf s) in
      if MESSAGE_HEADER_LEN >? u64 qSize then mret true
      else
        '(hdr, _) ← lift (Peek (recvBuf s) (replicate 5 0) 0 MESSAGE_HEADER_LEN);
        let stHeader := header_of_bytes hdr in
        if negb (code stHeader =? PACKET_CODE) then DisConnect i;; mret false
        else if len stHeader =? 0 then DisConnect i;; mret false
        else if MESSAGE_HEADER_LEN + len stHeader >? qSize then mret true
        else
          with_ring i (fun rb => MoveFront rb MESSAGE_HEADER_LEN);;
          l ← CPacket_Alloc;
          on_packet_ l Clear;;
          on_packet_ l (fun p => SetMessageHeader p hdr MESSAGE_HEADER_LEN);;
          p ← packet l;
          m ← lift (head p);
          '(m, got) ← with_ring i (fun rb =>
             '(rb, m, got) ← Dequeue rb m (GetBufferPtr p) (len stHeader);
             Ok (rb, (m, got)));
          put_packet l (with_head p (m_iMaxSize p) m);;
          if negb (len stHeader =? got) then DisConnect i;; mret false
          else
            on_packet l (fun p => Ok (MoveWritePos p (len stHeader)));;
            ok ← on_packet l SetDecodingCode;
            if negb (ok : bool) then CPacket_SubRef l;; DisConnect i;; mret false
            else
              bump_recvTPS;;
              s ← session i;
              OnRecv (sessionID s) l;;
              CPacket_SubRef l;;
              recv_loop n i
  end.

Definition RecvComplete (i dwTransferred : Z) : M A unit :=
  if dwTransferred =? 0 then DisConnect i
  else
    t ← tick;
    update i (fun s => set_lastRecvTime s (GetTickCount64 t));;
    with_ring i (fun rb => MoveRear rb (i32 dwTransferred));;
    s ← session i;
    fell ← recv_loop (S (Z.to_nat (GetUseSize (recvBuf s)))) i;
    if (fell : bool) then
      s ← session i;
      if negb (isReleased s =? TRUE) then PostRecv i;; mret tt else mret tt
    else mret tt.

(** *** The threads *)

(** One turn of [WorkerThread] on a completed receive or send. *)
Definition io_done (i : Z) : M A unit :=
  n ← add_ioCount i (-1);
  if n =? 0 then
    s ← session i;
    if negb (isReleased s =? FALSE) then ReleaseSession i else mret tt
  else mret tt.

Definition worker_recv (i transferred : Z) : M A unit :=
  RecvComplete i transferred;; io_done i.

Definition worker_send (i transferred : Z) : M A unit :=
  SendComplete i transferred;; io_done i.

(** One turn of [AcceptThread] on a socket [accept] returned. *)
Definition accept_turn (socket port : Z) : M A unit :=
  w ← get;
  if sessionCount w >=? maxClientCount w then
    modify (fun w => set_sent w (sent w ++ [EClose (Some socket)]))
  else if OnConnectionRequest port (app w) then
    i ← CreateSession socket;
    s ← session i;
    call_OnClientJoin (sessionID s);;
    PostRecv i;;
    mret tt
  else modify (fun w => set_sent w (sent w ++ [EClose (Some socket)])).

(** [Start]: the array of sessions and the stack of free slots, lowest on top. *)
Definition Session_new : Session :=
  mkSession None INVALID_ID 0 FALSE 0 FALSE 0 lfq_empty lfq_empty CRingBuffer_default 0.

Definition Start_world (maxUserCount : Z) (id0 : Z) (pool0 : pool) (a : A) : World A :=
  mkWorld (replicate (Z.to_nat maxUserCount) Session_new) (seqZ 0 maxUserCount) id0
    maxUserCount 0 0 0 0 0 ∅ pool0 a [] [] 0.
End Server.
