(* ===== verification/Chat.v ===== *)
(** * ChatServer: players and message handlers (ChatServer.h, ChatServer.cpp)

    The state of [ChatServer], and one definition per function.  What a joining or leaving
    client does to it is a function on that state alone (they do not call the server back);
    they implement [ServerApp], so the server of [Iocp] runs on top of them, and the message
    handlers run on top of the server.  Every lock the code takes is appended to [lockLog],
    in order.  Uninitialised locals are [Indeterminate]; the Redis server's answers are
    [RedisServer]. *)

From S2P Require Import Prelude RingBuffer Packet Codec FreeList Sector Message World Iocp.

(** What is in an uninitialised local, by the number of the call. *)
Class Indeterminate := {
  junk_word : nat -> Z;
  junk_block : nat -> Z -> list Z;
  junk_block_size : forall t n, 0 <= n -> zlen (junk_block t n) = n;
  junk_block_bytes : forall t n, bytes_ok (junk_block t n)
}.

(** The reply to [get] of the key [account], just set to [key]: [None] is not a string. *)
Class RedisServer := { redis_get : nat -> Z -> list Z -> option (list Z) }.

Record st_Redis := mkRedis { job_session : Z; job_packet : loc }.

(** [struct Player]; [id], [nick] and [sessionKey] are byte blocks. *)
Record Player := mkPlayer {
  ref : Z;
  closing : bool;
  p_sessionID : Z;
  accountNo : Z;
  id : list Z;
  nick : list Z;
  sessionKey : list Z;
  sectorX : Z;
  sectorY : Z;
  isLogined : Z;
  p_lastRecvTime : Z
}.

Definition set_ref p v := mkPlayer v (closing p) (p_sessionID p) (accountNo p) (id p) (nick p)
  (sessionKey p) (sectorX p) (sectorY p) (isLogined p) (p_lastRecvTime p).
Definition set_closing p v := mkPlayer (ref p) v (p_sessionID p) (accountNo p) (id p) (nick p)
  (sessionKey p) (sectorX p) (sectorY p) (isLogined p) (p_lastRecvTime p).
Definition set_p_sessionID p v := mkPlayer (ref p) (closing p) v (accountNo p) (id p) (nick p)
  (sessionKey p) (sectorX p) (sectorY p) (isLogined p) (p_lastRecvTime p).
Definition set_p_lastRecvTime p v := mkPlayer (ref p) (closing p) (p_sessionID p) (accountNo p)
  (id p) (nick p) (sessionKey p) (sectorX p) (sectorY p) (isLogined p) v.
Definition set_login p account i n := mkPlayer (ref p) (closing p) (p_sessionID p) account i n
  (sessionKey p) (sectorX p) (sectorY p) 1 (p_lastRecvTime p).
Definition SetSector p x y := mkPlayer (ref p) (closing p) (p_sessionID p) (accountNo p)
  (id p) (nick p) (sessionKey p) x y (isLogined p) (p_lastRecvTime p).

(** [Player::Reset] gives every member a value. *)
Definition Reset (p : Player) : Player :=
  mkPlayer 1 false 0 0 (replicate 40 0) (replicate 40 0)
           (replicate (Z.to_nat dfSESSIONKEY_LEN) 0) (u16 (-1)) (u16 (-1)) FALSE 0.

(** [Player::SetLogin] *)
Definition SetLogin (p : Player) (sid account : Z) (wid wNick key : list Z) : res Player :=
  i ← memcpy (id p) 0 wid 0 dfID_LEN;
  n ← memcpy (nick p) 0 wNick 0 dfNiCK_LEN;
  k ← memcpy (sessionKey p) 0 key 0 dfSESSIONKEY_LEN;
  Ok (mkPlayer (ref p) (closing p) sid account i n k (sectorX p) (sectorY p) TRUE
               (p_lastRecvTime p)).

Section Chat.
Context {RQ : LockfreeQueue st_Redis 65534}.

(** [objects] are the players constructed so far, by the block of [playerPool] they live in;
    [sector] are the sets of the sectors that are not empty. *)
Record ChatServer := mkChat {
  players : gmap Z loc;
  accounts : gmap Z Z;
  sector : gmap (Z * Z) (gset loc);
  objects : gmap loc Player;
  playerPool : pool;
  redisQ : lfq st_Redis 65534;
  redis_event : bool;
  lockLog : list act
}.

Definition set_players c v := mkChat v (accounts c) (sector c) (objects c) (playerPool c)
  (redisQ c) (redis_event c) (lockLog c).
Definition set_accounts c v := mkChat (players c) v (sector c) (objects c) (playerPool c)
  (redisQ c) (redis_event c) (lockLog c).
Definition set_sector c v := mkChat (players c) (accounts c) v (objects c) (playerPool c)
  (redisQ c) (redis_event c) (lockLog c).
Definition set_objects c v p := mkChat (players c) (accounts c) (sector c) v p
  (redisQ c) (redis_event c) (lockLog c).
Definition set_redis c q e := mkChat (players c) (accounts c) (sector c) (objects c)
  (playerPool c) q e (lockLog c).
Definition log_locks c acts := mkChat (players c) (accounts c) (sector c) (objects c)
  (playerPool c) (redisQ c) (redis_event c) (lockLog c ++ acts).

(** [sector[y][x].set] *)
Definition sector_set (c : ChatServer) (x y : Z) : gset loc := default ∅ (sector c !! (x, y)).
Definition sector_update (c : ChatServer) (x y : Z) (f : gset loc -> gset loc)
    : res ChatServer :=
  check ((0 <=? x) && (x <? dfSECTOR_MAX_X) && (0 <=? y) && (y <? dfSECTOR_MAX_Y)) BadIndex;;
  Ok (set_sector c (<[(x, y) := f (sector_set c x y)]> (sector c))).
Definition sector_insert c x y (l : loc) := sector_update c x y (fun s => {[l]} ∪ s).
Definition sector_erase c x y (l : loc) := sector_update c x y (fun s => s ∖ {[l]}).

Definition player (c : ChatServer) (l : loc) : res Player := of_opt NullDeref (objects c !! l).
Definition put_player (c : ChatServer) (l : loc) (p : Player) : ChatServer :=
  set_objects c (<[l := p]> (objects c)) (playerPool c).

(** *** Reference counts *)

Definition AddRefPlayer (c : ChatServer) (l : loc) : res ChatServer :=
  p ← player c l;
  Ok (put_player c l (set_ref p (i32 (ref p + 1)))).

Definition ReleasePlayer (c : ChatServer) (l : loc) : res ChatServer :=
  p ← player c l;
  let r := i32 (ref p - 1) in
  let c := put_player c l (set_ref p r) in
  Ok (if r =? 0 then set_objects c (objects c) (Free (playerPool c) l) else c).

Definition AcquirePlayer (c : ChatServer) (sid : Z) : res (ChatServer * option loc) :=
  let c := log_locks c [Acquire Shared playerLock] in
  match players c !! sid with
  | None => Ok (log_locks c [Release Shared playerLock], None)
  | Some l =>
      c ← AddRefPlayer c l;
      let c := log_locks c [Release Shared playerLock] in
      p ← player c l;
      if closing p then c ← ReleasePlayer c l; Ok (c, None)
      else Ok (c, Some l)
  end.

(** *** Joining and leaving *)

(** The members of a new [Player] other than [ref] and [closing] are indeterminate; the
    [Reset] that follows sets them all. *)
Definition Player_new : Player :=
  mkPlayer 1 false 0 0 [] [] [] 0 0 0 0.

Definition JoinProc (sid now : Z) (c : ChatServer) : res (ChatServer * bool) :=
  '(pool, l) ← Alloc (playerPool c) (fresh (dom (next (playerPool c)))) None;
  let p := match objects c !! l with Some p => p | None => Player_new end in
  let p := Reset p in
  let p := set_p_sessionID p sid in
  let p := set_p_lastRecvTime p now in
  let p := set_closing (set_ref p 1) false in
  let c := set_objects c (<[l := p]> (objects c)) pool in
  let c := log_locks c [Acquire Exclusive playerLock] in
  match players c !! sid with
  | Some _ =>
      let c := log_locks c [Release Exclusive playerLock] in
      Ok (set_objects c (objects c) (Free (playerPool c) l), false)
  | None =>
      let c := set_players c (<[sid := l]> (players c)) in
      Ok (log_locks c [Release Exclusive playerLock], true)
  end.

Definition leave_account (c : ChatServer) (l : loc) (sid : Z) : res ChatServer :=
  p ← player c l;
  if negb (isLogined p =? 0) && negb (accountNo p =? 0) then
    let c := log_locks c [Acquire Exclusive accountLock] in
    let c := if decide (accounts c !! accountNo p = Some sid)
             then set_accounts c (delete (accountNo p) (accounts c)) else c in
    Ok (log_locks c [Release Exclusive accountLock])
  else Ok c.

Definition leave_sector (c : ChatServer) (l : loc) : res ChatServer :=
  p ← player c l;
  if IsValidSector (sectorX p) (sectorY p) then
    let c := log_locks c (LockSectorExclusive (sectorX p) (sectorY p)) in
    c ← sector_erase c (sectorX p) (sectorY p) l;
    Ok (log_locks c (UnlockSectorExclusive (sectorX p) (sectorY p)))
  else Ok c.

Definition LeaveProc (sid : Z) (c : ChatServer) : res (ChatServer * bool) :=
  let c := log_locks c [Acquire Exclusive playerLock] in
  match players c !! sid with
  | None => Ok (log_locks c [Release Exclusive playerLock], true)
  | Some l =>
      let c := set_players c (delete sid (players c)) in
      c ← AddRefPlayer c l;
      p ← player c l;
      let c := put_player c l (set_closing p true) in
      let c := log_locks c [Release Exclusive playerLock] in
      c ← leave_account c l sid;
      c ← leave_sector c l;
      p ← player c l;
      let c := put_player c l (set_closing p true) in
      c ← ReleasePlayer c l;
      Ok (c, true)
  end.

(** The virtual functions of [ChatServer]. *)
#[export] Instance chat_app : ServerApp ChatServer := {
  OnClientJoin sid now c := '(c, _) ← JoinProc sid now c; Ok c;
  OnClientLeave sid c := '(c, _) ← LeaveProc sid c; Ok c;
  OnConnectionRequest _ _ := true
}.
End Chat.
Arguments ChatServer {RQ}.

Section Handlers.
Context {Q : LockfreeQueue loc 4096} {RQ : LockfreeQueue st_Redis 65534}.
Context {W : Windows} {R : Runtime} {J : Indeterminate} {RS : RedisServer}.

(** The handlers' monad: the world of a server whose derived object is the chat server. *)
Abbreviation MC := (M ChatServer).

Definition chat : MC ChatServer := w ← get; mret (app w).
Definition put_chat (c : ChatServer) : MC unit := modify (fun w => set_app w c).
Definition on_chat {B} (f : ChatServer -> res (ChatServer * B)) : MC B :=
  c ← chat;
  '(c, b) ← lift (f c);
  put_chat c;;
  mret b.
Definition on_chat_ (f : ChatServer -> res ChatServer) : MC unit :=
  c ← chat;
  c ← lift (f c);
  put_chat c.

Definition get_player (l : loc) : MC Player := c ← chat; lift (player c l).
Definition update_player (l : loc) (f : Player -> Player) : MC unit :=
  p ← get_player l;
  on_chat_ (fun c => Ok (put_player c l (f p))).
Definition log (acts : list act) : MC unit := on_chat_ (fun c => Ok (log_locks c acts)).

(** [operator>>] on the packet behind [l]. *)
Definition read (l : loc) (t : ty) (old : Z) : MC Z := on_packet l (fun p => ReadValue p t old).
Definition get_data (l : loc) (dst : list Z) (n : Z) : MC (list Z) :=
  on_packet l (fun p => GetData p dst 0 n).

(** *** The replies *)

Definition MakeLoginResult (account : Z) (i n : list Z) : MC loc :=
  l ← CPacket_Alloc;
  on_packet_ l (MakeLoginResult_body account i n);;
  mret l.

Definition Res_Login (account status : Z) : MC loc :=
  l ← CPacket_Alloc;
  on_packet_ l (Res_Login_body account status);;
  CPacket_SetEncodingCode l;;
  mret l.

Definition Res_SectorMove (account x y : Z) : MC loc :=
  l ← CPacket_Alloc;
  on_packet_ l (Res_SectorMove_body account x y);;
  CPacket_SetEncodingCode l;;
  mret l.

Definition Res_Chat (pl : loc) (msg : list Z) (len : Z) : MC loc :=
  l ← CPacket_Alloc;
  p ← get_player pl;
  on_packet l (Res_Chat_body (accountNo p) (id p) (nick p) msg len);;
  CPacket_SetEncodingCode l;;
  mret l.

Definition SendUnicast (sid : Z) (l : loc) : MC unit := SendPacket sid l.

(** *** The handlers of the requests *)

(** [redisQ.push]'s result is ignored. *)
Definition EnqueueRedis (sid : Z) (l : loc) : MC unit :=
  on_chat_ (fun c => Ok (set_redis c (lfq_push (mkRedis sid l) (redisQ c)).1 true)).

Definition Req_Login_Redis (sid : Z) (pl l : loc) : MC bool :=
  p ← get_player pl;
  if closing p then mret false
  else if negb (p_sessionID p =? sid) then mret false
  else if negb (accountNo p =? 0) || negb (isLogined p =? 0) then mret false
  else
    CPacket_AddRef l;;
    EnqueueRedis sid l;;
    mret true.

Definition Req_SectorMove (sid : Z) (pl l : loc) : MC bool :=
  t ← tick;
  account ← read l INT64 0;
  x ← read l WORD (u16 (junk_word t));
  y ← read l WORD (u16 (junk_word (S t)));
  tick;;
  if negb (IsValidSector x y) then mret false
  else
    p ← get_player pl;
    let ox := sectorX p in
    let oy := sectorY p in
    (if IsValidSector ox oy then
       lk ← lift (LockTwoSectorsExclusive ox oy x y);
       log lk;;
       on_chat_ (fun c => sector_erase c ox oy pl);;
       on_chat_ (fun c => sector_insert c x y pl);;
       ul ← lift (UnlockTwoSectorsExclusive ox oy x y);
       log ul
     else
       log (LockSectorExclusive x y);;
       on_chat_ (fun c => sector_insert c x y pl);;
       log (UnlockSectorExclusive x y));;
    update_player pl (fun p => SetSector p x y);;
    t ← tick;
    update_player pl (fun p => set_p_lastRecvTime p (GetTickCount64 t));;
    l' ← Res_SectorMove account x y;
    SendPacket sid l';;
    CPacket_SubRef l';;
    mret true.

(** One sector of the broadcast: the sessions of its logged-in players. *)
Fixpoint collect (c : ChatServer) (ls : list loc) : res (list Z) :=
  match ls with
  | [] => Ok []
  | l :: ls =>
      p ← player c l;
      rest ← collect c ls;
      Ok (if isLogined p =? 0 then rest else p_sessionID p :: rest)
  end.

Fixpoint collect_sectors (ps : list st_POSITION) : MC (list Z) :=
  match ps with
  | [] => mret []
  | p :: ps =>
      let x := u16 (px p) in
      let y := u16 (py p) in
      log [Acquire Shared (sectorLock x y)];;
      c ← chat;
      lift (check ((x <? dfSECTOR_MAX_X) && (y <? dfSECTOR_MAX_Y)) BadIndex);;
      here ← lift (collect c (elements (sector_set c x y)));
      log [Release Shared (sectorLock x y)];;
      rest ← collect_sectors ps;
      mret (here ++ rest)
  end.

Fixpoint send_all (sids : list Z) (l : loc) : MC unit :=
  match sids with
  | [] => mret tt
  | sid :: sids => SendPacket sid l;; send_all sids l
  end.

(** [msg] is 1024 uninitialised [WCHAR]s; [GetData] leaves them so when the message is
    shorter than the length it announces. *)
Definition Req_Chat (sid : Z) (pl l : loc) : MC bool :=
  p ← get_player pl;
  if isLogined p =? 0 then mret false
  else
    account ← read l INT64 0;
    msgLenBytes ← read l WORD 0;
    if msgLenBytes =? 0 then mret false
    else
      t ← tick;
      msg ← get_data l (junk_block t 2048) msgLenBytes;
      l' ← Res_Chat pl msg msgLenBytes;
      p ← get_player pl;
      let cx := sectorX p in
      let cy := sectorY p in
      if negb (IsValidSector cx cy) then CPacket_SubRef l';; mret false
      else
        around ← lift (MakeAround cx cy);
        targets ← collect_sectors (entries around);
        send_all targets l';;
        CPacket_SubRef l';;
        mret true.

Definition RecvProc (sid : Z) (l : loc) : MC bool :=
  found ← on_chat (fun c => AcquirePlayer c sid);
  match found with
  | None => mret false
  | Some pl =>
      t ← tick;
      update_player pl (fun p => set_p_lastRecvTime p (GetTickCount64 t));;
      type ← read l WORD 0;
      ok ←
        (if type =? code_of en_PACKET_CS_CHAT_REQ_LOGIN then Req_Login_Redis sid pl l
         else if type =? code_of en_PACKET_CS_CHAT_REQ_SECTOR_MOVE then Req_SectorMove sid pl l
         else if type =? code_of en_PACKET_CS_CHAT_REQ_MESSAGE then Req_Chat sid pl l
         else if type =? code_of en_PACKET_CS_CHAT_REQ_HEARTBEAT then mret true
         else mret false);
      on_chat_ (fun c => ReleasePlayer c pl);;
      mret ok
  end.

Definition OnRecv (sid : Z) (l : loc) : MC unit :=
  ok ← RecvProc sid l;
  if negb ok then Disconnect sid else mret tt.

(** *** The login's second half, on the Redis thread *)

Definition CompleteLogin (sid : Z) (l : loc) (success : bool) : MC bool :=
  found ← on_chat (fun c => AcquirePlayer c sid);
  match found with
  | None => mret true
  | Some pl =>
      p ← get_player pl;
      if negb (p_sessionID p =? sid) then mret false
      else if closing p then on_chat_ (fun c => ReleasePlayer c pl);; mret true
      else
        t ← tick;
        account ← read l INT64 0;
        i ← get_data l (junk_block t dfID_LEN) dfID_LEN;
        n ← get_data l (junk_block (S t) dfNiCK_LEN) dfNiCK_LEN;
        tick;;
        (if success then
           log [Acquire Exclusive accountLock];;
           on_chat_ (fun c => Ok (set_accounts c (<[account := sid]> (accounts c))));;
           log [Release Exclusive accountLock];;
           p ← get_player pl;
           i' ← lift (wcscpy_s (id p) (dfID_LEN / 2) i);
           n' ← lift (wcscpy_s (nick p) (dfNiCK_LEN / 2) n);
           update_player pl (fun p => set_login p account i' n');;
           l' ← Res_Login account 1;
           SendUnicast sid l';;
           CPacket_SubRef l'
         else
           l' ← Res_Login account 0;
           SendUnicast sid l';;
           CPacket_SubRef l');;
        on_chat_ (fun c => ReleasePlayer c pl);;
        mret true
  end.

(** One job of [RedisThread]'s inner loop; [false] when the queue is empty. *)
Definition redis_job : MC bool :=
  c ← chat;
  match lfq_pop (redisQ c) with
  | None => mret false
  | Some (job, q) =>
      on_chat_ (fun c => Ok (set_redis c q (redis_event c)));;
      let l := job_packet job in
      account ← read l INT64 0;
      i ← get_data l (replicate 40 0) dfID_LEN;
      n ← get_data l (replicate 40 0) dfNiCK_LEN;
      clientKey ← get_data l (replicate (Z.to_nat dfSESSIONKEY_LEN) 0) dfSESSIONKEY_LEN;
      t ← tick;
      let ok := match redis_get t account clientKey with
                | Some v => bool_decide (v = clientKey)
                | None => false
                end in
      result ← MakeLoginResult account i n;
      CompleteLogin (job_session job) result ok;;
      CPacket_SubRef result;;
      CPacket_SubRef l;;
      mret true
  end.

(** *** The heartbeat *)

Fixpoint timed_out (c : ChatServer) (curTime : Z) (kvs : list (Z * loc)) : res (list Z) :=
  match kvs with
  | [] => Ok []
  | (sid, l) :: kvs =>
      p ← player c l;
      rest ← timed_out c curTime kvs;
      Ok (if (u64 curTime >? p_lastRecvTime p) && (u64 (curTime - p_lastRecvTime p) >? 40000)
          then sid :: rest else rest)
  end.

Fixpoint disconnect_all (sids : list Z) : MC unit :=
  match sids with
  | [] => mret tt
  | sid :: sids => Disconnect sid;; disconnect_all sids
  end.

Definition CheckTimeOut : MC bool :=
  t ← tick;
  let curTime := i64 (GetTickCount64 t) in
  log [Acquire Shared playerLock];;
  c ← chat;
  kickList ← lift (timed_out c curTime (map_to_list (players c)));
  log [Release Shared playerLock];;
  disconnect_all kickList;;
  mret true.
End Handlers.
