(* ===== verification/Threads.v ===== *)
(** * Starting, stopping and the threads (IOCPServer.cpp, ChatServer.cpp)

    The loops of the server's threads, each over the list of what its blocking call returns
    ([GetQueuedCompletionStatus], [accept], the waits), and [Start] and [Stop] with the calls
    they make on sockets, handles and threads. *)

From S2P Require Import Prelude RingBuffer Packet Codec FreeList Sector Message World Iocp Chat Wide CpuMonitor.

(** What [Start] and [Stop] do besides changing the server's own state. *)
Inductive os_call :=
  | ONoDelay                      (** [setsockopt(TCP_NODELAY, TRUE)] *)
  | OBind (port : Z)
  | OListen
  | OThread (h : Z)               (** a thread started, with the handle *)
  | OCloseSocket (s : option Z)
  | OCloseHandle (h : Z)
  | OWait (h : Z)                 (** [WaitForSingleObject(h, INFINITE)] *)
  | OPostStatus                   (** [PostQueuedCompletionStatus(hcp, 0, 0, NULL)] *)
  | OCleanup.                     (** [WSACleanup] *)

(** What Windows answers while the server starts; handles of threads by their number. *)
Class Startup := {
  WSAStartup_ok : bool;
  new_hcp : option Z;
  new_socket : option Z;
  bind_ok : bool;
  listen_ok : bool;
  thread_handle : nat -> Z
}.

(** *** Completions *)

(** An OVERLAPPED, by the member of the slot it is. *)
Inductive overlapped := recvOverlap (slot : Z) | sendOverlap (slot : Z).

#[export] Instance overlapped_eq_dec : EqDecision overlapped.
Proof. solve_decision. Defined.

(** What [GetQueuedCompletionStatus] returns and leaves in its out parameters; the key is the
    session registered with the socket, [None] is NULL. *)
Record completion := mkCompletion {
  c_retval : bool;
  c_transferred : Z;
  c_session : option Z;
  c_overlapped : option overlapped
}.

(** What [PostQueuedCompletionStatus(hcp, 0, 0, NULL)] delivers; the ends of a receive and a
    send of a slot. *)
Definition CShutdown : completion := mkCompletion true 0 None None.
Definition CRecv (i n : Z) : completion := mkCompletion true n (Some i) (Some (recvOverlap i)).
Definition CSend (i n : Z) : completion := mkCompletion true n (Some i) (Some (sendOverlap i)).

Section Threads.
Context {Q : LockfreeQueue loc 4096} {A : Type}.
Context {W : Windows} {R : Runtime} {App : ServerApp A}.

(** The members of [IOCPServer] that are not in its [World]; a null handle is 0.
    [monitorThread] is set by no function. *)
Record Server := mkServer {
  world : World A;
  listenSocket : option Z;
  hcp : option Z;
  acceptThread : Z;
  monitorThread : Z;
  allThreadCount : Z;
  threadVector : list Z;
  os_log : list os_call
}.

Definition set_world s w := mkServer w (listenSocket s) (hcp s) (acceptThread s) (monitorThread s)
  (allThreadCount s) (threadVector s) (os_log s).
Definition set_hcp s h := mkServer (world s) (listenSocket s) h (acceptThread s) (monitorThread s)
  (allThreadCount s) (threadVector s) (os_log s).
Definition set_listen s l := mkServer (world s) l (hcp s) (acceptThread s) (monitorThread s)
  (allThreadCount s) (threadVector s) (os_log s).
Definition set_threads s a n v := mkServer (world s) (listenSocket s) (hcp s) a (monitorThread s)
  n v (os_log s).
Definition os s calls := mkServer (world s) (listenSocket s) (hcp s) (acceptThread s)
  (monitorThread s) (allThreadCount s) (threadVector s) (os_log s ++ calls).

(** *** [Start] *)

(** [for (i = maxUserCount - 1; i >= 0; i--) indexStack.push(i);] *)
Fixpoint push_indices (n : nat) (st : list Z) : list Z :=
  match n with
  | O => st
  | S n => push_indices n (Z.of_nat n :: st)
  end.

Definition zero_counters (w : World A) : World A := set_counters w 0 0 0 0 0.

(** The world with a new array of sessions. *)
Definition new_sessions (w : World A) (maxUserCount : Z) : World A :=
  mkWorld (replicate (Z.to_nat maxUserCount) Session_new)
    (push_indices (Z.to_nat maxUserCount) (indexStack w)) (nextID w) maxUserCount
    (sessionCount w) (sendTPS w) (recvTPS w) (acceptTPS w) (acceptCount w) (packets w) (pktPool w)
    (app w) (kernel w) (sent w) (clock w).

Context {U : Startup}.

Definition Start (port threadCount : Z) (nagle : bool) (maxUserCount : Z) (s : Server)
    : res (Server * bool) :=
  if negb WSAStartup_ok then Ok (s, false)
  else
    let s := set_hcp s new_hcp in
    match new_hcp with
    | None => Ok (s, false)
    | Some _ =>
        let s := set_listen s new_socket in
        match new_socket with
        | None => Ok (s, false)
        | Some _ =>
            let s := os s ((if nagle then [ONoDelay] else []) ++ [OBind port]) in
            if negb bind_ok then Ok (s, false)
            else
              let s := os s [OListen] in
              if negb listen_ok then Ok (s, false)
              else
                check (0 <=? maxUserCount) BadAlloc;;
                let s := set_world s (zero_counters (new_sessions (world s) maxUserCount)) in
                let all := threadCount + 1 in
                let workers := thread_handle <$> seq 1 (Z.to_nat threadCount) in
                let s := set_threads s (thread_handle 0%nat) all (threadVector s ++ workers) in
                Ok (os s (OThread <$> thread_handle 0%nat :: workers), true)
        end
    end.

(** *** [Stop]

    The null [sessionArray] is the empty one: on an array of length 0 the loop does nothing. *)

Definition stop_slot (i : Z) : M A unit :=
  s ← session i;
  (match sock s with Some _ => DisConnect i | None => mret tt end);;
  drain_sendBuf i;;
  drain_completeSendBuf i;;
  update i (fun s => set_recvBuf s (ClearBuffer (recvBuf s))).

(** [for (i = 0; i < maxClientCount; ++i)], [n] slots from [i] on. *)
Fixpoint stop_slots (n : nat) (i : Z) : M A unit :=
  match n with
  | O => mret tt
  | S n => stop_slot i;; stop_slots n (i + 1)
  end.

(** Waiting for a thread and closing its handle. *)
Definition join (h : Z) : list os_call := if h =? 0 then [] else [OWait h; OCloseHandle h].

Definition Stop (s : Server) : res Server :=
  let s := os s [OCloseSocket (listenSocket s); OCloseHandle (acceptThread s);
                 OCloseHandle (monitorThread s)] in
  let s := os s (match hcp s with
                 | Some _ => (fun _ => OPostStatus) <$> threadVector s
                 | None => []
                 end) in
  let s := os s (join (acceptThread s) ++ join (monitorThread s) ++
                 flat_map join (threadVector s)) in
  let s := set_threads s (acceptThread s) (allThreadCount s) [] in
  '(_, w) ← match sessionArray (world s) with
            | [] => Ok (tt, world s)
            | _ => stop_slots (Z.to_nat (maxClientCount (world s))) 0 (world s)
            end;
  let s := set_world s (set_sessionArray w []) in
  let s := match hcp s with
           | Some h => set_hcp (os s [OCloseHandle h]) None
           | None => s
           end in
  Ok (set_world (os s [OCleanup]) (zero_counters (world s))).

(** *** The worker threads *)

(** One turn of the loop of [WorkerThread]; [false] when it breaks. *)
Context (OnRecv : Z -> loc -> M A unit).

Definition worker_turn (c : completion) : M A bool :=
  match c_overlapped c with
  | None =>
      if negb (c_retval c) then mret false
      else if (c_transferred c =? 0) && bool_decide (c_session c = None) then mret false
      else mret true
  | Some o =>
      match c_session c with
      | None => lift (Fault NullDeref)
      | Some i =>
          (if decide (o = recvOverlap i) then RecvComplete OnRecv i (c_transferred c) else mret tt);;
          (if decide (o = sendOverlap i) then SendComplete i (c_transferred c) else mret tt);;
          io_done i;;
          mret true
      end
  end.

(** [WorkerThread], one worker on the queue of completions: what is left when it exits. *)
Fixpoint WorkerThread (cs : list completion) : M A (list completion) :=
  match cs with
  | [] => mret []
  | c :: cs =>
      more ← worker_turn c;
      if more : bool then WorkerThread cs else mret cs
  end.

(** A scheduler for the workers, which the code leaves to the system: all of them on one queue,
    [k] still running; each completion goes to one of them, and its turn does not overlap with
    another's. *)
Fixpoint workers (k : nat) (cs : list completion) : M A (nat * list completion) :=
  match k, cs with
  | O, _ | _, [] => mret (k, cs)
  | S k, c :: cs =>
      more ← worker_turn c;
      workers (if more : bool then S k else k) cs
  end.

(** *** The accept thread *)

(** What [accept] returns: [None] is [INVALID_SOCKET], which ends the loop. *)
Fixpoint AcceptThread (clients : list (option (Z * Z))) : M A unit :=
  match clients with
  | [] | None :: _ => mret tt
  | Some (socket, port) :: clients => accept_turn socket port;; AcceptThread clients
  end.

(** *** Statistics *)

(** [InterlockedExchange((LONG * )&tps, 0)] *)
Definition clear_low32 (v : Z) : Z := v - v mod 2 ^ 32.

Definition reset_tps : M A unit :=
  modify (fun w => set_counters w (sessionCount w) (clear_low32 (sendTPS w))
    (clear_low32 (recvTPS w)) (clear_low32 (acceptTPS w)) (acceptCount w)).

(** What a turn of [MonitorThread] prints, in order. *)
Definition MonitorThread_turn : M A (list Z) :=
  w ← get;
  let line := [acceptCount w; recvTPS w; sendTPS w; acceptTPS w; sessionCount w] in
  reset_tps;;
  mret line.
End Threads.

(** ** The chat server *)

Section Chat.
Context {Q : LockfreeQueue loc 4096} {RQ : LockfreeQueue st_Redis 65534}.
Context {W : Windows} {R : Runtime} {J : Indeterminate} {RS : RedisServer} {P : Pdh} {U : Startup}.

Abbreviation MC := (M ChatServer).

(** [while (redisQ.pop(job)) ...] *)
Fixpoint redis_drain (n : nat) : MC unit :=
  match n with
  | O => lift OutOfFuel
  | S n => more ← redis_job; if more : bool then redis_drain n else mret tt
  end.

(** [RedisThread]: woken [wakeups] times before [exit] is set; it then breaks after the wait. *)
Fixpoint RedisThread (wakeups : nat) : MC unit :=
  match wakeups with
  | O => mret tt
  | S k =>
      c ← chat;
      redis_drain (S (length (elems (redisQ c))));;
      RedisThread k
  end.

(** [HeartbeatThread]: for each wait before [exit] is set, whether it timed out. *)
Fixpoint HeartbeatThread (waits : list bool) : MC unit :=
  match waits with
  | [] => mret tt
  | timeout :: waits =>
      (if timeout : bool then CheckTimeOut;; mret tt else mret tt);;
      HeartbeatThread waits
  end.

(** A timed-out turn of [ChatServer::MonitorThread]: the monitor after its [Update], and the
    numbers and rates printed. *)
Definition monitor_turn (m : CpuMonitor) (t : nat)
    : MC (CpuMonitor * nat * (list Z * list SpecFloat.spec_float * list Z)) :=
  '(m, t) ← lift (Update m t);
  w ← get;
  let c := app w in
  let counts := [acceptCount w; recvTPS w; sendTPS w; acceptTPS w; sessionCount w;
                 GetAllocCount (playerPool c); GetUseCount (playerPool c)] in
  let rates := [r_total (mProcessor (mSys m)); r_total (mProcess (mProc m))] in
  let sizes := [c_value (mProcessUserMemory (mCounters m));
                c_value (mProcessNonPagedMemory (mCounters m));
                c_value (mAvailableMemory (mCounters m))] in
  reset_tps;;
  mret (m, t, (counts, rates, sizes)).

(** [ChatServer::Start]; [h] are the handles of its own three threads. *)
Definition ChatServer_Start (port threadCount : Z) (nagle : bool) (maxUserCount : Z) (h : list Z)
    (s : Server (A := ChatServer)) : res (Server (A := ChatServer) * bool) :=
  '(s, ok) ← Start port threadCount nagle maxUserCount s;
  if negb (ok : bool) then Ok (s, false)
  else Ok (os s (OThread <$> h), true).

(** The destructor, once its three threads have ended. *)
Fixpoint release_players (ls : list (Z * loc)) (c : ChatServer) : res ChatServer :=
  match ls with
  | [] => Ok c
  | (_, l) :: ls => c ← ReleasePlayer c l; release_players ls c
  end.

Definition ChatServer_delete (c : ChatServer) : res ChatServer :=
  let c := log_locks c [Acquire Exclusive playerLock] in
  c ← release_players (map_to_list (players c)) c;
  let c := log_locks (set_players c ∅) [Release Exclusive playerLock] in
  let c := log_locks c [Acquire Exclusive accountLock] in
  let c := log_locks (set_accounts c ∅) [Release Exclusive accountLock] in
  Ok c.
End Chat.
