(* ===== verification/Players.v ===== *)
(** * The life of a player (theorems on [Chat])

    The invariant of the chat server's state, that joining and leaving keep it, what each of
    them does, and what it costs: the reference the map of players held is never given back,
    so that no block of the player pool ever returns to it. *)

From S2P Require Import Prelude FreeList Sector Message World Chat.

Section Players.
Context {RQ : LockfreeQueue st_Redis 65534}.

Implicit Types c : ChatServer.

(** Between two handlers, with the player pool's free list [L] and [o] its blocks in use:
    the map sends each session to its own live player; a sector holds exactly the connected
    players whose coordinates are those of the sector. *)
Record chat_inv c (L : list loc) (o : gset loc) : Prop := {
  ci_pool : at_rest (playerPool c) L o;
  ci_objects : dom (objects c) = dom (next (playerPool c));
  ci_players : forall sid l, players c !! sid = Some l ->
    l ∈ o /\ exists p, objects c !! l = Some p /\ p_sessionID p = sid /\ closing p = false /\
      1 <= ref p < 1073741824 /\ 0 <= sectorX p /\ 0 <= sectorY p;
  ci_sector : forall x y l, l ∈ sector_set c x y <->
    on_grid x y /\ exists sid p, players c !! sid = Some l /\ objects c !! l = Some p /\
      sectorX p = x /\ sectorY p = y
}.

Lemma and_iff_left (G P P' : Prop) : (G -> P <-> P') -> G /\ P <-> G /\ P'.
Proof. tauto. Qed.

(** No two sessions share a player. *)
Lemma players_inj c L o s1 s2 l :
  chat_inv c L o -> players c !! s1 = Some l -> players c !! s2 = Some l -> s1 = s2.
Proof.
  intros Hi H1 H2. destruct (ci_players _ _ _ Hi _ _ H1) as (_ & p & Hp & <- & _).
  destruct (ci_players _ _ _ Hi _ _ H2) as (_ & p' & Hp' & <- & _). congruence.
Qed.

Lemma player_ok c l p : objects c !! l = Some p -> player c l = Ok p.
Proof. intros H. unfold player. by rewrite H. Qed.

Lemma put_player_same c l p : player (put_player c l p) l = Ok p.
Proof. apply player_ok. cbn. apply lookup_insert_eq. Qed.

Lemma AddRefPlayer_ok c l p :
  objects c !! l = Some p -> -2147483648 <= ref p < 2147483647 ->
  AddRefPlayer c l = Ok (put_player c l (set_ref p (ref p + 1))).
Proof.
  intros H Hr. unfold AddRefPlayer. rewrite (player_ok _ _ _ H). cbn [mbind res_bind].
  by rewrite i32_id by lia.
Qed.

Lemma ReleasePlayer_ok c l p :
  objects c !! l = Some p -> -2147483648 < ref p <= 2147483647 ->
  ReleasePlayer c l = Ok (let c' := put_player c l (set_ref p (ref p - 1)) in
    if ref p - 1 =? 0 then set_objects c' (objects c') (Free (playerPool c') l) else c').
Proof.
  intros H Hr. unfold ReleasePlayer. rewrite (player_ok _ _ _ H). cbn [mbind res_bind].
  by rewrite i32_id by lia.
Qed.

Lemma sector_set_insert c x y f x' y' :
  sector_set (set_sector c (<[(x, y) := f (sector_set c x y)]> (sector c))) x' y' =
  if decide ((x, y) = (x', y')) then f (sector_set c x y) else sector_set c x' y'.
Proof.
  unfold sector_set. cbn. case_decide as E.
  - injection E as <- <-. by rewrite lookup_insert_eq.
  - by rewrite lookup_insert_ne.
Qed.

Lemma sector_update_ok c x y f :
  on_grid x y ->
  sector_update c x y f = Ok (set_sector c (<[(x, y) := f (sector_set c x y)]> (sector c))).
Proof.
  unfold on_grid. intros. unfold sector_update.
  replace (_ && _) with true; [done|]. symmetry. rewrite !andb_true_iff. lia.
Qed.

(** The player a session has just joined with. *)
Definition joined (sid now : Z) : Player :=
  mkPlayer 1 false sid 0 (replicate 40 0) (replicate 40 0)
    (replicate (Z.to_nat dfSESSIONKEY_LEN) 0) 65535 65535 0 now.

Lemma off_grid : ~ on_grid 65535 65535.
Proof. unfold on_grid, dfSECTOR_MAX_X. lia. Qed.

(** Joining, on both branches. *)
Lemma JoinProc_ok c L o sid now :
  chat_inv c L o -> m_lMaxCount (playerPool c) < POOL_LIMIT ->
  (players c !! sid = None -> exists c' l L',
     JoinProc sid now c = Ok (c', true) /\ chat_inv c' L' ({[l]} ∪ o) /\ (l ∉ o) /\
     players c' = <[sid := l]> (players c) /\ objects c' = <[l := joined sid now]> (objects c) /\
     accounts c' = accounts c /\ sector c' = sector c /\
     GetUseCount (playerPool c') = GetUseCount (playerPool c) + 1 /\
     m_lMaxCount (playerPool c') <= m_lMaxCount (playerPool c) + 1) /\
  (forall l, players c !! sid = Some l -> exists c' L',
     JoinProc sid now c = Ok (c', false) /\ chat_inv c' L' o /\ players c' = players c /\
     accounts c' = accounts c /\ sector c' = sector c /\
     (forall l', l' ∈ o -> objects c' !! l' = objects c !! l') /\
     GetUseCount (playerPool c') = GetUseCount (playerPool c) /\
     m_lMaxCount (playerPool c') <= m_lMaxCount (playerPool c) + 1).
Proof.
  intros Hi Hlim. pose proof Hi as [Hpool Hobj Hpl Hsec].
  destruct (Alloc_rest _ _ _ Hpool Hlim) as (pool & l & L1 & Ea & Hlo & Hrest & _ & Hdom & _ & Hu & Hmx).
  unfold JoinProc. rewrite Ea. cbn [mbind res_bind].
  assert (Hlp : forall s l', players c !! s = Some l' -> l' <> l).
  { intros s l' Hs ->. by destruct (Hpl _ _ Hs) as [? _]. }
  cbn [set_objects log_locks players].
  split; intros Hs.
  - rewrite Hs. do 2 eexists. exists L1. split; [reflexivity|]. split; [|done]. split; cbn.
    + done.
    + by rewrite dom_insert_L, Hobj, Hdom.
    + intros s l' Hl'. destruct (decide (s = sid)) as [-> |Hne].
      * rewrite lookup_insert_eq in Hl'. injection Hl' as <-. split; [set_solver|].
        eexists. rewrite lookup_insert_eq. split; [done|]. cbn.
        split_and!; (done || lia).
      * rewrite lookup_insert_ne in Hl' by done. destruct (Hpl _ _ Hl') as (Ho & Hp).
        split; [set_solver|]. rewrite lookup_insert_ne; [done|]. apply not_eq_sym. eauto.
    + intros x y l'. change (sector_set _ x y) with (sector_set c x y). rewrite Hsec. apply and_iff_left. intros Hg. split.
      * intros (s & p & H1 & H2 & H3). exists s, p.
        rewrite !lookup_insert_ne; [done|apply not_eq_sym; eauto|]. intros ->. congruence.
      * intros (s & p & H1 & H2 & H3 & H4). destruct (decide (s = sid)) as [-> |Hne].
        -- rewrite lookup_insert_eq in H1. injection H1 as <-. rewrite lookup_insert_eq in H2.
           injection H2 as <-. cbn in H3, H4. subst. by destruct off_grid.
        -- rewrite lookup_insert_ne in H1 by done. exists s, p.
           rewrite lookup_insert_ne in H2; [done|]. apply not_eq_sym. eauto.
  - intros Hs'. rewrite Hs'.
    destruct (Free_rest pool L1 ({[l]} ∪ o) l Hrest) as (Hrest' & Hdom' & Hu'); [set_solver| |].
    { lia. }
    assert (Eo : ({[l]} ∪ o) ∖ {[l]} = o) by set_solver. rewrite Eo in Hrest'.
    do 2 eexists. split; [reflexivity|]. split; [split; cbn -[Free]|].
    + exact Hrest'.
    + by rewrite Hdom', dom_insert_L, Hobj, Hdom.
    + intros s l' Hl'. destruct (Hpl _ _ Hl') as (Ho & Hp). split; [done|].
      rewrite lookup_insert_ne; [done|]. apply not_eq_sym. eauto.
    + intros x y l'. change (sector_set _ x y) with (sector_set c x y). rewrite Hsec.
      apply and_iff_left. intros Hg.
      split; intros (s & p & H1 & H2 & H3); exists s, p.
      * rewrite lookup_insert_ne; [done|]. apply not_eq_sym. eauto.
      * rewrite lookup_insert_ne in H2; [done|]. apply not_eq_sym. eauto.
    + cbn -[Free]. split_and!; try done; [|unfold GetUseCount; lia].
      intros l' Hl'. rewrite lookup_insert_ne; [done|]. by intros ->.
Qed.

(** *** Leaving *)

(** What becomes of the accounts: the entry goes when it is this session's own. *)
Definition accounts_after (c : ChatServer) (p : Player) (sid : Z) : gmap Z Z :=
  if decide (isLogined p <> 0 /\ accountNo p <> 0 /\ accounts c !! accountNo p = Some sid)
  then delete (accountNo p) (accounts c) else accounts c.

Lemma log_locks_nil c : log_locks c [] = c.
Proof. destruct c. unfold log_locks. cbn. by rewrite app_nil_r. Qed.

Lemma log_locks_app c a b : log_locks (log_locks c a) b = log_locks c (a ++ b).
Proof. destruct c. unfold log_locks. cbn. by rewrite app_assoc. Qed.

Lemma set_accounts_same c : set_accounts c (accounts c) = c.
Proof. by destruct c. Qed.

Lemma set_sector_same c : set_sector c (sector c) = c.
Proof. by destruct c. Qed.

Lemma leave_account_ok c l p sid :
  objects c !! l = Some p ->
  exists lg, disciplined [] lg = true /\
    leave_account c l sid = Ok (log_locks (set_accounts c (accounts_after c p sid)) lg).
Proof.
  intros Hp. unfold leave_account, accounts_after. rewrite (player_ok _ _ _ Hp).
  cbn [mbind res_bind].
  destruct (Z.eqb_spec (isLogined p) 0) as [E1|E1], (Z.eqb_spec (accountNo p) 0) as [E2|E2];
    cbn [negb andb].
  1-3: exists []; rewrite decide_False by tauto; by rewrite set_accounts_same, log_locks_nil.
  exists [Acquire Exclusive accountLock; Release Exclusive accountLock]. split; [done|].
  cbn [log_locks accounts]. case_decide as E.
  - rewrite decide_True by tauto. unfold log_locks; cbn. by rewrite <- app_assoc.
  - rewrite decide_False by tauto. by rewrite set_accounts_same, log_locks_app.
Qed.

Lemma section_disciplined l : disciplined [] [Acquire Exclusive l; Release Exclusive l] = true.
Proof. cbn. rewrite bool_decide_eq_true_2 by apply list_elem_of_here. by rewrite decide_True. Qed.

Lemma leave_sector_ok c l p :
  objects c !! l = Some p -> 0 <= sectorX p -> 0 <= sectorY p ->
  exists s lg, disciplined [] lg = true /\
    leave_sector c l = Ok (log_locks (set_sector c s) lg) /\
    forall x y, sector_set (set_sector c s) x y =
      if decide (on_grid x y /\ x = sectorX p /\ y = sectorY p)
      then sector_set c x y ∖ {[l]} else sector_set c x y.
Proof.
  intros Hp Hx Hy. unfold leave_sector. rewrite (player_ok _ _ _ Hp). cbn [mbind res_bind].
  destruct (IsValidSector (sectorX p) (sectorY p)) eqn:Ev.
  - apply on_grid_valid in Ev; [|done..].
    exists (<[(sectorX p, sectorY p) := sector_set c (sectorX p) (sectorY p) ∖ {[l]}]> (sector c)),
      (LockSectorExclusive (sectorX p) (sectorY p) ++
       UnlockSectorExclusive (sectorX p) (sectorY p)).
    split; [apply section_disciplined|]. unfold sector_erase. rewrite sector_update_ok by done.
    cbn [mbind res_bind]. split.
    + rewrite <- log_locks_app. reflexivity.
    + intros x y.
      pose proof (sector_set_insert c (sectorX p) (sectorY p) (fun s => s ∖ {[l]}) x y) as E.
      cbn beta in E. rewrite E. repeat case_decide; try done; naive_solver.
  - exists (sector c), []. split; [done|]. split; [by rewrite set_sector_same, log_locks_nil|].
    intros x y. rewrite decide_False; [by rewrite set_sector_same|]. intros (Hg & -> & ->).
    apply on_grid_valid in Hg; [congruence|done..].
Qed.

(** The invariant once the session's player is out of the map and out of every sector. *)
Lemma chat_inv_left c c' L o sid l p q :
  chat_inv c L o -> players c !! sid = Some l -> objects c !! l = Some p ->
  playerPool c' = playerPool c -> players c' = delete sid (players c) ->
  objects c' = <[l := q]> (objects c) ->
  (forall x y, sector_set c' x y = sector_set c x y ∖ {[l]}) ->
  chat_inv c' L o.
Proof.
  intros Hi Hs Hp Epool Ep Eo Esec. pose proof Hi as [Hpool Hobj Hpl Hsec]. split.
  - by rewrite Epool.
  - rewrite Eo, dom_insert_L, Hobj, Epool. apply elem_of_dom_2 in Hp. rewrite Hobj in Hp.
    by apply subseteq_union_1_L, singleton_subseteq_l.
  - intros s' l' Hl'. rewrite Ep in Hl'. apply lookup_delete_Some in Hl' as [Hne Hl'].
    destruct (Hpl _ _ Hl') as (Hlo' & p' & Hp' & Hrest). split; [done|]. exists p'.
    rewrite Eo, lookup_insert_ne; [done|]. intros ->. eauto using players_inj.
  - intros x y l'. rewrite Esec, elem_of_difference, elem_of_singleton, Hsec, Ep, Eo. split.
    + intros [(Hg & sid' & p' & H1 & H3 & H4) Hne]. split; [done|]. exists sid', p'.
      rewrite lookup_insert_ne by done. split; [|done].
      apply lookup_delete_Some. split; [|done]. intros ->. congruence.
    + intros (Hg & sid' & p' & H1 & H3 & H4). apply lookup_delete_Some in H1 as [Hne H1].
      assert (l' <> l) by (intros ->; eauto using players_inj).
      rewrite lookup_insert_ne in H3 by done. split; [|done]. split; [done|]. eauto.
Qed.

(** Leaving a session that is in the map. *)
Lemma LeaveProc_ok c L o sid l p :
  chat_inv c L o -> players c !! sid = Some l -> objects c !! l = Some p ->
  exists c' lg, LeaveProc sid c = Ok (c', true) /\ chat_inv c' L o /\
    players c' = delete sid (players c) /\
    objects c' = <[l := set_closing p true]> (objects c) /\
    (forall x y, sector_set c' x y = sector_set c x y ∖ {[l]}) /\
    accounts c' = accounts_after c p sid /\
    playerPool c' = playerPool c /\
    lockLog c' = lockLog c ++ lg /\ disciplined [] lg = true.
Proof.
  intros Hi Hs Hp. pose proof Hi as [Hpool Hobj Hpl Hsec].
  destruct (Hpl _ _ Hs) as (Hlo & p' & Hp' & Hsid & Hcl & Hr & Hx & Hy).
  rewrite Hp in Hp'. injection Hp' as <-.
  unfold LeaveProc. cbn [log_locks players]. rewrite Hs.
  set (c1 := set_players _ _).
  rewrite (AddRefPlayer_ok c1 l p) by (done || lia). cbn [mbind res_bind].
  rewrite put_player_same. cbn [mbind res_bind].
  set (p2 := set_closing (set_ref p (ref p + 1)) true).
  set (c2 := log_locks (put_player (put_player c1 _ _) l p2) _).
  assert (H2 : objects c2 !! l = Some p2) by (cbn; apply lookup_insert_eq).
  destruct (leave_account_ok c2 l p2 sid H2) as (lg1 & D1 & ->). cbn [mbind res_bind].
  set (c3 := log_locks (set_accounts c2 _) lg1).
  destruct (leave_sector_ok c3 l p2 H2 Hx Hy) as (s & lg2 & D2 & -> & Hs2).
  cbn [mbind res_bind].
  set (c4 := log_locks (set_sector c3 s) lg2).
  rewrite (player_ok c4 l p2 H2). cbn [mbind res_bind].
  set (c5 := put_player c4 l _).
  rewrite (ReleasePlayer_ok c5 l (set_closing p2 true)) by (apply lookup_insert_eq || (cbn; lia)).
  cbn [mbind res_bind]. replace (ref (set_closing p2 true) - 1 =? 0) with false
    by (symmetry; apply Z.eqb_neq; cbn; lia).
  set (c6 := put_player c5 l _).
  assert (Ho6 : objects c6 = <[l := set_closing p true]> (objects c)).
  { cbn. rewrite !insert_insert_eq. f_equal. destruct p; unfold set_ref, set_closing; cbn.
    f_equal. lia. }
  assert (Hs6 : forall x y, sector_set c6 x y = sector_set c x y ∖ {[l]}).
  { intros x y. change (sector_set c6 x y) with (sector_set (set_sector c3 s) x y).
    rewrite Hs2. change (sector_set c3 x y) with (sector_set c x y).
    case_decide as E; [done|]. apply set_eq. intros l'. rewrite elem_of_difference, elem_of_singleton.
    split; [|tauto]. intros Hin. split; [done|]. intros ->. apply Hsec in Hin as Hin2.
    destruct Hin2 as (Hg & sid' & p' & H1 & H3 & H4 & H5). apply E. cbn. naive_solver. }
  assert (Hp6 : players c6 = delete sid (players c)) by done.
  exists c6, ([Acquire Exclusive playerLock; Release Exclusive playerLock] ++ lg1 ++ lg2).
  split; [done|]. split; [|split_and!; try done].
  - by apply (chat_inv_left c c6 L o sid l p (set_closing p true)).
  - cbn. by rewrite <- !app_assoc.
  - by apply disciplined_app; [apply section_disciplined|apply disciplined_app].
Qed.

(** Leaving a session that is not in the map. *)
Lemma LeaveProc_absent c sid :
  players c !! sid = None ->
  exists lg, LeaveProc sid c = Ok (log_locks c lg, true) /\ disciplined [] lg = true.
Proof.
  intros Hs. unfold LeaveProc. cbn [log_locks players]. rewrite Hs. rewrite log_locks_app.
  eexists. split; [reflexivity|]. reflexivity.
Qed.

Lemma chat_inv_log c L o lg : chat_inv c L o -> chat_inv (log_locks c lg) L o.
Proof. intros []. by split. Qed.

(** *** The player pool over the life of the server *)

(** What the IOCP server tells the chat server about its clients. *)
Inductive conn := Join (sid now : Z) | Leave (sid : Z).

Fixpoint run_conns (es : list conn) (c : ChatServer) : res ChatServer :=
  match es with
  | [] => Ok c
  | Join sid now :: es => c ← OnClientJoin sid now c; run_conns es c
  | Leave sid :: es => c ← OnClientLeave sid c; run_conns es c
  end.

(** The sessions connected, and how many joins there were of a session not connected. *)
Fixpoint live_after (live : gset Z) (es : list conn) : gset Z :=
  match es with
  | [] => live
  | Join sid _ :: es => live_after ({[sid]} ∪ live) es
  | Leave sid :: es => live_after (live ∖ {[sid]}) es
  end.

Fixpoint accepted (live : gset Z) (es : list conn) : Z :=
  match es with
  | [] => 0
  | Join sid _ :: es => (if decide (sid ∈ live) then 0 else 1) + accepted ({[sid]} ∪ live) es
  | Leave sid :: es => accepted (live ∖ {[sid]}) es
  end.

Definition chat_new : ChatServer :=
  mkChat ∅ ∅ ∅ ∅ (CLFFreeList_new [] false) lfq_empty false [].

Lemma chat_new_inv : chat_inv chat_new [] ∅.
Proof.
  split.
  - split; try done. constructor.
  - done.
  - intros sid l H. cbn in H. by rewrite lookup_empty in H.
  - intros x y l. split.
    + intros H. unfold sector_set in H. cbn in H. rewrite lookup_empty in H.
      by apply elem_of_empty in H.
    + intros (_ & sid & p & H & _). cbn in H. by rewrite lookup_empty in H.
Qed.

Lemma run_conns_ok es c L o :
  chat_inv c L o -> m_lMaxCount (playerPool c) + zlen es < POOL_LIMIT ->
  exists c' L' o', run_conns es c = Ok c' /\ chat_inv c' L' o' /\
    dom (players c') = live_after (dom (players c)) es /\
    GetUseCount (playerPool c') =
      GetUseCount (playerPool c) + accepted (dom (players c)) es.
Proof.
  revert c L o. induction es as [|[sid now|sid] es IH]; intros c L o Hi Hlim.
  - exists c, L, o. cbn. split_and!; (done || lia).
  - rewrite zlen_cons in Hlim. pose proof (zlen_nonneg es).
    destruct (JoinProc_ok c L o sid now Hi ltac:(lia)) as [Hnew Hold].
    cbn [run_conns OnClientJoin chat_app live_after accepted].
    destruct (players c !! sid) as [l|] eqn:Es.
    + destruct (Hold l eq_refl) as (c1 & L1 & -> & Hi1 & Hp1 & _ & _ & _ & Hu1 & Hm1).
      assert (Hin : sid ∈ dom (players c)) by (by apply elem_of_dom_2 in Es).
      cbn [mbind res_bind]. destruct (IH c1 L1 o Hi1 ltac:(lia)) as (c2 & L2 & o2 & -> & ? & Hd & Hu).
      exists c2, L2, o2. rewrite Hd, Hu, Hu1, Hp1, decide_True by done.
      replace ({[sid]} ∪ dom (players c)) with (dom (players c)) by set_solver.
      split_and!; (done || lia).
    + destruct (Hnew eq_refl) as (c1 & l & L1 & -> & Hi1 & _ & Hp1 & _ & _ & _ & Hu1 & Hm1).
      assert (Hin : sid ∉ dom (players c)) by (by apply not_elem_of_dom).
      cbn [mbind res_bind]. destruct (IH c1 L1 _ Hi1 ltac:(lia)) as (c2 & L2 & o2 & -> & ? & Hd & Hu).
      exists c2, L2, o2. rewrite Hd, Hu, Hu1, Hp1, dom_insert_L, decide_False by done.
      split_and!; (done || lia).
  - rewrite zlen_cons in Hlim. pose proof (zlen_nonneg es).
    cbn [run_conns OnClientLeave chat_app live_after accepted].
    destruct (players c !! sid) as [l|] eqn:Es.
    + destruct (ci_players _ _ _ Hi _ _ Es) as (_ & p & Hp & _).
      destruct (LeaveProc_ok c L o sid l p Hi Es Hp)
        as (c1 & lg & -> & Hi1 & Hp1 & _ & _ & _ & Hpool & _).
      cbn [mbind res_bind].
      destruct (IH c1 L o Hi1) as (c2 & L2 & o2 & -> & ? & Hd & Hu); [rewrite Hpool; lia|].
      exists c2, L2, o2. rewrite Hd, Hu, Hpool, Hp1, dom_delete_L. done.
    + destruct (LeaveProc_absent c sid Es) as (lg & -> & _). cbn [mbind res_bind].
      destruct (IH _ L o (chat_inv_log c L o lg Hi)) as (c2 & L2 & o2 & -> & ? & Hd & Hu);
        [cbn; lia|].
      exists c2, L2, o2. rewrite Hd, Hu. cbn [log_locks players playerPool].
      assert (Hin : sid ∉ dom (players c)) by (by apply not_elem_of_dom).
      replace (dom (players c) ∖ {[sid]}) with (dom (players c)) by set_solver. done.
Qed.

(** C18.  Joining.  A session that is not in the map gets a block no other session uses, reset
    (nowhere on the grid, not logged in, stamped with the current time), and the invariant
    is kept; a session already in the map gets nothing: its player, the sectors and the
    accounts are as they were and the block goes straight back to the pool. *)
Theorem JoinProc_spec c L o sid now :
  chat_inv c L o -> m_lMaxCount (playerPool c) < POOL_LIMIT ->
  (players c !! sid = None -> exists c' l L',
     JoinProc sid now c = Ok (c', true) /\ chat_inv c' L' ({[l]} ∪ o) /\ (l ∉ o) /\
     players c' = <[sid := l]> (players c) /\ objects c' = <[l := joined sid now]> (objects c) /\
     accounts c' = accounts c /\ sector c' = sector c /\
     GetUseCount (playerPool c') = GetUseCount (playerPool c) + 1) /\
  (forall l, players c !! sid = Some l -> exists c' L',
     JoinProc sid now c = Ok (c', false) /\ chat_inv c' L' o /\ players c' = players c /\
     accounts c' = accounts c /\ sector c' = sector c /\
     (forall l', l' ∈ o -> objects c' !! l' = objects c !! l') /\
     GetUseCount (playerPool c') = GetUseCount (playerPool c)).
Proof.
  intros Hi Hlim. destruct (JoinProc_ok c L o sid now Hi Hlim) as [Hnew Hold]. split.
  - intros Hs. destruct (Hnew Hs) as (c' & l & L' & H). exists c', l, L'. tauto.
  - intros l Hs. destruct (Hold l Hs) as (c' & L' & H). exists c', L'. tauto.
Qed.

(** C17.  Leaving.  The session is removed from the map, its player is marked as closing and
    is in no sector any more, and its account is forgotten unless another session has
    logged into it since; every other player, sector and account is as it was, and the
    invariant is kept.  But the player keeps the count it had before: the reference held by
    the map is never released, so the block stays in use. *)
Theorem LeaveProc_spec c L o sid l p :
  chat_inv c L o -> players c !! sid = Some l -> objects c !! l = Some p ->
  exists c', LeaveProc sid c = Ok (c', true) /\ chat_inv c' L o /\
    players c' = delete sid (players c) /\
    objects c' = <[l := set_closing p true]> (objects c) /\
    (forall x y l', l' ∈ sector_set c' x y <-> l' ∈ sector_set c x y /\ l' <> l) /\
    (forall a s, accounts c' !! a = Some s <-> accounts c !! a = Some s /\
       ~ (a = accountNo p /\ s = sid /\ a <> 0 /\ isLogined p <> 0)) /\
    GetUseCount (playerPool c') = GetUseCount (playerPool c).
Proof.
  intros Hi Hs Hp.
  destruct (LeaveProc_ok c L o sid l p Hi Hs Hp)
    as (c' & lg & E & Hi' & Hp' & Ho' & Hs' & Ha' & Hpool & _).
  exists c'. split_and!; try done; [| |by rewrite Hpool].
  - intros x y l'. rewrite Hs'. set_solver.
  - intros a s. rewrite Ha'. unfold accounts_after. case_decide as Hd.
    + rewrite lookup_delete_Some. naive_solver.
    + split; [|tauto]. intros H. split; [done|]. naive_solver.
Qed.

(** C19.  The life of the player pool.  After any sequence of joins and leaves the map holds
    exactly the sessions connected, each with its own live player, and the sectors only
    connected players; but the number of blocks in use is the number of sessions that ever
    joined: none of them comes back when its session leaves. *)
Theorem players_never_return es :
  zlen es < POOL_LIMIT ->
  exists c L o, run_conns es chat_new = Ok c /\ chat_inv c L o /\
    dom (players c) = live_after ∅ es /\ GetUseCount (playerPool c) = accepted ∅ es.
Proof.
  intros Hlim. destruct (run_conns_ok es chat_new [] ∅ chat_new_inv) as (c & L & o & E & H & Hd & Hu);
    [cbn; lia|]. exists c, L, o. change (dom (players chat_new)) with (∅ : gset Z) in *.
  split_and!; done.
Qed.
End Players.

(** ** Witnesses *)

Definition redis_list : LockfreeQueue st_Redis 65534 := list_queue st_Redis 65534.

Lemma JoinProc_spec_witness :
  exists c' l L', JoinProc (RQ := redis_list) 7 1000 chat_new = Ok (c', true) /\
    chat_inv c' L' ({[l]} ∪ ∅) /\ (l ∉ (∅ : gset loc)) /\
    players c' = <[7 := l]> ∅ /\ objects c' = <[l := joined 7 1000]> ∅ /\
    accounts c' = ∅ /\ sector c' = ∅ /\ GetUseCount (playerPool c') = 1.
Proof.
  apply (JoinProc_spec (RQ := redis_list) chat_new [] ∅ 7 1000 chat_new_inv);
    vm_compute; reflexivity.
Defined.

Lemma LeaveProc_spec_witness :
  exists c L o l p, chat_inv (RQ := redis_list) c L o /\ players c !! 7 = Some l /\
    objects c !! l = Some p /\
    exists c', LeaveProc 7 c = Ok (c', true) /\ chat_inv c' L o /\
      players c' = delete 7 (players c) /\
      objects c' = <[l := set_closing p true]> (objects c) /\
      (forall x y l', l' ∈ sector_set c' x y <-> l' ∈ sector_set c x y /\ l' <> l) /\
      (forall a s, accounts c' !! a = Some s <-> accounts c !! a = Some s /\
         ~ (a = accountNo p /\ s = 7 /\ a <> 0 /\ isLogined p <> 0)) /\
      GetUseCount (playerPool c') = GetUseCount (playerPool c).
Proof.
  destruct (run_conns_ok (RQ := redis_list) [Join 7 1000; Join 9 2000] chat_new [] ∅ chat_new_inv)
    as (c & L & o & E & Hi & _); [vm_compute; reflexivity|].
  vm_compute in E. injection E as E.
  assert (Hp : exists l, players c !! 7 = Some l) by (rewrite <- E; eexists; vm_compute; reflexivity).
  destruct Hp as [l Hl].
  assert (Ho : exists p, objects c !! l = Some p).
  { destruct (ci_players _ _ _ Hi _ _ Hl) as (_ & p & Hp & _). by exists p. }
  destruct Ho as [p Hp]. exists c, L, o, l, p.
  split; [exact Hi|]. split; [exact Hl|]. split; [exact Hp|].
  exact (LeaveProc_spec (RQ := redis_list) c L o 7 l p Hi Hl Hp).
Defined.

(** Three clients come and go one after the other: nobody is left, three blocks are in use. *)
Lemma players_never_return_witness :
  let es := [Join 1 10; Leave 1; Join 2 20; Leave 2; Join 3 30; Leave 3] in
  exists c L o, run_conns (RQ := redis_list) es chat_new = Ok c /\ chat_inv c L o /\
    dom (players c) = ∅ /\ GetUseCount (playerPool c) = 3.
Proof.
  destruct (players_never_return (RQ := redis_list)
    [Join 1 10; Leave 1; Join 2 20; Leave 2; Join 3 30; Leave 3]) as (c & L & o & E & Hi & Hd & Hu);
    [vm_compute; reflexivity|].
  exists c, L, o. split; [exact E|]. split; [exact Hi|]. split; [exact Hd|exact Hu].
Defined.
