(* ===== verification/Sends.v ===== *)
(** * Sending (theorems on the send path of [Iocp])

    [PostSend] takes up to a hundred packets off the session's queue, in order, and hands
    their headers and payloads to one [WSASend]; a second call while a send is in flight does
    nothing.  The packets of a session therefore reach the socket in the order in which they
    were queued, each as its encoded frame.  The end of a send is in [Sessions]. *)

From S2P Require Import Prelude RingBuffer Packet Codec FreeList World Iocp.

Section Sends.
Context {Q : LockfreeQueue loc 4096} {A : Type}.
Context {W : Windows} {R : Runtime} {App : ServerApp A}.

Implicit Types w : World A.

(** The packet [l] is ready to be sent as the frame [hdr ++ body]. *)
Definition ready w (l : loc) (f : list Z * list Z) : Prop :=
  exists p m, packets w !! l = Some p /\ m_cpHead p = Some m /\ zlen m = eBUFFER_DEFAULT /\
    0 <= m_iUsingSize p <= PAYLOAD_MAX /\
    f = (slice m (GetHeaderPtr p) MESSAGE_HEADER_LEN, slice m (Packet.GetBufferPtr p) (GetDataSize p)).

Definition wsabufs (fs : list (list Z * list Z)) : list (list Z) := fs ≫= (fun f => [f.1; f.2]).

Lemma wsabufs_cons f fs : wsabufs (f :: fs) = [f.1; f.2] ++ wsabufs fs.
Proof. done. Qed.

(** What the two queues become when [k] packets are moved from one to the other. *)
Record moved (s : Session) (k : Z) (s' : Session) : Prop := {
  mv_send : elems (sendBuf s') = drop (Z.to_nat k) (elems (sendBuf s));
  mv_complete : elems (completeSendBuf s') =
    elems (completeSendBuf s) ++ take (Z.to_nat k) (elems (sendBuf s));
  mv_rest : s' = set_completeSendBuf (set_sendBuf s (sendBuf s')) (completeSendBuf s')
}.

Lemma moved_refl s : moved s 0 s.
Proof. split; [done|by rewrite app_nil_r|by destruct s]. Qed.

Lemma moved_step s k l q s1 s' :
  0 <= k -> elems (sendBuf s) = l :: elems q ->
  sendBuf s1 = q -> elems (completeSendBuf s1) = elems (completeSendBuf s) ++ [l] ->
  s1 = set_completeSendBuf (set_sendBuf s q) (completeSendBuf s1) ->
  moved s1 k s' -> moved s (k + 1) s'.
Proof.
  intros Hk Hs Hq Hc H1 [M1 M2 M3]. split.
  - rewrite M1, Hq, Hs. replace (Z.to_nat (k + 1)) with (S (Z.to_nat k)) by lia. done.
  - rewrite M2, Hc, Hq, Hs. replace (Z.to_nat (k + 1)) with (S (Z.to_nat k)) by lia.
    cbn. by rewrite <- app_assoc.
  - rewrite M3, H1. done.
Qed.

(** Moving one packet. *)
Lemma gather_step n i w s l q f wBuf bufCount pktCount :
  at_slot i w s -> lfq_pop (sendBuf s) = Some (l, q) -> ready w l f ->
  (pktCount <? MAX_PACKETS) && (bufCount + 2 <=? MAX_BUFS) = true ->
  gather (S n) i wBuf bufCount pktCount w =
  gather n i (wBuf ++ [f.1; f.2]) (bufCount + 2) (pktCount + 1)
    (with_session w i (set_completeSendBuf (set_sendBuf s q)
       (lfq_push l (completeSendBuf s)).1)).
Proof.
  intros Hs Hpop (p & m & Hp & Hh & Hz & Hu & ->) Hc. cbn [gather]. rewrite Hc.
  rewrite (bind_run _ _ _ _ _ (session_run _ _ _ Hs)), Hpop.
  rewrite (bind_run _ _ _ _ _ (update_run _ _ _ _ Hs)).
  set (w1 := with_session w i (set_sendBuf s q)).
  assert (Hs1 : at_slot i w1 (set_sendBuf s q)) by (eapply at_slot_with; eassumption).
  rewrite (bind_run _ _ p _ w1) by (by apply packet_run).
  rewrite (bind_run _ _ m _ w1) by (apply lift_run; unfold head; by rewrite Hh).
  unfold GetHeaderPtr, Packet.GetBufferPtr, eBUFFER_HEADER_SIZE, MESSAGE_HEADER_LEN,
    GetDataSize, eBUFFER_DEFAULT, PAYLOAD_MAX in *.
  assert (Eu : u32 (m_iUsingSize p) = m_iUsingSize p) by (apply (wrap_u_id 32); lia).
  rewrite Eu.
  rewrite (bind_run _ _ (slice m 0 5) _ w1) by (apply lift_run, load_ok; lia).
  rewrite (bind_run _ _ (slice m 5 (m_iUsingSize p)) _ w1) by (apply lift_run, load_ok; lia).
  rewrite (bind_run _ _ _ _ _ (update_run _ _ _ _ Hs1)).
  unfold w1. by rewrite with_session_twice.
Qed.

Lemma gather_stop n i w s wBuf bufCount pktCount :
  at_slot i w s ->
  (pktCount <? MAX_PACKETS) && (bufCount + 2 <=? MAX_BUFS) = false \/
    lfq_pop (sendBuf s) = None ->
  gather (S n) i wBuf bufCount pktCount w = Ok ((wBuf, bufCount, pktCount), w).
Proof.
  intros Hs H. cbn [gather]. destruct (_ && _); [|done]. destruct H as [|Hp]; [done|].
  by rewrite (bind_run _ _ _ _ _ (session_run _ _ _ Hs)), Hp.
Qed.

Lemma ready_with w i s l f : ready (with_session w i s) l f <-> ready w l f.
Proof. done. Qed.

Lemma gather_ok n i w s fs wBuf k :
  at_slot i w s -> Forall2 (ready w) (elems (sendBuf s)) fs -> 0 <= k <= MAX_PACKETS ->
  zlen (elems (completeSendBuf s)) + (MAX_PACKETS - k) <= 4096 ->
  let j := Z.min (MAX_PACKETS - k) (zlen fs) in
  j < Z.of_nat n ->
  exists s', gather n i wBuf (2 * k) k w =
      Ok ((wBuf ++ wsabufs (take (Z.to_nat j) fs), 2 * (k + j), k + j), with_session w i s') /\
    moved s j s'.
Proof.
  revert w s fs wBuf k. induction n as [|n IH]; intros w s fs wBuf k Hs Hf Hk Hc j Hj.
  - pose proof (zlen_nonneg fs). lia.
  - assert (Ej : j = Z.min (MAX_PACKETS - k) (zlen fs)) by done. clearbody j.
    assert (Hstop : j = 0 -> exists s', gather (S n) i wBuf (2 * k) k w =
        Ok ((wBuf ++ wsabufs (take (Z.to_nat j) fs), 2 * (k + j), k + j), with_session w i s') /\
      moved s j s').
    { intros Ej0. exists s. rewrite Ej0, Z.add_0_r, (with_session_same w i s Hs).
      change (wsabufs (take (Z.to_nat 0) fs)) with (@nil (list Z)). rewrite app_nil_r. split; [|apply moved_refl]. rewrite (gather_stop n i w s); [done|done|].
      unfold MAX_PACKETS, MAX_BUFS in *.
      destruct (Z.ltb_spec k 100); [|by left]. right.
      destruct (lfq_pop (sendBuf s)) as [[l q]|] eqn:Ep; [|done].
      apply pop_cons in Ep. rewrite Ep in Hf. apply Forall2_cons_inv_l in Hf as (f & fs' & _ & _ & ->).
      rewrite zlen_cons in Ej. pose proof (zlen_nonneg fs'). lia. }
    destruct fs as [|f fs]; [apply Hstop; change (zlen []) with 0 in *; lia|].
    pose proof (zlen_nonneg fs). rewrite zlen_cons in Ej.
    destruct (Z.eq_dec k MAX_PACKETS) as [->|Hne]; [apply Hstop; lia|].
    destruct (lfq_pop (sendBuf s)) as [[l q]|] eqn:Ep.
    2: { apply pop_nil in Ep. rewrite Ep in Hf. by apply Forall2_nil_inv_l in Hf. }
    pose proof (pop_cons _ _ _ Ep) as Eq. rewrite Eq in Hf.
    apply list.Forall2_cons in Hf as [Hf Hfs].
    rewrite (gather_step n i w s l q f) by (done || (unfold MAX_PACKETS, MAX_BUFS in *; apply andb_true_iff; lia)).
    set (s1 := set_completeSendBuf _ _). set (w1 := with_session w i s1).
    assert (Hroom : (lfq_push l (completeSendBuf s)).2 = true).
    { apply push_room. unfold MAX_PACKETS in *. lia. }
    pose proof (push_true _ _ Hroom) as Epush.
    replace (2 * k + 2) with (2 * (k + 1)) by lia.
    destruct (IH w1 s1 fs (wBuf ++ [f.1; f.2]) (k + 1)) as (s' & E & Hm).
    + eapply at_slot_with; eassumption.
    + done.
    + lia.
    + cbn. rewrite Epush, zlen_app. change (zlen [l]) with 1. lia.
    + lia.
    + exists s'. rewrite E. unfold w1. rewrite with_session_twice.
      replace (Z.min (MAX_PACKETS - (k + 1)) (zlen fs)) with (j - 1) in * by lia.
      replace (Z.to_nat j) with (S (Z.to_nat (j - 1))) by lia. cbn [take].
      rewrite wsabufs_cons, app_assoc. replace (k + 1 + (j - 1)) with (k + j) by lia.
      split; [done|]. replace j with (j - 1 + 1) by lia.
      eapply moved_step; try eassumption; try done. lia.
Qed.

(** The state of a world after [PostSend] has posted the frames [fs] of session [s1]. *)
Definition posted w i s1 (k : Z) (bufs : list (list Z)) : World A :=
  set_clock
    (set_kernel
      (set_sent (with_session w i (set_ioCount (set_sendCount s1 k) (ioCount s1 + 1)))
                (sent w ++ [ESend (sock s1) bufs]))
      (kernel w ++ [PendingSend i bufs]))
    (S (clock w)).

Definition send_accepted (w : World A) : Prop :=
  WSASend_error (clock w) = None \/ WSASend_error (clock w) = Some WSA_IO_PENDING.

Section Post.
Context (w : World A) (i : Z) (s : Session) (fs : list (list Z * list Z)).
Context (Hs : at_slot i w s) (Hf : Forall2 (ready w) (elems (sendBuf s)) fs).
Context (Hio : 0 <= ioCount s < 1073741824).
Context (Hc : zlen (elems (completeSendBuf s)) + MAX_PACKETS <= 4096).

Lemma PostSend_busy : isSendFlag s <> 0 -> PostSend i w = Ok (false, w).
Proof.
  intros Hb. unfold PostSend. rewrite (bind_run _ _ _ _ _ (session_run _ _ _ Hs)).
  by destruct (Z.eqb_spec (isSendFlag s) 0).
Qed.

(** The common part: the flag is taken and the packets are moved. *)
Lemma PostSend_gathers :
  isSendFlag s = 0 ->
  let k := Z.min MAX_PACKETS (zlen fs) in
  exists s1, moved (set_isSendFlag s 1) k s1 /\ at_slot i (with_session w i s1) s1 /\
    PostSend i w =
      (if k =? 0 then
         update i (fun s => set_isSendFlag s 0);; mret false
       else
         update i (fun s => set_sendCount s k);;
         add_ioCount i 1;;
         s ← session i;
         t ← tick;
         match WSASend_error t with
         | Some e =>
             if e =? WSA_IO_PENDING then
               modify (fun w => set_kernel
                 (set_sent w (sent w ++ [ESend (sock s) (wsabufs (take (Z.to_nat k) fs))]))
                 (kernel w ++ [PendingSend i (wsabufs (take (Z.to_nat k) fs))]));;
               mret true
             else
               n ← add_ioCount i (-1);
               if n =? 0 then ReleaseSession i;; mret false else mret true
         | None =>
             modify (fun w => set_kernel
                 (set_sent w (sent w ++ [ESend (sock s) (wsabufs (take (Z.to_nat k) fs))]))
                 (kernel w ++ [PendingSend i (wsabufs (take (Z.to_nat k) fs))]));;
             mret true
         end : M A bool) (with_session w i s1).
Proof.
  intros Hflag k. unfold PostSend. rewrite (bind_run _ _ _ _ _ (session_run _ _ _ Hs)), Hflag.
  cbn [Z.eqb negb].
  rewrite (bind_run _ _ _ _ _ (put_session_run _ _ _ (set_isSendFlag s 1) Hs)).
  set (w0 := with_session w i (set_isSendFlag s 1)).
  assert (Hs0 : at_slot i w0 (set_isSendFlag s 1)) by (eapply at_slot_with; eassumption).
  destruct (gather_ok 101 i w0 (set_isSendFlag s 1) fs [] 0 Hs0 Hf) as (s1 & E & Hm).
  { unfold MAX_PACKETS. lia. }
  { cbn. unfold MAX_PACKETS in *. lia. }
  { unfold MAX_PACKETS. lia. }
  rewrite Z.sub_0_r, Z.mul_0_r, !Z.add_0_l in E. rewrite Z.sub_0_r in Hm. fold k in E, Hm.
  exists s1. split; [done|]. split; [eapply at_slot_with; eassumption|].
  unfold w0 in E. rewrite with_session_twice in E. rewrite (bind_run _ _ _ _ _ E).
  cbn [app]. done.
Qed.

Lemma PostSend_empty :
  isSendFlag s = 0 -> fs = [] ->
  exists s1, PostSend i w = Ok (false, with_session w i s1) /\ moved s 0 s1.
Proof.
  intros Hflag Ef. destruct (PostSend_gathers Hflag) as (s1 & [M1 M2 M3] & Hs1 & ->).
  assert (Ek : Z.min MAX_PACKETS (zlen fs) = 0) by (by rewrite Ef). rewrite Ek in *.
  cbn [Z.eqb].
  rewrite (bind_run _ _ _ _ _ (update_run _ _ _ _ Hs1)), with_session_twice.
  eexists. split; [reflexivity|]. split; cbn; try done.
  rewrite M3. destruct s; cbn in *. by subst.
Qed.

Lemma PostSend_sends :
  isSendFlag s = 0 -> fs <> [] -> send_accepted w ->
  let k := Z.min MAX_PACKETS (zlen fs) in
  exists s1, moved (set_isSendFlag s 1) k s1 /\
    PostSend i w = Ok (true, posted w i s1 k (wsabufs (take (Z.to_nat k) fs))).
Proof.
  intros Hflag Hne Hacc k. destruct (PostSend_gathers Hflag) as (s1 & Hm & Hs1 & ->).
  fold k in Hm |- *. exists s1. split; [done|].
  assert (Hk : 0 < k).
  { destruct fs as [|f fs']; [done|]. unfold k. rewrite zlen_cons.
    pose proof (zlen_nonneg fs'). unfold MAX_PACKETS. lia. }
  destruct (Z.eqb_spec k 0); [lia|].
  rewrite (bind_run _ _ _ _ _ (update_run _ _ _ _ Hs1)), with_session_twice.
  set (s2 := set_sendCount s1 k).
  assert (Hs2 : at_slot i (with_session w i s2) s2) by (eapply at_slot_with; eassumption).
  assert (Hio1 : ioCount s1 = ioCount s) by (rewrite (mv_rest _ _ _ Hm); done).
  rewrite (bind_run _ _ _ _ _ (add_ioCount_run _ _ _ 1 (ioCount s1 + 1) Hs2
    ltac:(cbn; apply i32_id; lia))), with_session_twice.
  set (s3 := set_ioCount s2 _). set (w3 := with_session w i s3).
  assert (Hs3 : at_slot i w3 s3) by (eapply at_slot_with; eassumption).
  rewrite (bind_run _ _ _ _ _ (session_run _ _ _ Hs3)).
  rewrite (bind_run _ _ (clock w) _ (set_clock w3 (S (clock w)))) by done.
  destruct Hacc as [-> | ->]; done.
Qed.
End Post.

(** C14.  [PostSend].  With a send in flight it changes nothing.  Otherwise, with the queue
    empty it returns false and sends nothing; with packets in the queue and the socket
    accepting the send, it posts one send of the header and payload of the first hundred
    packets at most, in the order of the queue, keeps those packets for the completion and
    counts one operation in flight. *)
Theorem PostSend_spec w i s fs :
  at_slot i w s -> Forall2 (ready w) (elems (sendBuf s)) fs ->
  0 <= ioCount s < 1073741824 -> zlen (elems (completeSendBuf s)) + MAX_PACKETS <= 4096 ->
  (isSendFlag s <> 0 -> PostSend i w = Ok (false, w)) /\
  (isSendFlag s = 0 -> fs = [] ->
     exists s1, PostSend i w = Ok (false, with_session w i s1) /\ moved s 0 s1) /\
  (isSendFlag s = 0 -> fs <> [] -> send_accepted w ->
     let k := Z.min MAX_PACKETS (zlen fs) in
     exists s1, moved (set_isSendFlag s 1) k s1 /\
       PostSend i w = Ok (true, posted w i s1 k (wsabufs (take (Z.to_nat k) fs)))).
Proof.
  intros Hs Hf Hio Hc.
  split_and!; eauto using PostSend_busy, PostSend_empty, PostSend_sends.
Qed.
End Sends.

(** ** Witness: one slot, two packets queued *)

Definition two_queued : Session (Q := queue4096) :=
  mkSession (Q := queue4096) (Some 5) (COMBINE_ID_INDEX 1 0) 0 0 0 0 1
    [1%positive; 2%positive] [] CRingBuffer_default 0.

Definition sending_world : World (Q := queue4096) unit :=
  mkWorld [two_queued] [] 1 1 1 0 0 1 1
    {[1%positive := sample_packet; 2%positive := sample_packet]}
    (CLFFreeList_new [] false) tt [PendingRecv 0 []] [] 0.

Definition sample_frame : list Z * list Z :=
  match m_cpHead sample_packet with
  | Some m => (slice m 0 5, slice m 5 (m_iUsingSize sample_packet))
  | None => ([], [])
  end.

Lemma PostSend_spec_witness :
  exists s1, moved (Q := queue4096) (set_isSendFlag two_queued 1) 2 s1 /\
    PostSend (Q := queue4096) (W := accepting_windows) (App := silent_app)
      0 sending_world
    = Ok (true, posted sending_world 0 s1 2 (wsabufs [sample_frame; sample_frame])).
Proof.
  assert (Hr : forall l, l ∈ [1%positive; 2%positive] -> ready sending_world l sample_frame).
  { intros l Hl. exists sample_packet. eexists. split; [|split; [reflexivity|]].
    - repeat (apply elem_of_cons in Hl as [-> | Hl]; [reflexivity|]). by apply elem_of_nil in Hl.
    - split; [vm_compute; reflexivity|]. split; [vm_compute; split; discriminate|reflexivity]. }
  assert (Hf : Forall2 (ready sending_world) (elems (sendBuf two_queued))
                 [sample_frame; sample_frame]).
  { apply Forall2_cons_2; [|apply Forall2_cons_2; [|apply Forall2_nil_2]];
      apply Hr; rewrite !elem_of_cons; auto. }
  assert (Hs : at_slot 0 sending_world two_queued).
  { split; [vm_compute; split; [discriminate|reflexivity]|reflexivity]. }
  apply (PostSend_spec (Q := queue4096) (W := accepting_windows)
    (App := silent_app) sending_world 0 two_queued [sample_frame; sample_frame] Hs Hf).
  - cbn. lia.
  - vm_compute. discriminate.
  - reflexivity.
  - discriminate.
  - left. reflexivity.
Defined.
