(* ===== verification/Receive.v ===== *)
(** * Receiving (theorems on the receive path of [Iocp])

    [PostRecv] offers the kernel exactly the free part of the ring, and what the kernel writes
    there is appended to the ring's contents.  One turn of [recv_loop] then takes one frame
    off the ring, decodes it into a cleared packet and calls the handler; a frame that is not
    complete is left alone, and frames no client should send are described as well.  The
    stream as a whole is the subject of [Stream]. *)

From S2P Require Import Prelude RingBuffer Packet Codec FreeList Message World PacketHeap Iocp.

(** ** The posted buffers *)

Lemma drop_slice (bs : list Z) n : 0 <= n <= zlen bs -> drop (Z.to_nat n) bs = slice bs n (zlen bs - n).
Proof.
  intros Hn. unfold slice. rewrite take_ge; [done|]. rewrite length_drop. unfold zlen. lia.
Qed.

Lemma scatter_one d p n bs :
  0 <= p -> 0 <= n -> p + n <= zlen d -> zlen bs <= n ->
  scatter d [(p, n)] bs = Ok (ring_put d p bs).
Proof.
  intros Hp Hn Hfit Hbs. pose proof (zlen_nonneg bs). cbn [scatter].
  rewrite take_ge by (unfold zlen in *; lia). rewrite store_ok by lia. cbn [mbind res_bind].
  unfold ring_put. destruct (Z.leb_spec (p + zlen bs) (zlen d)); [done|lia].
Qed.

Lemma scatter_two d p n k bs :
  0 <= p < zlen d -> 0 <= n -> 0 <= k -> n = zlen d - p -> k <= p -> zlen bs <= n + k ->
  scatter d [(p, n); (0, k)] bs = Ok (ring_put d p bs).
Proof.
  intros Hp Hn Hk En Hkp Hbs. pose proof (zlen_nonneg bs). cbn [scatter].
  destruct (Z.le_gt_cases (zlen bs) n).
  - rewrite (take_ge bs), (drop_ge bs), take_nil by (unfold zlen in *; lia).
    assert (Hz : zlen (splice d p bs) = zlen d) by (apply zlen_splice; lia).
    rewrite store_ok by lia. cbn [mbind res_bind].
    rewrite store_ok by (change (zlen []) with 0; lia). cbn [mbind res_bind].
    rewrite splice_nil by lia.
    unfold ring_put. destruct (Z.leb_spec (p + zlen bs) (zlen d)); [done|lia].
  - rewrite (take_slice bs), (drop_slice bs) by lia.
    assert (Hz0 : zlen (slice bs 0 n) = n) by (apply zlen_slice; lia).
    rewrite store_ok by lia. cbn [mbind res_bind].
    assert (Hz : zlen (slice bs n (zlen bs - n)) = zlen bs - n) by (apply zlen_slice; lia).
    rewrite take_ge by (unfold zlen in *; lia).
    assert (Hz' : zlen (splice d p (slice bs 0 n)) = zlen d).
    { apply zlen_splice; rewrite ?zlen_slice; lia. }
    rewrite store_ok by lia. cbn [mbind res_bind].
    unfold ring_put. destruct (Z.leb_spec (p + zlen bs) (zlen d)); [lia|]. by subst n.
Qed.

Section Posted.
Context (rb : CRingBuffer) (Hwf : RingBuffer.wf rb).

(** One piece when the free part does not go round the end, two when it does. *)
Lemma recv_bufs_pieces :
  let free := capacity rb - used rb in
  let tail := iBufSize rb - iRearPos rb in
  recv_bufs rb = if tail <? free then [(iRearPos rb, tail); (0, free - tail)]
                 else [(iRearPos rb, free)].
Proof.
  intros free tail. pose proof (used_range rb Hwf). pose proof Hwf as [Hs Hfr Hr Hz _].
  unfold capacity in *. unfold recv_bufs, GetRearBufferPtr, RingBuffer.GetBufferPtr.
  rewrite (DirectEnqueueSize_ok rb Hwf), (GetFreeSize_free rb Hwf).
  unfold capacity. fold free tail.
  assert (E0 : u32 (Z.min free tail) = Z.min free tail) by (apply (wrap_u_id 32); lia).
  rewrite E0. destruct (Z.ltb_spec (Z.min free tail) free), (Z.ltb_spec tail free); try lia.
  - replace (Z.min free tail) with tail in * by lia. repeat f_equal. apply (wrap_u_id 32); lia.
  - by replace (Z.min free tail) with free by lia.
Qed.

Lemma scatter_free bs :
  zlen bs <= RingBuffer.GetFreeSize rb ->
  scatter (data rb) (recv_bufs rb) bs = Ok (ring_put (data rb) (iRearPos rb) bs).
Proof.
  rewrite (GetFreeSize_free rb Hwf), recv_bufs_pieces. intros Hbs.
  pose proof (used_range rb Hwf). pose proof Hwf as [Hs Hfr Hr Hz _]. unfold capacity in *.
  destruct (Z.ltb_spec (iBufSize rb - iRearPos rb) (iBufSize rb - 1 - used rb)).
  - apply scatter_two; lia.
  - apply scatter_one; lia.
Qed.
End Posted.

(** The buffers of a posted receive are one or two pieces of the ring, in order, whose
    total length is the free size; bytes written into them in order by the kernel are exactly
    the bytes of the ring behind its contents. *)
Theorem recv_bufs_spec rb bs :
  RingBuffer.wf rb -> zlen bs <= RingBuffer.GetFreeSize rb ->
  sumz snd (recv_bufs rb) = RingBuffer.GetFreeSize rb /\
  (forall off n, (off, n) ∈ recv_bufs rb -> 0 <= off /\ 0 <= n /\ off + n <= zlen (data rb)) /\
  scatter (data rb) (recv_bufs rb) bs = Ok (ring_put (data rb) (iRearPos rb) bs).
Proof.
  intros Hwf Hbs. split_and!; [| |by apply scatter_free];
    rewrite (recv_bufs_pieces rb Hwf), ?(GetFreeSize_free rb Hwf);
    pose proof (used_range rb Hwf); pose proof Hwf as [Hs Hfr Hr Hz _]; unfold capacity in *;
    destruct (Z.ltb_spec (iBufSize rb - iRearPos rb) (iBufSize rb - 1 - used rb)).
  - cbn. lia.
  - cbn. lia.
  - intros off n Hin. apply elem_of_cons in Hin as [[= -> ->]|Hin]; [lia|].
    apply list_elem_of_singleton in Hin as [= -> ->]. lia.
  - intros off n Hin. apply list_elem_of_singleton in Hin as [= -> ->]. lia.
Qed.

(** Seven bytes in a ring of eight of which three are in use, from position 6 on. *)
Lemma recv_bufs_spec_witness :
  let rb := mkRing 3 6 8 [0; 1; 2; 3; 4; 5; 6; 7] in
  recv_bufs rb = [(6, 2); (0, 2)] /\
  scatter (data rb) (recv_bufs rb) [71; 72; 73] = Ok [73; 1; 2; 3; 4; 5; 71; 72].
Proof.
  intros rb. split; [reflexivity|].
  assert (Hwf : RingBuffer.wf rb).
  { split; cbn; try lia; [reflexivity|]. repeat constructor; lia. }
  destruct (recv_bufs_spec rb [71; 72; 73] Hwf) as (_ & _ & E); [vm_compute; discriminate|].
  rewrite E. reflexivity.
Defined.

(** ** Frames *)

(** [f] is the frame of the message [msg], for some random key. *)
Definition frame_of (msg f : list Z) : Prop :=
  exists key, 0 <= key < 256 /\ bytes_ok msg /\ 0 < zlen msg <= PAYLOAD_MAX /\
    f = header_bytes (mkHeader PACKET_CODE (zlen msg) key (sum_list msg mod 256)) ++
        enc_list key 0 0 0 msg.

Lemma frame_length msg f : frame_of msg f -> zlen f = MESSAGE_HEADER_LEN + zlen msg.
Proof. intros (key & _ & _ & _ & ->). rewrite zlen_app, zlen_enc. done. Qed.

(** Not enough of a frame to do anything with. *)
Definition incomplete (q : list Z) : Prop :=
  zlen q < MESSAGE_HEADER_LEN \/
  (nthz q 0 = PACKET_CODE /\ len (header_of_bytes q) <> 0 /\
   zlen q < MESSAGE_HEADER_LEN + len (header_of_bytes q)).

Lemma header_of_prefix q : 
  MESSAGE_HEADER_LEN <= zlen q ->
  header_of_bytes (take (Z.to_nat MESSAGE_HEADER_LEN) q) = header_of_bytes q.
Proof.
  intros Hq. unfold MESSAGE_HEADER_LEN in *. rewrite take_slice. unfold header_of_bytes.
  by rewrite !nthz_of_slice by lia.
Qed.

Lemma header_of_frame msg f rest :
  frame_of msg f ->
  code (header_of_bytes (f ++ rest)) = PACKET_CODE /\
  len (header_of_bytes (f ++ rest)) = zlen msg.
Proof.
  intros (key & Hk & Hb & Hz & ->). rewrite <- app_assoc.
  set (h := header_bytes _). assert (Hh : zlen h = 5) by done.
  unfold header_of_bytes. cbn [code len]. rewrite !(nthz_app_l h) by lia. split; [done|].
  change (nthz h 1) with (zlen msg mod 256). change (nthz h 2) with (zlen msg / 256).
  pose proof (Z.div_mod (zlen msg) 256 ltac:(lia)). lia.
Qed.

(** *** A frame in a cleared packet *)

Lemma load_header p m hdr :
  cleared p m -> zlen hdr = MESSAGE_HEADER_LEN ->
  SetMessageHeader p hdr MESSAGE_HEADER_LEN = Ok (with_head p (m_iMaxSize p) (splice m 0 hdr)).
Proof.
  intros [Hw F B E] Hzh. pose proof Hw as [Hh Hm Hlen Hby Hf Hu Ho Hr]. packet_unfold.
  unfold SetMessageHeader. rewrite (head_ok p m Hw). cbn [mbind res_bind].
  rewrite memcpy_ok by lia. cbn [mbind res_bind]. do 2 f_equal.
  rewrite <- Hzh. by rewrite slice_all.
Qed.

Lemma load_frame p m hdr body :
  cleared p m -> bytes_ok hdr -> zlen hdr = MESSAGE_HEADER_LEN -> bytes_ok body ->
  zlen body <= PAYLOAD_MAX -> 0 < zlen body ->
  let m2 := splice (splice m 0 hdr) (Packet.GetBufferPtr p) body in
  let p1 := with_head p (m_iMaxSize p) (splice m 0 hdr) in
  exists p3, MoveWritePos (with_head p1 (m_iMaxSize p1) m2) (zlen body) = (p3, zlen body) /\
    wf p3 m2 /\ m_iFront p3 = 0 /\ payload p3 m2 = body /\
    (forall i, 0 <= i < MESSAGE_HEADER_LEN -> nthz m2 i = nthz hdr i) /\
    m_lRefCount p3 = m_lRefCount p.
Proof.
  intros [Hw F B E] Hbh Hzh Hbb Hmax Hpos m2 p1. pose proof Hw as [Hh Hm Hlen Hby Hf Hu Ho Hr].
  packet_unfold.
  assert (Hz1 : zlen (splice m 0 hdr) = 512) by (rewrite zlen_splice; lia).
  assert (Hz2 : zlen m2 = 512) by (subst m2; rewrite zlen_splice; lia).
  unfold MoveWritePos, Packet.GetFreeSize. cbn. rewrite Hm, Hu, F, B. unwrap.
  destruct (Z.leb_spec (zlen body) 0); [lia|]. rewrite Z.gtb_ltb.
  destruct (Z.ltb_spec (512 - (0 - 0)) (zlen body)); [lia|]. unwrap.
  eexists. split; [reflexivity|]. split; [|split; [|split; [|split]]].
  - split; cbn; packet_unfold; try (done || lia). subst m2. auto.
  - done.
  - unfold payload. cbn. packet_unfold. subst m2. rewrite Z.sub_0_r, Z.add_0_r, Z.add_0_l.
    apply slice_splice_same; lia.
  - intros i Hi. subst m2. rewrite nthz_splice_out by lia.
    rewrite nthz_splice_in by lia. f_equal. lia.
  - done.
Qed.

(** Decoding what [frame_of] encodes. *)
Lemma decode_frame p3 m2 msg key :
  wf p3 m2 -> m_iFront p3 = 0 -> bytes_ok msg -> 0 < zlen msg <= PAYLOAD_MAX ->
  payload p3 m2 = enc_list key 0 0 0 msg ->
  (forall i, 0 <= i < MESSAGE_HEADER_LEN -> nthz m2 i =
     nthz (header_bytes (mkHeader PACKET_CODE (zlen msg) key (sum_list msg mod 256))) i) ->
  exists p4 m4, SetDecodingCode p3 = Ok (p4, true) /\ wf p4 m4 /\ payload p4 m4 = msg /\
    m_iFront p4 = 0 /\ m_lRefCount p4 = m_lRefCount p3.
Proof.
  intros Hw F Hb Hz Hp Hn. unfold MESSAGE_HEADER_LEN in Hn.
  destruct (SetDecodingCode_accepts p3 m2 Hw F) as (p4 & m4 & [Hw4 Hp4 Hf4 _ _ Hr4] & E).
  { by rewrite Hn by lia. }
  rewrite Hn, Hp, dec_enc in Hp4 by lia.
  exists p4, m4. split; [|done]. rewrite E, Hn, Hp4 by lia. do 2 f_equal. apply Z.eqb_refl.
Qed.

Section Receive.
Context {Q : LockfreeQueue loc 4096} {A : Type}.
Context {W : Windows} {R : Runtime} {App : ServerApp A}.

Implicit Types w : World A.

Lemma with_ring_run {B} i w s (f : CRingBuffer -> res (CRingBuffer * B)) rb b :
  at_slot i w s -> f (recvBuf s) = Ok (rb, b) ->
  with_ring i f w = Ok (b, with_session w i (set_recvBuf s rb)).
Proof.
  intros Hs Hf. unfold with_ring. rewrite (bind_run _ _ _ _ _ (session_run _ _ _ Hs)).
  rewrite (bind_run _ _ (rb, b) _ w) by (by apply lift_run).
  by rewrite (bind_run _ _ _ _ _ (update_run _ _ _ _ Hs)).
Qed.

Lemma on_packet_run {B} l w p (f : CPacket -> res (CPacket * B)) p' b :
  packets w !! l = Some p -> f p = Ok (p', b) ->
  on_packet l f w = Ok (b, set_packets w (<[l := p']> (packets w)) (pktPool w)).
Proof.
  intros Hl Hf. unfold on_packet. rewrite (bind_run _ _ p _ w) by (by apply packet_run).
  by rewrite (bind_run _ _ (p', b) _ w) by (by apply lift_run).
Qed.

Lemma on_packet__run l w p f p' :
  packets w !! l = Some p -> f p = Ok p' ->
  on_packet_ l f w = Ok (tt, set_packets w (<[l := p']> (packets w)) (pktPool w)).
Proof.
  intros Hl Hf. unfold on_packet_. rewrite (bind_run _ _ p _ w) by (by apply packet_run).
  by rewrite (bind_run _ _ p' _ w) by (by apply lift_run).
Qed.

Lemma set_packets_twice w m1 p1 m2 p2 :
  set_packets (set_packets w m1 p1) m2 p2 = set_packets w m2 p2.
Proof. done. Qed.

(** *** Taking one frame off the ring *)

(** The world after the header and body of a frame have been moved into packet [l]. *)
Section Frame.
Context (Hmalloc : exists m, malloc eBUFFER_DEFAULT = Some m).
Context (i : Z) (w : World A) (s : Session) (o : gset loc).
Context (Hs : at_slot i w s) (Hwf : RingBuffer.wf (recvBuf s)) (Hinv : pkt_inv w o).
Context (Hlim : m_lMaxCount (pktPool w) < POOL_LIMIT).

Lemma qsize : GetUseSize (recvBuf s) = zlen (contents (recvBuf s)) /\
  0 <= zlen (contents (recvBuf s)) < 1073741824.
Proof.
  rewrite (GetUseSize_used _ Hwf), (zlen_contents _ Hwf). pose proof (used_range _ Hwf).
  destruct Hwf. unfold capacity in *. lia.
Qed.

Lemma peek_header :
  MESSAGE_HEADER_LEN <= zlen (contents (recvBuf s)) ->
  Peek (recvBuf s) (replicate 5 0) 0 MESSAGE_HEADER_LEN =
    Ok (take (Z.to_nat MESSAGE_HEADER_LEN) (contents (recvBuf s)), MESSAGE_HEADER_LEN).
Proof.
  intros Hq. pose proof (zlen_contents _ Hwf) as Hz. unfold MESSAGE_HEADER_LEN in *.
  pose proof (Peek_ok (recvBuf s) (replicate 5 0) 0 5 Hwf) as Hp. cbn zeta in Hp.
  rewrite Z.min_r in Hp by lia. rewrite Hp; [|lia|lia|done].
  rewrite splice_all; [done|]. rewrite take_slice, zlen_slice by lia. done.
Qed.

(** Nothing to do: less than a header, or a header whose body is not there yet. *)
Lemma recv_loop_waits OnRecv n :
  incomplete (contents (recvBuf s)) -> recv_loop OnRecv (S n) i w = Ok (true, w).
Proof.
  intros Hinc. destruct qsize as [Eq Hq]. cbn [recv_loop].
  rewrite (bind_run _ _ _ _ _ (session_run _ _ _ Hs)). cbv zeta. rewrite Eq.
  rewrite u64_id by lia. rewrite Z.gtb_ltb.
  destruct (Z.ltb_spec (zlen (contents (recvBuf s))) MESSAGE_HEADER_LEN) as [|Hge]; [done|].
  destruct Hinc as [|(Hc & Hl & Hshort)]; [lia|].
  rewrite (bind_run _ _ _ _ _ (lift_run _ _ _ (peek_header Hge))).
  rewrite header_of_prefix by done.
  assert (Ec : code (header_of_bytes (contents (recvBuf s))) = PACKET_CODE) by done.
  rewrite Ec, Z.eqb_refl. cbn [negb].
  destruct (Z.eqb_spec (len (header_of_bytes (contents (recvBuf s)))) 0); [done|].
  rewrite Z.gtb_ltb. destruct (Z.ltb_spec (zlen (contents (recvBuf s)))
    (MESSAGE_HEADER_LEN + len (header_of_bytes (contents (recvBuf s))))); [done|lia].
Qed.

(** What a turn of the loop does once the header is in packet [l], whose block is [m]. *)
Definition take_body (OnRecv : Z -> loc -> M A unit) (n : nat) (l : loc) (p : CPacket)
    (m : list Z) (k : Z) : M A bool :=
  '(m, got) ← with_ring i (fun rb =>
     '(rb, m, got) ← Dequeue rb m (Packet.GetBufferPtr p) k;
     Ok (rb, (m, got)));
  put_packet l (with_head p (m_iMaxSize p) m);;
  if negb (k =? got) then DisConnect i;; mret false
  else
    on_packet l (fun p => Ok (MoveWritePos p k));;
    ok ← on_packet l SetDecodingCode;
    if negb (ok : bool) then CPacket_SubRef l;; DisConnect i;; mret false
    else
      bump_recvTPS;;
      s ← session i;
      OnRecv (sessionID s) l;;
      CPacket_SubRef l;;
      recv_loop OnRecv n i.

(** The world when the header of a complete frame has been taken off. *)
Record has_header (w4 : World A) (rb : CRingBuffer) (l : loc) (p : CPacket) (m : list Z) : Prop := {
  hh_slot : at_slot i w4 (set_recvBuf s rb);
  hh_ring : RingBuffer.wf rb;
  hh_size : iBufSize rb = iBufSize (recvBuf s);
  hh_bytes : contents rb = drop (Z.to_nat 5) (contents (recvBuf s));
  hh_packet : packets w4 !! l =
    Some (with_head p (m_iMaxSize p) (splice m 0 (take (Z.to_nat 5) (contents (recvBuf s)))));
  hh_cleared : cleared p m;
  hh_ref : m_lRefCount p = 1;
  hh_new : l ∉ o;
  hh_inv : pkt_inv w4 ({[l]} ∪ o);
  hh_app : app w4 = app w;
  hh_max : m_lMaxCount (pktPool w4) <= m_lMaxCount (pktPool w) + 1
}.

Lemma recv_loop_header OnRecv n :
  let q := contents (recvBuf s) in
  let k := len (header_of_bytes q) in
  code (header_of_bytes q) = PACKET_CODE -> k <> 0 -> 0 <= k ->
  MESSAGE_HEADER_LEN + k <= zlen q ->
  exists w4 rb l p m, has_header w4 rb l p m /\
    recv_loop OnRecv (S n) i w =
      take_body OnRecv n l (with_head p (m_iMaxSize p) (splice m 0 (take (Z.to_nat 5) q)))
        (splice m 0 (take (Z.to_nat 5) q)) k w4.
Proof.
  intros q k Hcode Hk Hk0 Hq. destruct qsize as [Eq Hqr]. fold q in Eq, Hqr.
  unfold MESSAGE_HEADER_LEN in *.
  cbn [recv_loop]. rewrite (bind_run _ _ _ _ _ (session_run _ _ _ Hs)). cbv zeta. rewrite Eq.
  rewrite u64_id by lia. rewrite Z.gtb_ltb.
  destruct (Z.ltb_spec (zlen q) MESSAGE_HEADER_LEN) as [|Hge]; unfold MESSAGE_HEADER_LEN in *; [lia|].
  rewrite (bind_run _ _ _ _ _ (lift_run _ _ _ (peek_header Hge))). fold q.
  rewrite header_of_prefix by done. unfold MESSAGE_HEADER_LEN in *.
  rewrite Hcode, Z.eqb_refl. fold k. cbn [negb]. destruct (Z.eqb_spec k 0); [lia|].
  rewrite Z.gtb_ltb. destruct (Z.ltb_spec (zlen q) (5 + k)); [lia|].
  set (hdr := take (Z.to_nat 5) q).
  (* the header leaves the ring *)
  destruct (MoveFront_ok (recvBuf s) 5 Hwf ltac:(lia)) as (rb1 & Emf & Erb1 & Hwf1 & Hc1).
  rewrite (bind_run _ _ _ _ _ (with_ring_run i w s _ _ _ Hs Emf)).
  set (w1 := with_session w i (set_recvBuf s rb1)).
  assert (Hs1 : at_slot i w1 (set_recvBuf s rb1)) by (eapply at_slot_with; eassumption).
  assert (Hinv1 : pkt_inv w1 o) by (by eapply pkt_inv_same).
  (* a packet is allocated, cleared, and given the header *)
  destruct (CPacket_Alloc_ok w1 o Hmalloc Hinv1 Hlim)
    as (l & p0 & m0 & pool' & Ea & Hc0 & Hr0 & Hlo & Hinv2 & Hmax).
  rewrite (bind_run _ _ _ _ _ Ea). set (w2 := set_packets w1 _ pool') in *.
  assert (Hl2 : packets w2 !! l = Some p0) by apply lookup_insert_eq.
  destruct (Clear_cleared p0) as (p1 & m1 & Ec & Hc2 & Hr1); [eapply wf_shape, Hc0|].
  rewrite (bind_run _ _ _ _ _ (on_packet__run l w2 p0 Clear p1 Hl2 Ec)).
  set (w3 := set_packets w2 _ _).
  assert (Hl3 : packets w3 !! l = Some p1) by apply lookup_insert_eq.
  assert (Hzh : zlen hdr = 5) by (unfold hdr; rewrite take_slice, zlen_slice; lia).
  rewrite (bind_run _ _ _ _ _ (on_packet__run l w3 p1 _ _ Hl3 (load_header p1 m1 hdr Hc2 Hzh))).
  set (w4 := set_packets w3 _ _).
  assert (Hl4 : packets w4 !! l = Some (with_head p1 (m_iMaxSize p1) (splice m1 0 hdr)))
    by apply lookup_insert_eq.
  rewrite (bind_run _ _ _ _ _ (packet_run _ _ _ Hl4)).
  rewrite (bind_run _ _ (splice m1 0 hdr) _ w4) by (by apply lift_run, head_with_head).
  exists w4, rb1, l, p1, m1. split; [|reflexivity].
  split; try done; [by rewrite Erb1|congruence|].
  eapply pkt_inv_same;
    [eapply (pkt_inv_put w2 _ l p0 (with_head p1 (m_iMaxSize p1) (splice m1 0 hdr)) Hinv2 Hl2)|..].
  - destruct (cl_wf _ _ Hc2) as [Hh Hm Hlen Hby _ _ _ _]. exists (splice m1 0 hdr).
    unfold eBUFFER_DEFAULT in *. split_and!; try done; [rewrite zlen_splice; lia|].
    apply bytes_ok_splice; [done|]. unfold hdr. apply Forall_take. apply (bytes_ok_contents _ Hwf).
  - cbn. congruence.
  - subst w4 w3. cbn. by rewrite !insert_insert_eq.
  - done.
Qed.

(** What holds when the handler is called on a complete frame. *)
Record delivered (msg rest : list Z) (w1 : World A) (s1 : Session) (l : loc)
    (p : CPacket) (m : list Z) : Prop := {
  dl_slot : at_slot i w1 s1;
  dl_session : s1 = set_recvBuf s (recvBuf s1);
  dl_ring : RingBuffer.wf (recvBuf s1);
  dl_size : iBufSize (recvBuf s1) = iBufSize (recvBuf s);
  dl_rest : contents (recvBuf s1) = rest;
  dl_packet : packets w1 !! l = Some p;
  dl_wf : wf p m;
  dl_payload : payload p m = msg;
  dl_ref : m_lRefCount p = 1;
  dl_new : l ∉ o;
  dl_inv : pkt_inv w1 ({[l]} ∪ o);
  dl_app : app w1 = app w;
  dl_max : m_lMaxCount (pktPool w1) <= m_lMaxCount (pktPool w) + 1
}.

(** The body at the front of the ring goes behind the header, whole. *)
Lemma dequeue_body rb m body rest :
  RingBuffer.wf rb -> contents rb = body ++ rest -> zlen m = eBUFFER_DEFAULT ->
  zlen body <= PAYLOAD_MAX ->
  exists rb', Dequeue rb m 5 (zlen body) = Ok (rb', splice m 5 body, zlen body) /\
    iBufSize rb' = iBufSize rb /\ RingBuffer.wf rb' /\ contents rb' = rest.
Proof.
  intros Hw Hc Hm Hb. pose proof (zlen_nonneg body). pose proof (zlen_nonneg rest).
  unfold eBUFFER_DEFAULT, PAYLOAD_MAX in *.
  assert (Hu : used rb = zlen body + zlen rest) by (by rewrite <- (zlen_contents _ Hw), Hc, zlen_app).
  destruct (Dequeue_ok rb m 5 (zlen body) Hw) as (rb' & E & Hsz & Hwf' & Hc'); [lia|lia|lia|].
  exists rb'. rewrite Z.min_r in E by lia. rewrite E, Hc', Hc.
  rewrite take_app_length', drop_app_length' by (unfold zlen in *; lia). done.
Qed.

(** The rest of the turn, for the frame of [msg]: the packet is filled and decoded. *)
Lemma take_body_ok OnRecv n w4 rb1 l p1 m1 key msg rest O :
  let h := mkHeader PACKET_CODE (zlen msg) key (sum_list msg mod 256) in
  let m1h := splice m1 0 (header_bytes h) in
  let p1h := with_head p1 (m_iMaxSize p1) m1h in
  0 <= key < 256 -> bytes_ok msg -> 0 < zlen msg <= PAYLOAD_MAX -> bytes_ok (header_bytes h) ->
  at_slot i w4 (set_recvBuf s rb1) -> RingBuffer.wf rb1 ->
  contents rb1 = enc_list key 0 0 0 msg ++ rest -> cleared p1 m1 ->
  packets w4 !! l = Some p1h -> pkt_inv w4 O ->
  exists rb2 w9 p4 m4,
    take_body OnRecv n l p1h m1h (zlen msg) w4 =
      (OnRecv (sessionID s) l;; CPacket_SubRef l;; recv_loop OnRecv n i) w9 /\
    at_slot i w9 (set_recvBuf s rb2) /\ RingBuffer.wf rb2 /\ iBufSize rb2 = iBufSize rb1 /\
    contents rb2 = rest /\ packets w9 !! l = Some p4 /\ wf p4 m4 /\ payload p4 m4 = msg /\
    m_lRefCount p4 = m_lRefCount p1 /\ pkt_inv w9 O /\ app w9 = app w4 /\
    pktPool w9 = pktPool w4.
Proof.
  intros h m1h p1h Hk Hb Hz Hbh Hs4 Hwf1 Hc1 Hcl Hl4 Hinv4.
  set (body := enc_list key 0 0 0 msg) in *. assert (Hzb : zlen body = zlen msg) by apply zlen_enc.
  destruct (load_frame p1 m1 (header_bytes h) body Hcl Hbh eq_refl)
    as (p3 & Emw & Hw3 & Hf3 & Hp3 & Hn3 & Hr3);
    [by apply bytes_ok_enc|lia|lia|]. fold m1h p1h in Emw, Hw3, Hp3, Hn3.
  assert (Hzm : zlen m1h = eBUFFER_DEFAULT).
  { destruct (cl_wf _ _ Hcl). unfold m1h, eBUFFER_DEFAULT in *.
    rewrite zlen_splice; change (zlen (header_bytes h)) with 5; lia. }
  destruct (dequeue_body rb1 m1h body rest Hwf1 Hc1 Hzm ltac:(lia)) as (rb2 & Edq & Hsz2 & Hwf2 & Hc2).
  rewrite Hzb in Edq, Emw. set (m5 := splice m1h 5 body) in *. unfold take_body.
  erewrite bind_run; cycle 1.
  { eapply (with_ring_run i w4 _ _ rb2 (m5, zlen msg) Hs4). cbn [recvBuf set_recvBuf].
    unfold Packet.GetBufferPtr, eBUFFER_HEADER_SIZE, MESSAGE_HEADER_LEN. by rewrite Edq. }
  cbn beta iota. set (w5 := with_session w4 i _).
  assert (Hs5 : at_slot i w5 (set_recvBuf s rb2)) by (by eapply at_slot_with).
  rewrite (bind_run _ _ tt w5 (set_packets w5
    (<[l := with_head p1h (m_iMaxSize p1h) m5]> (packets w5)) (pktPool w5))) by done.
  set (w6 := set_packets w5 _ _). rewrite Z.eqb_refl. cbn [negb].
  assert (Hl6 : packets w6 !! l = Some (with_head p1h (m_iMaxSize p1h) m5)) by apply lookup_insert_eq.
  erewrite bind_run; [|by eapply (on_packet_run l w6 _ _ p3 (zlen msg) Hl6); f_equal].
  set (w7 := set_packets w6 _ _).
  assert (Hl7 : packets w7 !! l = Some p3) by apply lookup_insert_eq.
  destruct (decode_frame p3 m5 msg key Hw3 Hf3 Hb Hz Hp3 Hn3)
    as (p4 & m4 & Edec & Hw4 & Hp4 & _ & Hr4).
  rewrite (bind_run _ _ _ _ _ (on_packet_run l w7 p3 _ p4 true Hl7 Edec)). cbn [negb].
  set (w8 := set_packets w7 _ _).
  set (w9 := set_counters w8 (sessionCount w8) (sendTPS w8) (inc_low32 (recvTPS w8))
               (acceptTPS w8) (acceptCount w8)).
  rewrite (bind_run _ _ tt w8 w9) by done.
  assert (Hs9 : at_slot i w9 (set_recvBuf s rb2)) by exact Hs5.
  rewrite (bind_run _ _ _ _ _ (session_run _ _ _ Hs9)).
  exists rb2, w9, p4, m4. split; [reflexivity|].
  split_and!; try done; [apply lookup_insert_eq|congruence|].
  eapply pkt_inv_same; [eapply (pkt_inv_put w4 O l p1h p4 Hinv4 Hl4)|..]; try done.
  - by eapply wf_shape.
  - cbn. congruence.
  - subst w9 w8 w7 w6 w5. cbn. by rewrite !insert_insert_eq.
Qed.

Lemma recv_loop_frame OnRecv n msg f rest :
  contents (recvBuf s) = f ++ rest -> frame_of msg f ->
  exists w1 s1 l p m,
    recv_loop OnRecv (S n) i w =
      (OnRecv (sessionID s) l;; CPacket_SubRef l;; recv_loop OnRecv n i) w1 /\
    delivered msg rest w1 s1 l p m.
Proof.
  intros Hq Hfr. pose proof (frame_length msg f Hfr) as Hzf.
  destruct (header_of_frame msg f rest Hfr) as [Hcode Hlen]. rewrite <- Hq in Hcode, Hlen.
  pose proof Hfr as (key & Hk & Hb & Hz & Ef). pose proof (zlen_nonneg rest).
  assert (Hzq : zlen (contents (recvBuf s)) = MESSAGE_HEADER_LEN + zlen msg + zlen rest)
    by (rewrite Hq, zlen_app; lia).
  destruct (recv_loop_header OnRecv n Hcode) as (w4 & rb1 & l & p1 & m1 &
    [Hs4 Hwf1 Hsz1 Hc1 Hl4 Hcl Hr1 Hlo Hinv4 Happ4 Hmax4] & Erun); [lia|lia|lia|].
  rewrite Erun, Hlen. clear Erun. set (h := mkHeader _ _ _ _) in Ef.
  assert (Ehdr : take (Z.to_nat 5) (contents (recvBuf s)) = header_bytes h).
  { rewrite Hq, Ef, <- app_assoc. by apply (take_app_length' (header_bytes h)). }
  assert (Hbh : bytes_ok (header_bytes h)).
  { rewrite <- Ehdr. apply Forall_take, (bytes_ok_contents _ Hwf). }
  assert (Ec1 : contents rb1 = enc_list key 0 0 0 msg ++ rest).
  { rewrite Hc1, Hq, Ef, <- app_assoc. by apply (drop_app_length' (header_bytes h)). }
  rewrite Ehdr in *.
  destruct (take_body_ok OnRecv n w4 rb1 l p1 m1 key msg rest _ Hk Hb Hz Hbh Hs4 Hwf1 Ec1 Hcl Hl4 Hinv4)
    as (rb2 & w9 & p4 & m4 & Erun & Hs9 & Hwf2 & Hsz2 & Hc2 & Hl9 & Hw9 & Hp9 & Hr9 & Hinv9 & Ha9 & Hp).
  exists w9, (set_recvBuf s rb2), l, p4, m4. split; [exact Erun|].
  split; try done; cbn [recvBuf set_recvBuf]; congruence.
Qed.

(** A header with another code, or announcing no payload. *)
Lemma recv_loop_bad OnRecv n :
  let q := contents (recvBuf s) in
  MESSAGE_HEADER_LEN <= zlen q ->
  code (header_of_bytes q) <> PACKET_CODE \/ len (header_of_bytes q) = 0 ->
  recv_loop OnRecv (S n) i w = (DisConnect i;; mret false) w.
Proof.
  intros q Hge Hbad. destruct qsize as [Eq Hq]. fold q in Eq, Hq. cbn [recv_loop].
  rewrite (bind_run _ _ _ _ _ (session_run _ _ _ Hs)). cbv zeta. rewrite Eq.
  rewrite u64_id by lia. rewrite Z.gtb_ltb. destruct (Z.ltb_spec (zlen q) MESSAGE_HEADER_LEN); [lia|].
  rewrite (bind_run _ _ _ _ _ (lift_run _ _ _ (peek_header Hge))). fold q.
  rewrite header_of_prefix by done.
  destruct (Z.eqb_spec (code (header_of_bytes q)) PACKET_CODE); [|done].
  destruct (Z.eqb_spec (len (header_of_bytes q)) 0); [done|]. by destruct Hbad.
Qed.

(** A complete frame longer than a packet. *)
Lemma recv_loop_oversized OnRecv n :
  let q := contents (recvBuf s) in
  let k := len (header_of_bytes q) in
  code (header_of_bytes q) = PACKET_CODE -> PAYLOAD_MAX < k -> MESSAGE_HEADER_LEN + k <= zlen q ->
  recv_loop OnRecv (S n) i w = Fault OutOfBounds.
Proof.
  intros q k Hcode Hk Hq. unfold PAYLOAD_MAX, MESSAGE_HEADER_LEN in *. destruct qsize as [_ Hqr].
  fold q in Hqr.
  destruct (recv_loop_header OnRecv n Hcode) as (w4 & rb & l & p & m & Hh & ->);
    [fold q k; lia|fold q k; lia|done|].
  destruct Hh as [Hs4 Hwf1 _ Hc1 _ Hcl _ _ _ _ _]. fold q k in Hc1 |- *.
  assert (Hu : used rb = zlen q - 5).
  { rewrite <- (zlen_contents _ Hwf1), Hc1. unfold zlen in *. rewrite length_drop. lia. }
  assert (Hzm : zlen (splice m 0 (take (Z.to_nat 5) q)) = 512).
  { destruct (cl_wf _ _ Hcl). unfold eBUFFER_DEFAULT in *.
    rewrite zlen_splice; rewrite ?take_slice, ?zlen_slice; lia. }
  unfold take_body, with_ring. unfold mbind at 1, M_bind at 1. unfold mbind at 1, M_bind at 1.
  rewrite (session_run _ _ _ Hs4). cbn [recvBuf set_recvBuf].
  unfold mbind at 1, M_bind at 1. rewrite Dequeue_overruns; [done|done|lia|done|].
  rewrite Hzm. unfold Packet.GetBufferPtr, eBUFFER_HEADER_SIZE, MESSAGE_HEADER_LEN. lia.
Qed.
End Frame.

(** C30.  Frames a client must not send.  A header with another code than [PACKET_CODE], or
    announcing an empty payload, disconnects the session at once and nothing of the ring is
    consumed.  A header announcing more than the 507 bytes a packet holds is accepted like
    any other: when the frame is complete in the ring its payload is copied past the end of
    the packet's block. *)
Theorem recv_bad_frames i w s o OnRecv n :
  let q := contents (recvBuf s) in
  let h := header_of_bytes q in
  (exists m, malloc eBUFFER_DEFAULT = Some m) ->
  at_slot i w s -> RingBuffer.wf (recvBuf s) -> pkt_inv w o ->
  m_lMaxCount (pktPool w) < POOL_LIMIT -> MESSAGE_HEADER_LEN <= zlen q ->
  (code h <> PACKET_CODE \/ len h = 0 ->
     recv_loop OnRecv (S n) i w = (DisConnect i;; mret false) w) /\
  (code h = PACKET_CODE -> PAYLOAD_MAX < len h -> MESSAGE_HEADER_LEN + len h <= zlen q ->
     recv_loop OnRecv (S n) i w = Fault OutOfBounds).
Proof.
  intros q h Hm Hs Hwf Hinv Hlim Hq. split.
  - by apply (recv_loop_bad i w s Hs Hwf).
  - by apply (recv_loop_oversized Hm i w s o Hs Hwf Hinv Hlim).
Qed.
End Receive.

(** ** Witness: a complete frame of 600 bytes in the ring of the only slot *)

Definition big_frame : list Z := [PACKET_CODE; 88; 2; 0; 0] ++ replicate 600 0.

Definition flooded : Session (Q := queue4096) :=
  mkSession (Q := queue4096) (Some 5) (COMBINE_ID_INDEX 1 0) 0 0 0 0 1 [] []
    (mkRing 0 605 1024 (big_frame ++ replicate 419 0)) 0.

Definition flooded_world : World (Q := queue4096) unit :=
  mkWorld [flooded] [] 1 1 1 0 0 1 1 ∅ (CLFFreeList_new [] false) tt [] [] 0.

Lemma recv_bad_frames_witness :
  len (header_of_bytes (contents (recvBuf flooded))) = 600 /\
  recv_loop (R := zero_runtime 1) (App := silent_app)
    (fun _ _ => mret tt) 1 0 flooded_world = Fault OutOfBounds.
Proof.
  split; [vm_compute; reflexivity|].
  assert (Hinv : pkt_inv flooded_world ∅).
  { split; try done; [exists []; split; try done; constructor|..];
      intros l p H; cbn in H; by rewrite lookup_empty in H. }
  assert (Hwf : RingBuffer.wf (recvBuf flooded)).
  { split; cbn -[big_frame replicate]; try lia; [reflexivity|].
    apply Forall_app. split; [|by apply bytes_ok_zeros].
    apply Forall_app. split; [|by apply bytes_ok_zeros].
    unfold PACKET_CODE. repeat (apply Forall_cons_2; [lia|]). apply Forall_nil_2. }
  assert (Hs : at_slot 0 flooded_world flooded).
  { split; [vm_compute; split; [discriminate|reflexivity]|reflexivity]. }
  apply (recv_bad_frames (R := zero_runtime 1) (App := silent_app)
    0 flooded_world flooded ∅ (fun _ _ => mret tt) 0 (ex_intro _ _ eq_refl) Hs Hwf Hinv).
  - vm_compute. reflexivity.
  - vm_compute. discriminate.
  - vm_compute. reflexivity.
  - vm_compute. reflexivity.
  - vm_compute. discriminate.
Defined.
