(* ===== verification/Stream.v ===== *)
(** * The byte stream of a client (theorems on the receive path of [Iocp])

    [Receiver] is what the receive path needs of the handler of complete messages: that it
    returns, keeps the ring, the identifier and the references of the session, keeps the
    packet objects consistent, and takes note of the message.  Against that interface:
    however the frames a client sends are cut into completions, the handler is called once
    for each message, in the order sent, with the payload that was encoded, and the ring keeps
    exactly the part of a frame that is not complete yet. *)

From S2P Require Import Prelude RingBuffer Packet Codec FreeList Message World PacketHeap Iocp Receive.

(** ** The interface to the handler *)

(** [recv_log] is the handler's record of the messages given to it, [recv_cost] how many
    packets it may take from the pool to answer one. *)
Class Receiver `{Q : LockfreeQueue loc 4096} {A : Type}
    (OnRecv : Z -> loc -> M A unit) := {
  recv_log : A -> list (Z * list Z);
  recv_cost : Z;
  recv_cost_nonneg : 0 <= recv_cost;
  recv_handles : forall i (w : World A) s o l p m,
    at_slot i w s -> 1 <= ioCount s < 2147483647 -> pkt_inv w o -> l ∈ o ->
    packets w !! l = Some p -> wf p m ->
    m_lMaxCount (pktPool w) + recv_cost <= POOL_LIMIT ->
    exists w' s' o',
      OnRecv (sessionID s) l w = Ok (tt, w') /\
      at_slot i w' s' /\ recvBuf s' = recvBuf s /\ sessionID s' = sessionID s /\
      ioCount s <= ioCount s' <= ioCount s + 1 /\
      pkt_inv w' o' /\ l ∈ o' /\
      recv_log (app w') = recv_log (app w) ++ [(sessionID s, payload p m)] /\
      m_lMaxCount (pktPool w') <= m_lMaxCount (pktPool w) + recv_cost
}.

(** ** Cutting a stream *)

(** A proper beginning of a frame is incomplete. *)
Lemma frame_prefix_incomplete msg f q r :
  frame_of msg f -> f = q ++ r -> r <> [] -> incomplete q.
Proof.
  intros Hf -> Hr. pose proof (frame_length _ _ Hf) as Hz. rewrite zlen_app in Hz.
  assert (Hr0 : 0 < zlen r).
  { destruct r; [done|]. rewrite zlen_cons. pose proof (zlen_nonneg r). lia. }
  destruct (Z.lt_ge_cases (zlen q) MESSAGE_HEADER_LEN) as [|Hge]; [by left|right].
  destruct (header_of_frame _ _ [] Hf) as [Hc Hl]. rewrite app_nil_r in Hc, Hl.
  unfold MESSAGE_HEADER_LEN in *.
  unfold header_of_bytes in *. cbn [code len] in *.
  rewrite (nthz_app_l _ _ 0) in Hc by lia.
  rewrite (nthz_app_l _ _ 1), (nthz_app_l _ _ 2) in Hl by lia. destruct Hf as (key & _ & _ & Hm & _).
  split; [done|]. rewrite Hl. lia.
Qed.

Lemma nil_incomplete : incomplete [].
Proof. by left. Qed.

(** A beginning of a stream of frames is some whole frames and an incomplete one. *)
Lemma stream_prefix ms fs q r :
  Forall2 frame_of ms fs -> concat fs = q ++ r ->
  exists ms1 ms2 fs1 fs2 rest, ms = ms1 ++ ms2 /\ fs = fs1 ++ fs2 /\
    Forall2 frame_of ms1 fs1 /\ Forall2 frame_of ms2 fs2 /\
    q = concat fs1 ++ rest /\ incomplete rest /\ concat fs2 = rest ++ r.
Proof.
  intros HF. revert q. induction HF as [|msg f ms fs Hf HF IH]; intros q Hq.
  - apply eq_sym, app_nil in Hq as [-> ->].
    exists [], [], [], [], []. by split_and!; auto using nil_incomplete.
  - cbn [concat] in Hq. destruct (app_eq_inv _ _ _ _ Hq) as [(k & -> & Hk)|(k & -> & Hk)].
    + destruct (decide (k = [])) as [->|Hne].
      * destruct (IH [] ltac:(done)) as (ms1 & ms2 & fs1 & fs2 & rest & -> & -> & H1 & H2 & E & Hi & E2).
        apply eq_sym, app_nil in E as [E ->].
        exists (msg :: ms1), ms2, ((q ++ []) :: fs1), fs2, []. cbn. split_and!; try done.
        -- by constructor.
        -- by rewrite E, !app_nil_r.
      * exists [], (msg :: ms), [], ((q ++ k) :: fs), q. split_and!; try done.
        -- by constructor.
        -- by eapply frame_prefix_incomplete.
    + destruct (IH k Hk) as (ms1 & ms2 & fs1 & fs2 & rest & -> & -> & H1 & H2 & -> & Hi & E2).
      exists (msg :: ms1), ms2, (f :: fs1), fs2, rest. split_and!; try done.
      * by constructor.
      * cbn. by rewrite <- app_assoc.
Qed.

(** Whole frames are not incomplete. *)
Lemma frames_complete ms fs : Forall2 frame_of ms fs -> incomplete (concat fs) -> ms = [].
Proof.
  destruct 1 as [|msg f ms fs Hf HF]; [done|]. cbn. intros Hinc.
  destruct (header_of_frame msg f (concat fs) Hf) as [_ Hl].
  pose proof (frame_length _ _ Hf) as Hz. pose proof (zlen_nonneg (concat fs)).
  pose proof (zlen_nonneg msg). unfold incomplete in Hinc. rewrite Hl, zlen_app in Hinc. lia.
Qed.

Section Stream.
Context {Q : LockfreeQueue loc 4096} {A : Type}.
Context {W : Windows} {R : Runtime} {App : ServerApp A}.
Context (Hmalloc : exists m, malloc eBUFFER_DEFAULT = Some m).
Context (OnRecv : Z -> loc -> M A unit) {HR : Receiver OnRecv}.

Implicit Types w : World A.

(** ** One completion *)

(** What the receive path keeps between completions: [q] is what the ring of the slot [i]
    holds, [sid] its identifier, [sz] the size of the ring. *)
Record connected (i sid sz : Z) (q : list Z) (o : gset loc) w (s : Session) : Prop := {
  cn_slot : at_slot i w s;
  cn_id : sessionID s = sid;
  cn_count : 1 <= ioCount s;
  cn_ring : RingBuffer.wf (recvBuf s);
  cn_size : iBufSize (recvBuf s) = sz;
  cn_bytes : contents (recvBuf s) = q;
  cn_inv : pkt_inv w o
}.

(** The messages [ms] can be delivered without a counter wrapping. *)
Definition room_for (ms : list (list Z)) w (s : Session) : Prop :=
  m_lMaxCount (pktPool w) + zlen ms * (1 + recv_cost) <= POOL_LIMIT /\
  ioCount s + zlen ms < 2147483647.

(** The handler does not disconnect the session whose message it handles. *)
Definition keeps_session : Prop := forall i w s l w' s',
  at_slot i w s -> OnRecv (sessionID s) l w = Ok (tt, w') -> at_slot i w' s' ->
  isReleased s' = isReleased s.

(** What delivering [ms] does to the world, seen from the slot [i]. *)
Record progress (sid : Z) (ms : list (list Z)) w s w' s' : Prop := {
  pg_log : recv_log (app w') = recv_log (app w) ++ ((sid,.) <$> ms);
  pg_max : m_lMaxCount (pktPool w') <= m_lMaxCount (pktPool w) + zlen ms * (1 + recv_cost);
  pg_count : ioCount s <= ioCount s' <= ioCount s + zlen ms;
  pg_released : keeps_session -> isReleased s' = isReleased s
}.

Lemma recv_loop_stream n i sid sz ms fs rest w s o :
  connected i sid sz (concat fs ++ rest) o w s ->
  Forall2 frame_of ms fs -> incomplete rest -> room_for ms w s ->
  (length ms < n)%nat ->
  exists w' s' o',
    recv_loop OnRecv n i w = Ok (true, w') /\ connected i sid sz rest o' w' s' /\
    progress sid ms w s w' s'.
Proof.
  intros Hcn HF Hrest. revert n w s o Hcn. pose proof recv_cost_nonneg as Hcost.
  induction HF as [|msg f ms fs Hf HF IH];
    intros n w s o [Hs Hid Hio Hwf Hsz Hq Hinv] [Hmax Hroom] Hn;
    (destruct n as [|n]; [cbn in Hn; lia|]).
  - cbn [concat app] in Hq. exists w, s, o.
    split; [by apply (recv_loop_waits i w s Hs Hwf); rewrite Hq|].
    split; [done|]. change (zlen []) with 0 in *.
    split; [by rewrite app_nil_r| | |done]; change (zlen []) with 0; lia.
  - cbn [concat] in Hq. rewrite <- app_assoc in Hq.
    rewrite zlen_cons in Hmax, Hroom. pose proof (zlen_nonneg ms).
    destruct (recv_loop_frame Hmalloc i w s o Hs Hwf Hinv ltac:(nia) OnRecv n msg f _ Hq Hf)
      as (w1 & s1 & l & p & m & Erun & [Hs1 Es1 Hwf1 Hsz1 Hq1 Hl Hw Hp Hrf Hlo Hinv1 Happ Hmax1]).
    assert (Hid1 : sessionID s1 = sid) by (by rewrite Es1).
    assert (Hio1 : ioCount s1 = ioCount s) by (by rewrite Es1).
    destruct (recv_handles i w1 s1 _ l p m Hs1 ltac:(lia) Hinv1 ltac:(set_solver) Hl Hw ltac:(nia))
      as (w2 & s2 & o2 & Eh & Hs2 & Er2 & Hid2 & Hio2 & Hinv2 & Hlo2 & Hlog2 & Hmax2).
    destruct (in_use_packet w2 o2 l Hinv2 Hlo2) as [p2 Hl2].
    destruct (CPacket_SubRef_ok w2 o2 l p2 Hinv2 Hl2 Hlo2 ltac:(nia)) as (pool3 & E3 & Hinv3 & Hm3).
    set (w3 := set_packets w2 _ pool3) in *.
    edestruct (IH n w3 s2) as (w' & s' & o' & E & Hcn & [Hlog Hm Hc Hrel]).
    + split; [exact Hs2|congruence|lia|by rewrite Er2|congruence|by rewrite Er2, Hq1|exact Hinv3].
    + split; [change (pktPool w3) with pool3; nia|lia].
    + cbn in Hn. lia.
    + exists w', s', o'. split; [|split; [done|]].
      * rewrite Erun. replace (sessionID s) with (sessionID s1) by congruence.
        rewrite (bind_run _ _ _ _ _ Eh). by rewrite (bind_run _ _ _ _ _ E3).
      * change (app w3) with (app w2) in *. change (pktPool w3) with pool3 in *.
        split; rewrite ?zlen_cons; [|nia|lia|].
        -- rewrite Hlog, Hlog2, Happ, Hp, Hid1, <- app_assoc. done.
        -- intros Hk. rewrite Hrel by done. rewrite (Hk _ _ _ _ _ _ Hs1 Eh Hs2). by rewrite Es1.
Qed.

(** *** Posting the next receive *)

(** The receive is posted again, or the session is on its way out. *)
Definition listening i w (s : Session) : Prop :=
  isReleased s = FALSE -> exists k, kernel w = k ++ [PendingRecv i (recv_bufs (recvBuf s))].

Definition recv_accepted w : Prop :=
  WSARecv_error (clock w) = None \/ WSARecv_error (clock w) = Some WSA_IO_PENDING.

Lemma DisConnect_counted i w s :
  at_slot i w s -> 1 <= ioCount s ->
  exists w' s', DisConnect i w = Ok (tt, w') /\ at_slot i w' s' /\
    packets w' = packets w /\ pktPool w' = pktPool w /\ app w' = app w /\
    sessionID s' = sessionID s /\ ioCount s' = ioCount s /\ recvBuf s' = recvBuf s /\
    isReleased s' <> FALSE.
Proof.
  intros Hs Hio. unfold DisConnect. rewrite (bind_run _ _ _ _ _ (session_run _ _ _ Hs)).
  destruct (Z.eqb_spec (isReleased s) TRUE) as [Er|Er].
  { exists w, s. rewrite Er. by split_and!. }
  rewrite (bind_run _ _ _ _ _ (put_session_run _ _ _ _ Hs)). set (s1 := if isReleased s =? FALSE then set_isReleased s TRUE else s).
  set (w1 := with_session w i s1). assert (Hs1 : at_slot i w1 s1) by (by eapply at_slot_with).
  rewrite (bind_run _ _ tt w1 (set_sent w1 (sent w1 ++ [EClose (sock s)]))) by done.
  set (w2 := set_sent _ _). assert (Hs2 : at_slot i w2 s1) by exact Hs1.
  rewrite (bind_run _ _ _ _ _ (update_run _ _ _ _ Hs2)).
  set (s3 := set_sock s1 None). set (w3 := with_session w2 i s3).
  assert (Hs3 : at_slot i w3 s3) by (by eapply at_slot_with).
  rewrite (bind_run _ _ _ _ _ (session_run _ _ _ Hs3)).
  assert (Es1 : s1 = set_isReleased s (isReleased s1) /\ isReleased s1 <> FALSE).
  { subst s1. destruct (Z.eqb_spec (isReleased s) FALSE); [by split|]. by destruct s. }
  destruct Es1 as [Es1 Hr1]. subst s3. rewrite Es1 in *. cbn in *.
  destruct (Z.eqb_spec (ioCount s) 0); [lia|]. eexists w3, _. by split_and!.
Qed.

Lemma PostRecv_again i sid sz q o w s :
  connected i sid sz q o w s -> ioCount s < 2147483647 ->
  exists b w' s', PostRecv i w = Ok (b, w') /\ connected i sid sz q o w' s' /\ app w' = app w /\
    pktPool w' = pktPool w /\ listening i w' s' /\ ioCount s <= ioCount s' <= ioCount s + 1 /\
    (isReleased s = FALSE -> recv_accepted w -> ioCount s' = ioCount s + 1 /\ isReleased s' = FALSE).
Proof.
  intros [Hs Hid Hio Hwf Hsz Hq Hinv] Hlt. unfold PostRecv.
  rewrite (bind_run _ _ _ _ _ (session_run _ _ _ Hs)).
  destruct (Z.eqb_spec (isReleased s) TRUE) as [Er|Er].
  { exists false, w, s. unfold listening. rewrite Er. split_and!; done || lia. }
  assert (E1 : i32 (ioCount s + 1) = ioCount s + 1) by (apply i32_id; lia).
  rewrite (bind_run _ _ _ _ _ (add_ioCount_run _ _ _ 1 _ Hs E1)).
  set (s1 := set_ioCount s _). set (w1 := with_session w i s1).
  assert (Hs1 : at_slot i w1 s1) by (by eapply at_slot_with).
  rewrite (bind_run _ _ (clock w1) _ (set_clock w1 (S (clock w1)))) by done.
  set (w2 := set_clock _ _). assert (Hs2 : at_slot i w2 s1) by exact Hs1.
  set (w2' := set_kernel w2 (kernel w2 ++ [PendingRecv i (recv_bufs (recvBuf s))])).
  assert (Hposted : connected i sid sz q o w2' s1 /\ app w2' = app w /\
    pktPool w2' = pktPool w /\ listening i w2' s1 /\ ioCount s <= ioCount s1 <= ioCount s + 1 /\
    (isReleased s = FALSE -> recv_accepted w -> ioCount s1 = ioCount s + 1 /\ isReleased s1 = FALSE)).
  { split_and!; try done; cbn; try lia; [|by eexists].
    split; try done; [cbn; lia|by eapply pkt_inv_same]. }
  change (clock w1) with (clock w).
  destruct (WSARecv_error (clock w)) as [e|] eqn:Ew; [|exists true, w2', s1; by split].
  destruct (Z.eqb_spec e WSA_IO_PENDING) as [|Hne]; [exists true, w2', s1; by split|].
  clear Hposted w2'.
  assert (E2 : i32 (ioCount s1 + -1) = ioCount s) by (cbn; rewrite i32_id; lia).
  rewrite (bind_run _ _ _ _ _ (add_ioCount_run _ _ _ (-1) _ Hs2 E2)).
  destruct (Z.eqb_spec (ioCount s) 0); [lia|].
  set (w3 := with_session w2 i _). rewrite (bind_run _ _ tt w3 w3) by done.
  destruct (DisConnect_counted i w3 (set_ioCount s1 (ioCount s))) as
    (w4 & s4 & E & Hs4 & Hp & Hpp & Ha & Hid4 & Hio4 & Hr4 & Hrel).
  { by eapply at_slot_with. }
  { done. }
  rewrite (bind_run _ _ _ _ _ E). exists false, w4, s4.
  split_and!; [done| |exact Ha|exact Hpp|by intros ?|rewrite Hio4; cbn; lia|rewrite Hio4; cbn; lia|].
  2: { intros _ Hacc. unfold recv_accepted in Hacc. rewrite Ew in Hacc. by destruct Hacc as [|[=]]. }
  split; [done|by rewrite Hid4| |by rewrite Hr4|by rewrite Hr4|by rewrite Hr4|by eapply pkt_inv_same].
  rewrite Hio4. done.
Qed.

(** *** What the kernel does before the completion is dequeued *)

(** [bs] is written into the posted pieces of the ring. *)
Definition kernel_fills (i : Z) (bs : list Z) : M A unit :=
  s ← session i;
  d ← lift (scatter (data (recvBuf s)) (recv_bufs (recvBuf s)) bs);
  put_session i (set_recvBuf s (mkRing (iFrontPos (recvBuf s)) (iRearPos (recvBuf s))
                                       (iBufSize (recvBuf s)) d)).

(** The ring after the kernel's writes and [MoveRear]. *)
Lemma filled_ring rb bs :
  RingBuffer.wf rb -> bytes_ok bs -> 0 < zlen bs <= RingBuffer.GetFreeSize rb ->
  exists d rb',
    scatter (data rb) (recv_bufs rb) bs = Ok d /\
    MoveRear (mkRing (iFrontPos rb) (iRearPos rb) (iBufSize rb) d) (i32 (zlen bs))
      = Ok (rb', iRearPos rb') /\
    RingBuffer.wf rb' /\ iBufSize rb' = iBufSize rb /\ contents rb' = contents rb ++ bs.
Proof.
  intros Hwf Hb [Hpos Hfit]. pose proof (used_range rb Hwf) as Hu.
  pose proof (GetFreeSize_free rb Hwf) as Hfree.
  exists (ring_put (data rb) (iRearPos rb) bs). eexists. split; [by apply scatter_free|].
  destruct (contents_ring_put rb bs Hwf Hb ltac:(lia)) as [Hwf' Hc'].
  split; [|split; [exact Hwf'|split; [done|exact Hc']]].
  pose proof (Hwf) as [Hs Hf Hr Hz _]. unfold capacity in *. unfold MoveRear. cbn.
  rewrite (i32_id (zlen bs)) by lia.
  replace (RingBuffer.GetFreeSize (mkRing _ _ _ _)) with (RingBuffer.GetFreeSize rb) by done.
  rewrite Z.gtb_ltb. destruct (Z.ltb_spec (RingBuffer.GetFreeSize rb) (zlen bs)); [lia|].
  rewrite i32_id by lia. rewrite c_rem_pos by lia. done.
Qed.

(** A completion starts with the bytes behind the ring's contents. *)
Lemma RecvComplete_starts i sid sz q o w s bs :
  connected i sid sz q o w s -> bytes_ok bs ->
  0 < zlen bs <= RingBuffer.GetFreeSize (recvBuf s) ->
  exists w1 w2 s2, kernel_fills i bs w = Ok (tt, w1) /\
    connected i sid sz (q ++ bs) o w2 s2 /\
    RecvComplete OnRecv i (zlen bs) w1 =
      (fell ← recv_loop OnRecv (S (Z.to_nat (zlen (q ++ bs)))) i;
       if (fell : bool) then
         s ← session i;
         if negb (isReleased s =? TRUE) then PostRecv i;; mret tt else mret tt
       else mret tt) w2 /\
    app w2 = app w /\ pktPool w2 = pktPool w /\ clock w2 = S (clock w) /\
    ioCount s2 = ioCount s /\ isReleased s2 = isReleased s.
Proof.
  intros [Hs Hid Hio Hwf Hsz Hq Hinv] Hb Hfit.
  destruct (filled_ring _ _ Hwf Hb Hfit) as (d & rb' & Esc & Emr & Hwf' & Hsz' & Hc').
  set (rb0 := mkRing _ _ _ d) in *. set (w1 := with_session w i (set_recvBuf s rb0)).
  assert (Hs1 : at_slot i w1 (set_recvBuf s rb0)) by (by eapply at_slot_with).
  set (s1 := set_lastRecvTime (set_recvBuf s rb0) (GetTickCount64 (clock w1))).
  set (s2 := set_recvBuf s1 rb').
  set (w2 := with_session (set_clock w1 (S (clock w1))) i s2).
  exists w1, w2, s2.
  assert (Hs2 : at_slot i w2 s2) by (by eapply at_slot_with).
  split.
  { unfold kernel_fills. rewrite (bind_run _ _ _ _ _ (session_run _ _ _ Hs)).
    rewrite (bind_run _ _ _ _ _ (lift_run _ _ _ Esc)). by apply (put_session_run i w s). }
  split; [by split; try done; [by rewrite <- Hsz|rewrite <- Hq|eapply pkt_inv_same]|].
  split; [|by split_and!]. unfold RecvComplete.
  destruct (Z.eqb_spec (zlen bs) 0); [lia|].
  rewrite (bind_run _ _ (clock w1) _ (set_clock w1 (S (clock w1)))) by done.
  assert (Hs1c : at_slot i (set_clock w1 (S (clock w1))) (set_recvBuf s rb0)) by exact Hs1.
  rewrite (bind_run _ _ _ _ _ (update_run _ _ _ _ Hs1c)). fold s1.
  assert (Hs1' : at_slot i (with_session (set_clock w1 (S (clock w1))) i s1) s1)
    by (by eapply at_slot_with).
  rewrite (bind_run _ _ _ _ _ (with_ring_run i _ s1 _ _ _ Hs1' Emr)), with_session_twice.
  fold s2 w2. rewrite (bind_run _ _ _ _ _ (session_run _ _ _ Hs2)).
  change (recvBuf s2) with rb'. rewrite (GetUseSize_used _ Hwf'), <- (zlen_contents _ Hwf'), Hc', Hq.
  done.
Qed.

(** A received beginning of a frame is shorter than the longest frame. *)
Lemma incomplete_short q r ms fs :
  Forall2 frame_of ms fs -> q ++ r = concat fs -> incomplete q ->
  zlen q < MESSAGE_HEADER_LEN + PAYLOAD_MAX.
Proof.
  intros HF Hq [Hs|(_ & _ & Hs)].
  { unfold PAYLOAD_MAX, MESSAGE_HEADER_LEN in *. lia. }
  destruct (Z.lt_ge_cases (zlen q) MESSAGE_HEADER_LEN).
  { unfold PAYLOAD_MAX, MESSAGE_HEADER_LEN in *. lia. }
  destruct HF as [|msg f ms fs Hf HF].
  { apply app_nil in Hq as [-> _]. done. }
  destruct (header_of_frame msg f (concat fs) Hf) as [_ Hl]. cbn [concat] in Hq.
  rewrite <- Hq in Hl. unfold header_of_bytes in Hl, Hs. cbn [len] in Hl, Hs.
  unfold MESSAGE_HEADER_LEN in *.
  rewrite (nthz_app_l _ _ 1), (nthz_app_l _ _ 2) in Hl by lia.
  destruct Hf as (key & _ & _ & Hm & _). unfold PAYLOAD_MAX in *. lia.
Qed.

Lemma frame_bytes msg f : frame_of msg f -> bytes_ok f.
Proof.
  intros (key & Hk & Hb & Hm & ->). apply Forall_app. split; [|by apply bytes_ok_enc].
  unfold header_bytes, PAYLOAD_MAX, PACKET_CODE in *. cbn.
  repeat apply Forall_cons_2; try apply Forall_nil_2; try apply Z.mod_pos_bound; try lia.
  pose proof (Z.div_mod (zlen msg) 256 ltac:(lia)).
  pose proof (Z.mod_pos_bound (zlen msg) 256 ltac:(lia)). lia.
Qed.

Lemma stream_length ms fs : Forall2 frame_of ms fs -> zlen ms <= zlen (concat fs).
Proof.
  induction 1 as [|msg f ms fs Hf _ IH]; [done|]. cbn. rewrite zlen_cons, zlen_app.
  rewrite (frame_length _ _ Hf). pose proof (zlen_nonneg msg). unfold MESSAGE_HEADER_LEN. lia.
Qed.

Lemma stream_bytes ms fs : Forall2 frame_of ms fs -> bytes_ok (concat fs).
Proof.
  induction 1 as [|msg f ms fs Hf _ IH]; [done|]. cbn. apply Forall_app.
  split; [by eapply frame_bytes|done].
Qed.

(** [q] is in the ring, [bs] arrives, [r] is still to come. *)
Lemma RecvComplete_step i sid sz q o w s bs r ms fs :
  connected i sid sz q o w s ->
  Forall2 frame_of ms fs -> q ++ bs ++ r = concat fs ->
  0 < zlen bs <= RingBuffer.GetFreeSize (recvBuf s) -> room_for ms w s ->
  exists ms1 ms2 fs1 fs2 q' w1 w' s' o',
    ms = ms1 ++ ms2 /\ Forall2 frame_of ms1 fs1 /\ Forall2 frame_of ms2 fs2 /\
    q ++ bs = concat fs1 ++ q' /\ incomplete q' /\ q' ++ r = concat fs2 /\
    kernel_fills i bs w = Ok (tt, w1) /\ RecvComplete OnRecv i (zlen bs) w1 = Ok (tt, w') /\
    connected i sid sz q' o' w' s' /\ listening i w' s' /\
    recv_log (app w') = recv_log (app w) ++ ((sid,.) <$> ms1) /\
    m_lMaxCount (pktPool w') <= m_lMaxCount (pktPool w) + zlen ms1 * (1 + recv_cost) /\
    ioCount s' <= ioCount s + zlen ms1 + 1 /\
    (keeps_session -> (forall v, recv_accepted v) -> isReleased s = FALSE ->
       2 <= ioCount s' /\ isReleased s' = FALSE).
Proof.
  intros Hcn HF Hq Hfit [Hmax Hroom]. rewrite app_assoc in Hq.
  destruct (stream_prefix ms fs (q ++ bs) r HF (eq_sym Hq))
    as (ms1 & ms2 & fs1 & fs2 & q' & -> & -> & HF1 & HF2 & Ecut & Hinc & Erest).
  assert (Hb : bytes_ok bs).
  { pose proof (stream_bytes _ _ HF) as Hb. rewrite <- Hq in Hb.
    apply Forall_app in Hb as [Hb _]. by apply Forall_app in Hb as [_ Hb]. }
  destruct (RecvComplete_starts i sid sz q o w s bs Hcn Hb Hfit)
    as (w1 & w2 & s2 & Ek & Hcn2 & Erun & Ha2 & Hp2 & _ & Hc2 & Hr2).
  pose proof recv_cost_nonneg as Hcost.
  pose proof (zlen_nonneg ms1). pose proof (zlen_nonneg ms2). rewrite zlen_app in Hmax, Hroom.
  rewrite Ecut in Hcn2.
  destruct (recv_loop_stream (S (Z.to_nat (zlen (q ++ bs)))) i sid sz ms1 fs1 q' w2 s2 o Hcn2 HF1 Hinc)
    as (w3 & s3 & o3 & Eloop & Hcn3 & [Hlog Hm3 Hc3 Hr3]).
  { split; rewrite ?Hp2, ?Hc2; nia. }
  { pose proof (stream_length _ _ HF1). pose proof (zlen_nonneg q').
    rewrite Ecut, zlen_app. unfold zlen in *. lia. }
  rewrite (bind_run _ _ _ _ _ Eloop) in Erun. cbn iota in Erun.
  rewrite (bind_run _ _ _ _ _ (session_run _ _ _ (cn_slot _ _ _ _ _ _ _ Hcn3))) in Erun.
  destruct (PostRecv_again i sid sz q' o3 w3 s3 Hcn3 ltac:(lia))
    as (b & w4 & s4 & Ep & Hcn4 & Ha4 & Hp4 & Hlis & Hc4 & Hgo).
  pose proof (cn_count _ _ _ _ _ _ _ Hcn3) as Hge3.
  exists ms1, ms2, fs1, fs2, q', w1.
  destruct (Z.eqb_spec (isReleased s3) TRUE) as [Er|Er]; cbn [negb] in Erun.
  - exists w3, s3, o3. split_and!; try done; try (rewrite ?Hlog, ?Ha2; done); try (rewrite ?Hp2, ?Hc2 in *; lia).
    + unfold listening. by rewrite Er.
    + intros Hk _ Hf. rewrite (Hr3 Hk), Hr2, Hf in Er. done.
  - rewrite (bind_run _ _ _ _ _ Ep) in Erun. exists w4, s4, o3.
    split_and!; try done; try (rewrite ?Ha4, ?Hlog, ?Ha2; done);
      try (rewrite ?Hp4, ?Hp2, ?Hc2 in *; lia).
    intros Hk Hacc Hf. rewrite (Hr3 Hk), Hr2 in Hgo.
    destruct (Hgo Hf (Hacc w3)) as [-> ->]. split; [lia|done].
Qed.

(** ** The whole stream *)

(** The stream arrives in the pieces [bss], each by one completion of the receive. *)
Fixpoint receive_all (i : Z) (bss : list (list Z)) : M A unit :=
  match bss with
  | [] => mret tt
  | bs :: bss =>
      kernel_fills i bs;;
      worker_recv OnRecv i (zlen bs);;
      receive_all i bss
  end.

Lemma io_done_counted i sid sz q o w s :
  connected i sid sz q o w s -> 2 <= ioCount s <= 2147483647 ->
  let s' := set_ioCount s (ioCount s - 1) in
  io_done i w = Ok (tt, with_session w i s') /\ connected i sid sz q o (with_session w i s') s'.
Proof.
  intros [Hs Hid Hio Hwf Hsz Hq Hinv] H2 s'. split.
  - unfold io_done. rewrite (bind_run _ _ _ _ _ (add_ioCount_run i w s (-1) (ioCount s - 1) Hs
      ltac:(rewrite i32_id; lia))).
    destruct (Z.eqb_spec (ioCount s - 1) 0); [lia|done].
  - split; try done; [by eapply at_slot_with|cbn; lia|by eapply pkt_inv_same].
Qed.

Section Chain.
Context (Hkeeps : keeps_session) (Haccept : forall v, recv_accepted v).

Lemma receive_all_ok i sid sz bss :
  Forall (fun bs => 0 < zlen bs <= sz - 512) bss ->
  forall q o w s r ms fs,
  connected i sid sz q o w s -> isReleased s = FALSE -> incomplete q ->
  Forall2 frame_of ms fs -> q ++ concat bss ++ r = concat fs -> room_for ms w s ->
  exists ms1 ms2 fs1 fs2 q' w' s' o',
    ms = ms1 ++ ms2 /\ Forall2 frame_of ms1 fs1 /\ q ++ concat bss = concat fs1 ++ q' /\
    Forall2 frame_of ms2 fs2 /\ q' ++ r = concat fs2 /\
    incomplete q' /\ receive_all i bss w = Ok (tt, w') /\ connected i sid sz q' o' w' s' /\
    recv_log (app w') = recv_log (app w) ++ ((sid,.) <$> ms1).
Proof.
  induction 1 as [|bs bss Hbs _ IH]; intros q o w s r ms fs Hcn Hrel Hinc HF Hq Hroom.
  - exists [], ms, [], fs, q, w, s, o. split_and!; try done; [by rewrite app_nil_r|by rewrite app_nil_r].
  - cbn [concat] in *. rewrite <- (app_assoc bs) in Hq.
    pose proof (incomplete_short _ _ _ _ HF Hq Hinc) as Hshort.
    destruct (RecvComplete_step i sid sz q o w s bs (concat bss ++ r) ms fs Hcn HF Hq)
      as (ms1 & ms2 & fs1 & fs2 & q1 & w1 & w2 & s2 & o2 & -> & HF1 & HF2 & Ecut & Hinc1 & Erest &
          Ek & Er & Hcn2 & _ & Hlog & Hmax & Hcnt & Hgo); [|done|].
    { split; [lia|]. destruct Hcn as [_ _ _ Hwf Hsz Hc _].
      rewrite (GetFreeSize_free _ Hwf), <- (zlen_contents _ Hwf), Hc. unfold capacity.
      unfold MESSAGE_HEADER_LEN, PAYLOAD_MAX in Hshort. lia. }
    destruct (Hgo Hkeeps Haccept Hrel) as [Hio2 Hrel2]. destruct Hroom as [Hmax0 Hroom].
    rewrite zlen_app in Hmax0, Hroom. pose proof (zlen_nonneg ms2).
    pose proof recv_cost_nonneg as Hcost.
    destruct (io_done_counted i sid sz q1 o2 w2 s2 Hcn2 ltac:(lia)) as [Edone Hcn3].
    edestruct (IH q1 o2 _ _ r ms2 fs2 Hcn3) as
      (ms3 & ms4 & fs3 & fs4 & q' & w' & s' & o' & -> & HF3 & Ecut3 & HF4 & Erest4 & Hinc3 & Eall & Hcn' & Hlog'); try done.
    { split; cbn; [change (m_lMaxCount (pktPool w2) + zlen ms2 * (1 + recv_cost) <= POOL_LIMIT); nia|lia]. }
    exists (ms1 ++ ms3), ms4, (fs1 ++ fs3), fs4, q', w', s', o'. split_and!; try done.
    + by rewrite app_assoc.
    + by apply Forall2_app.
    + rewrite app_assoc, Ecut, <- app_assoc, Ecut3, concat_app, <- app_assoc. done.
    + cbn [receive_all]. rewrite (bind_run _ _ _ _ _ Ek). unfold worker_recv.
      rewrite (bind_run _ _ tt _ (with_session w2 i (set_ioCount s2 (ioCount s2 - 1)))).
      { done. }
      by rewrite (bind_run _ _ _ _ _ Er).
    + rewrite Hlog'. change (app (with_session _ _ _)) with (app w2). rewrite Hlog, fmap_app, <- app_assoc. done.
Qed.

End Chain.

(** C13.  One completion of a receive.  The client has sent frames of which [q] is still in
    the ring and [bs] arrives now: the call returns; the handler has been given exactly the
    messages whose frames these bytes complete, in order, decoded, under the session's
    identifier; the ring keeps exactly the rest; and unless the session was disconnected on
    the way, one more receive is posted, for all the free space of the ring. *)
Theorem RecvComplete_delivers i sid sz q o w s bs r ms fs :
  connected i sid sz q o w s ->
  Forall2 frame_of ms fs -> q ++ bs ++ r = concat fs ->
  0 < zlen bs <= RingBuffer.GetFreeSize (recvBuf s) -> room_for ms w s ->
  exists ms1 ms2 fs1 q' w1 w' s' o',
    ms = ms1 ++ ms2 /\ Forall2 frame_of ms1 fs1 /\ q ++ bs = concat fs1 ++ q' /\
    incomplete q' /\
    kernel_fills i bs w = Ok (tt, w1) /\ RecvComplete OnRecv i (zlen bs) w1 = Ok (tt, w') /\
    recv_log (app w') = recv_log (app w) ++ ((sid,.) <$> ms1) /\
    connected i sid sz q' o' w' s' /\ listening i w' s'.
Proof.
  intros Hcn HF Hq Hfit Hroom.
  destruct (RecvComplete_step i sid sz q o w s bs r ms fs Hcn HF Hq Hfit Hroom)
    as (ms1 & ms2 & fs1 & fs2 & q' & w1 & w' & s' & o' & H1 & H2 & _ & H3 & H4 & _ & H5 & H6 &
        H7 & H8 & H9 & _).
  exists ms1, ms2, fs1, q', w1, w', s', o'. by split_and!.
Qed.

(** C2.  The stream of a client, cut into completions in any way (each piece non-empty and
    no longer than the ring's size less 512).  If the handler does not disconnect the session
    and the socket accepts every receive, all the completions are processed; the handler is
    given exactly the messages whose frames have arrived whole, once each and in the order
    sent; and when the whole stream has arrived, all of them. *)
Theorem stream_reassembled i sid sz bss o w s r ms fs :
  keeps_session -> (forall v, recv_accepted v) ->
  connected i sid sz [] o w s -> isReleased s = FALSE ->
  Forall2 frame_of ms fs -> concat bss ++ r = concat fs -> room_for ms w s ->
  Forall (fun bs => 0 < zlen bs <= sz - 512) bss ->
  exists ms1 ms2 fs1 q' w' s' o',
    ms = ms1 ++ ms2 /\ Forall2 frame_of ms1 fs1 /\ concat bss = concat fs1 ++ q' /\
    incomplete q' /\ (r = [] -> ms1 = ms /\ q' = []) /\
    receive_all i bss w = Ok (tt, w') /\
    recv_log (app w') = recv_log (app w) ++ ((sid,.) <$> ms1) /\
    connected i sid sz q' o' w' s'.
Proof.
  intros Hk Ha Hcn Hrel HF Hq Hroom Hbss.
  destruct (receive_all_ok Hk Ha i sid sz bss Hbss [] o w s r ms fs Hcn Hrel nil_incomplete HF Hq Hroom)
    as (ms1 & ms2 & fs1 & fs2 & q' & w' & s' & o' & H1 & H2 & H3 & HF2 & E2 & H4 & H5 & H6 & H7).
  exists ms1, ms2, fs1, q', w', s', o'. split_and!; try done. intros ->.
  rewrite app_nil_r in E2. rewrite E2 in H4. pose proof (frames_complete _ _ HF2 H4) as ->.
  apply Forall2_nil_inv_l in HF2 as ->. by rewrite H1, app_nil_r.
Qed.
End Stream.

(** ** Witness: a handler that records, a ring of 1024 bytes, two frames in three pieces *)

Definition recorder : Type := list (Z * list Z).

Definition record_message `{Q : LockfreeQueue loc 4096} (sid : Z) (l : loc) : M recorder unit :=
  p ← packet l;
  m ← lift (head p);
  modify (fun w => set_app w (app w ++ [(sid, payload p m)])).

Lemma record_handles `{Q : LockfreeQueue loc 4096} i (w : World recorder) s o l p m :
  at_slot i w s -> 1 <= ioCount s < 2147483647 -> pkt_inv w o -> l ∈ o ->
  packets w !! l = Some p -> wf p m -> m_lMaxCount (pktPool w) + 0 <= POOL_LIMIT ->
  exists w' s' o',
    record_message (sessionID s) l w = Ok (tt, w') /\
    at_slot i w' s' /\ recvBuf s' = recvBuf s /\ sessionID s' = sessionID s /\
    ioCount s <= ioCount s' <= ioCount s + 1 /\ pkt_inv w' o' /\ l ∈ o' /\
    app w' = app w ++ [(sessionID s, payload p m)] /\
    m_lMaxCount (pktPool w') <= m_lMaxCount (pktPool w) + 0.
Proof.
  intros Hs Hio Hinv Hl Hp Hw Hlim.
  exists (set_app w (app w ++ [(sessionID s, payload p m)])), s, o.
  split; [|split_and!; try done; try lia; cbn; (lia || by eapply pkt_inv_same)].
  unfold record_message. rewrite (bind_run _ _ p _ w) by (by apply packet_run).
  rewrite (bind_run _ _ m _ w) by (apply lift_run; by eapply head_ok). done.
Qed.

Definition recording `{Q : LockfreeQueue loc 4096} : Receiver record_message := {|
  recv_log a := a;
  recv_cost := 0;
  recv_cost_nonneg := Z.le_refl 0;
  recv_handles := record_handles
|}.

Lemma recording_keeps `{Q : LockfreeQueue loc 4096} : keeps_session record_message.
Proof.
  intros i w s l w' s' Hs Hrun Hs'. apply bind_inv in Hrun as (p & w1 & Hp & Hrun).
  apply packet_inv in Hp as [_ ->].
  apply bind_inv in Hrun as (m & w2 & Hm & Hrun). apply lift_inv in Hm as [_ ->].
  injection Hrun as <-. by rewrite (at_slot_fun _ _ _ _ Hs' Hs).
Qed.

Definition silent_recorder : ServerApp recorder := {|
  OnClientJoin _ _ a := Ok a;
  OnClientLeave _ a := Ok a;
  OnConnectionRequest _ _ := true
|}.

Definition stream_rt : Runtime := zero_runtime 1.

Definition reading : Session (Q := queue4096) :=
  mkSession (Q := queue4096) (Some 5) (COMBINE_ID_INDEX 1 0) 0 0 0 0 1 [] []
    (mkRing 0 0 1024 (replicate 1024 0)) 0.

Definition reading_world : World (Q := queue4096) recorder :=
  mkWorld [reading] [] 1 1 1 0 0 1 1 ∅ (CLFFreeList_new [] false) [] [PendingRecv 0 []] [] 0.

Definition frame_bytes_of (key : Z) (msg : list Z) : list Z :=
  header_bytes (mkHeader PACKET_CODE (zlen msg) key (sum_list msg mod 256)) ++
  enc_list key 0 0 0 msg.

Lemma frame_bytes_of_ok key msg :
  0 <= key < 256 -> bytes_ok msg -> 0 < zlen msg <= PAYLOAD_MAX ->
  frame_of msg (frame_bytes_of key msg).
Proof. intros. by exists key. Qed.

Definition two_messages : list (list Z) := [[11; 0; 7]; sample_payload].
Definition two_frames : list (list Z) :=
  [frame_bytes_of 41 [11; 0; 7]; frame_bytes_of 200 sample_payload].

Lemma two_frames_ok : Forall2 frame_of two_messages two_frames.
Proof.
  assert (Hb : forall bs, forallb (fun b => (0 <=? b) && (b <? 256)) bs = true -> bytes_ok bs).
  { intros bs H. apply Forall_forall. rewrite forallb_forall in H. intros b Hin.
    apply H in Hin. lia. }
  apply Forall2_cons_2; [|apply Forall2_cons_2; [|apply Forall2_nil_2]];
    (apply frame_bytes_of_ok;
       [lia|by apply Hb|vm_compute; split; [reflexivity|discriminate]]).
Qed.

Lemma reading_connected :
  connected 0 (COMBINE_ID_INDEX 1 0) 1024 [] ∅ reading_world reading.
Proof.
  destruct (fresh_ring_ok 1024 ltac:(lia)) as (Hwf & Hc & _).
  split; try done.
  split; try done; [exists []; split; try done; constructor|..];
    intros l p H; cbn in H; by rewrite lookup_empty in H.
Qed.

(** Twelve of the eighteen bytes: the first message has arrived, the second has not. *)
Lemma RecvComplete_delivers_witness :
  let bs := take 12 (concat two_frames) in
  let r := drop 12 (concat two_frames) in
  (([] : list Z) ++ bs ++ r = concat two_frames) /\
  exists ms1 ms2 fs1 q' w1 w' s' o',
    two_messages = ms1 ++ ms2 /\ Forall2 frame_of ms1 fs1 /\ [] ++ bs = concat fs1 ++ q' /\
    incomplete q' /\
    kernel_fills 0 bs reading_world = Ok (tt, w1) /\
    RecvComplete (W := accepting_windows) (R := stream_rt) (App := silent_recorder)
      record_message 0 (zlen bs) w1 = Ok (tt, w') /\
    app w' = [] ++ ((COMBINE_ID_INDEX 1 0,.) <$> ms1) /\
    connected 0 (COMBINE_ID_INDEX 1 0) 1024 q' o' w' s' /\ listening 0 w' s'.
Proof.
  intros bs r. assert (E : ([] : list Z) ++ bs ++ r = concat two_frames) by reflexivity.
  split; [exact E|].
  apply (RecvComplete_delivers (W := accepting_windows) (R := stream_rt) (App := silent_recorder)
    (ex_intro _ _ eq_refl) record_message (HR := recording) 0 (COMBINE_ID_INDEX 1 0) 1024 []
    ∅ reading_world reading bs r two_messages two_frames reading_connected two_frames_ok E).
  - vm_compute. split; [reflexivity|discriminate].
  - vm_compute. split; [discriminate|reflexivity].
Defined.

(** The same bytes and the rest, in pieces of 4, 9 and 5 bytes: both messages are handled. *)
Lemma stream_reassembled_witness :
  let all := concat two_frames in
  let bss := [take 4 all; take 9 (drop 4 all); drop 13 all] in
  concat bss ++ [] = all /\
  exists ms1 ms2 fs1 q' w' s' o',
    two_messages = ms1 ++ ms2 /\ Forall2 frame_of ms1 fs1 /\ concat bss = concat fs1 ++ q' /\
    incomplete q' /\ ([] = @nil Z -> ms1 = two_messages /\ q' = []) /\
    receive_all (W := accepting_windows) (R := stream_rt) (App := silent_recorder)
      record_message 0 bss reading_world = Ok (tt, w') /\
    app w' = [] ++ ((COMBINE_ID_INDEX 1 0,.) <$> ms1) /\
    connected 0 (COMBINE_ID_INDEX 1 0) 1024 q' o' w' s'.
Proof.
  intros all bss. assert (E : concat bss ++ [] = all) by reflexivity. split; [exact E|].
  apply (stream_reassembled (W := accepting_windows) (R := stream_rt) (App := silent_recorder)
    (ex_intro _ _ eq_refl) record_message (HR := recording) 0 (COMBINE_ID_INDEX 1 0) 1024 bss
    ∅ reading_world reading [] two_messages two_frames recording_keeps
    (fun v => or_introl eq_refl) reading_connected eq_refl two_frames_ok E).
  - vm_compute. split; [discriminate|reflexivity].
  - repeat (apply Forall_cons_2; [vm_compute; split; [reflexivity|discriminate]|]).
    apply Forall_nil_2.
Defined.
