(* ===== verification/Sessions.v ===== *)
(** * The life of a session (theorems on [Iocp])

    What a session owns when it goes: one reference for every packet in its two queues.
    [ReleaseSession] and [SendComplete] give exactly those back.  [SessionLock] is how other
    threads reach a session by its identifier; what it does with an identifier that is out of
    date depends on whether somebody is using the slot. *)

From S2P Require Import Prelude RingBuffer Packet Codec FreeList Message World PacketHeap Iocp.

(** ** Giving references back *)

(** How often [l] occurs in [ls]. *)
Definition occ (l : loc) (ls : list loc) : Z := zlen (filter (fun x => x = l) ls).

Lemma occ_nil l : occ l [] = 0.
Proof. done. Qed.

Lemma occ_cons l x ls : occ l (x :: ls) = (if decide (x = l) then 1 else 0) + occ l ls.
Proof. unfold occ. rewrite filter_cons. destruct (decide (x = l)); [by rewrite zlen_cons|lia]. Qed.

Lemma occ_app l ls ls' : occ l (ls ++ ls') = occ l ls + occ l ls'.
Proof. unfold occ. by rewrite list.filter_app, zlen_app. Qed.

Lemma occ_nonneg l ls : 0 <= occ l ls.
Proof. apply zlen_nonneg. Qed.

Lemma occ_in l ls : l ∈ ls -> 1 <= occ l ls.
Proof.
  induction 1 as [l ls|l x ls _ IH]; rewrite occ_cons.
  - rewrite decide_True by done. pose proof (occ_nonneg l ls). lia.
  - case_decide; lia.
Qed.

Section Life.
Context {Q : LockfreeQueue loc 4096} {A : Type}.
Context {W : Windows} {R : Runtime} {App : ServerApp A}.

Implicit Types w : World A.

(** Every packet of [ls] exists and its count covers its occurrences. *)
Definition owns (ls : list loc) w : Prop :=
  forall l, l ∈ ls -> exists p, packets w !! l = Some p /\ occ l ls <= m_lRefCount p.

(** One reference less for every occurrence in [ls], and nothing else. *)
Record gave_back (ls : list loc) w w' : Prop := {
  gb_refs : forall l, packets w' !! l =
    (fun p => with_ref p (m_lRefCount p - occ l ls)) <$> packets w !! l;
  gb_rest : w' = set_packets w (packets w') (pktPool w');
  gb_max : m_lMaxCount (pktPool w') = m_lMaxCount (pktPool w)
}.

Lemma with_ref_same p : with_ref p (m_lRefCount p) = p.
Proof. by destruct p. Qed.

Lemma gave_back_nil w : gave_back [] w w.
Proof.
  split; [|by destruct w|done]. intros l. destruct (packets w !! l); [|done]. cbn.
  by rewrite Z.sub_0_r, with_ref_same.
Qed.

Lemma gave_back_app ls ls' w w1 w2 :
  gave_back ls w w1 -> gave_back ls' w1 w2 -> gave_back (ls ++ ls') w w2.
Proof.
  intros [R1 E1 M1] [R2 E2 M2]. split; [|by rewrite E2, E1|lia].
  intros l. rewrite R2, R1, occ_app. destruct (packets w !! l); [|done]. cbn.
  do 2 f_equal. lia.
Qed.

Lemma owns_app ls ls' w w1 : owns (ls ++ ls') w -> gave_back ls w w1 -> owns ls' w1.
Proof.
  intros Ho [Hr _ _] l Hl. destruct (Ho l) as (p & Hp & Hc); [apply elem_of_app; by right|].
  rewrite Hr, Hp. eexists. split; [done|]. cbn. rewrite occ_app in Hc. lia.
Qed.

Lemma owns_cons l ls w : owns (l :: ls) w ->
  exists p, packets w !! l = Some p /\ 1 <= m_lRefCount p.
Proof.
  intros Ho. destruct (Ho l) as (p & Hp & Hc); [apply list_elem_of_here|]. exists p.
  split; [done|]. pose proof (occ_in l (l :: ls) (list_elem_of_here _ _)). lia.
Qed.

(** [SubRef] on one packet. *)
Lemma SubRef_gives_back w o l ls :
  pkt_inv w o -> owns (l :: ls) w -> m_lMaxCount (pktPool w) <= POOL_LIMIT ->
  exists w' o', CPacket_SubRef l w = Ok (tt, w') /\ gave_back [l] w w' /\ pkt_inv w' o'.
Proof.
  intros Hinv Ho Hlim. destruct (owns_cons _ _ _ Ho) as (p & Hp & Hr).
  assert (Hlo : l ∈ o) by (by apply (pk_refs _ _ Hinv _ _ Hp)).
  destruct (CPacket_SubRef_ok w o l p Hinv Hp Hlo Hlim) as (pool' & E & Hinv' & Hmax).
  eexists _, _. split; [exact E|]. split; [|exact Hinv']. split; [|done|done].
  intros x. rewrite occ_cons, occ_nil. cbn. destruct (decide (l = x)) as [->|Hne].
  - rewrite lookup_insert_eq, Hp. done.
  - rewrite lookup_insert_ne by done. destruct (packets w !! x); [|done]. cbn.
    by rewrite Z.sub_0_r, with_ref_same.
Qed.

Lemma release_all_ok n (q : lfq loc 4096) w o :
  n = length (elems q) -> pkt_inv w o -> owns (elems q) w ->
  m_lMaxCount (pktPool w) <= POOL_LIMIT ->
  exists q' w' o', release_all n q w = Ok (q', w') /\ elems q' = [] /\
    gave_back (elems q) w w' /\ pkt_inv w' o'.
Proof.
  revert q w o. induction n as [|n IH]; intros q w o Hn Hinv Ho Hlim; cbn [release_all];
    destruct (lfq_pop q) as [[l q1]|] eqn:Ep.
  - apply pop_cons in Ep. by rewrite Ep in Hn.
  - apply pop_nil in Ep. exists q, w, o. rewrite Ep. split_and!; try done. apply gave_back_nil.
  - apply pop_cons in Ep. rewrite Ep in Hn, Ho |- *. cbn in Hn.
    destruct (SubRef_gives_back w o l _ Hinv Ho Hlim) as (w1 & o1 & E1 & Hg1 & Hinv1).
    destruct (IH q1 w1 o1) as (q' & w' & o' & E & Hq & Hg & Hinv'); [lia|done| | |].
    + by apply (owns_app [l] (elems q1) w).
    + by rewrite (gb_max _ _ _ Hg1).
    + exists q', w', o'. rewrite (bind_run _ _ _ _ _ E1). split_and!; try done.
      by apply (gave_back_app [l] _ w w1).
  - apply pop_nil in Ep. by rewrite Ep in Hn.
Qed.

(** *** Emptying the queues of a session *)

Lemma at_slot_packets i w s m p : at_slot i w s -> at_slot i (set_packets w m p) s.
Proof. done. Qed.

Lemma gave_back_slot ls i w w' s : gave_back ls w w' -> at_slot i w s -> at_slot i w' s.
Proof. intros [_ -> _] H. exact H. Qed.

Lemma drain_sendBuf_ok i w s o :
  at_slot i w s -> pkt_inv w o -> owns (elems (sendBuf s)) w ->
  m_lMaxCount (pktPool w) <= POOL_LIMIT ->
  exists q w' o', drain_sendBuf i w = Ok (tt, with_session w' i (set_sendBuf s q)) /\
    elems q = [] /\ gave_back (elems (sendBuf s)) w w' /\ pkt_inv w' o'.
Proof.
  intros Hs Hinv Ho Hlim. unfold drain_sendBuf. rewrite (bind_run _ _ _ _ _ (session_run _ _ _ Hs)).
  destruct (release_all_ok _ (sendBuf s) w o eq_refl Hinv Ho Hlim) as (q & w' & o' & E & Hq & Hg & Hinv').
  rewrite (bind_run _ _ _ _ _ E). exists q, w', o'. split_and!; try done.
  by rewrite (update_run _ _ _ _ (gave_back_slot _ _ _ _ _ Hg Hs)).
Qed.

Lemma drain_completeSendBuf_ok i w s o :
  at_slot i w s -> pkt_inv w o -> owns (elems (completeSendBuf s)) w ->
  m_lMaxCount (pktPool w) <= POOL_LIMIT ->
  exists q w' o', drain_completeSendBuf i w = Ok (tt, with_session w' i (set_completeSendBuf s q)) /\
    elems q = [] /\ gave_back (elems (completeSendBuf s)) w w' /\ pkt_inv w' o'.
Proof.
  intros Hs Hinv Ho Hlim. unfold drain_completeSendBuf.
  rewrite (bind_run _ _ _ _ _ (session_run _ _ _ Hs)).
  destruct (release_all_ok _ (completeSendBuf s) w o eq_refl Hinv Ho Hlim)
    as (q & w' & o' & E & Hq & Hg & Hinv').
  rewrite (bind_run _ _ _ _ _ E). exists q, w', o'. split_and!; try done.
  by rewrite (update_run _ _ _ _ (gave_back_slot _ _ _ _ _ Hg Hs)).
Qed.

(** With both queues empty, [Init] only resets the members. *)
Definition freed (s : Session) : Session :=
  mkSession None INVALID_ID 0 FALSE 0 FALSE 0 (sendBuf s) (completeSendBuf s) (recvBuf s) 0.

Lemma release_none n (q : lfq loc 4096) w :
  elems q = [] -> release_all n q w = Ok (q, w).
Proof.
  intros Hq. destruct (lfq_pop q) as [[l q']|] eqn:Ep.
  - apply pop_cons in Ep. congruence.
  - destruct n; cbn [release_all]; by rewrite Ep.
Qed.

Lemma Session_Init_ok i w s :
  at_slot i w s -> elems (sendBuf s) = [] -> elems (completeSendBuf s) = [] ->
  Session_Init i w = Ok (tt, with_session w i (freed s)).
Proof.
  intros Hs H1 H2. unfold Session_Init, drain_sendBuf, drain_completeSendBuf.
  rewrite (bind_run _ _ _ _ _ (update_run _ _ _ _ Hs)). cbv beta.
  set (s1 := mkSession _ _ _ _ _ _ _ _ _ _ _).
  assert (Hs1 : at_slot i (with_session w i s1) s1) by (by eapply at_slot_with).
  erewrite bind_run; cycle 1.
  { rewrite (bind_run _ _ _ _ _ (session_run _ _ _ Hs1)).
    rewrite (bind_run _ _ _ _ _ (release_none _ (sendBuf s1) _ H1)).
    apply (update_run _ _ _ _ Hs1). }
  rewrite with_session_twice. change (set_sendBuf s1 (sendBuf s1)) with s1.
  erewrite bind_run; cycle 1.
  { rewrite (bind_run _ _ _ _ _ (session_run _ _ _ Hs1)).
    rewrite (bind_run _ _ _ _ _ (release_none _ (completeSendBuf s1) _ H2)).
    apply (update_run _ _ _ _ Hs1). }
  rewrite with_session_twice. change (set_completeSendBuf s1 (completeSendBuf s1)) with s1.
  by rewrite (update_run _ _ _ _ Hs1), with_session_twice.
Qed.

(** ** [ReleaseSession] *)

(** The slot [i] of [v] reset and back on the stack, the derived object being [a]. *)
Definition released (v : World A) (i : Z) (s' : Session) (idx : Z) (a : A) : World A :=
  set_counters
    (set_indexStack (with_session (set_app v a) i s') (i32 idx :: indexStack v))
    (i64 (sessionCount v + -1)) (sendTPS v) (recvTPS v) (acceptTPS v) (acceptCount v).

(** The session of a free slot. *)
Definition blank (s s' : Session) : Prop :=
  exists q1 q2, elems q1 = [] /\ elems q2 = [] /\
    s' = mkSession None INVALID_ID 0 FALSE 0 FALSE 0 q1 q2 (ClearBuffer (recvBuf s)) 0.

Definition queued (s : Session) : list loc := elems (sendBuf s) ++ elems (completeSendBuf s).

Lemma gave_back_with ls w w' i s :
  gave_back ls w w' -> gave_back ls (with_session w i s) (with_session w' i s).
Proof. intros [Hr E Hm]. split; [exact Hr|by rewrite E|exact Hm]. Qed.

Lemma gave_back_app_field ls w w' a :
  gave_back ls (set_app w a) w' -> gave_back ls w (set_packets w (packets w') (pktPool w')).
Proof. intros [Hr E Hm]. by split. Qed.

Lemma ReleaseSession_ok i w s o a :
  at_slot i w s -> pkt_inv w o -> owns (queued s) w ->
  m_lMaxCount (pktPool w) <= POOL_LIMIT -> OnClientLeave (sessionID s) (app w) = Ok a ->
  exists v s' o', ReleaseSession i w = Ok (tt, released v i s' (index s) a) /\
    blank s s' /\ gave_back (queued s) w v /\ pkt_inv v o'.
Proof.
  intros Hs Hinv Ho Hlim Ha. unfold ReleaseSession.
  rewrite (bind_run _ _ _ _ _ (session_run _ _ _ Hs)).
  assert (Ecall : call_OnClientLeave (sessionID s) w = Ok (tt, set_app w a)).
  { unfold call_OnClientLeave. rewrite (bind_run _ _ w _ w) by done.
    by rewrite (bind_run _ _ a _ w) by (by apply lift_run). }
  rewrite (bind_run _ _ _ _ _ Ecall). set (w0 := set_app w a).
  assert (Hs0 : at_slot i w0 s) by exact Hs.
  assert (Hinv0 : pkt_inv w0 o) by (by eapply pkt_inv_same).
  assert (Ho0 : owns (elems (sendBuf s)) w0).
  { intros l Hl. destruct (Ho l) as (p & Hp & Hc); [apply elem_of_app; by left|].
    exists p. split; [done|]. unfold queued in Hc. rewrite occ_app in Hc.
    pose proof (occ_nonneg l (elems (completeSendBuf s))). lia. }
  destruct (drain_sendBuf_ok i w0 s o Hs0 Hinv0 Ho0 Hlim) as (q1 & w1 & o1 & E1 & Hq1 & Hg1 & Hinv1).
  rewrite (bind_run _ _ _ _ _ E1). set (s1 := set_sendBuf s q1). set (w1' := with_session w1 i s1).
  assert (Hs1 : at_slot i w1' s1) by (eapply at_slot_with, gave_back_slot; eassumption).
  assert (Ho1 : owns (elems (completeSendBuf s1)) w1).
  { apply (owns_app (elems (sendBuf s)) _ w0); [exact Ho|exact Hg1]. }
  destruct (drain_completeSendBuf_ok i w1' s1 o1 Hs1) as (q2 & w2 & o2 & E2 & Hq2 & Hg2 & Hinv2);
    [by eapply pkt_inv_same|exact Ho1|
     change (m_lMaxCount (pktPool w1) <= POOL_LIMIT); by rewrite (gb_max _ _ _ Hg1)|].
  rewrite (bind_run _ _ _ _ _ E2). set (s2 := set_completeSendBuf s1 q2).
  assert (Hs2 : at_slot i (with_session w2 i s2) s2) by (eapply at_slot_with, gave_back_slot; eassumption).
  rewrite (bind_run _ _ _ _ _ (session_run _ _ _ Hs2)). cbv zeta.
  rewrite (bind_run _ _ _ _ _ (update_run _ _ _ _ Hs2)), with_session_twice.
  set (s3 := set_recvBuf s2 _).
  assert (Hs3 : at_slot i (with_session w2 i s3) s3) by (eapply at_slot_with, gave_back_slot; eassumption).
  rewrite (bind_run _ _ _ _ _ (Session_Init_ok i _ s3 Hs3 Hq1 Hq2)), with_session_twice.
  exists (set_packets w (packets w2) (pktPool w2)), (freed s3), o2. split_and!.
  - unfold PushIndex, bump_sessionCount.
    rewrite (bind_run _ _ _ _ _ (eq_refl : modify _ _ = Ok (tt, _))).
    unfold modify. do 2 f_equal. unfold released.
    rewrite (gb_rest _ _ _ Hg2). unfold w1'. rewrite (gb_rest _ _ _ Hg1). unfold w0.
    unfold with_session. cbn. by rewrite list_insert_insert_eq.
  - by exists q1, q2.
  - unfold queued. destruct Hg1 as [R1 M1 X1], Hg2 as [R2 M2 X2]. split; cbn.
    + intros l. rewrite R2. cbn. rewrite R1, occ_app. cbn. destruct (packets w !! l); [|done]. cbn.
      do 2 f_equal. lia.
    + done.
    + rewrite X2. cbn. by rewrite X1.
  - by eapply pkt_inv_same.
Qed.

(** C16.  [ReleaseSession], for a session that owns one reference for each packet in its two
    queues and whose departure the derived class handles: it returns; exactly those
    references are given back, a packet whose count reaches zero going back to the pool; the
    slot is blank, with the ring emptied; the session's index is on the stack again; and one
    session less is counted. *)
Theorem ReleaseSession_spec i w s o a :
  at_slot i w s -> pkt_inv w o -> owns (queued s) w ->
  m_lMaxCount (pktPool w) <= POOL_LIMIT -> OnClientLeave (sessionID s) (app w) = Ok a ->
  exists v s' o', ReleaseSession i w = Ok (tt, released v i s' (index s) a) /\
    blank s s' /\ gave_back (queued s) w v /\ pkt_inv (released v i s' (index s) a) o'.
Proof.
  intros Hs Hinv Ho Hlim Ha.
  destruct (ReleaseSession_ok i w s o a Hs Hinv Ho Hlim Ha) as (v & s' & o' & E & Hb & Hg & Hinv').
  exists v, s', o'. split_and!; try done. by eapply pkt_inv_same.
Qed.

(** ** [SessionLock] *)

Lemma i32_index sid : i32 (GET_SESSION_INDEX sid) = GET_SESSION_INDEX sid.
Proof.
  unfold GET_SESSION_INDEX. change 65535 with (Z.ones 16). rewrite Z.land_ones by lia.
  apply i32_id. pose proof (Z.mod_pos_bound sid (2 ^ 16) ltac:(lia)). lia.
Qed.

Section Lock.
Context (i : Z) (w : World A) (s : Session) (sid : Z).
Context (Hs : at_slot i w s) (Hio : 0 <= ioCount s < 2147483647).
Context (Hi : GET_SESSION_INDEX sid = i).

Let s1 := set_ioCount s (ioCount s + 1).

Lemma lock_counts {B} (f : Z -> M A B) :
  (add_ioCount (i32 (GET_SESSION_INDEX sid)) 1 ≫= f) w = f (ioCount s + 1) (with_session w i s1) /\
  at_slot i (with_session w i s1) s1 /\
  add_ioCount i (-1) (with_session w i s1) = Ok (ioCount s, w).
Proof.
  rewrite i32_index, Hi.
  assert (Hs1 : at_slot i (with_session w i s1) s1) by (by eapply at_slot_with).
  split; [|split; [done|]].
  - by rewrite (bind_run _ _ _ _ _ (add_ioCount_run i w s 1 _ Hs ltac:(apply i32_id; lia))).
  - rewrite (add_ioCount_run i _ s1 (-1) (ioCount s) Hs1) by (cbn; rewrite i32_id; lia).
    rewrite with_session_twice. change (set_ioCount s1 (ioCount s)) with (set_ioCount s (ioCount s)).
    replace (set_ioCount s (ioCount s)) with s by (by destruct s). by rewrite with_session_same.
Qed.

Lemma SessionLock_valid :
  sid = sessionID s -> isReleased s = FALSE ->
  SessionLock sid w = Ok (Some i, with_session w i s1).
Proof.
  intros Hid Hr. unfold SessionLock. destruct (lock_counts (B := option Z) (fun _ => mret None)) as (_ & Hs1 & _).
  cbv zeta. rewrite (proj1 (lock_counts _)). cbv beta. rewrite i32_index, Hi.
  rewrite (bind_run _ _ _ _ _ (session_run _ _ _ Hs1)).
  change (sessionID s1) with (sessionID s). change (isReleased s1) with (isReleased s).
  rewrite Hr, <- Hid, Z.eqb_refl. cbn [negb orb Z.eqb].
  rewrite (bind_run _ _ _ _ _ (session_run _ _ _ Hs1)).
  change (sessionID s1) with (sessionID s). change (isReleased s1) with (isReleased s).
  by rewrite Hr, <- Hid, Z.eqb_refl.
Qed.

Lemma SessionLock_invalid :
  sid <> sessionID s \/ isReleased s <> FALSE ->
  SessionLock sid w = ((if ioCount s =? 0 then ReleaseSession i else mret tt);; mret None) w.
Proof.
  intros Hbad. unfold SessionLock. destruct (lock_counts (B := option Z) (fun _ => mret None)) as (_ & Hs1 & Hm).
  cbv zeta. rewrite (proj1 (lock_counts _)). cbv beta. rewrite i32_index, Hi.
  rewrite (bind_run _ _ _ _ _ (session_run _ _ _ Hs1)).
  change (sessionID s1) with (sessionID s). change (isReleased s1) with (isReleased s).
  assert (Ec : negb (sid =? sessionID s) || negb (isReleased s =? FALSE) = true).
  { rewrite orb_true_iff, !negb_true_iff, !Z.eqb_neq. exact Hbad. }
  by rewrite Ec, (bind_run _ _ _ _ _ Hm).
Qed.
End Lock.

(** C20.  [SessionLock] with an identifier of the slot [i].  If it is the identifier of the
    session there and that session is not being released, the slot is returned with one
    more operation counted.  Otherwise nothing is returned and, as long as an operation is in
    flight on the slot, nothing changes; but with none in flight, which is also how a free
    slot looks, the slot is released. *)
Theorem SessionLock_spec i w s sid :
  at_slot i w s -> 0 <= ioCount s < 2147483647 -> GET_SESSION_INDEX sid = i ->
  (sid = sessionID s -> isReleased s = FALSE ->
     SessionLock sid w = Ok (Some i, with_session w i (set_ioCount s (ioCount s + 1)))) /\
  (sid <> sessionID s \/ isReleased s <> FALSE -> 0 < ioCount s ->
     SessionLock sid w = Ok (None, w)) /\
  (sid <> sessionID s \/ isReleased s <> FALSE -> ioCount s = 0 ->
     SessionLock sid w = (ReleaseSession i;; mret None) w).
Proof.
  intros Hs Hio Hi. split_and!.
  - by apply SessionLock_valid.
  - intros Hbad Hpos. rewrite (SessionLock_invalid i w s sid Hs Hio Hi Hbad).
    by destruct (Z.eqb_spec (ioCount s) 0); [lia|].
  - intros Hbad H0. rewrite (SessionLock_invalid i w s sid Hs Hio Hi Hbad). by rewrite H0.
Qed.

(** An identifier out of date.  Looking up any identifier of a free slot (one that
    [Init] has reset) pushes index 0 on the stack of free slots and counts one session less,
    although no session has ended; the slot stays free.  Slot 0 is then handed to the next
    client even when another client is using it. *)
Theorem stale_id_frees_slot_0 i w s s0 sid o a :
  at_slot i w s -> blank s0 s -> pkt_inv w o -> m_lMaxCount (pktPool w) <= POOL_LIMIT ->
  GET_SESSION_INDEX sid = i -> sid <> INVALID_ID -> OnClientLeave INVALID_ID (app w) = Ok a ->
  exists w' s', SessionLock sid w = Ok (None, w') /\
    indexStack w' = 0 :: indexStack w /\ sessionCount w' = i64 (sessionCount w - 1) /\
    sessionArray w' = <[Z.to_nat i := s']> (sessionArray w) /\ blank s s' /\
    packets w' = packets w /\ app w' = a.
Proof.
  intros Hs (q1 & q2 & H1 & H2 & ->) Hinv Hlim Hi Hsid Ha. set (s := mkSession _ _ _ _ _ _ _ _ _ _ _) in *.
  assert (Hq : queued s = []) by (unfold queued; cbn; by rewrite H1, H2).
  destruct (ReleaseSession_ok i w s o a Hs Hinv) as (v & s' & o' & E & Hb & Hg & _); [|done|done|].
  { rewrite Hq. intros l Hl. by apply elem_of_nil in Hl. }
  assert (Hlock : SessionLock sid w = ((if ioCount s =? 0 then ReleaseSession i else mret tt);; mret None) w).
  { apply (SessionLock_invalid i w s sid Hs); [cbn; lia|done|by left]. }
  change (ioCount s =? 0) with true in Hlock. cbn iota in Hlock.
  rewrite (bind_run _ _ _ _ _ E) in Hlock. rewrite Hq in Hg. destruct Hg as [Hr Er _].
  eexists _, s'. split; [exact Hlock|]. unfold released. rewrite Er. cbn. split_and!; try done.
  apply map_eq. intros l. rewrite Hr. destruct (packets w !! l) as [p|]; [|done]. cbn.
  by rewrite Z.sub_0_r, with_ref_same.
Qed.

(** *** The slot of another client *)

(** Looking up an out-of-date identifier of the free slot [i]. *)
Lemma stale_lookup i w s s0 sid o a :
  at_slot i w s -> blank s0 s -> pkt_inv w o -> m_lMaxCount (pktPool w) <= POOL_LIMIT ->
  GET_SESSION_INDEX sid = i -> sid <> INVALID_ID -> OnClientLeave INVALID_ID (app w) = Ok a ->
  exists v s', Disconnect sid w = Ok (tt, released v i s' 0 a) /\
    v = set_packets w (packets v) (pktPool v).
Proof.
  intros Hs (q1 & q2 & H1 & H2 & ->) Hinv Hlim Hi Hsid Ha. set (s := mkSession _ _ _ _ _ _ _ _ _ _ _) in *.
  assert (Hq : queued s = []) by (unfold queued; cbn; by rewrite H1, H2).
  destruct (ReleaseSession_ok i w s o a Hs Hinv) as (v & s' & o' & E & _ & Hg & _); [|done|done|].
  { rewrite Hq. intros l Hl. by apply elem_of_nil in Hl. }
  exists v, s'. split; [|apply Hg]. unfold Disconnect.
  rewrite (bind_run _ _ None _ (released v i s' (index s) a)); [done|].
  rewrite (SessionLock_invalid i w s sid Hs ltac:(cbn; lia) Hi (or_introl Hsid)).
  change (ioCount s =? 0) with true. cbn iota. by rewrite (bind_run _ _ _ _ _ E).
Qed.

(** The session of a new client in the slot of [s]. *)
Definition taken (w : World A) (s : Session) (socket now : Z) : Session :=
  mkSession (Some socket) (COMBINE_ID_INDEX (u64 (nextID w + 1)) 0) 0 (isSendFlag s) (sendCount s)
    (isReleased s) (ioCount s) (sendBuf s) (completeSendBuf s) (ClearBuffer (recvBuf s)) now.

(** [CreateSession] when the free slot on top is the slot 0. *)
Lemma CreateSession_slot_0 w s st socket :
  at_slot 0 w s -> indexStack w = 0 :: st ->
  exists w', CreateSession socket w = Ok (0, w') /\
    at_slot 0 w' (taken w s socket (GetTickCount64 (clock w))) /\
    sessionArray w' = <[0%nat := taken w s socket (GetTickCount64 (clock w))]> (sessionArray w) /\
    clock w' = S (clock w) /\ app w' = app w /\ indexStack w' = st /\ sent w' = sent w.
Proof.
  intros Hs Hst. set (id := u64 (nextID w + 1)). set (s1 := taken w s socket (GetTickCount64 (clock w))).
  set (w0 := set_nextID (set_indexStack w st) id). set (w1 := set_clock w0 (S (clock w))).
  set (w2 := with_session w1 0 s1).
  exists (set_counters w2 (i64 (sessionCount w + 1)) (sendTPS w) (recvTPS w)
    (i64 (acceptTPS w + 1)) (i64 (acceptCount w + 1))).
  split; [|split; [by apply (at_slot_with 0 w1 s)|done]].
  unfold CreateSession, PopIndex. rewrite (bind_run _ _ 0 _ (set_indexStack w st)).
  2: { rewrite (bind_run _ _ w _ w) by done. by rewrite Hst. }
  rewrite (bind_run _ _ (set_indexStack w st) _ (set_indexStack w st)) by done. cbv zeta.
  rewrite (bind_run _ _ tt _ w0) by done.
  rewrite (bind_run _ _ _ _ _ (session_run 0 w0 s Hs)).
  rewrite (bind_run _ _ (clock w) _ w1) by done.
  by rewrite (bind_run _ _ _ _ _ (put_session_run 0 w1 s s1 Hs)).
Qed.

(** A receive that the socket accepts. *)
Lemma PostRecv_accepted i w s :
  at_slot i w s -> isReleased s = FALSE -> 0 <= ioCount s < 2147483647 ->
  WSARecv_error (clock w) = None ->
  exists w', PostRecv i w = Ok (true, w') /\
    sessionArray w' = <[Z.to_nat i := set_ioCount s (ioCount s + 1)]> (sessionArray w) /\
    indexStack w' = indexStack w /\ sent w' = sent w.
Proof.
  intros Hs Hrel Hio Hrecv. unfold PostRecv. rewrite (bind_run _ _ _ _ _ (session_run _ _ _ Hs)), Hrel.
  cbn [Z.eqb].
  rewrite (bind_run _ _ _ _ _ (add_ioCount_run i w s 1 (ioCount s + 1) Hs ltac:(apply i32_id; lia))).
  set (w1 := with_session w i _). rewrite (bind_run _ _ (clock w) _ (set_clock w1 (S (clock w)))) by done.
  rewrite Hrecv. by eexists.
Qed.

(** Accepting a client into the slot 0. *)
Lemma accept_turn_slot_0 w s st socket port a :
  at_slot 0 w s -> indexStack w = 0 :: st -> sessionCount w < maxClientCount w ->
  OnConnectionRequest port (app w) = true ->
  OnClientJoin (COMBINE_ID_INDEX (u64 (nextID w + 1)) 0) (GetTickCount64 (S (clock w))) (app w) = Ok a ->
  isReleased s = FALSE -> 0 <= ioCount s < 2147483647 ->
  WSARecv_error (S (S (clock w))) = None ->
  let s' := set_ioCount (taken w s socket (GetTickCount64 (clock w))) (ioCount s + 1) in
  exists w', accept_turn socket port w = Ok (tt, w') /\ at_slot 0 w' s' /\
    indexStack w' = st /\ sent w' = sent w.
Proof.
  intros Hs Hst Hlt Hreq Hjoin Hrel Hio Hrecv s'. unfold accept_turn.
  rewrite (bind_run _ _ w _ w) by done. rewrite Z.geb_leb.
  destruct (Z.leb_spec (maxClientCount w) (sessionCount w)); [lia|]. rewrite Hreq.
  destruct (CreateSession_slot_0 w s st socket Hs Hst) as (w1 & E1 & Hs1 & _ & Ec & Ea & Et & Eu).
  rewrite (bind_run _ _ _ _ _ E1), (bind_run _ _ _ _ _ (session_run _ _ _ Hs1)).
  cbn [sessionID taken]. set (w2 := set_app (set_clock w1 (S (S (clock w)))) a).
  rewrite (bind_run _ _ tt _ w2).
  2: { unfold call_OnClientJoin. rewrite (bind_run _ _ (S (clock w)) _ (set_clock w1 (S (S (clock w))))).
       2: { unfold tick. by rewrite Ec. }
       rewrite (bind_run _ _ (set_clock w1 (S (S (clock w)))) _ (set_clock w1 (S (S (clock w))))) by done.
       by rewrite (bind_run _ _ a _ (set_clock w1 (S (S (clock w))))) by (apply lift_run; by cbn; rewrite Ea). }
  destruct (PostRecv_accepted 0 w2 _ Hs1 Hrel Hio Hrecv) as (w' & Ep & Es & Et' & Eu').
  exists w'. rewrite (bind_run _ _ _ _ _ Ep). split; [done|]. rewrite Et', Eu'. split; [|done].
  unfold at_slot. rewrite Es. by apply (at_slot_with 0 w2 _ s' Hs1).
Qed.

(** C21.  Two clients in slot 0.  A client is connected in slot 0 and the slot [i] is free; a
    thread that still has an identifier of [i] disconnects it (as the heartbeat does with
    its list), and a client connects.  The new client is given slot 0: its socket and
    identifier replace those of the client that was there, whose pending operations and queued
    packets it inherits, whose socket is not closed, and whose identifier now leads nowhere. *)
Theorem two_clients_share_slot_0 i w s b b0 stale o a a' socket port :
  at_slot 0 w s -> isReleased s = FALSE -> 1 <= ioCount s < 2147483646 ->
  GET_SESSION_INDEX (sessionID s) = 0 -> sessionID s <> COMBINE_ID_INDEX (u64 (nextID w + 1)) 0 ->
  at_slot i w b -> i <> 0 -> blank b0 b -> GET_SESSION_INDEX stale = i -> stale <> INVALID_ID ->
  pkt_inv w o -> m_lMaxCount (pktPool w) <= POOL_LIMIT ->
  0 < sessionCount w <= maxClientCount w -> maxClientCount w < 2147483648 ->
  OnClientLeave INVALID_ID (app w) = Ok a -> OnConnectionRequest port a = true ->
  OnClientJoin (COMBINE_ID_INDEX (u64 (nextID w + 1)) 0) (GetTickCount64 (S (clock w))) a = Ok a' ->
  WSARecv_error (S (S (clock w))) = None ->
  exists w1 w2 s', Disconnect stale w = Ok (tt, w1) /\ accept_turn socket port w1 = Ok (tt, w2) /\
    at_slot 0 w2 s' /\ sock s' = Some socket /\
    sessionID s' = COMBINE_ID_INDEX (u64 (nextID w + 1)) 0 /\
    sendBuf s' = sendBuf s /\ completeSendBuf s' = completeSendBuf s /\ ioCount s' = ioCount s + 1 /\
    sent w2 = sent w /\ indexStack w2 = indexStack w /\
    SessionLock (sessionID s) w2 = Ok (None, w2).
Proof.
  intros Hs Hrel Hio Hid Hne Hb Hi0 Hblank Hst Hst' Hinv Hlim Hcnt Hmx Ha Hreq Hjoin Hrecv.
  destruct (stale_lookup i w b b0 stale o a Hb Hblank Hinv Hlim Hst Hst' Ha) as (v & b' & E & Ev).
  set (w1 := released v i b' 0 a) in *.
  assert (Hs1 : at_slot 0 w1 s).
  { apply (at_slot_with_ne 0 i (set_app v a) s b'); [by rewrite Ev|destruct Hb; lia|done]. }
  assert (Hw1 : nextID w1 = nextID w /\ clock w1 = clock w /\ app w1 = a /\
    sessionCount w1 = sessionCount w - 1 /\ maxClientCount w1 = maxClientCount w /\
    indexStack w1 = 0 :: indexStack w /\ sent w1 = sent w).
  { unfold w1. cbn. rewrite Ev. cbn. split_and!; try done. apply i64_id. lia. }
  clearbody w1. clear Ev v. destruct Hw1 as (En & Ec & Eapp & Esc & Emx & Est & Eu).
  rewrite <- Eapp in Hreq, Hjoin. rewrite <- En, <- Ec in Hjoin. rewrite <- Ec in Hrecv.
  destruct (accept_turn_slot_0 w1 s (indexStack w) socket port a' Hs1 Est ltac:(lia) Hreq Hjoin Hrel
    ltac:(lia) Hrecv) as (w2 & E2 & Hs2 & Et2 & Eu2).
  set (s' := set_ioCount _ _) in Hs2.
  exists w1, w2, s'. split_and!; try done.
  - cbn. by rewrite En.
  - by rewrite Eu2.
  - rewrite (SessionLock_invalid 0 w2 s' (sessionID s) Hs2 ltac:(cbn; lia) Hid).
    + change (ioCount s') with (ioCount s + 1). by destruct (Z.eqb_spec (ioCount s + 1) 0); [lia|].
    + left. cbn. by rewrite En.
Qed.

(** ** [SendComplete] *)

Definition with_sendTPS w n : World A :=
  set_counters w (sessionCount w) n (recvTPS w) (acceptTPS w) (acceptCount w).

Lemma complete_loop_ok i ls rest w s o :
  at_slot i w s -> elems (completeSendBuf s) = ls ++ rest -> pkt_inv w o -> owns ls w ->
  m_lMaxCount (pktPool w) <= POOL_LIMIT ->
  exists v q n o', complete_loop (length ls) i w =
      Ok (tt, with_session (with_sendTPS v n) i (set_completeSendBuf s q)) /\
    elems q = rest /\ gave_back ls w v /\ pkt_inv v o'.
Proof.
  revert w s o. induction ls as [|l ls IH]; intros w s o Hs Hq Hinv Ho Hlim.
  - exists w, (completeSendBuf s), (sendTPS w), o. split_and!; [|done|apply gave_back_nil|done].
    cbn [complete_loop length]. change (with_sendTPS w (sendTPS w)) with
      (set_counters w (sessionCount w) (sendTPS w) (recvTPS w) (acceptTPS w) (acceptCount w)).
    replace (set_counters _ _ _ _ _ _) with w by (by destruct w).
    replace (set_completeSendBuf s _) with s by (by destruct s).
    by rewrite with_session_same.
  - cbn [length complete_loop]. rewrite (bind_run _ _ _ _ _ (session_run _ _ _ Hs)).
    destruct (lfq_pop (completeSendBuf s)) as [[x q]|] eqn:Ep.
    2: { apply pop_nil in Ep. by rewrite Ep in Hq. }
    apply pop_cons in Ep. rewrite Hq in Ep. injection Ep as <- Eq.
    rewrite (bind_run _ _ _ _ _ (update_run _ _ _ _ Hs)).
    set (s1 := set_completeSendBuf s q). set (w1 := with_session w i s1).
    assert (Hs1 : at_slot i w1 s1) by (by eapply at_slot_with).
    assert (Hinv1 : pkt_inv w1 o) by (by eapply pkt_inv_same).
    destruct (SubRef_gives_back w1 o l ls Hinv1 Ho Hlim) as (w2 & o2 & E2 & Hg2 & Hinv2).
    rewrite (bind_run _ _ _ _ _ E2).
    rewrite (bind_run _ _ _ _ _ (eq_refl : bump_sendTPS _ = Ok (tt, _))).
    set (w3 := set_counters w2 _ _ _ _ _).
    assert (Hs3 : at_slot i w3 s1) by (by eapply (gave_back_slot _ _ _ _ _ Hg2)).
    destruct (IH w3 s1 o2 Hs3) as (v & q' & n & o' & E & Hq' & Hg & Hinv').
    + exact (eq_sym Eq).
    + by eapply pkt_inv_same.
    + exact (owns_app [l] ls w1 w2 Ho Hg2).
    + change (m_lMaxCount (pktPool w2) <= POOL_LIMIT). by rewrite (gb_max _ _ _ Hg2).
    + exists (set_packets w (packets v) (pktPool v)), q', n, o'. split_and!; [|done| |by eapply pkt_inv_same].
      * rewrite E. do 2 f_equal. rewrite (gb_rest _ _ _ Hg). subst w3. rewrite (gb_rest _ _ _ Hg2).
        unfold w1, with_session. cbn. by rewrite list_insert_insert_eq.
      * destruct Hg2 as [R2 _ M2], Hg as [R3 _ M3]. cbn in R3, M3. split; cbn.
        -- intros k. rewrite R3, R2. change (l :: ls) with ([l] ++ ls). rewrite occ_app.
           change (packets w1) with (packets w). destruct (packets w !! k); [|done]. cbn.
           do 2 f_equal. lia.
        -- done.
        -- rewrite M3. change (m_lMaxCount (pktPool w2)) with (m_lMaxCount (pktPool w2)). by rewrite M2.
Qed.

(** C15.  [SendComplete], for a send of [sendCount] packets, the ones at the head of
    [completeSendBuf].  One reference of each of exactly these packets is given back, the rest
    of the queue is untouched, the session may send again, and the next send is posted at
    once from the packets queued in the meantime (unless the session is being released). *)
Theorem SendComplete_spec i w s o ls rest n :
  at_slot i w s -> n <> 0 -> elems (completeSendBuf s) = ls ++ rest ->
  sendCount s = zlen ls -> pkt_inv w o -> owns ls w ->
  m_lMaxCount (pktPool w) <= POOL_LIMIT ->
  exists v q t o',
    let s' := set_isSendFlag (set_completeSendBuf (set_sendCount s 0) q) 0 in
    let w' := with_session (with_sendTPS v t) i s' in
    elems q = rest /\ gave_back ls w v /\ pkt_inv w' o' /\
    SendComplete i n w =
      (if isReleased s =? TRUE then mret tt else PostSend i;; mret tt) w'.
Proof.
  intros Hs Hn Hq Hc Hinv Ho Hlim. unfold SendComplete.
  destruct (Z.eqb_spec n 0); [done|]. rewrite (bind_run _ _ tt w w) by done.
  rewrite (bind_run _ _ _ _ _ (session_run _ _ _ Hs)). cbv zeta.
  rewrite (bind_run _ _ _ _ _ (put_session_run _ _ _ _ Hs)).
  set (s1 := set_sendCount s 0). set (w1 := with_session w i s1).
  assert (Hs1 : at_slot i w1 s1) by (by eapply at_slot_with).
  replace (Z.to_nat (sendCount s)) with (length ls) by (unfold zlen in Hc; lia).
  destruct (complete_loop_ok i ls rest w1 s1 o Hs1 Hq) as (v & q & t & o' & E & Eq & Hg & Hinv');
    [by eapply pkt_inv_same|exact Ho|exact Hlim|].
  rewrite (bind_run _ _ _ _ _ E).
  assert (Hsv : at_slot i (with_sendTPS v t) s1) by (by eapply (gave_back_slot _ _ _ _ _ Hg)).
  rewrite (bind_run _ _ _ _ _ (update_run _ _ _ _ (at_slot_with _ _ _ _ Hsv))), with_session_twice.
  rewrite (bind_run _ _ _ _ _ (session_run _ _ _ (at_slot_with _ _ _ _ Hsv))).
  exists (set_packets w (packets v) (pktPool v)), q, t, o'. cbv zeta. split_and!.
  - done.
  - destruct Hg as [Hr Er Hm]. by split.
  - by eapply pkt_inv_same.
  - cbn [isReleased set_isSendFlag set_completeSendBuf s1 set_sendCount].
    rewrite (gb_rest _ _ _ Hg). unfold w1, with_session. cbn. rewrite list_insert_insert_eq.
    by destruct (isReleased s =? TRUE).
Qed.
End Life.

(** ** Witnesses: one slot whose session has one packet waiting for the end of a send *)

Definition one_sending : Session (Q := queue4096) :=
  mkSession (Q := queue4096) (Some 5) (COMBINE_ID_INDEX 1 0) 0 1 1 0 1 [] [1%positive]
    (mkRing 0 0 16 (replicate 16 0)) 0.

Definition empty_heap (ss : list (Session (Q := queue4096))) : World (Q := queue4096) unit :=
  mkWorld ss [] 1 1 1 0 0 1 1 ∅ (CLFFreeList_new [] false) tt [] [] 0.

Definition with_one_packet (ss : list (Session (Q := queue4096))) : World (Q := queue4096) unit :=
  match CPacket_Alloc (R := zero_runtime 1) (empty_heap ss) with
  | Ok (_, w) => w
  | _ => empty_heap ss
  end.

Lemma empty_heap_inv ss : pkt_inv (empty_heap ss) ∅.
Proof.
  split; try done; [exists []; split; try done; constructor|..];
    intros l p H; cbn in H; by rewrite lookup_empty in H.
Qed.

Lemma with_one_packet_inv ss :
  pkt_inv (with_one_packet ss) {[1%positive]} /\ owns [1%positive] (with_one_packet ss) /\
  m_lMaxCount (pktPool (with_one_packet ss)) <= POOL_LIMIT.
Proof.
  destruct (CPacket_Alloc_ok (R := zero_runtime 1) (empty_heap ss) ∅ (ex_intro _ _ eq_refl)
    (empty_heap_inv ss)) as (l & p & m & pool' & E & _ & Hr & _ & Hinv & Hm); [reflexivity|].
  assert (E1 : fst <$> (match CPacket_Alloc (R := zero_runtime 1) (empty_heap ss) with
    | Ok r => Some r | _ => None end) = Some 1%positive) by (vm_compute; reflexivity).
  rewrite E in E1. cbn in E1. injection E1 as ->.
  unfold with_one_packet. rewrite E. split_and!.
  - by rewrite union_empty_r_L in Hinv.
  - intros l Hl. apply list_elem_of_singleton in Hl as ->. exists p.
    split; [apply lookup_insert_eq|]. rewrite Hr, occ_cons, decide_True by done. done.
  - cbn. cbn in Hm. unfold POOL_LIMIT. lia.
Qed.

Definition sending : World (Q := queue4096) unit := with_one_packet [one_sending].

Lemma sending_slot : at_slot 0 sending one_sending.
Proof. split; [vm_compute; split; [discriminate|reflexivity]|vm_compute; reflexivity]. Qed.

Lemma ReleaseSession_spec_witness :
  exists v s' o', ReleaseSession (Q := queue4096) (App := silent_app) 0 sending
      = Ok (tt, released v 0 s' 0 tt) /\
    blank one_sending s' /\ gave_back [1%positive] sending v /\
    pkt_inv (released v 0 s' 0 tt) o'.
Proof.
  destruct (with_one_packet_inv [one_sending]) as (Hinv & Ho & Hm).
  exact (ReleaseSession_spec (Q := queue4096) (App := silent_app) 0 sending one_sending _ tt
    sending_slot Hinv Ho Hm eq_refl).
Defined.

Lemma SendComplete_spec_witness :
  exists v q t o',
    let s' := set_isSendFlag (set_completeSendBuf (set_sendCount one_sending 0) q) 0 in
    let w' := with_session (with_sendTPS v t) 0 s' in
    elems q = [] /\ gave_back [1%positive] sending v /\ pkt_inv w' o' /\
    SendComplete (Q := queue4096) (W := accepting_windows) (App := silent_app) 0 19 sending =
      (PostSend (W := accepting_windows) (App := silent_app) 0;; mret tt) w'.
Proof.
  destruct (with_one_packet_inv [one_sending]) as (Hinv & Ho & Hm).
  exact (SendComplete_spec (Q := queue4096) (W := accepting_windows) (App := silent_app)
    0 sending one_sending _ [1%positive] [] 19 sending_slot ltac:(discriminate) eq_refl eq_refl
    Hinv Ho Hm).
Defined.

(** The identifier of the session, and that of the slot's previous one. *)
Lemma SessionLock_spec_witness :
  let sid := COMBINE_ID_INDEX 1 0 in
  SessionLock (Q := queue4096) (App := silent_app) sid sending
    = Ok (Some 0, with_session sending 0 (set_ioCount one_sending 2)) /\
  SessionLock (Q := queue4096) (App := silent_app) 0 sending = Ok (None, sending).
Proof.
  intros sid. split.
  - destruct (SessionLock_spec (Q := queue4096) (App := silent_app) 0 sending one_sending sid
      sending_slot) as (H & _); [cbn; lia|reflexivity|]. exact (H eq_refl eq_refl).
  - destruct (SessionLock_spec (Q := queue4096) (App := silent_app) 0 sending one_sending 0
      sending_slot) as (_ & H & _); [cbn; lia|reflexivity|]. apply H; [left; discriminate|reflexivity].
Defined.

(** Slot 1 has just been freed; its last identifier is looked up once more. *)
Definition just_freed : Session (Q := queue4096) :=
  mkSession (Q := queue4096) None INVALID_ID 0 FALSE 0 FALSE 0 [] []
    (mkRing 0 0 16 (replicate 16 0)) 0.

Lemma stale_id_frees_slot_0_witness :
  let w := empty_heap [one_sending; just_freed] in
  exists w' s', SessionLock (Q := queue4096) (App := silent_app) (COMBINE_ID_INDEX 2 1) w
      = Ok (None, w') /\
    indexStack w' = 0 :: indexStack w /\ sessionCount w' = i64 (sessionCount w - 1) /\
    sessionArray w' = <[1%nat := s']> (sessionArray w) /\ blank just_freed s' /\
    packets w' = packets w /\ app w' = tt.
Proof.
  intros w. apply (stale_id_frees_slot_0 (Q := queue4096) (App := silent_app) 1 w just_freed
    just_freed (COMBINE_ID_INDEX 2 1) ∅ tt).
  - split; [vm_compute; split; [discriminate|reflexivity]|reflexivity].
  - by exists [], [].
  - apply empty_heap_inv.
  - vm_compute. discriminate.
  - reflexivity.
  - vm_compute. discriminate.
  - reflexivity.
Defined.

(** Client 5 is connected in slot 0, slot 1 has just been freed, client 7 connects. *)
Lemma two_clients_share_slot_0_witness :
  let w := empty_heap [one_sending; just_freed] in
  exists w1 w2 s',
    Disconnect (Q := queue4096) (App := silent_app) (COMBINE_ID_INDEX 2 1) w = Ok (tt, w1) /\
    accept_turn (Q := queue4096) (W := accepting_windows) (App := silent_app) 7 6000 w1 = Ok (tt, w2) /\
    at_slot 0 w2 s' /\ sock s' = Some 7 /\ sessionID s' = COMBINE_ID_INDEX 2 0 /\
    sendBuf s' = sendBuf one_sending /\ completeSendBuf s' = completeSendBuf one_sending /\
    ioCount s' = 2 /\ sent w2 = [] /\ indexStack w2 = [] /\
    SessionLock (App := silent_app) (COMBINE_ID_INDEX 1 0) w2 = Ok (None, w2).
Proof.
  intros w.
  apply (two_clients_share_slot_0 (Q := queue4096) (W := accepting_windows) (App := silent_app)
    1 w one_sending just_freed just_freed (COMBINE_ID_INDEX 2 1) ∅ tt tt 7 6000);
    try reflexivity; try (vm_compute; discriminate).
  - split; [vm_compute; split; [discriminate|reflexivity]|reflexivity].
  - cbn. lia.
  - split; [vm_compute; split; [discriminate|reflexivity]|reflexivity].
  - by exists [], [].
  - apply empty_heap_inv.
  - cbn. lia.
Defined.
