(* ===== verification/Delivery.v ===== *)
(** * Reaching a session by its identifier (theorems on [Iocp])

    What [SendPacket] and [Disconnect] do to the sessions whose identifiers they are given, as
    long as an operation is in progress on them: a packet joins the session's outbox, a
    session is disconnected, and nothing else happens to any session.  [send_to] and
    [disconnect_each] are the loops over many sessions that the chat server runs. *)

From S2P Require Import Prelude RingBuffer Packet Codec FreeList Message World PacketHeap Iocp Sends Sessions.

Section Delivery.
Context {Q : LockfreeQueue loc 4096} {A : Type}.
Context {W : Windows} {R : Runtime} {App : ServerApp A}.

Implicit Types w : World A.
Implicit Types s : Session.

(** ** The outbox *)

(** The packets the session has accepted and not finished sending, in order. *)
Definition outbox s : list loc := elems (completeSendBuf s) ++ elems (sendBuf s).

(** A packet somebody holds, with its block. *)
Definition live_packet (p : CPacket) : Prop :=
  exists m, m_cpHead p = Some m /\ zlen m = eBUFFER_DEFAULT /\
    0 <= m_iUsingSize p <= PAYLOAD_MAX /\ 1 <= m_lRefCount p.

Definition live (ps : gmap loc CPacket) (l : loc) : Prop :=
  exists p, ps !! l = Some p /\ live_packet p.

Lemma live_ready w l : live (packets w) l -> exists f, ready w l f.
Proof. intros (p & Hp & m & Hh & Hz & Hu & _). eexists. by exists p, m. Qed.

Lemma live_put ps l q x : live_packet q -> live ps x -> live (<[l := q]> ps) x.
Proof.
  intros Hq (p & Hp & H). destruct (decide (l = x)) as [<-|Hne].
  - exists q. by rewrite lookup_insert_eq.
  - exists p. by rewrite lookup_insert_ne.
Qed.

Lemma live_ref p n : live_packet p -> 1 <= n -> live_packet (with_ref p n).
Proof. intros (m & Hh & Hz & Hu & _) Hn. by exists m. Qed.

(** One more packet fits, and those that wait can be sent. *)
Record open_box (ps : gmap loc CPacket) s : Prop := {
  ob_io : 1 <= ioCount s < 1073741822;
  ob_room : zlen (outbox s) + MAX_PACKETS < 4096;
  ob_live : forall x, x ∈ elems (sendBuf s) -> live ps x
}.

Lemma open_box_mono ps ps' s :
  open_box ps s -> (forall x, live ps x -> live ps' x) -> open_box ps' s.
Proof. intros [H1 H2 H3] H. split; auto. Qed.

(** What the members of a session that sending does not touch are. *)
Definition same_session s s' : Prop :=
  sock s' = sock s /\ sessionID s' = sessionID s /\ index s' = index s /\
  isReleased s' = isReleased s /\ recvBuf s' = recvBuf s.

Lemma same_session_trans s1 s2 s3 : same_session s1 s2 -> same_session s2 s3 -> same_session s1 s3.
Proof. unfold same_session. intuition congruence. Qed.

(** From [w], with [s] in slot [i], to [w'] with [s'] there: nothing else changes but what the
    kernel and the clients have seen. *)
Record only_slot (i : Z) w s w' s' : Prop := {
  os_slots : sessionArray w' = <[Z.to_nat i := s']> (sessionArray w);
  os_same : same_session s s';
  os_packets : packets w' = packets w;
  os_pool : pktPool w' = pktPool w;
  os_app : app w' = app w;
  os_stack : indexStack w' = indexStack w /\ sessionCount w' = sessionCount w
}.

Lemma moved_outbox s k s' : moved s k s' -> outbox s' = outbox s.
Proof. intros [M1 M2 _]. unfold outbox. by rewrite M1, M2, <- app_assoc, take_drop. Qed.

Lemma moved_same s k s' : moved s k s' -> same_session s s' /\ ioCount s' = ioCount s /\
  isSendFlag s' = isSendFlag s.
Proof. intros [_ _ ->]. done. Qed.

Lemma ready_all w ls :
  (forall x, x ∈ ls -> exists f, ready w x f) -> exists fs, Forall2 (ready w) ls fs.
Proof.
  induction ls as [|x ls IH]; intros H; [exists []; constructor|].
  destruct (H x (list_elem_of_here _ _)) as [f Hf].
  destruct IH as [fs Hfs]; [intros; apply H; by apply list_elem_of_further|].
  exists (f :: fs). by constructor.
Qed.

(** [PostSend] with something to send, whatever [WSASend] answers. *)
Lemma PostSend_any i w s :
  at_slot i w s -> (forall x, x ∈ elems (sendBuf s) -> exists f, ready w x f) ->
  elems (sendBuf s) <> [] -> 1 <= ioCount s < 1073741823 ->
  zlen (elems (completeSendBuf s)) + MAX_PACKETS <= 4096 ->
  exists b w' s', PostSend i w = Ok (b, w') /\ only_slot i w s w' s' /\ outbox s' = outbox s /\
    isSendFlag s' <> 0 /\ ioCount s <= ioCount s' <= ioCount s + 1.
Proof.
  intros Hs Hr Hne Hio Hc. destruct (ready_all w _ Hr) as [fs Hf].
  destruct (Z.eq_dec (isSendFlag s) 0) as [Hflag|Hflag]; cycle 1.
  { exists false, w, s. rewrite (PostSend_busy w i s Hs Hflag). split_and!; try done; try lia.
    split; try done. destruct Hs as [_ Hs]. by rewrite list_insert_id. }
  destruct (PostSend_gathers w i s fs Hs Hf Hc Hflag) as (s1 & Hm & Hs1 & ->).
  set (k := Z.min MAX_PACKETS (zlen fs)) in *.
  assert (Hk : k <> 0).
  { apply Forall2_length in Hf. destruct fs as [|f fs]; [by destruct (elems (sendBuf s))|].
    unfold k. rewrite zlen_cons. pose proof (zlen_nonneg fs). unfold MAX_PACKETS. lia. }
  apply Z.eqb_neq in Hk. rewrite Hk.
  pose proof (moved_outbox _ _ _ Hm) as Hout. change (outbox (set_isSendFlag s 1)) with (outbox s) in Hout.
  destruct (moved_same _ _ _ Hm) as (Hsame & Hio1 & Hfl1). cbn in Hio1, Hfl1.
  rewrite (bind_run _ _ _ _ _ (update_run _ _ _ _ Hs1)), with_session_twice.
  set (s2 := set_sendCount s1 k).
  assert (Hs2 : at_slot i (with_session w i s2) s2) by (eapply at_slot_with; eassumption).
  rewrite (bind_run _ _ _ _ _ (add_ioCount_run _ _ _ 1 (ioCount s1 + 1) Hs2
    ltac:(cbn; apply i32_id; lia))), with_session_twice.
  set (s3 := set_ioCount s2 _). set (w3 := with_session w i s3).
  assert (Hs3 : at_slot i w3 s3) by (eapply at_slot_with; eassumption).
  rewrite (bind_run _ _ _ _ _ (session_run _ _ _ Hs3)).
  rewrite (bind_run _ _ (clock w) _ (set_clock w3 (S (clock w)))) by done.
  assert (Hposted : forall v n, only_slot i w s (set_kernel (set_sent (set_clock w3 n) v.1) v.2) s3).
  { intros v n. split; try done. }
  assert (Hok : outbox s3 = outbox s /\ isSendFlag s3 <> 0 /\ ioCount s <= ioCount s3 <= ioCount s + 1).
  { split_and!; try done; cbn; lia. }
  destruct (WSASend_error (clock w)) as [e|].
  2: { eexists true, _, s3. split; [reflexivity|]. split; [|exact Hok]. apply (Hposted (_, _)). }
  destruct (e =? WSA_IO_PENDING).
  { eexists true, _, s3. split; [reflexivity|]. split; [|exact Hok]. apply (Hposted (_, _)). }
  assert (Hs3' : at_slot i (set_clock w3 (S (clock w))) s3) by exact Hs3.
  rewrite (bind_run _ _ _ _ _ (add_ioCount_run _ _ _ (-1) (ioCount s) Hs3'
    ltac:(cbn; rewrite i32_id; lia))).
  destruct (Z.eqb_spec (ioCount s) 0); [lia|].
  eexists true, _, (set_ioCount s3 (ioCount s)). split; [reflexivity|]. split; [|split_and!; try done; cbn; lia].
  split; try done. cbn. by rewrite list_insert_insert_eq.
Qed.

(** ** One packet to one session *)

Definition added w (l : loc) (q : CPacket) : World A :=
  set_packets w (<[l := with_ref q (m_lRefCount q + 1)]> (packets w)) (pktPool w).

Lemma push_ok l (q : lfq loc 4096) :
  zlen (elems q) < 4096 -> elems (lfq_push l q).1 = elems q ++ [l].
Proof. intros H. by apply push_true, push_room. Qed.

Lemma only_slot_trans i w s w1 s1 w2 s2 :
  only_slot i w s w1 s1 -> only_slot i w1 s1 w2 s2 -> only_slot i w s w2 s2.
Proof.
  intros [A1 B1 C1 D1 E1 [F1 G1]] [A2 B2 C2 D2 E2 [F2 G2]]. split; try congruence.
  - by rewrite A2, A1, list_insert_insert_eq.
  - by eapply same_session_trans.
  - split; congruence.
Qed.

Lemma only_slot_at i w s w' s' : at_slot i w s -> only_slot i w s w' s' -> at_slot i w' s'.
Proof.
  intros [Hi Hs] [E _ _ _ _ _]. unfold at_slot. rewrite E. unfold zlen in *.
  rewrite length_insert. split; [done|]. apply list_lookup_insert_eq. lia.
Qed.

Lemma only_slot_other i w s w' s' j t :
  at_slot i w s -> only_slot i w s w' s' -> at_slot j w t -> j <> i -> at_slot j w' t.
Proof.
  intros [Hi _] Ho [Hj Ht] Hne. unfold at_slot. rewrite (os_slots _ _ _ _ _ Ho). unfold zlen in *.
  rewrite length_insert. split; [done|]. by rewrite list_lookup_insert_ne by lia.
Qed.

Lemma only_slot_with i w s s' : same_session s s' -> only_slot i w s (with_session w i s') s'.
Proof. by split. Qed.

(** A session reached by its identifier. *)
Lemma SendPacket_delivers i w s sid l q :
  at_slot i w s -> GET_SESSION_INDEX sid = i -> sid = sessionID s -> isReleased s = FALSE ->
  open_box (packets w) s -> packets w !! l = Some q -> m_bIsEncoded q = true -> live_packet q ->
  m_lRefCount q < 1073741824 ->
  exists w' s', SendPacket sid l w = Ok (tt, w') /\ only_slot i (added w l q) s w' s' /\
    outbox s' = outbox s ++ [l] /\ isSendFlag s' <> 0 /\ ioCount s <= ioCount s' <= ioCount s + 1.
Proof.
  intros Hs Hi Hid Hr [Hio Hroom Hready] Hq Henc Hrl Hrefs.
  assert (H1 : 1 <= m_lRefCount q) by (by destruct Hrl as (_ & _ & _ & _ & ?)).
  unfold SendPacket.
  rewrite (bind_run _ _ _ _ _ (SessionLock_valid i w s sid Hs ltac:(lia) Hi Hid Hr)).
  set (s1 := set_ioCount s (ioCount s + 1)). set (w1 := with_session w i s1).
  assert (Hs1 : at_slot i w1 s1) by (by eapply at_slot_with).
  set (v := added w l q).
  assert (Eadd : CPacket_AddRef l w1 = Ok (tt, with_session v i s1)).
  { unfold CPacket_AddRef, on_packet_. rewrite (bind_run _ _ q _ w1) by (by apply packet_run).
    rewrite (bind_run _ _ (AddRef q) _ w1) by (by apply lift_run).
    unfold put_packet, modify, AddRef, v, added. rewrite i32_id by lia. done. }
  rewrite (bind_run _ _ _ _ _ Eadd). set (w2 := with_session v i s1).
  assert (Hs2 : at_slot i w2 s1) by exact Hs1.
  assert (Eenc : CPacket_SetEncodingCode l w2 = Ok (tt, w2)).
  { unfold CPacket_SetEncodingCode.
    rewrite (bind_run _ _ (with_ref q (m_lRefCount q + 1)) _ w2).
    - cbn. by rewrite Henc.
    - apply packet_run. cbn. apply lookup_insert_eq. }
  rewrite (bind_run _ _ _ _ _ Eenc).
  rewrite (bind_run _ _ _ _ _ (update_run _ _ _ _ Hs2)).
  set (s3 := set_sendBuf s1 _).
  assert (Hs3 : at_slot i (with_session w2 i s3) s3) by (by eapply at_slot_with).
  rewrite (bind_run _ _ _ _ _ (session_run _ _ _ Hs3)).
  change (isReleased s3) with (isReleased s). rewrite Hr. cbn [Z.eqb negb].
  assert (Hz : zlen (elems (completeSendBuf s)) + zlen (elems (sendBuf s)) = zlen (outbox s))
    by (unfold outbox; by rewrite zlen_app).
  pose proof (zlen_nonneg (elems (completeSendBuf s))). pose proof (zlen_nonneg (elems (sendBuf s))).
  assert (Epush : elems (sendBuf s3) = elems (sendBuf s) ++ [l]) by (apply push_ok; cbn; unfold MAX_PACKETS in *; lia).
  destruct (PostSend_any i (with_session w2 i s3) s3) as (b & w4 & s4 & E4 & Ho4 & Hout4 & Hfl4 & Hio4).
  { done. }
  { intros x Hx. rewrite Epush, elem_of_app, list_elem_of_singleton in Hx.
    apply live_ready. cbn. apply live_put; [apply live_ref; [done|lia]|].
    destruct Hx as [Hx| ->]; [auto|by exists q]. }
  { rewrite Epush. by destruct (elems (sendBuf s)). }
  { cbn. lia. }
  { cbn. unfold MAX_PACKETS in *. lia. }
  change (ioCount s3) with (ioCount s + 1) in Hio4.
  assert (Ho : only_slot i v s w4 s4).
  { eapply only_slot_trans; [|exact Ho4]. unfold w2. rewrite with_session_twice.
    by apply only_slot_with. }
  assert (Hs4 : at_slot i w4 s4) by (by eapply only_slot_at).
  rewrite (bind_run _ _ tt _ w4); [|unfold mbind, M_bind; by rewrite E4].
  unfold SessionUnLock.
  rewrite (bind_run _ _ _ _ _ (add_ioCount_run _ _ _ (-1) (ioCount s4 - 1) Hs4 ltac:(apply i32_id; lia))).
  destruct (Z.eqb_spec (ioCount s4 - 1) 0); [lia|].
  exists (with_session w4 i (set_ioCount s4 (ioCount s4 - 1))), (set_ioCount s4 (ioCount s4 - 1)).
  split; [reflexivity|]. split; [|split_and!; try done; cbn; try lia].
  - eapply only_slot_trans; [exact Ho|]. by apply only_slot_with.
  - change (outbox s4 = outbox s ++ [l]). rewrite Hout4. unfold outbox. by rewrite Epush, app_assoc.
Qed.

(** An identifier that is not the session's, or a session being disconnected. *)
Lemma SendPacket_refused i w s sid l :
  at_slot i w s -> GET_SESSION_INDEX sid = i -> sid <> sessionID s \/ isReleased s <> FALSE ->
  1 <= ioCount s < 2147483647 -> SendPacket sid l w = Ok (tt, w).
Proof.
  intros Hs Hi Hbad Hio. unfold SendPacket.
  rewrite (bind_run _ _ None _ w); [done|].
  rewrite (SessionLock_invalid i w s sid Hs ltac:(lia) Hi Hbad).
  by destruct (Z.eqb_spec (ioCount s) 0); [lia|].
Qed.

(** ** One packet to many sessions *)

(** The slot a session's identifier leads to is the session's, and it is not being
    disconnected. *)
Definition reached (i : Z) s : Prop := GET_SESSION_INDEX (sessionID s) = i /\ isReleased s = FALSE.

#[export] Instance reached_dec i s : Decision (reached i s).
Proof. unfold reached. apply _. Defined.

(** Every identifier of [sids] leads to a slot with an operation in progress, with room in the
    outbox if the identifier is the session's. *)
Definition reachable w (sids : list Z) : Prop :=
  forall sid, sid ∈ sids -> exists s, at_slot (GET_SESSION_INDEX sid) w s /\
    1 <= ioCount s < 2147483647 /\ (sid = sessionID s -> isReleased s = FALSE -> open_box (packets w) s).

(** [l] is in the outbox of exactly the sessions of [sids]. *)
Definition delivered (sids : list Z) (l : loc) w w' : Prop :=
  forall i s, at_slot i w s -> exists s', at_slot i w' s' /\ same_session s s' /\
    (sessionID s ∈ sids -> reached i s -> outbox s' = outbox s ++ [l] /\ isSendFlag s' <> 0) /\
    (~ (sessionID s ∈ sids /\ reached i s) -> s' = s).

Lemma reachable_cons w sid sids : reachable w (sid :: sids) -> reachable w sids.
Proof. intros H x Hx. apply H. by apply list_elem_of_further. Qed.

Lemma live_added w l q x :
  live_packet q -> live (packets w) x -> live (packets (added w l q)) x.
Proof.
  intros Hq. apply live_put, live_ref; [done|]. destruct Hq as (_ & _ & _ & _ & ?). lia.
Qed.

(** What is left to reach after the first session. *)
Lemma reachable_after i w s w' s' l q sid sids :
  at_slot i w s -> GET_SESSION_INDEX sid = i -> sid = sessionID s -> open_box (packets w) s ->
  live_packet q -> only_slot i (added w l q) s w' s' -> ioCount s' <= ioCount s + 1 ->
  ioCount s <= ioCount s' -> NoDup (sid :: sids) -> reachable w (sid :: sids) -> reachable w' sids.
Proof.
  intros Hs Hi Hid Hob Hq Ho Hio Hio' Hnd Hre x Hx.
  apply list.NoDup_cons in Hnd as [Hn _].
  destruct (Hre x) as (t & Ht & Hb & Hop); [by apply list_elem_of_further|].
  destruct (decide (GET_SESSION_INDEX x = i)) as [E|E].
  - rewrite E in *. assert (t = s) as -> by (by eapply at_slot_fun). exists s'.
    split; [by apply (only_slot_at i (added w l q) s)|]. destruct Hob as [Hob _ _]. split; [lia|].
    intros Hx'. destruct (os_same _ _ _ _ _ Ho) as (_ & Hid' & _). destruct Hn. congruence.
  - exists t. split; [|split; [done|]].
    + by apply (only_slot_other i (added w l q) s w' s').
    + intros H1 H2. apply (open_box_mono (packets w)); [by apply Hop|].
      intros y Hy. rewrite (os_packets _ _ _ _ _ Ho). by apply live_added.
Qed.

Fixpoint send_to (sids : list Z) (l : loc) : M A unit :=
  match sids with
  | [] => mret tt
  | sid :: sids => SendPacket sid l;; send_to sids l
  end.

Lemma delivered_nil l w : delivered [] l w w.
Proof. intros i s Hs. exists s. split_and!; try done. by intros ?%elem_of_nil. Qed.

(** The first identifier is the one of the session in slot [i]. *)
Lemma delivered_reached i w s l q w1 s1 sids w' :
  at_slot i w s -> reached i s -> (sessionID s ∉ sids) -> only_slot i (added w l q) s w1 s1 ->
  outbox s1 = outbox s ++ [l] -> isSendFlag s1 <> 0 -> delivered sids l w1 w' ->
  delivered (sessionID s :: sids) l w w'.
Proof.
  intros Hs [Hi Hrel] Hn Ho Hout Hfl Hdel j t Ht. destruct (decide (j = i)) as [->|Hne].
  - assert (t = s) as -> by (by eapply at_slot_fun).
    assert (Hs1 : at_slot i w1 s1) by (by apply (only_slot_at _ (added w l q) s)).
    pose proof (os_same _ _ _ _ _ Ho) as Hss. destruct (Hdel _ _ Hs1) as (s' & Hs' & _ & _ & Hsame).
    assert (s' = s1) as ->.
    { apply Hsame. intros [Hin _]. destruct Hss as (_ & Hid1 & _). apply Hn. congruence. }
    exists s1. split_and!; try done. intros Hbad. destruct Hbad. split; [apply list_elem_of_here|done].
  - assert (Ht1 : at_slot j w1 t) by (by apply (only_slot_other i (added w l q) s w1 s1)).
    destruct (Hdel _ _ Ht1) as (t' & Ht' & Hss & H1 & H2). exists t'. split_and!; try done.
    + intros [E|Hin]%elem_of_cons [Hj Hrt]; [destruct Hne; congruence|by apply H1].
    + intros Hno. apply H2. intros [Hin Hrt]. apply Hno. split; [by apply list_elem_of_further|done].
Qed.

(** The first identifier is out of date. *)
Lemma delivered_refused i w s l sid sids w' :
  at_slot i w s -> GET_SESSION_INDEX sid = i -> ~ (sid = sessionID s /\ isReleased s = FALSE) ->
  delivered sids l w w' -> delivered (sid :: sids) l w w'.
Proof.
  intros Hs Hi Hbad Hdel j t Ht. destruct (Hdel j t Ht) as (t' & Ht' & Hss & H1 & H2).
  exists t'. split_and!; try done.
  - intros [E|Hin]%elem_of_cons [Hj Hrt]; [|by apply H1]. rewrite E, Hi in Hj. subst j.
    assert (t = s) as -> by (by eapply at_slot_fun). by destruct Hbad.
  - intros Hno. apply H2. intros [Hin Hrt]. apply Hno. split; [by apply list_elem_of_further|done].
Qed.

Lemma send_to_delivers sids l w q :
  packets w !! l = Some q -> m_bIsEncoded q = true -> live_packet q ->
  m_lRefCount q + zlen sids < 1073741824 -> NoDup sids -> reachable w sids ->
  exists w' n, send_to sids l w = Ok (tt, w') /\ delivered sids l w w' /\ 0 <= n <= zlen sids /\
    packets w' = <[l := with_ref q (m_lRefCount q + n)]> (packets w) /\
    pktPool w' = pktPool w /\ app w' = app w.
Proof.
  revert w q. induction sids as [|sid sids IH]; intros w q Hq Henc Hrl Hr Hnd Hre.
  - exists w, 0. split_and!; try done; [apply delivered_nil|].
    rewrite Z.add_0_r, with_ref_same. by rewrite insert_id.
  - rewrite zlen_cons in *. pose proof (zlen_nonneg sids) as Hz.
    destruct (Hre sid (list_elem_of_here _ _)) as (s & Hs & Hio & Hob). cbn [send_to].
    pose proof Hnd as [Hn Hnd']%list.NoDup_cons.
    destruct (decide (sid = sessionID s /\ isReleased s = FALSE)) as [[Hid Hrel]|Hbad].
    + destruct (SendPacket_delivers _ w s sid l q Hs eq_refl Hid Hrel (Hob Hid Hrel) Hq Henc Hrl)
        as (w1 & s1 & E1 & Ho & Hout & Hfl & Hio1); [lia|].
      rewrite (bind_run _ _ _ _ _ E1). set (q1 := with_ref q (m_lRefCount q + 1)).
      destruct (IH w1 q1) as (w' & n & E & Hdel & Hn0 & Ep & Epool & Eapp); try done.
      { rewrite (os_packets _ _ _ _ _ Ho). apply lookup_insert_eq. }
      { apply live_ref; [done|]. destruct Hrl as (_ & _ & _ & _ & ?). lia. }
      { cbn. lia. }
      { eapply reachable_after; try eassumption; try done; try lia. by apply Hob. }
      exists w', (n + 1). split; [exact E|]. split; [|split; [lia|]].
      * rewrite Hid in *. by apply (delivered_reached (GET_SESSION_INDEX (sessionID s)) w s l q w1 s1).
      * rewrite Ep, Epool, Eapp, (os_packets _ _ _ _ _ Ho), (os_pool _ _ _ _ _ Ho), (os_app _ _ _ _ _ Ho).
        split; [|done]. cbn. rewrite insert_insert_eq. do 2 f_equal. lia.
    + assert (Hbad' : sid <> sessionID s \/ isReleased s <> FALSE).
      { destruct (decide (sid = sessionID s)); [right|by left]. intros Hrel. by apply Hbad. }
      rewrite (bind_run _ _ _ _ _ (SendPacket_refused _ w s sid l Hs eq_refl Hbad' Hio)).
      destruct (IH w q) as (w' & n & E & Hdel & Hn0 & Erest); try done; [lia|by eapply reachable_cons|].
      exists w', n. split; [exact E|]. split; [|split; [lia|exact Erest]].
      by apply (delivered_refused (GET_SESSION_INDEX sid) w s).
Qed.

(** ** Disconnecting a session *)

(** The session while its last operations complete. *)
Definition cut s : Session := set_sock (set_isReleased s TRUE) None.

Definition hung_up w (i : Z) s : World A :=
  set_sent (with_session w i (cut s)) (sent w ++ [EClose (sock s)]).

Lemma Disconnect_reached i w s sid :
  at_slot i w s -> 1 <= ioCount s < 2147483647 -> reached i s -> sid = sessionID s ->
  Disconnect sid w = Ok (tt, hung_up w i s).
Proof.
  intros Hs Hio [Hi Hr] Hid. rewrite <- Hid in Hi. unfold Disconnect.
  rewrite (bind_run _ _ _ _ _ (SessionLock_valid i w s sid Hs ltac:(lia) Hi Hid Hr)).
  set (s1 := set_ioCount s (ioCount s + 1)). set (w1 := with_session w i s1).
  assert (Hs1 : at_slot i w1 s1) by (by eapply at_slot_with).
  set (s2 := set_isReleased s1 TRUE).
  assert (Hs2 : at_slot i (with_session w1 i s2) s2) by (by eapply at_slot_with).
  set (w3 := set_sent (with_session w1 i s2) (sent w ++ [EClose (sock s)])).
  assert (Hs3 : at_slot i (with_session w3 i (cut s1)) (cut s1)) by (by eapply at_slot_with).
  assert (E : DisConnect i w1 = Ok (tt, with_session w3 i (cut s1))).
  { unfold DisConnect. rewrite (bind_run _ _ _ _ _ (session_run _ _ _ Hs1)).
    change (isReleased s1) with (isReleased s). rewrite Hr. cbn [Z.eqb].
    rewrite (bind_run _ _ _ _ _ (put_session_run _ _ _ s2 Hs1)).
    rewrite (bind_run _ _ tt _ w3) by done.
    rewrite (bind_run _ _ _ _ _ (update_run i w3 s2 _ Hs2)).
    rewrite (bind_run _ _ _ _ _ (session_run _ _ _ Hs3)). cbn.
    by destruct (Z.eqb_spec (ioCount s + 1) 0); [lia|]. }
  rewrite (bind_run _ _ _ _ _ E). unfold SessionUnLock.
  rewrite (bind_run _ _ _ _ _ (add_ioCount_run _ _ _ (-1) (ioCount s) Hs3
    ltac:(cbn; rewrite i32_id; lia))).
  destruct (Z.eqb_spec (ioCount s) 0); [lia|]. unfold mret, M_ret. do 2 f_equal.
  unfold hung_up, w3, w1, with_session, set_sessionArray, set_sent; cbn.
  rewrite !list_insert_insert_eq. by destruct s.
Qed.

Lemma Disconnect_refused i w s sid :
  at_slot i w s -> GET_SESSION_INDEX sid = i -> sid <> sessionID s \/ isReleased s <> FALSE ->
  1 <= ioCount s < 2147483647 -> Disconnect sid w = Ok (tt, w).
Proof.
  intros Hs Hi Hbad Hio. unfold Disconnect.
  rewrite (bind_run _ _ None _ w); [done|].
  rewrite (SessionLock_invalid i w s sid Hs ltac:(lia) Hi Hbad).
  by destruct (Z.eqb_spec (ioCount s) 0); [lia|].
Qed.

(** *** Many sessions *)

Fixpoint disconnect_each (sids : list Z) : M A unit :=
  match sids with
  | [] => mret tt
  | sid :: sids => Disconnect sid;; disconnect_each sids
  end.

(** [w'] is [w] with exactly the sessions of [sids] disconnected. *)
Record disconnected (sids : list Z) w w' : Prop := {
  dc_cut : forall i s, at_slot i w s ->
    at_slot i w' (if decide (sessionID s ∈ sids /\ reached i s) then cut s else s);
  dc_sent : exists closes, sent w' = sent w ++ closes /\
    forall e, e ∈ closes <-> exists i s, at_slot i w s /\ sessionID s ∈ sids /\ reached i s /\
      e = EClose (sock s);
  dc_rest : w' = set_sent (set_sessionArray w (sessionArray w')) (sent w')
}.

Lemma at_slot_sent i w s es : at_slot i (set_sent w es) s <-> at_slot i w s.
Proof. done. Qed.

Lemma at_slot_with_inv i j w s s' t :
  at_slot i w s -> at_slot j (with_session w i s') t -> (j = i /\ t = s') \/ (j <> i /\ at_slot j w t).
Proof.
  intros [Hi Hs] Ht. destruct (decide (j = i)) as [->|Hne].
  - left. split; [done|]. eapply at_slot_fun; [exact Ht|]. by eapply at_slot_with.
  - right. split; [done|]. destruct Ht as [Hj Ht]. unfold at_slot. cbn in *. unfold zlen in *.
    rewrite length_insert in Hj. rewrite list_lookup_insert_ne in Ht by lia. done.
Qed.

Lemma hung_up_inv i w s j t :
  at_slot i w s -> at_slot j (hung_up w i s) t -> (j = i /\ t = cut s) \/ (j <> i /\ at_slot j w t).
Proof. intros Hs Ht. by apply (at_slot_with_inv i j w s (cut s)). Qed.

Lemma hung_up_other i w s j t :
  at_slot i w s -> at_slot j w t -> j <> i -> at_slot j (hung_up w i s) t.
Proof. intros [Hi _] Ht Hne. apply at_slot_sent, at_slot_with_ne; [done|lia|done]. Qed.

Lemma disconnected_nil w : disconnected [] w w.
Proof.
  split; [| |by destruct w].
  - intros i s Hs. rewrite decide_False; [done|]. by intros [?%elem_of_nil _].
  - exists []. rewrite app_nil_r. split; [done|]. intros e. rewrite elem_of_nil. split; [done|].
    by intros (i & s & _ & ?%elem_of_nil & _).
Qed.

(** The first identifier is the one of the session in slot [i]. *)
Lemma disconnected_hung_up i w s sids w' :
  at_slot i w s -> reached i s -> (sessionID s ∉ sids) -> disconnected sids (hung_up w i s) w' ->
  disconnected (sessionID s :: sids) w w'.
Proof.
  intros Hs Hreach Hn [D1 (cl & D2 & D3) D4].
  assert (Htail : forall j t, reached j t -> j <> i ->
    (sessionID t ∈ sessionID s :: sids <-> sessionID t ∈ sids)).
  { intros j t [Hj _] Hne. rewrite elem_of_cons. split; [|by right]. intros [E|?]; [|done].
    destruct Hne. destruct Hreach as [<- _]. by rewrite <- Hj, E. }
  split.
  - intros j t Ht. destruct (decide (j = i)) as [->|Hne].
    + assert (t = s) as -> by (by eapply at_slot_fun).
      assert (Hs1 : at_slot i (hung_up w i s) (cut s)) by (by eapply at_slot_with).
      specialize (D1 i _ Hs1). rewrite decide_False in D1 by (by intros [_ [_ ?]]).
      rewrite decide_True; [done|]. split; [apply list_elem_of_here|done].
    + specialize (D1 j t (hung_up_other i w s j t Hs Ht Hne)). specialize (Htail j t).
      repeat case_decide; try done; tauto.
  - exists (EClose (sock s) :: cl). split; [rewrite D2; cbn; by rewrite <- app_assoc|].
    intros e. rewrite elem_of_cons, D3. split.
    + intros [->|(j & t & Ht & Hin & Hrt & ->)].
      * exists i, s. split_and!; try done. apply list_elem_of_here.
      * apply (hung_up_inv i w s) in Ht as [[-> ->]|[Hne Ht]]; [by destruct Hrt| |done].
        exists j, t. split_and!; try done. by apply list_elem_of_further.
    + intros (j & t & Ht & Hin & Hrt & ->). destruct (decide (j = i)) as [->|Hne].
      * left. by rewrite (at_slot_fun _ _ _ _ Ht Hs).
      * right. exists j, t. split_and!; try done; [by apply hung_up_other|by apply (Htail j)].
  - rewrite D4. unfold hung_up, with_session. by destruct w.
Qed.

(** The first identifier is out of date. *)
Lemma disconnected_refused i w s sid sids w' :
  at_slot i w s -> GET_SESSION_INDEX sid = i -> ~ (sid = sessionID s /\ isReleased s = FALSE) ->
  disconnected sids w w' -> disconnected (sid :: sids) w w'.
Proof.
  intros Hs Hi Hbad [D1 (cl & D2 & D3) D4].
  assert (Hsame : forall j t, at_slot j w t -> reached j t ->
    (sessionID t ∈ sid :: sids <-> sessionID t ∈ sids)).
  { intros j t Ht [Hj Hrt]. rewrite elem_of_cons. split; [|by right]. intros [E|?]; [|done].
    exfalso. rewrite E, Hi in Hj. subst j. assert (t = s) as -> by (by eapply at_slot_fun).
    by apply Hbad. }
  split; [| |done].
  - intros j t Ht. specialize (D1 j t Ht). specialize (Hsame j t Ht).
    repeat case_decide; try done; tauto.
  - exists cl. split; [done|]. intros e. rewrite D3.
    split; intros (j & t & Ht & Hin & Hrt & ->); exists j, t; split_and!; try done;
      by apply (Hsame j t Ht Hrt).
Qed.

(** Every identifier leads to a slot with an operation in progress. *)
Definition in_progress w (sids : list Z) : Prop :=
  forall sid, sid ∈ sids -> exists s, at_slot (GET_SESSION_INDEX sid) w s /\
    1 <= ioCount s < 2147483647.

Lemma in_progress_cons w sid sids : in_progress w (sid :: sids) -> in_progress w sids.
Proof. intros H x Hx. apply H. by apply list_elem_of_further. Qed.

Lemma in_progress_hung_up i w s sids :
  at_slot i w s -> 1 <= ioCount s < 2147483647 -> in_progress w sids ->
  in_progress (hung_up w i s) sids.
Proof.
  intros Hs Hio H x Hx. destruct (H x Hx) as (t & Ht & Htio).
  destruct (decide (GET_SESSION_INDEX x = i)) as [E|E].
  - rewrite E. exists (cut s). split; [by eapply at_slot_with|done].
  - exists t. split; [by apply hung_up_other|done].
Qed.

Lemma disconnect_each_ok sids w :
  NoDup sids -> in_progress w sids ->
  exists w', disconnect_each sids w = Ok (tt, w') /\ disconnected sids w w'.
Proof.
  revert w. induction sids as [|sid sids IH]; intros w Hnd Hre.
  - exists w. split; [done|apply disconnected_nil].
  - apply list.NoDup_cons in Hnd as [Hn Hnd].
    destruct (Hre sid (list_elem_of_here _ _)) as (s & Hs & Hio). cbn [disconnect_each].
    set (i := GET_SESSION_INDEX sid) in *. pose proof (in_progress_cons _ _ _ Hre) as Hre'.
    destruct (decide (sid = sessionID s /\ isReleased s = FALSE)) as [[Hid Hrel]|Hbad].
    + assert (Hreach : reached i s) by (split; [unfold i; by rewrite Hid|done]).
      rewrite (bind_run _ _ _ _ _ (Disconnect_reached i w s sid Hs Hio Hreach Hid)).
      destruct (IH (hung_up w i s) Hnd) as (w' & E & D); [by apply in_progress_hung_up|].
      exists w'. split; [exact E|]. rewrite Hid in *. by apply (disconnected_hung_up i w s).
    + assert (Hbad' : sid <> sessionID s \/ isReleased s <> FALSE).
      { destruct (decide (sid = sessionID s)); [right|by left]. intros Hrel. by apply Hbad. }
      rewrite (bind_run _ _ _ _ _ (Disconnect_refused i w s sid Hs eq_refl Hbad' Hio)).
      destruct (IH w Hnd Hre') as (w' & E & D).
      exists w'. split; [exact E|]. by apply (disconnected_refused i w s).
Qed.
End Delivery.
