(* ===== verification/Replies.v ===== *)
(** * Reading a request and answering it (theorems on [World] and [Iocp])

    What is common to the handlers of the chat server: they read the fields of a request out
    of its packet, compose a reply in a packet of their own, send it and give their reference
    back.  [held] is a packet with what is left of its payload, [carries] an encoded packet
    with the payload it was made from, [composed] what composing a reply leaves, and
    [reply_sent] what sending it does. *)

From S2P Require Import Prelude RingBuffer Packet Codec FreeList Message World PacketHeap Iocp Sends Sessions Delivery.

Section Replies.
Context {Q : LockfreeQueue loc 4096} {A : Type}.
Context {W : Windows} {R : Runtime} {App : ServerApp A}.

Implicit Types w : World A.

(** ** Reading *)

(** The packet [l], in use, with [bs] not yet read. *)
Definition held (ps : gmap loc CPacket) (l : loc) (bs : list Z) : Prop :=
  exists q m, ps !! l = Some q /\ wf q m /\ payload q m = bs /\ 1 <= m_lRefCount q.

(** From [w] to [w'] nothing changed but the clock and what is left to read in [l]. *)
Record reads (l : loc) w w' : Prop := {
  rd_rest : w' = set_clock (set_packets w (packets w') (pktPool w)) (clock w');
  rd_others : forall x, x <> l -> packets w' !! x = packets w !! x;
  rd_live : forall x, live (packets w) x -> live (packets w') x;
  rd_inv : forall o, pkt_inv w o -> pkt_inv w' o
}.

#[export] Instance reads_preorder l : PreOrder (reads l).
Proof.
  split.
  - intros w. split; try done. by destruct w.
  - intros w1 w2 w3 [R1 O1 L1 I1] [R2 O2 L2 I2]. split; [|..|auto|auto].
    + rewrite R2, R1. done.
    + intros x Hx. by rewrite O2, O1.
Qed.

Lemma reads_tick l w n : reads l w (set_clock w n).
Proof. split; try done. intros o Hi. by eapply pkt_inv_same. Qed.

Lemma wf_live q m : wf q m -> 1 <= m_lRefCount q -> live_packet q.
Proof.
  intros [Hh Hmax Hlen Hb Hf Hu Ho Hr] H1. exists m. unfold PAYLOAD_MAX in *.
  split_and!; try done; lia.
Qed.

Lemma reads_put l w q q' m :
  packets w !! l = Some q -> wf q' m -> m_lRefCount q' = m_lRefCount q -> 1 <= m_lRefCount q ->
  reads l w (set_packets w (<[l := q']> (packets w)) (pktPool w)).
Proof.
  intros Hq Hw Hr H1. split; cbn.
  - done.
  - intros x Hx. by rewrite lookup_insert_ne.
  - intros x. apply live_put, (wf_live q' m Hw). lia.
  - intros o Hi. apply (pkt_inv_put w o l q q' Hi Hq); [by eapply wf_shape|done].
Qed.

Lemma consumed_held w l q m q' bs rest :
  packets w !! l = Some q -> wf q m -> payload q m = bs ++ rest -> 1 <= m_lRefCount q ->
  consumed q m (zlen bs) q' ->
  let w' := set_packets w (<[l := q']> (packets w)) (pktPool w) in
  held (packets w') l rest /\ reads l w w'.
Proof.
  intros Hq Hw Hp H1 [C1 C2 _ _ _ C6]. cbn zeta. split.
  - exists q', m. cbn. rewrite lookup_insert_eq. split_and!; try done; [|lia].
    rewrite C2, Hp. rewrite <- (zlen_payload q m Hw), Hp. apply slice_app_r.
  - by apply (reads_put l w q q' m).
Qed.

(** [operator>>] on a field of the request. *)
Lemma ReadValue_held w l t v old rest :
  held (packets w) l (bytes_of t v ++ rest) -> in_range t v ->
  exists w', on_packet l (fun p => ReadValue p t old) w = Ok (v, w') /\
    held (packets w') l rest /\ reads l w w'.
Proof.
  intros (q & m & Hq & Hw & Hp & H1) Hv. pose proof (zlen_payload q m Hw) as Hz.
  assert (Hn : sizeof t <= m_iUsingSize q).
  { rewrite <- Hz, Hp, zlen_app, zlen_bytes_of. pose proof (zlen_nonneg rest). lia. }
  destruct (ReadValue_spec q m t old Hw) as [_ H]. destruct (H Hn) as (q' & E & Hc).
  rewrite <- (zlen_bytes_of t v) in Hc.
  destruct (consumed_held w l q m q' _ _ Hq Hw Hp H1 Hc) as [Hh Hr].
  eexists. split; [|split; [exact Hh|exact Hr]].
  unfold on_packet. rewrite (bind_run _ _ q _ w) by (by apply packet_run).
  rewrite (bind_run _ _ _ _ w (lift_run _ _ w E)).
  assert (Es : slice (payload q m) 0 (sizeof t) = bytes_of t v).
  { rewrite Hp, <- (zlen_bytes_of t v). apply slice_app_l. }
  by rewrite Es, of_bits_bytes_of.
Qed.

(** [GetData] of a block of the request. *)
Lemma GetData_held w l bs dst rest :
  held (packets w) l (bs ++ rest) -> zlen bs <= zlen dst ->
  exists w', on_packet l (fun p => GetData p dst 0 (zlen bs)) w = Ok (splice dst 0 bs, w') /\
    held (packets w') l rest /\ reads l w w'.
Proof.
  intros (q & m & Hq & Hw & Hp & H1) Hd. pose proof (zlen_payload q m Hw) as Hz.
  pose proof (zlen_nonneg bs) as H0.
  assert (Hn : zlen bs <= m_iUsingSize q).
  { rewrite <- Hz, Hp, zlen_app. pose proof (zlen_nonneg rest). lia. }
  destruct (GetData_spec q m dst 0 (zlen bs) Hw H0 ltac:(lia)) as [_ H].
  destruct (H Hn ltac:(lia)) as (q' & E & Hc).
  destruct (consumed_held w l q m q' _ _ Hq Hw Hp H1 Hc) as [Hh Hr].
  eexists. split; [|split; [exact Hh|exact Hr]].
  unfold on_packet. rewrite (bind_run _ _ q _ w) by (by apply packet_run).
  rewrite (bind_run _ _ _ _ w (lift_run _ _ w E)). by rewrite Hp, slice_app_l.
Qed.

(** ** Composing a reply *)

(** The encoded frame of the payload [bs] is what will be sent of the packet [l]. *)
Definition carries w (l : loc) (bs : list Z) : Prop :=
  exists key, ready w l (header_bytes (mkHeader PACKET_CODE (zlen bs) key (sum_list bs mod 256)),
                         enc_list key 0 0 0 bs).

(** From [w], with the packets [o] in use, a packet [l] not in use has been taken from the
    pool, and the encoded [bs] is in it. *)
Record composed w (o : gset loc) (l : loc) (bs : list Z) w' : Prop := {
  cp_fresh : l ∉ o;
  cp_packet : exists p, packets w' = <[l := p]> (packets w) /\ m_lRefCount p = 1 /\
    m_bIsEncoded p = true /\ live_packet p;
  cp_carries : carries w' l bs;
  cp_inv : pkt_inv w' ({[l]} ∪ o);
  cp_max : m_lMaxCount (pktPool w') <= m_lMaxCount (pktPool w) + 1;
  cp_rest : w' = set_clock (set_packets w (packets w') (pktPool w')) (clock w')
}.

(** [CPacket_Alloc], and the encoding of what was written to the packet. *)
Lemma encode_ok w l p p1 m1 bs :
  packets w !! l = Some p1 -> written p bs p1 m1 -> m_lRefCount p = 1 ->
  exists p2 m2, let w' := set_packets (set_clock w (S (clock w))) (<[l := p2]> (packets w)) (pktPool w) in
    CPacket_SetEncodingCode l w = Ok (tt, w') /\ wf p2 m2 /\ m_lRefCount p2 = 1 /\
    m_bIsEncoded p2 = true /\ carries w' l bs.
Proof.
  intros Hp1 [W1 P1 F1 E1 R1] Hr.
  destruct (SetEncodingCode_spec p1 m1 (rand (clock w)) W1 F1 E1) as (p2 & m2 & E & [W2 P2 H2 G2 F2 U2 R2]).
  exists p2, m2. cbn zeta. split_and!; try done; [|congruence|].
  - unfold CPacket_SetEncodingCode. rewrite (bind_run _ _ p1 _ w) by (by apply packet_run).
    rewrite E1. rewrite (bind_run _ _ (clock w) _ (set_clock w (S (clock w)))) by done.
    by rewrite (bind_run _ _ p2 _ (set_clock w (S (clock w)))) by (by apply lift_run).
  - pose proof (zlen_payload p1 m1 W1) as Hz. rewrite P1 in Hz.
    exists (rand (clock w) mod 256), p2, m2. cbn. rewrite lookup_insert_eq.
    destruct (W2) as [Hh Hmax Hlen Hb Hf Hu Ho Hre]. unfold PAYLOAD_MAX in *.
    split_and!; try done; [lia..|]. unfold GetHeaderPtr, GetDataSize. rewrite H2, P1, Hz. f_equal.
    rewrite P1 in P2. unfold payload in P2. rewrite F2, Z.add_0_r in P2. by rewrite <- P2.
Qed.

(** A reply whose body writes [bs], whatever else it returns. *)
Lemma compose_ok w o {B} (body : CPacket -> res (CPacket * B)) bs b :
  (exists m, malloc eBUFFER_DEFAULT = Some m) -> pkt_inv w o -> m_lMaxCount (pktPool w) < POOL_LIMIT ->
  (forall p m, cleared p m -> exists p' m', body p = Ok (p', b) /\ written p bs p' m') ->
  exists l w1 w2 w', CPacket_Alloc w = Ok (l, w1) /\ app w1 = app w /\
    on_packet l body w1 = Ok (b, w2) /\ CPacket_SetEncodingCode l w2 = Ok (tt, w') /\
    composed w o l bs w'.
Proof.
  intros Hmal Hinv Hlim Hbody.
  destruct (CPacket_Alloc_ok w o Hmal Hinv Hlim) as (l & p & m & pool' & E & Hc & Hr & Hlo & Hinv1 & Hmax).
  set (w1 := set_packets w (<[l := p]> (packets w)) pool') in *.
  destruct (Hbody p m Hc) as (p1 & m1 & Eb & Hw1).
  assert (Hp : packets w1 !! l = Some p) by apply lookup_insert_eq.
  set (w2 := set_packets w1 (<[l := p1]> (packets w1)) (pktPool w1)).
  assert (Hp1 : packets w2 !! l = Some p1) by apply lookup_insert_eq.
  destruct (encode_ok w2 l p p1 m1 bs Hp1 Hw1 Hr) as (p2 & m2 & Ee & Hw2 & Hr2 & He2 & Hcar).
  exists l, w1, w2. eexists. split; [exact E|]. split; [done|]. split; [|split; [exact Ee|]].
  - unfold on_packet. rewrite (bind_run _ _ p _ w1) by (by apply packet_run).
    by rewrite (bind_run _ _ _ _ w1 (lift_run _ _ w1 Eb)).
  - split; [done| |exact Hcar| |done|done].
    + exists p2. cbn. rewrite !insert_insert_eq. split_and!; try done.
      apply (wf_live p2 m2 Hw2). lia.
    + assert (Hinv2 : pkt_inv w2 ({[l]} ∪ o)).
      { apply (pkt_inv_put w1 _ l p p1 Hinv1 Hp); [by eapply wf_shape, Hw1|by destruct Hw1]. }
      apply (pkt_inv_put (set_clock w2 (S (clock w2))) _ l p1 p2);
        [by eapply pkt_inv_same|done|by eapply wf_shape|]. destruct Hw1. cbn in *. congruence.
Qed.

Lemma composed_live w o l bs w' x : composed w o l bs w' -> live (packets w) x -> live (packets w') x.
Proof. intros [_ (p & -> & _ & _ & H) _ _ _ _]. by apply live_put. Qed.

(** ** Sending it *)

(** The outboxes do not depend on the rest of the world. *)
Lemma reachable_mono w w' sids :
  sessionArray w' = sessionArray w -> (forall x, live (packets w) x -> live (packets w') x) ->
  reachable w sids -> reachable w' sids.
Proof.
  intros Es Hl Hre sid Hin. destruct (Hre sid Hin) as (s & [Hi Hs] & Hio & Hob).
  exists s. unfold at_slot. rewrite Es. split_and!; try done; try lia.
  intros H1 H2. apply (open_box_mono (packets w)); auto.
Qed.

Lemma delivered_slots sids l w1 w2 w' :
  sessionArray w1 = sessionArray w2 -> delivered sids l w1 w' -> delivered sids l w2 w'.
Proof. intros E H i s Hs. apply H. unfold at_slot in *. by rewrite E. Qed.

(** [l] has been sent to the sessions [sids], and the handler's reference to it given back. *)
Record answered (o : gset loc) (l : loc) (bs : list Z) (sids : list Z) w w' : Prop := {
  an_delivered : delivered sids l w w';
  an_carries : carries w' l bs;
  an_others : forall x, x <> l -> packets w' !! x = packets w !! x;
  an_inv : exists o', pkt_inv w' o' /\ o ⊆ o';
  an_app : app w' = app w
}.

Lemma reply_sent w o l bs w1 w2 sids :
  composed w o l bs w1 -> packets w2 = packets w1 -> pktPool w2 = pktPool w1 ->
  m_lMaxCount (pktPool w) < POOL_LIMIT ->
  reachable w2 sids -> NoDup sids -> zlen sids < 1073741822 ->
  exists w', (send_to sids l;; CPacket_SubRef l) w2 = Ok (tt, w') /\ answered o l bs sids w2 w'.
Proof.
  intros [Hlo (p & Ep & Hr & He & Hlive) (key & q & m & Hq & Hh & Hz & Hu & Hf) Hinv Hmax _] E2 Epool Hlim Hre Hnd Hn.
  assert (Hp1 : packets w1 !! l = Some p) by (rewrite Ep; apply lookup_insert_eq).
  assert (Hp : packets w2 !! l = Some p) by (by rewrite E2).
  assert (q = p) as -> by congruence.
  destruct (send_to_delivers sids l w2 p Hp He Hlive) as (w3 & n & E & Hdel & Hn0 & E3 & Epool3 & Eapp3);
    [lia|done|done|].
  set (p3 := with_ref p (m_lRefCount p + n)) in *.
  assert (Hp3 : packets w3 !! l = Some p3) by (rewrite E3; apply lookup_insert_eq).
  assert (Hinv3 : pkt_inv w3 ({[l]} ∪ o)).
  { assert (Hw2 : pkt_inv w2 ({[l]} ∪ o)) by (by eapply pkt_inv_same).
    destruct Hw2 as [Pp Pd Ps Pr]. split; rewrite ?E3, ?Epool3.
    - done.
    - rewrite dom_insert_L, Pd. apply elem_of_dom_2 in Hp. rewrite Pd in Hp. set_solver.
    - intros x y Hy. apply lookup_insert_Some in Hy as [[-> <-]|[_ Hy]]; [|eauto].
      destruct (Ps _ _ Hp) as (b & Hb). by exists b.
    - intros x y Hy. apply lookup_insert_Some in Hy as [[-> <-]|[_ Hy]]; [|eauto].
      cbn. rewrite Hr. split; [lia|]. split; [|lia]. intros _. apply elem_of_union_l, elem_of_singleton_2. done. }
  destruct (CPacket_SubRef_ok w3 _ l p3 Hinv3 Hp3) as (pool' & Es & Hinv' & _).
  { apply elem_of_union_l, elem_of_singleton_2. done. }
  { rewrite Epool3, Epool. lia. }
  eexists. rewrite (bind_run _ _ _ _ _ E). split; [exact Es|]. split.
  - exact Hdel.
  - exists key, (with_ref p3 (m_lRefCount p3 - 1)), m. cbn. by rewrite lookup_insert_eq.
  - intros x Hx. cbn. rewrite lookup_insert_ne by done. rewrite E3. by rewrite lookup_insert_ne.
  - eexists. split; [exact Hinv'|]. destruct (_ =? 1); set_solver.
  - done.
Qed.
End Replies.
