(* ===== verification/Broadcast.v ===== *)
(** * Whom a chat message and the heartbeat select (theorems on [Chat])

    [Req_Chat] collects its targets sector by sector under shared locks; [CheckTimeOut] goes
    through the map of players.  Both are characterised against the invariant of [Players]:
    exactly the sessions they are meant for, each once.  What is then sent to them, and who is
    disconnected, is in [Requests]. *)

From S2P Require Import Prelude FreeList Sector Message World Iocp Chat Players.

Section Targets.
Context {Q : LockfreeQueue loc 4096} {RQ : LockfreeQueue st_Redis 65534}.

Implicit Types c : ChatServer.

(** The logged-in player of session [sid] stands in sector [(x, y)]. *)
Definition stands c (sid x y : Z) : Prop :=
  exists l p, players c !! sid = Some l /\ objects c !! l = Some p /\
    isLogined p <> 0 /\ sectorX p = x /\ sectorY p = y.

Lemma collect_ok c ls :
  (forall l, l ∈ ls -> is_Some (objects c !! l)) ->
  exists out, collect c ls = Ok out /\
    (forall sid, sid ∈ out <-> exists l p, l ∈ ls /\ objects c !! l = Some p /\
       isLogined p <> 0 /\ p_sessionID p = sid) /\
    ((forall l l' p p', l ∈ ls -> l' ∈ ls -> objects c !! l = Some p ->
        objects c !! l' = Some p' -> p_sessionID p = p_sessionID p' -> l = l') ->
     NoDup ls -> NoDup out).
Proof.
  induction ls as [|l ls IH]; intros Hls; cbn [collect].
  - exists []. split; [done|]. split; [|constructor]. intros sid. split; [by intros ?%elem_of_nil|].
    intros (l & p & Hl & _). by apply elem_of_nil in Hl.
  - destruct (Hls l (list_elem_of_here _ _)) as [p Hp].
    rewrite (player_ok _ _ _ Hp). cbn [mbind res_bind].
    destruct IH as (out & -> & Hout & Hnd); [intros; apply Hls; by apply list_elem_of_further|].
    cbn [mbind res_bind]. eexists. split; [reflexivity|]. split.
    + intros sid. destruct (Z.eqb_spec (isLogined p) 0) as [E|E].
      * rewrite Hout. split; intros (l' & p' & Hl & Hp' & Hlg & Hid); exists l', p'.
        -- split; [by apply list_elem_of_further|done].
        -- apply elem_of_cons in Hl as [-> |Hl]; [|done]. congruence.
      * rewrite elem_of_cons, Hout. split.
        -- intros [-> |(l' & p' & Hl & H)]; [exists l, p|exists l', p'];
             (split; [by (apply list_elem_of_here || apply list_elem_of_further)|done]).
        -- intros (l' & p' & Hl & Hp' & Hlg & Hid).
           apply elem_of_cons in Hl as [-> |Hl]; [left; congruence|right; by exists l', p'].
    + intros Hinj Hnd'. apply list.NoDup_cons in Hnd' as [Hl Hnd'].
      assert (Hnd2 : NoDup out).
      { apply Hnd; [|done]. intros a b p1 p2 Ha Hb. apply Hinj; by apply list_elem_of_further. }
      destruct (isLogined p =? 0); [done|]. apply list.NoDup_cons. split; [|done].
      intros Hin. apply Hout in Hin as (l' & p' & Hl' & Hp' & _ & Hid). apply Hl.
      rewrite (Hinj l l' p p'); auto; [apply list_elem_of_here|by apply list_elem_of_further].
Qed.

(** One sector: the sessions of the logged-in players that stand there. *)
Lemma collect_sector_ok c L o x y :
  chat_inv c L o -> on_grid x y ->
  exists out, collect c (elements (sector_set c x y)) = Ok out /\ NoDup out /\
    forall sid, sid ∈ out <-> stands c sid x y.
Proof.
  intros Hi Hg.
  assert (Hmem : forall l, l ∈ elements (sector_set c x y) <->
    exists sid p, players c !! sid = Some l /\ objects c !! l = Some p /\
      sectorX p = x /\ sectorY p = y).
  { intros l. rewrite elem_of_elements, (ci_sector _ _ _ Hi). tauto. }
  destruct (collect_ok c (elements (sector_set c x y))) as (out & E & Hout & Hnd).
  { intros l Hl. apply Hmem in Hl as (sid & p & _ & Hp & _). by exists p. }
  exists out. split; [done|]. split.
  - apply Hnd; [|apply NoDup_elements]. intros l l' p p' Hl Hl' Hp Hp' Hid.
    apply Hmem in Hl as (s & q & Hs & Hq & _). apply Hmem in Hl' as (s' & q' & Hs' & Hq' & _).
    destruct (ci_players _ _ _ Hi _ _ Hs) as (_ & r & Hr & <- & _).
    destruct (ci_players _ _ _ Hi _ _ Hs') as (_ & r' & Hr' & <- & _). congruence.
  - intros sid. rewrite Hout. unfold stands. split.
    + intros (l & p & Hl & Hp & Hlg & Hid). apply Hmem in Hl as (s & q & Hs & Hq & Hx & Hy).
      destruct (ci_players _ _ _ Hi _ _ Hs) as (_ & r & Hr & <- & _).
      exists l, p. assert (q = p) as -> by congruence. assert (r = p) as -> by congruence.
      subst sid. done.
    + intros (l & p & Hs & Hp & Hlg & Hx & Hy). exists l, p. split; [apply Hmem; by exists sid, p|].
      destruct (ci_players _ _ _ Hi _ _ Hs) as (_ & r & Hr & Hid & _).
      split_and!; try done. congruence.
Qed.

Lemma stands_log c lg sid x y : stands (log_locks c lg) sid x y <-> stands c sid x y.
Proof. done. Qed.

(** Any list of sectors of the grid without repetition. *)
Lemma collect_sectors_ok ps (w : World ChatServer) L o :
  chat_inv (app w) L o -> NoDup ps -> (forall p, p ∈ ps -> on_grid (px p) (py p)) ->
  exists out lg, collect_sectors ps w = Ok (out, set_app w (log_locks (app w) lg)) /\
    disciplined [] lg = true /\ NoDup out /\
    forall sid, sid ∈ out <-> exists p, p ∈ ps /\ stands (app w) sid (px p) (py p).
Proof.
  revert w. induction ps as [|p ps IH]; intros w Hi Hnd Hg.
  - exists [], []. rewrite log_locks_nil. split; [by destruct w|]. split_and!; try done; [constructor|].
    intros sid. split; [by intros ?%elem_of_nil|]. intros (p & Hp & _). by apply elem_of_nil in Hp.
  - apply list.NoDup_cons in Hnd as [Hp Hnd].
    assert (Hgp := Hg p (list_elem_of_here _ _)).
    assert (Hu : u16 (px p) = px p /\ u16 (py p) = py p).
    { unfold on_grid, dfSECTOR_MAX_X, dfSECTOR_MAX_Y in Hgp. rewrite !u16_id; lia. }
    cbn [collect_sectors]. destruct Hu as [-> ->].
    set (a1 := [Acquire Shared (sectorLock (px p) (py p))]).
    set (a2 := [Release Shared (sectorLock (px p) (py p))]).
    pose proof (chat_inv_log _ _ _ a1 Hi) as Hi1.
    destruct (collect_sector_ok _ _ _ (px p) (py p) Hi1 Hgp) as (here & Eh & Hndh & Hh).
    set (w1 := set_app w (log_locks (log_locks (app w) a1) a2)).
    destruct (IH w1) as (rest & lg & Er & Dr & Hndr & Hr); [|done| |].
    { apply chat_inv_log, Hi1. }
    { intros q Hq. apply Hg. by apply list_elem_of_further. }
    exists (here ++ rest), (a1 ++ a2 ++ lg). split; [|split_and!].
    + rewrite (bind_run _ _ tt _ (set_app w (log_locks (app w) a1))) by done.
      rewrite (bind_run _ _ (log_locks (app w) a1) _ (set_app w (log_locks (app w) a1))) by done.
      rewrite (bind_run _ _ tt _ (set_app w (log_locks (app w) a1))); cycle 1.
      { apply lift_run. unfold on_grid in Hgp.
        replace (_ && _) with true; [done|]. symmetry. rewrite andb_true_iff. lia. }
      rewrite (bind_run _ _ here _ (set_app w (log_locks (app w) a1))) by (by apply lift_run).
      rewrite (bind_run _ _ tt _ w1) by done.
      rewrite (bind_run _ _ rest _ _ Er). unfold w1. cbn [app set_app].
      by rewrite !log_locks_app.
    + rewrite app_assoc. apply disciplined_app; [|done].
      cbn. rewrite bool_decide_eq_true_2 by apply list_elem_of_here. by rewrite decide_True.
    + apply list.NoDup_app. split_and!; try done. intros sid H1 H2.
      apply Hh in H1 as (l & q & Hs & Hq & _ & Hx & Hy). apply Hr in H2 as (p' & Hp' & Hst).
      destruct Hst as (l' & q' & Hs' & Hq' & _ & Hx' & Hy'). cbn in *.
      apply Hp. replace p with p'; [done|]. destruct p, p'; cbn in *.
      assert (l' = l) as -> by congruence. assert (q' = q) as -> by congruence. by subst.
    + intros sid. rewrite elem_of_app, Hh, Hr. split.
      * intros [H|(q & Hq & H)]; [exists p|exists q];
          (split; [by (apply list_elem_of_here || apply list_elem_of_further)|done]).
      * intros (q & Hq & H). apply elem_of_cons in Hq as [-> |Hq]; [by left|right; by exists q].
Qed.

(** The audience of a chat message.  From a player in sector [(cx, cy)], the sessions
    [Req_Chat] collects are exactly those of the logged-in players whose sectors are at most
    one step away in each direction, the sender's own included; each is listed once, nothing
    but the lock log changes, and the locks are taken one at a time. *)
Lemma broadcast_targets (w : World ChatServer) L o cx cy :
  chat_inv (app w) L o -> on_grid cx cy ->
  exists around targets lg, MakeAround cx cy = Ok around /\
    collect_sectors (entries around) w = Ok (targets, set_app w (log_locks (app w) lg)) /\
    disciplined [] lg = true /\ NoDup targets /\
    forall sid, sid ∈ targets <->
      exists x y, on_grid x y /\ near x cx /\ near y cy /\ stands (app w) sid x y.
Proof.
  intros Hi Hg. destruct (MakeAround_entries cx cy Hg) as (s & E & _ & _ & He).
  assert (Hin : forall p, p ∈ entries s <->
    on_grid (px p) (py p) /\ near (px p) cx /\ near (py p) cy).
  { intros p. rewrite He. apply in_candidates. }
  destruct (collect_sectors_ok (entries s) w L o Hi) as (out & lg & Ec & Hd & Hnd & Hout).
  { rewrite He. apply list.NoDup_filter, NoDup_candidates. }
  { intros p Hp. by apply Hin in Hp as [? _]. }
  exists s, out, lg. split_and!; try done. intros sid. rewrite Hout. split.
  - intros (p & Hp & Hst). apply Hin in Hp. exists (px p), (py p). tauto.
  - intros (x & y & Hxy & Hx & Hy & Hst). exists (mkPos x y). split; [by apply Hin|done].
Qed.

(** *** The heartbeat *)

Lemma timed_out_ok c L o cur kvs :
  chat_inv c L o -> (forall sid l, (sid, l) ∈ kvs -> players c !! sid = Some l) ->
  NoDup kvs.*1 ->
  exists out, timed_out c cur kvs = Ok out /\ NoDup out /\
    forall sid, sid ∈ out <-> exists l p, (sid, l) ∈ kvs /\ objects c !! l = Some p /\
      p_lastRecvTime p < u64 cur /\ 40000 < u64 (cur - p_lastRecvTime p).
Proof.
  intros Hi. induction kvs as [|[sid l] kvs IH]; intros Hin Hnd; cbn [timed_out].
  - exists []. split; [done|]. split; [constructor|]. intros sid. split; [by intros ?%elem_of_nil|].
    intros (l & p & Hl & _). by apply elem_of_nil in Hl.
  - cbn in Hnd. apply list.NoDup_cons in Hnd as [Hsid Hnd].
    destruct (ci_players _ _ _ Hi sid l) as (_ & p & Hp & _); [apply Hin, list_elem_of_here|].
    rewrite (player_ok _ _ _ Hp). cbn [mbind res_bind].
    destruct IH as (out & -> & Hndo & Hout); [intros; apply Hin; by apply list_elem_of_further|done|].
    cbn [mbind res_bind]. eexists. split; [reflexivity|].
    rewrite !Z.gtb_ltb. split.
    + destruct (_ && _); [|done]. apply list.NoDup_cons. split; [|done].
      intros H. apply Hout in H as (l' & _ & Hl' & _). apply Hsid, list_elem_of_fmap. by exists (sid, l').
    + intros s. transitivity ((s = sid /\ p_lastRecvTime p < u64 cur /\
                               40000 < u64 (cur - p_lastRecvTime p)) \/ s ∈ out).
      * rewrite <- !Z.ltb_lt, <- andb_true_iff. destruct (_ && _); rewrite ?elem_of_cons; naive_solver.
      * rewrite Hout. split.
        -- intros [(-> & H)|(l' & p' & Hl & H)]; [exists l, p|exists l', p'];
             (split; [by (apply list_elem_of_here || apply list_elem_of_further)|done]).
        -- intros (l' & p' & Hl & Hp' & H). apply elem_of_cons in Hl as [[= -> ->]|Hl].
           ++ left. split; [done|]. congruence.
           ++ right. by exists l', p'.
Qed.

(** The heartbeat.  With times below 2^63 milliseconds, the sessions [CheckTimeOut]
    decides to disconnect are exactly the connected ones whose last message is more than
    40000 ms old, each once; one stamped in the future is not. *)
Lemma timed_out_spec c L o cur :
  chat_inv c L o -> 0 <= cur < 9223372036854775808 ->
  (forall l p, objects c !! l = Some p -> 0 <= p_lastRecvTime p < 9223372036854775808) ->
  exists kick, timed_out c (i64 cur) (map_to_list (players c)) = Ok kick /\ NoDup kick /\
    forall sid, sid ∈ kick <-> exists l p, players c !! sid = Some l /\
      objects c !! l = Some p /\ 40000 < cur - p_lastRecvTime p.
Proof.
  intros Hi Hcur Ht.
  destruct (timed_out_ok c L o (i64 cur) (map_to_list (players c)) Hi) as (kick & E & Hnd & Hk).
  { intros sid l H. by apply elem_of_map_to_list. }
  { apply NoDup_fst_map_to_list. }
  exists kick. split_and!; try done. intros sid. rewrite Hk, i64_id by lia.
  split; intros (l & p & Hl & Hp & H); exists l, p; specialize (Ht l p Hp).
  - apply elem_of_map_to_list in Hl. rewrite u64_id in H by lia. split_and!; try done.
    destruct H as [H1 H2]. rewrite u64_id in H2; lia.
  - rewrite elem_of_map_to_list. split_and!; try done; rewrite u64_id; lia.
Qed.
End Targets.
