(* ===== verification/Lifecycle.v ===== *)
(** * From start to stop (theorems on [Threads])

    What [Start] leaves behind on each of its returns, that the workers exit after [Stop] has
    posted one status for each of them, what [Stop] does to sessions, packets and handles, and
    what the destructor of the chat server gives back. *)

From S2P Require Import Prelude RingBuffer Packet Codec FreeList Sector Message World PacketHeap Iocp Chat Threads Players Sends Sessions.

Section Lifecycle.
Context {Q : LockfreeQueue loc 4096} {A : Type}.
Context {W : Windows} {R : Runtime} {App : ServerApp A}.

Implicit Types w : World A.

(** ** [Start] *)

Lemma push_indices_ok n st : push_indices n st = seqZ 0 (Z.of_nat n) ++ st.
Proof.
  revert st. induction n as [|n IH]; intros st; [done|]. cbn [push_indices]. rewrite IH.
  rewrite Nat2Z.inj_succ, <- Z.add_1_r, seqZ_app by lia. by rewrite <- app_assoc.
Qed.

Context {U : Startup}.

(** ** The workers *)

Context (OnRecv : Z -> loc -> M A unit).

(** A completion that does not end a worker's loop. *)
Definition goes_on (c : completion) : bool :=
  match c_overlapped c with
  | Some _ => true
  | None => c_retval c && negb ((c_transferred c =? 0) && bool_decide (c_session c = None))
  end.

(** The completions of [cs] handled one after the other. *)
Fixpoint handled (cs : list completion) : M A unit :=
  match cs with
  | [] => mret tt
  | c :: cs => worker_turn OnRecv c;; handled cs
  end.

Lemma worker_turn_on c w b w' :
  goes_on c = true -> worker_turn OnRecv c w = Ok (b, w') -> b = true.
Proof.
  unfold goes_on, worker_turn. destruct (c_overlapped c) as [o|].
  - intros _. destruct (c_session c) as [i|]; [|done]. intros H.
    do 3 apply bind_inv in H as (? & ? & _ & H). by injection H.
  - destruct (c_retval c); [|done]. cbn [negb andb]. destruct (_ && _); [done|]. by intros _ [= <- _].
Qed.

Lemma worker_turn_off c w : goes_on c = false -> worker_turn OnRecv c w = Ok (false, w).
Proof.
  unfold goes_on, worker_turn. destruct (c_overlapped c); [done|].
  destruct (c_retval c); [|done]. cbn [negb andb]. by destruct (_ && _).
Qed.

Lemma workers_handle k cs rest w w' :
  Forall (fun c => goes_on c = true) cs -> handled cs w = Ok (tt, w') ->
  workers OnRecv (S k) (cs ++ rest) w = workers OnRecv (S k) rest w'.
Proof.
  intros Hcs. revert w. induction Hcs as [|c cs Hc Hcs IH]; intros w H.
  - by injection H as ->.
  - cbn [handled] in H. apply bind_inv in H as (b & w1 & H1 & H). change ((c :: cs) ++ rest) with (c :: (cs ++ rest)). cbn [workers].
    pose proof (worker_turn_on _ _ _ _ Hc H1) as ->.
    rewrite (bind_run _ _ _ _ _ H1). by apply IH.
Qed.

Lemma workers_exit k rest w :
  Forall (fun c => goes_on c = false) (take k rest) ->
  workers OnRecv k rest w = Ok ((k - length rest)%nat, drop k rest, w).
Proof.
  revert rest w. induction k as [|k IH]; intros rest w H; [by destruct rest|].
  destruct rest as [|c rest]; [done|]. cbn [take] in H. inversion H; subst. cbn [workers].
  rewrite (bind_run _ _ _ _ _ (worker_turn_off c w ltac:(done))). rewrite IH by done. done.
Qed.

(** C24.  The end of the workers.  When [k] workers are running and [Stop] has posted [n >= k]
    statuses behind the completions [cs], every worker exits: the completions of [cs] have all
    been handled, in order, each worker has taken exactly one status, and whatever is queued
    behind the statuses ([rest], such as the aborted receives of the sockets [Stop] closes
    next) is never handled. *)
Theorem workers_all_exit k n cs rest w w' :
  Forall (fun c => goes_on c = true) cs -> handled cs w = Ok (tt, w') -> (0 < k <= n)%nat ->
  workers OnRecv k (cs ++ replicate n CShutdown ++ rest) w =
    Ok (0%nat, replicate (n - k) CShutdown ++ rest, w').
Proof.
  intros Hcs H Hk. destruct k as [|k]; [lia|]. rewrite (workers_handle k cs _ w w' Hcs H).
  rewrite workers_exit.
  - replace n with (S k + (n - S k))%nat at 1 2 by lia. rewrite replicate_add, <- app_assoc.
    rewrite drop_app_length' by (by rewrite length_replicate). rewrite !length_app, length_replicate.
    do 3 f_equal. lia.
  - replace n with (S k + (n - S k))%nat by lia. rewrite replicate_add, <- app_assoc.
    rewrite take_app_length' by (by rewrite length_replicate). by apply Forall_replicate.
Qed.

(** ** [Stop] *)

(** A slot as [Stop] finds it: free, or connected with an operation in progress, as a
    connected session always has. *)
Definition free_or_busy (s : Session) : Prop :=
  sock s = None \/ (isReleased s = FALSE /\ ioCount s <> 0).

(** Two worlds that differ in the sessions, the packets and what the clients have seen. *)
Definition same_rest w w' : Prop :=
  w' = mkWorld (sessionArray w') (indexStack w) (nextID w) (maxClientCount w) (sessionCount w)
    (sendTPS w) (recvTPS w) (acceptTPS w) (acceptCount w) (packets w') (pktPool w') (app w)
    (kernel w) (sent w') (clock w).

(** One reference less for each packet in [ls]. *)
Definition refs_back (ls : list loc) w w' : Prop :=
  forall l, packets w' !! l = (fun p => with_ref p (m_lRefCount p - occ l ls)) <$> packets w !! l.

Lemma refs_back_app ls ls' w w1 w2 :
  refs_back ls w w1 -> refs_back ls' w1 w2 -> refs_back (ls ++ ls') w w2.
Proof.
  intros R1 R2 l. rewrite R2, R1, occ_app. destruct (packets w !! l); [|done]. cbn.
  do 2 f_equal. lia.
Qed.

Lemma DisConnect_busy i w s :
  at_slot i w s -> isReleased s = FALSE -> ioCount s <> 0 ->
  DisConnect i w = Ok (tt, with_session (set_sent w (sent w ++ [EClose (sock s)])) i
                             (set_sock (set_isReleased s TRUE) None)).
Proof.
  intros Hs Hr Hio. unfold DisConnect. rewrite (bind_run _ _ _ _ _ (session_run _ _ _ Hs)), Hr.
  cbn [Z.eqb]. rewrite (bind_run _ _ _ _ _ (put_session_run _ _ _ _ Hs)).
  change (FALSE =? TRUE) with false. change (FALSE =? FALSE) with true. cbn iota.
  rewrite (bind_run _ _ _ _ _ (eq_refl : modify _ _ = Ok (tt, _))).
  assert (H1 : at_slot i (with_session w i (set_isReleased s TRUE)) (set_isReleased s TRUE))
    by by eapply at_slot_with.
  set (w1 := set_sent _ _).
  assert (H2 : at_slot i w1 (set_isReleased s TRUE)) by exact H1.
  rewrite (bind_run _ _ _ _ _ (update_run _ _ _ _ H2)).
  rewrite (bind_run _ _ _ _ _ (session_run _ _ _ (at_slot_with _ _ _ _ H2))).
  cbn [ioCount set_sock set_isReleased]. destruct (Z.eqb_spec (ioCount s) 0); [done|].
  unfold w1, with_session, mret, M_ret. cbn. by rewrite list_insert_insert_eq.
Qed.

Lemma same_rest_trans w w1 w2 : same_rest w w1 -> same_rest w1 w2 -> same_rest w w2.
Proof. unfold same_rest. intros -> ->. done. Qed.

(** What [Stop] leaves of a slot. *)
Definition stopped_slot (s s' : Session) : Prop :=
  sock s' = None /\ elems (sendBuf s') = [] /\ elems (completeSendBuf s') = [] /\
  isReleased s' = (match sock s with Some _ => TRUE | None => isReleased s end) /\ sessionID s' = sessionID s /\
  recvBuf s' = ClearBuffer (recvBuf s).

Definition close_event (s : Session) : list event :=
  match sock s with Some _ => [EClose (sock s)] | None => [] end.

Lemma stop_drains i w s o :
  at_slot i w s -> sock s = None -> pkt_inv w o -> owns (queued s) w ->
  m_lMaxCount (pktPool w) <= POOL_LIMIT ->
  exists w' s' o', (drain_sendBuf i;; drain_completeSendBuf i;;
      update i (fun s => set_recvBuf s (ClearBuffer (recvBuf s)))) w = Ok (tt, with_session w' i s') /\
    elems (sendBuf s') = [] /\ elems (completeSendBuf s') = [] /\
    s' = mkSession (sock s) (sessionID s) (index s) (isSendFlag s) (sendCount s) (isReleased s)
           (ioCount s) (sendBuf s') (completeSendBuf s') (ClearBuffer (recvBuf s)) (lastRecvTime s) /\
    gave_back (queued s) w w' /\ pkt_inv w' o'.
Proof.
  intros Hs _ Hinv Ho Hlim.
  assert (Ho0 : owns (elems (sendBuf s)) w).
  { intros l Hl. destruct (Ho l) as (p & Hp & Hc); [apply elem_of_app; by left|].
    exists p. split; [done|]. unfold queued in Hc. rewrite occ_app in Hc.
    pose proof (occ_nonneg l (elems (completeSendBuf s))). lia. }
  destruct (drain_sendBuf_ok i w s o Hs Hinv Ho0 Hlim) as (q1 & w1 & o1 & E1 & Hq1 & Hg1 & Hinv1).
  set (s1 := set_sendBuf s q1) in *.
  assert (Hs1 : at_slot i (with_session w1 i s1) s1) by (eapply at_slot_with, gave_back_slot; eassumption).
  assert (Ho1 : owns (elems (completeSendBuf s1)) w1).
  { apply (owns_app (elems (sendBuf s)) _ w); [exact Ho|exact Hg1]. }
  destruct (drain_completeSendBuf_ok i (with_session w1 i s1) s1 o1 Hs1)
    as (q2 & w2 & o2 & E2 & Hq2 & Hg2 & Hinv2); [by eapply pkt_inv_same|exact Ho1|
     change (m_lMaxCount (pktPool w1) <= POOL_LIMIT); by rewrite (gb_max _ _ _ Hg1)|].
  set (s2 := set_completeSendBuf s1 q2) in *.
  assert (Hs2 : at_slot i (with_session w2 i s2) s2) by (eapply at_slot_with, gave_back_slot; eassumption).
  exists (set_packets w (packets w2) (pktPool w2)), (set_recvBuf s2 (ClearBuffer (recvBuf s2))), o2.
  split_and!; try done.
  - rewrite (bind_run _ _ _ _ _ E1), (bind_run _ _ _ _ _ E2), (update_run _ _ _ _ Hs2).
    rewrite with_session_twice. do 2 f_equal. rewrite (gb_rest _ _ _ Hg2), (gb_rest _ _ _ Hg1).
    unfold with_session. cbn. by rewrite list_insert_insert_eq.
  - destruct Hg1 as [R1 M1 X1], Hg2 as [R2 M2 X2]. split; cbn.
    + intros l. rewrite R2. cbn. rewrite R1. unfold queued. rewrite occ_app. cbn.
      destruct (packets w !! l); [|done]. cbn. do 2 f_equal. lia.
    + done.
    + rewrite X2. cbn. by rewrite X1.
  - by eapply pkt_inv_same.
Qed.

Lemma stop_slot_ok i w s o :
  at_slot i w s -> free_or_busy s -> pkt_inv w o -> owns (queued s) w ->
  m_lMaxCount (pktPool w) <= POOL_LIMIT ->
  exists w' s' o', stop_slot i w = Ok (tt, w') /\ same_rest w w' /\
    sessionArray w' = <[Z.to_nat i := s']> (sessionArray w) /\ stopped_slot s s' /\
    sent w' = sent w ++ close_event s /\ refs_back (queued s) w w' /\ pkt_inv w' o' /\
    m_lMaxCount (pktPool w') = m_lMaxCount (pktPool w).
Proof.
  intros Hs Hb Hinv Ho Hlim. unfold stop_slot.
  rewrite (bind_run _ _ _ _ _ (session_run _ _ _ Hs)). unfold close_event.
  destruct (sock s) as [k|] eqn:Ek.
  - destruct Hb as [|[Hr Hio]]; [congruence|].
    rewrite (bind_run _ _ _ _ _ (DisConnect_busy i w s Hs Hr Hio)). rewrite Ek.
    set (s1 := set_sock _ _). set (v := set_sent w _).
    assert (Hs1 : at_slot i (with_session v i s1) s1) by by eapply (at_slot_with _ v).
    destruct (stop_drains i _ s1 o Hs1) as (w' & s' & o' & E & H1 & H2 & Es & [Hgr Hgm Hgx] & Hinv');
      [done|by eapply pkt_inv_same|exact Ho|exact Hlim|].
    rewrite E. eexists _, s', o'. split; [reflexivity|]. split_and!; try done.
    + unfold same_rest. rewrite Hgm. done.
    + rewrite Hgm. cbn. by rewrite list_insert_insert_eq.
    + unfold stopped_slot. rewrite Es, Ek. cbn. done.
    + by rewrite Hgm.
    + by eapply pkt_inv_same.
  - rewrite (bind_run _ _ _ _ w) by done.
    destruct (stop_drains i w s o Hs Ek Hinv Ho Hlim)
      as (w' & s' & o' & E & H1 & H2 & Es & [Hgr Hgm Hgx] & Hinv').
    rewrite E. eexists _, s', o'. split; [reflexivity|]. split_and!; try done.
    + unfold same_rest. rewrite Hgm. done.
    + by rewrite Hgm.
    + unfold stopped_slot. rewrite Es, Ek. cbn. done.
    + rewrite Hgm. cbn. by rewrite app_nil_r.
    + by eapply pkt_inv_same.
Qed.

(** The references held by the queues of all slots. *)
Definition all_queued (ss : list Session) : list loc := ss ≫= queued.

Lemma stop_slots_ok ss bs w o :
  sessionArray w = bs ++ ss -> Forall free_or_busy ss -> pkt_inv w o ->
  owns (all_queued ss) w -> m_lMaxCount (pktPool w) <= POOL_LIMIT ->
  exists w' o', stop_slots (length ss) (zlen bs) w = Ok (tt, w') /\ same_rest w w' /\
    sent w' = sent w ++ (ss ≫= close_event) /\ refs_back (all_queued ss) w w' /\ pkt_inv w' o'.
Proof.
  revert bs w o. induction ss as [|s ss IH]; intros bs w o Ea Hb Hinv Ho Hlim.
  - exists w, o. split; [done|]. split; [by destruct w|]. split; [by rewrite app_nil_r|].
    split; [|done]. intros l. destruct (packets w !! l); [|done]. cbn.
    by rewrite Z.sub_0_r, with_ref_same.
  - inversion Hb as [|? ? Hbs Hb']; subst. cbn [length stop_slots].
    assert (Hs : at_slot (zlen bs) w s).
    { split; [rewrite Ea; rewrite zlen_app, zlen_cons; pose proof (zlen_nonneg bs);
        pose proof (zlen_nonneg ss); lia|].
      rewrite Ea. unfold zlen. rewrite Nat2Z.id. by apply list_lookup_middle. }
    destruct (stop_slot_ok (zlen bs) w s o Hs Hbs Hinv)
      as (w1 & s1 & o1 & E1 & Hr1 & Ea1 & _ & Hsent1 & Hb1 & Hinv1 & Hm1); [|done|].
    { intros l Hl. destruct (Ho l) as (p & Hp & Hc); [apply elem_of_app; by left|].
      exists p. split; [done|]. unfold all_queued in Hc. cbn in Hc. rewrite occ_app in Hc.
      pose proof (occ_nonneg l (ss ≫= queued)). lia. }
    rewrite (bind_run _ _ _ _ _ E1).
    destruct (IH (bs ++ [s1]) w1 o1) as (w' & o' & E & Hr & Hsent & Hbk & Hinv').
    + rewrite Ea1, Ea. unfold zlen. rewrite Nat2Z.id, insert_app_r_alt by lia.
      by rewrite Nat.sub_diag, <- app_assoc.
    + done.
    + done.
    + intros l Hl. destruct (Ho l) as (p & Hp & Hc); [apply elem_of_app; by right|].
      unfold all_queued in Hc. cbn in Hc. rewrite occ_app in Hc. rewrite Hb1, Hp.
      eexists. split; [done|]. cbn. unfold all_queued. lia.
    + by rewrite Hm1.
    + exists w', o'. rewrite zlen_app in E. change (zlen [s1]) with 1 in E. split; [exact E|].
      split; [by eapply same_rest_trans|]. split; [|split; [|done]].
      * rewrite Hsent, Hsent1. cbn. by rewrite app_assoc.
      * by apply (refs_back_app _ _ _ w1).
Qed.

(** C25.  Stopping.  Let every slot be free or connected with an operation in progress, and
    the queues own one reference for each packet in them.  Then [Stop] returns; every connected
    socket is closed; exactly the references of the queues are given back; the array is gone
    and the counters are 0.  But no session is released: the derived object is what it was,
    [OnClientLeave] was called for nobody.  And the handle of the accept thread is closed, then
    waited for, then closed again; so is [monitorThread], which no function ever sets. *)
Theorem Stop_spec (s : Server) w o :
  world s = w -> maxClientCount w = zlen (sessionArray w) -> Forall free_or_busy (sessionArray w) ->
  pkt_inv w o -> owns (all_queued (sessionArray w)) w -> m_lMaxCount (pktPool w) <= POOL_LIMIT ->
  exists s', Stop s = Ok s' /\
    sessionArray (world s') = [] /\ app (world s') = app w /\
    sent (world s') = sent w ++ (sessionArray w ≫= close_event) /\
    refs_back (all_queued (sessionArray w)) w (world s') /\
    sessionCount (world s') = 0 /\ threadVector s' = [] /\ hcp s' = None /\
    os_log s' = os_log s ++
      [OCloseSocket (listenSocket s); OCloseHandle (acceptThread s); OCloseHandle (monitorThread s)] ++
      (if hcp s is Some _ then replicate (length (threadVector s)) OPostStatus else []) ++
      join (acceptThread s) ++ join (monitorThread s) ++ (threadVector s ≫= join) ++
      (if hcp s is Some h then [OCloseHandle h] else []) ++ [OCleanup].
Proof.
  intros Ew Hmax Hb Hinv Ho Hlim. unfold Stop.
  destruct (stop_slots_ok (sessionArray w) [] w o eq_refl Hb Hinv Ho Hlim)
    as (w' & o' & E & Hr & Hsent & Hbk & _).
  assert (E' : match sessionArray w with
               | [] => Ok (tt, w)
               | _ => stop_slots (Z.to_nat (maxClientCount w)) 0 w
               end = Ok (tt, w')).
  { rewrite Hmax. unfold zlen. rewrite Nat2Z.id. by destruct (sessionArray w). }
  cbn [world os set_threads]. rewrite Ew, E'. cbn [mbind res_bind].
  assert (Hrest : app w' = app w) by by rewrite Hr.
  assert (Hflat : flat_map join (threadVector s) = threadVector s ≫= join).
  { generalize (threadVector s). intros l. induction l as [|h l IH]; cbn; [done|]. by rewrite IH. }
  destruct (hcp s) as [h|] eqn:Eh; eexists; (split; [reflexivity|]); cbn -[join];
    rewrite ?Eh; split_and!; try done.
  - rewrite Hflat, (const_fmap (fun _ => OPostStatus) _ OPostStatus) by done. by simplify_list_eq.
  - rewrite Hflat. by simplify_list_eq.
Qed.

(** [Start], when everything it asks of Windows succeeds: every slot is free and its index is on the
    stack once, the lowest on top; one accept thread and [threadCount] workers run.  When
    anything fails, [Start] returns false and the sessions are as they were. *)
Theorem Start_spec port n nagle maxUserCount (s s' : Server (A := A)) b :
  0 <= n -> Start port n nagle maxUserCount s = Ok (s', b) ->
  (b = false -> world s' = world s) /\
  (b = true -> 0 <= maxUserCount /\
     sessionArray (world s') = replicate (Z.to_nat maxUserCount) Session_new /\
     indexStack (world s') = seqZ 0 maxUserCount ++ indexStack (world s) /\
     maxClientCount (world s') = maxUserCount /\ sessionCount (world s') = 0 /\
     app (world s') = app (world s) /\
     zlen (threadVector s') = zlen (threadVector s) + n /\
     (In ONoDelay (os_log s') <-> nagle = true \/ In ONoDelay (os_log s))).
Proof.
  intros Hn H. unfold Start in H.
  destruct (negb WSAStartup_ok); [injection H as <- <-; done|].
  destruct new_hcp; [|injection H as <- <-; done].
  destruct new_socket; [|injection H as <- <-; done].
  destruct (negb bind_ok); [injection H as <- <-; done|].
  destruct (negb listen_ok); [injection H as <- <-; done|].
  apply bind_Ok in H as (u & Hc & H). apply check_Ok, Z.leb_le in Hc. injection H as <- <-.
  split; [done|]. intros _. cbn. split_and!; try done.
  - rewrite push_indices_ok, Z2Nat.id by done. done.
  - rewrite zlen_app. unfold zlen. rewrite length_fmap, length_seq. lia.
  - rewrite !in_app_iff. cbn. split.
    + intros [[[H|H]|H]|H]; [by right|destruct nagle; [by left|]|..]; cbn in H.
      * naive_solver.
      * naive_solver.
      * destruct H as [H|H]; [done|]. apply in_map_iff in H as (x & H & _). done.
    + intros [->|H]; [|tauto]. left. left. right. cbn. tauto.
Qed.
End Lifecycle.

(** ** The destructor of the chat server *)

Section Destructor.
Context {RQ : LockfreeQueue st_Redis 65534}.

Implicit Types c : ChatServer.

(** A player nobody but the map holds. *)
Definition only_mapped c (o : gset loc) (l : loc) : Prop :=
  l ∈ o /\ exists p, objects c !! l = Some p /\ ref p = 1.

Lemma release_players_ok ls c L o :
  at_rest (playerPool c) L o -> NoDup ls.*2 -> Forall (fun kv => only_mapped c o kv.2) ls ->
  m_lMaxCount (playerPool c) <= POOL_LIMIT ->
  exists c' L', release_players ls c = Ok c' /\
    at_rest (playerPool c') L' (o ∖ list_to_set ls.*2) /\
    GetUseCount (playerPool c') = GetUseCount (playerPool c) - zlen ls /\
    players c' = players c /\ accounts c' = accounts c /\ lockLog c' = lockLog c.
Proof.
  revert c L o. induction ls as [|[sid l] ls IH]; intros c L o Hr Hnd Hm Hlim.
  - exists c, L. cbn. rewrite difference_empty_L. split_and!; try done. change (zlen []) with 0. lia.
  - apply list.NoDup_cons in Hnd as [Hl Hnd]. cbn in Hl.
    apply list.Forall_cons in Hm as [[Hlo (p & Hp & Hp1)] Hm]. cbn in Hlo, Hp. cbn [release_players].
    rewrite (ReleasePlayer_ok c l p) by (done || lia). rewrite Hp1. cbn [mbind res_bind Z.eqb Z.sub].
    destruct (Free_rest _ L o l Hr Hlo Hlim) as (Hr1 & _ & Hu1).
    set (c1 := set_objects _ _ _).
    destruct (IH c1 (l :: L) (o ∖ {[l]})) as (c' & L' & E & Hr' & Hu' & Ep & Ea & Eg).
    + exact Hr1.
    + done.
    + apply list.Forall_forall. intros kv Hkv.
      destruct (proj1 (list.Forall_forall _ _) Hm kv Hkv) as (Hko & q & Hq & Hq1).
      assert (Hne : kv.2 <> l) by (intros Heq; apply Hl; rewrite <- Heq; by apply list_elem_of_fmap_2).
      split; [set_solver|]. exists q. split; [|done]. cbn. by rewrite lookup_insert_ne.
    + exact Hlim.
    + exists c', L'. split; [exact E|]. split.
      * cbn. by replace (o ∖ ({[l]} ∪ list_to_set ls.*2)) with (o ∖ {[l]} ∖ list_to_set ls.*2) by set_solver.
      * split; [|by rewrite Ep, Ea, Eg]. rewrite Hu'. unfold GetUseCount in *. cbn [playerPool c1 set_objects].
        rewrite zlen_cons. cbn. cbn in Hu1. lia.
Qed.

(** The destructor gives the block of every connected player back to the pool, the references
    being down to the map's, and empties the two maps; both locks are taken and released. *)
Theorem ChatServer_delete_spec c L o :
  chat_inv c L o -> (forall sid l p, players c !! sid = Some l -> objects c !! l = Some p -> ref p = 1) ->
  m_lMaxCount (playerPool c) <= POOL_LIMIT ->
  exists c', ChatServer_delete c = Ok c' /\ players c' = ∅ /\ accounts c' = ∅ /\
    GetUseCount (playerPool c') = GetUseCount (playerPool c) - Z.of_nat (size (players c)) /\
    lockLog c' = lockLog c ++ [Acquire Exclusive playerLock; Release Exclusive playerLock;
                               Acquire Exclusive accountLock; Release Exclusive accountLock].
Proof.
  intros Hi Href Hlim. unfold ChatServer_delete.
  set (c0 := log_locks c _).
  destruct (release_players_ok (map_to_list (players c)) c0 L o)
    as (c' & L' & E & _ & Hu & Ep & Ea & Eg).
  - apply Hi.
  - apply NoDup_fmap_2_strong; [|apply NoDup_map_to_list]. intros [s1 l1] [s2 l2] H1 H2 E. cbn in E.
    apply elem_of_map_to_list in H1, H2. subst l2. f_equal. by eapply players_inj.
  - apply list.Forall_forall. intros [sid l] H. apply elem_of_map_to_list in H. cbn.
    destruct (ci_players _ _ _ Hi _ _ H) as (Hlo & p & Hp & _). split; [done|]. exists p.
    split; [done|]. by eapply Href.
  - exact Hlim.
  - change (players c0) with (players c). rewrite E. cbn [mbind res_bind].
    eexists. split; [reflexivity|]. split; [done|]. split; [done|]. split.
    + cbn. rewrite Hu. cbn. by rewrite <- length_map_to_list.
    + cbn. rewrite Eg. cbn. by rewrite <- !app_assoc.
Qed.
End Destructor.

(** ** Witnesses: a server with one session, whose packet is being sent *)

Section Witness.
#[local] Existing Instances accepting_windows queue4096 silent_app.
#[local] Instance one_key : Runtime := zero_runtime 1.

Definition nobody (_ : Z) (_ : loc) : M unit unit := mret tt.

Definition sent_world : World unit :=
  match handled nobody [CSend 0 5] sending with Ok (_, w) => w | _ => sending end.

(** Two workers; the send completes, then three statuses arrive, then another receive. *)
Lemma workers_all_exit_witness :
  workers nobody 2 [CSend 0 5; CShutdown; CShutdown; CShutdown; CRecv 0 0] sending =
    Ok (0%nat, [CShutdown; CRecv 0 0], sent_world).
Proof.
  apply (workers_all_exit nobody 2 3 [CSend 0 5] [CRecv 0 0] sending sent_world).
  - constructor; [reflexivity|constructor].
  - vm_compute. reflexivity.
  - lia.
Defined.

Definition running : Server := mkServer sending (Some 3) (Some 4) 10 0 3 [11; 12] [].

Lemma Stop_spec_witness :
  exists s, Stop running = Ok s /\ sessionArray (world s) = [] /\
    sent (world s) = [EClose (Some 5)] /\ refs_back [1%positive] sending (world s) /\
    app (world s) = app sending.
Proof.
  destruct (with_one_packet_inv [one_sending]) as (Hinv & Ho & Hm).
  destruct (Stop_spec running sending {[1%positive]} eq_refl eq_refl) as (s & E & H1 & H2 & H3 & H4 & _).
  - constructor; [right; split; [reflexivity|discriminate]|constructor].
  - exact Hinv.
  - exact Ho.
  - exact Hm.
  - exists s. split; [exact E|]. split; [exact H1|]. split; [exact H3|]. split; [exact H4|exact H2].
Defined.
End Witness.
