(* ===== verification/Interference.v ===== *)
(** * Threads on one session (IOCPServer.cpp)

    The life of one session, from the first receive on, under any interleaving of any number of
    threads: the senders that look it up, the workers that complete its operations, whoever
    disconnects it.  One rule is one access to [ioCount], [isReleased] or [sessionID], in the
    order of the code.  Everything else the functions do is in [Iocp].

    A lookup made by a handler that runs on behalf of the same session counts as a thread of its
    own: that only adds interleavings. *)

From S2P Require Import Prelude World Iocp.

(** The slot: the three members, [live] when [sessionID] is still the session's; the receives
    and sends in progress in the kernel; how many times the slot has been pushed back on the
    stack of free ones. *)
Record slot := mkSlot {
  count : Z;
  released_flag : bool;
  live : bool;
  recvs : nat;
  sends : nat;
  frees : nat
}.

Definition set_count g v := mkSlot v (released_flag g) (live g) (recvs g) (sends g) (frees g).
Definition set_flag g v := mkSlot (count g) v (live g) (recvs g) (sends g) (frees g).
Definition set_live g v := mkSlot (count g) (released_flag g) v (recvs g) (sends g) (frees g).
Definition set_recvs g v := mkSlot (count g) (released_flag g) (live g) v (sends g) (frees g).
Definition set_sends g v := mkSlot (count g) (released_flag g) (live g) (recvs g) v (frees g).
Definition set_frees g v := mkSlot (count g) (released_flag g) (live g) (recvs g) (sends g) v.

(** Who uses the session: a thread between [SessionLock] and [SessionUnLock]; a worker on a
    completed send or receive.  [owes] is true until [RecvComplete] has posted the next receive,
    found [isReleased] set, or disconnected: on each of its paths it does one of the three. *)
Inductive user := Sender | SendWorker | RecvWorker (owes : bool).

Definition discharge (u : user) : user :=
  match u with RecvWorker _ => RecvWorker false | _ => u end.

(** Where a thread is. *)
Inductive pc :=
  | Idle
  | Lk1 (ours : bool)               (** [SessionLock]: before the first of its four reads;
                                        [ours] when the identifier it was given is the session's,
                                        not that of an earlier session of the slot *)
  | Lk2 | Lk3 | Lk4                 (** before the other reads *)
  | Refuse                          (** before the decrement that may release *)
  | Refuse2                         (** before the one that may not *)
  | Using (u : user)
  | Closing (u : user)              (** [DisConnect], before it reads [ioCount] *)
  | Posting (recv : bool) (u : user)   (** [PostRecv], [PostSend]: before the increment *)
  | Posted (recv : bool) (u : user)    (** before the call *)
  | Last                            (** a worker that has brought [ioCount] to 0 *)
  | Rel (n : nat) (back : option user).  (** [ReleaseSession], [n] of its stores done *)

(** [if (InterlockedDecrement(&ioCount) == 0) ReleaseSession(session);], then on to [p]. *)
Definition dec_release (g : slot) (back : option user) (p : pc) : slot * pc :=
  let g := set_count g (count g - 1) in
  (g, if count g =? 0 then Rel 0 back else p).

Definition return_to (back : option user) : pc :=
  match back with Some u => Using u | None => Idle end.

Inductive sstep (guarded : bool) : slot -> pc -> slot -> pc -> Prop :=
(** [SessionLock], with the session's identifier or an earlier one of the slot; under [guarded]
    nobody starts a lookup while the count is 0. *)
| lookup g ours :
    (guarded = true -> count g <> 0) -> sstep guarded g Idle (set_count g (count g + 1)) (Lk1 ours)
| read_id1 g ours : sstep guarded g (Lk1 ours) g (if live g && ours then Lk2 else Refuse)
| read_rel1 g : sstep guarded g Lk2 g (if released_flag g then Refuse else Lk3)
| read_id2 g : sstep guarded g Lk3 g (if live g then Lk4 else Refuse2)
| read_rel2 g : sstep guarded g Lk4 g (if released_flag g then Refuse else Using Sender)
| refuse g : sstep guarded g Refuse (dec_release g None Idle).1 (dec_release g None Idle).2
| refuse2 g : sstep guarded g Refuse2 (set_count g (count g - 1)) Idle
(** [SessionUnLock] *)
| unlock g :
    sstep guarded g (Using Sender) (dec_release g None Idle).1 (dec_release g None Idle).2
(** [GetQueuedCompletionStatus]: the reference of the operation is the worker's. *)
| recv_completes g n : recvs g = S n -> sstep guarded g Idle (set_recvs g n) (Using (RecvWorker true))
| send_completes g n : sends g = S n -> sstep guarded g Idle (set_sends g n) (Using SendWorker)
(** the end of a worker's turn *)
| worker_done g u : u = SendWorker \/ u = RecvWorker false ->
    let g' := set_count g (count g - 1) in
    sstep guarded g (Using u) g' (if count g' =? 0 then Last else Idle)
| worker_last g : sstep guarded g Last g (if released_flag g then Rel 0 None else Idle)
(** [DisConnect] *)
| disconnect_won g u : released_flag g = false ->
    sstep guarded g (Using u) (set_flag g true) (Closing (discharge u))
| read_count g u : sstep guarded g (Closing u) g (if count g =? 0 then Rel 0 (Some u) else Using u)
(** [DisConnect] by another thread, or the tests of [isReleased] before posting *)
| flag_seen g u : released_flag g = true -> sstep guarded g (Using u) g (Using (discharge u))
(** [PostRecv] by the worker of a receive, [PostSend] by anyone *)
| may_post g u (recv : bool) : released_flag g = false -> (recv = true -> u = RecvWorker true) ->
    sstep guarded g (Using u) g (Posting recv u)
| post_counted g u recv :
    sstep guarded g (Posting recv u) (set_count g (count g + 1)) (Posted recv u)
| recv_posted g u : sstep guarded g (Posted true u) (set_recvs g (S (recvs g))) (Using (discharge u))
| send_posted g u : sstep guarded g (Posted false u) (set_sends g (S (sends g))) (Using u)
| post_failed g u recv :
    sstep guarded g (Posted recv u) (dec_release g (Some u) (Using u)).1
                                    (dec_release g (Some u) (Using u)).2
(** [ReleaseSession]: [Init]'s stores of [sessionID], [isReleased] and [ioCount]; [PushIndex] *)
| store_id g b : sstep guarded g (Rel 0 b) (set_live g false) (Rel 1 b)
| store_flag g b : sstep guarded g (Rel 1 b) (set_flag g false) (Rel 2 b)
| store_count g b : sstep guarded g (Rel 2 b) (set_count g 0) (Rel 3 b)
| push_index g b : sstep guarded g (Rel 3 b) (set_frees g (S (frees g))) (return_to b).

(** Any thread takes a step. *)
Definition sys : Type := slot * list pc.

Inductive sys_step (guarded : bool) : sys -> sys -> Prop :=
| thread_step i g p g' p' ps :
    ps !! i = Some p -> sstep guarded g p g' p' -> sys_step guarded (g, ps) (g', <[i := p']> ps).

(** Once [AcceptThread] has posted the first receive. *)
Definition accepted_sys (n : nat) : sys := (mkSlot 1 false true 1 0 0, replicate n Idle).

(** ** What a thread holds *)

Definition refs_of (p : pc) : nat :=
  match p with
  | Idle | Last | Rel _ _ => 0
  | Posted _ _ => 2
  | _ => 1
  end.

Definition user_owes (u : user) : nat := match u with RecvWorker true => 1 | _ => 0 end.

Definition owes_of (p : pc) : nat :=
  match p with Using u | Closing u | Posting _ u | Posted _ u => user_owes u | _ => 0 end.

(** In [ReleaseSession] or about to enter it. *)
Definition ending_of (p : pc) : nat := match p with Last | Rel _ _ => 1 | _ => 0 end.

Abbreviation total f ps := (sum_list_with f ps).

Lemma total_insert (f : pc -> nat) ps i p p' :
  ps !! i = Some p -> (total f (<[i := p']> ps) + f p = total f ps + f p')%nat.
Proof.
  revert i. induction ps as [|q ps IH]; intros i Hi; [done|].
  destruct i as [|i].
  - injection Hi as ->. change (<[0%nat:=p']> (p :: ps)) with (p' :: ps). cbn [sum_list_with]. lia.
  - change (<[S i:=p']> (q :: ps)) with (q :: <[i:=p']> ps). cbn [sum_list_with].
    specialize (IH i Hi). lia.
Qed.

Lemma total_ge (f : pc -> nat) ps i p : ps !! i = Some p -> (f p <= total f ps)%nat.
Proof.
  revert i. induction ps as [|q ps IH]; intros i Hi; [done|].
  destruct i as [|i]; cbn in *; [injection Hi as ->; lia|]. specialize (IH i Hi). lia.
Qed.

Lemma total_replicate (f : pc -> nat) n p : f p = 0%nat -> total f (replicate n p) = 0%nat.
Proof. intros H. induction n; cbn; lia. Qed.

(** A thread that holds nothing and releases nothing is idle. *)
Lemma holds_nothing p : refs_of p = 0%nat -> ending_of p = 0%nat -> p = Idle.
Proof. by destruct p. Qed.

Lemma owes_refs p : (owes_of p <= refs_of p)%nat.
Proof. destruct p as [|o| | | | | |u|u|r u|r u| |]; cbn; try lia; destruct u as [| |[]]; cbn; lia. Qed.

Lemma total_le (f h : pc -> nat) ps : (forall p, f p <= h p)%nat -> (total f ps <= total h ps)%nat.
Proof. intros H. induction ps as [|p ps IH]; cbn; [lia|]. specialize (H p). lia. Qed.

(** ** The invariant, for guarded lookups *)

(** The session is in use: the count is exactly the references held, at least one; as long as it
    is not disconnected a receive is in progress or owed. *)
Record active (g : slot) (ps : list pc) : Prop := {
  ac_count : count g = Z.of_nat (recvs g + sends g + total refs_of ps);
  ac_pos : count g <> 0;
  ac_live : live g = true;
  ac_frees : frees g = 0%nat;
  ac_ending : total ending_of ps = 0%nat;
  ac_known : forall i, ps !! i <> Some Refuse2;
  ac_recv : released_flag g = false -> (1 <= recvs g + total owes_of ps)%nat
}.

(** One thread is releasing it, nobody else has it. *)
Record ending (g : slot) (ps : list pc) : Prop := {
  en_count : count g = 0;
  en_none : recvs g = 0%nat /\ sends g = 0%nat;
  en_frees : frees g = 0%nat;
  en_refs : total refs_of ps = 0%nat;
  en_one : total ending_of ps = 1%nat;
  en_flag : forall i p, ps !! i = Some p -> p = Last \/ (exists b, p = Rel 0 b) ->
    released_flag g = true /\ live g = true;
  en_back : forall i n b, ps !! i = Some (Rel n b) -> b = None
}.

(** It is free again. *)
Record ended (g : slot) (ps : list pc) : Prop := {
  ed_count : count g = 0;
  ed_none : recvs g = 0%nat /\ sends g = 0%nat;
  ed_frees : frees g = 1%nat;
  ed_refs : total refs_of ps = 0%nat;
  ed_idle : total ending_of ps = 0%nat
}.

Definition session_inv (s : sys) : Prop :=
  active s.1 s.2 \/ ending s.1 s.2 \/ ended s.1 s.2.

(** ** Every step keeps it *)

(** A step that leaves the session in use. *)
Lemma stays_active g ps i p g' p' :
  active g ps -> ps !! i = Some p ->
  count g' - Z.of_nat (recvs g' + sends g' + refs_of p') =
    count g - Z.of_nat (recvs g + sends g + refs_of p) ->
  count g' <> 0 -> live g' = live g -> frees g' = frees g -> ending_of p' = 0%nat -> p' <> Refuse2 ->
  (released_flag g' = false ->
     released_flag g = false /\ (recvs g + owes_of p <= recvs g' + owes_of p')%nat) ->
  active g' (<[i := p']> ps).
Proof.
  intros [Hc Hp Hl Hf He Hk Hr] Hi Hcnt Hp' Hl' Hf' He' Hk' Hr'.
  pose proof (total_insert refs_of ps i p p' Hi) as Tr.
  pose proof (total_insert owes_of ps i p p' Hi) as To.
  pose proof (total_insert ending_of ps i p p' Hi) as Te.
  split; [lia|done|congruence|congruence|lia| |].
  - intros j. destruct (decide (i = j)) as [<-|Hne].
    + rewrite list_lookup_insert_eq by by apply lookup_lt_Some in Hi. congruence.
    + by rewrite list_lookup_insert_ne.
  - intros Hflag. destruct (Hr' Hflag) as [Hflag' Hle]. specialize (Hr Hflag'). lia.
Qed.

(** The decrement that brings the count to 0: nobody else holds anything, and the session has
    been disconnected. *)
Lemma becomes_ending g ps i p p' :
  active g ps -> ps !! i = Some p -> refs_of p = 1%nat -> owes_of p = 0%nat ->
  p' = Last \/ p' = Rel 0 None -> count g - 1 = 0 ->
  ending (set_count g (count g - 1)) (<[i := p']> ps).
Proof.
  intros [Hc Hp Hl Hf He Hk Hr] Hi Hrefs Howes Hp' H0.
  assert (E' : refs_of p' = 0%nat /\ ending_of p' = 1%nat /\ owes_of p' = 0%nat)
    by by destruct Hp' as [-> | ->].
  destruct E' as (Er & Ee & Eo).
  pose proof (total_insert refs_of ps i p p' Hi) as Tr.
  pose proof (total_insert owes_of ps i p p' Hi) as To.
  pose proof (total_insert ending_of ps i p p' Hi) as Te.
  pose proof (total_le owes_of refs_of (<[i := p']> ps) owes_refs) as Hle.
  assert (Hflag : released_flag g = true).
  { destruct (released_flag g); [done|]. specialize (Hr eq_refl). lia. }
  assert (Hi' : (i < length ps)%nat) by by apply lookup_lt_Some in Hi.
  assert (ending_of p = 0%nat) by (pose proof (total_ge ending_of ps i p Hi); lia).
  split; cbn; [lia|split; lia|done|lia|lia|done|].
  intros j n b Hj. destruct (decide (i = j)) as [<-|Hne].
  - rewrite list_lookup_insert_eq in Hj by done. injection Hj as ->.
    destruct Hp' as [H'|H']; [done|by injection H'].
  - rewrite list_lookup_insert_ne in Hj by done.
    pose proof (total_ge ending_of ps j _ Hj) as Hge. cbn in Hge. lia.
Qed.

(** A decrement by a thread that may release. *)
Lemma dec_active g ps i p q p' :
  active g ps -> ps !! i = Some p -> refs_of p = 1%nat -> owes_of p = 0%nat ->
  q = Last \/ q = Rel 0 None -> refs_of p' = 0%nat -> ending_of p' = 0%nat -> owes_of p' = 0%nat ->
  session_inv (set_count g (count g - 1), <[i := if count g - 1 =? 0 then q else p']> ps).
Proof.
  intros Ha Hi Hr Ho Hq Hr' He' Ho'. destruct (Z.eqb_spec (count g - 1) 0) as [E|E].
  - right. left. by apply (becomes_ending g ps i p).
  - left. apply (stays_active g ps i p); cbn; try done; [lia|by intros ->|].
    intros H. split; [done|lia].
Qed.

Lemma active_step g ps i p g' p' :
  active g ps -> ps !! i = Some p -> sstep true g p g' p' -> session_inv (g', <[i := p']> ps).
Proof.
  intros Ha Hi Hs. pose proof Ha as [Hc Hp Hl Hf He Hk Hr].
  assert (Hrefs : (refs_of p <= total refs_of ps)%nat) by by apply (total_ge _ _ i).
  assert (Hend : ending_of p = 0%nat) by (pose proof (total_ge ending_of ps i p Hi); lia).
  destruct Hs as [g o HG|g o|g|g|g|g|g|g|g n Hn|g n Hn|g u Hu|g|g u Hflag|g u|g u Hflag|g u r Hflag Hr1
    |g u r|g u|g u|g u r|g b|g b|g b|g b]; cbn [refs_of] in Hrefs; try done.
  2: rewrite Hl; destruct o; cbn [andb].
  all: try (left; apply (stays_active _ ps i _ _ _ Ha Hi); cbn; rewrite ?Hl; try done; try lia;
    intros; split; (done || lia)).
  - left. destruct (released_flag g) eqn:Ef;
      apply (stays_active _ ps i _ _ _ Ha Hi); cbn; try done; rewrite ?Ef; try done; lia.
  - left. destruct (released_flag g) eqn:Ef;
      apply (stays_active _ ps i _ _ _ Ha Hi); cbn; try done; rewrite ?Ef; try done; lia.
  - apply (dec_active g ps i Refuse); auto.
  - by destruct (Hk i).
  - apply (dec_active g ps i (Using Sender)); auto.
  - cbn. apply (dec_active g ps i (Using u)); auto. by destruct Hu as [-> | ->].
  - left. destruct (Z.eqb_spec (count g) 0); [done|].
    apply (stays_active _ ps i _ _ _ Ha Hi); cbn; try done; lia.
  - left. apply (stays_active _ ps i _ _ _ Ha Hi); cbn; try done; try lia; congruence.
  - left. apply (stays_active _ ps i _ _ _ Ha Hi); cbn; try done; try lia.
    intros H. split; [exact H|]. destruct u as [| |[]]; cbn; lia.
  - left. cbn. destruct (Z.eqb_spec (count g - 1) 0); [lia|].
    apply (stays_active _ ps i _ _ _ Ha Hi); cbn; try done; lia.
Qed.

Lemma idle_of ps i p : total refs_of ps = 0%nat -> ps !! i = Some p ->
  p = Idle \/ p = Last \/ exists n b, p = Rel n b.
Proof.
  intros H Hi. pose proof (total_ge refs_of ps i p Hi) as Hr.
  destruct p; cbn in Hr; try lia; eauto.
Qed.

Lemma ending_step g ps i p g' p' :
  ending g ps -> ps !! i = Some p -> sstep true g p g' p' -> session_inv (g', <[i := p']> ps).
Proof.
  intros [Hc [Hn1 Hn2] Hf Hr He Hflag Hback] Hi Hs.
  assert (Hi' : (i < length ps)%nat) by by apply lookup_lt_Some in Hi.
  assert (Hother : forall p', refs_of p' = 0%nat -> ending_of p' = 1%nat -> ending_of p = 1%nat ->
    total refs_of (<[i := p']> ps) = 0%nat /\ total ending_of (<[i := p']> ps) = 1%nat).
  { intros q Hq1 Hq2 Hp. pose proof (total_insert refs_of ps i p q Hi).
    pose proof (total_insert ending_of ps i p q Hi). pose proof (total_ge refs_of ps i p Hi). lia. }
  assert (Halone : forall j q, i <> j -> ps !! j = Some q -> ending_of p = 1%nat -> ending_of q = 0%nat).
  { intros j q Hne Hj Hp. pose proof (total_insert ending_of ps i p Idle Hi) as H.
    pose proof (total_ge ending_of (<[i := Idle]> ps) j q) as H'.
    rewrite list_lookup_insert_ne in H' by done. specialize (H' Hj). cbn in H. lia. }
  assert (Hmoved : forall g1 n, frees g1 = frees g -> count g1 = 0 -> recvs g1 = recvs g ->
    sends g1 = sends g -> ending_of p = 1%nat ->
    (n = 0%nat -> released_flag g1 = true /\ live g1 = true) ->
    session_inv (g1, <[i := Rel n None]> ps)).
  { intros g1 n E1 E2 E3 E4 Hp Hg1. right. left. destruct (Hother (Rel n None)) as [H1 H2]; [done..|].
    split; cbn; [done|split; congruence|congruence|done|done| |].
    - intros j q Hj Hq. destruct (decide (i = j)) as [<-|Hne].
      + rewrite list_lookup_insert_eq in Hj by done. injection Hj as <-.
        destruct Hq as [Hq|[b Hq]]; [done|]. injection Hq as Hn0 _. by apply Hg1.
      + rewrite list_lookup_insert_ne in Hj by done. pose proof (Halone j q Hne Hj Hp).
        by destruct Hq as [-> |[b ->]].
    - intros j m b Hj. destruct (decide (i = j)) as [<-|Hne].
      + rewrite list_lookup_insert_eq in Hj by done. by injection Hj.
      + rewrite list_lookup_insert_ne in Hj by done. by pose proof (Halone j _ Hne Hj Hp). }
  destruct (idle_of ps i p Hr Hi) as [-> |[-> |(n & b & ->)]].
  - inversion Hs; subst; try lia.
  - inversion Hs; subst. destruct (Hflag i Last Hi) as [Ef El]; [by left|]. rewrite Ef. by apply Hmoved.
  - pose proof (Hback i n b Hi) as ->. inversion Hs; subst; [by apply Hmoved..|].
    right. right. cbn. pose proof (total_insert refs_of ps i (Rel 3 None) Idle Hi) as H1.
    pose proof (total_insert ending_of ps i (Rel 3 None) Idle Hi) as H2. cbn in H1, H2.
    split; cbn; [done|done|lia|lia|lia].
Qed.

Lemma ended_step g ps i p g' p' :
  ended g ps -> ps !! i = Some p -> sstep true g p g' p' -> False.
Proof.
  intros [Hc [Hn1 Hn2] Hf Hr He] Hi Hs. pose proof (total_ge ending_of ps i p Hi) as H.
  destruct (idle_of ps i p Hr Hi) as [-> |[-> |(n & b & ->)]]; cbn in H; try lia.
  inversion Hs; subst; try lia.
Qed.

Lemma session_inv_step s s' : sys_step true s s' -> session_inv s -> session_inv s'.
Proof.
  intros [i g p g' p' ps Hi Hs] [Ha|[He|Hd]]; cbn in *.
  - by eapply active_step.
  - by eapply ending_step.
  - by destruct (ended_step g ps i p g' p').
Qed.

Lemma session_inv_run s s' : rtc (sys_step true) s s' -> session_inv s -> session_inv s'.
Proof. induction 1; eauto using session_inv_step. Qed.

Lemma accepted_active n : session_inv (accepted_sys n).
Proof.
  left. split; cbn; rewrite ?total_replicate by done; try done; try lia.
  intros i Hi. by apply lookup_replicate in Hi as [? _].
Qed.

(** ** What follows *)

(** C6.  A session among any number of threads.  From the first receive on, for any
    interleaving of lookups (with the session's identifier or an older one of its slot), sends,
    completions and disconnections in which no lookup starts while the count is 0:
    - the slot goes back on the stack of free ones at most once;
    - whoever is about to enter [ReleaseSession] finds the session disconnected, and its
      identifier still in place;
    - whoever runs [ReleaseSession] is alone: every other thread is done with the session and
      no operation on it is in progress;
    - a session that has not been disconnected (and is not being released) has a receive in progress
      or a worker that will post one: it never goes deaf;
    - when nobody uses the session and nothing is in progress any more, it has been released:
      none is lost. *)
Theorem session_released_once n g ps :
  rtc (sys_step true) (accepted_sys n) (g, ps) ->
  (frees g <= 1)%nat /\
  (forall i p, ps !! i = Some p -> p = Last \/ (exists b, p = Rel 0 b) ->
     released_flag g = true /\ live g = true) /\
  (forall i k b, ps !! i = Some (Rel k b) ->
     recvs g = 0%nat /\ sends g = 0%nat /\ frees g = 0%nat /\
     forall j q, j <> i -> ps !! j = Some q -> q = Idle) /\
  (released_flag g = false -> frees g = 0%nat -> total ending_of ps = 0%nat ->
     live g = true /\ (1 <= recvs g + total owes_of ps)%nat) /\
  ((forall i p, ps !! i = Some p -> p = Idle) -> recvs g = 0%nat -> sends g = 0%nat -> frees g = 1%nat).
Proof.
  intros Hrun. pose proof (session_inv_run _ _ Hrun (accepted_active n)) as Hinv.
  assert (Hidle : forall f, f Idle = 0%nat -> (forall i p, ps !! i = Some p -> p = Idle) -> total f ps = 0%nat).
  { intros f Hf H. clear -Hf H. induction ps as [|p ps IH]; [done|]. cbn.
    rewrite (H 0%nat p eq_refl), Hf, IH; [done|]. intros i q Hq. by apply (H (S i)). }
  destruct Hinv as [[Hc Hp Hl Hf He Hk Hr]|[[Hc [Hn1 Hn2] Hf Hr He Hflag Hback]|[Hc [Hn1 Hn2] Hf Hr He]]];
    cbn in *.
  - split; [lia|]. split_and!.
    + intros i p Hi Hp0. pose proof (total_ge ending_of ps i _ Hi) as H.
      destruct Hp0 as [-> |[b ->]]; cbn in H; lia.
    + intros i k b Hi. pose proof (total_ge ending_of ps i _ Hi) as H. cbn in H. lia.
    + intros H _ _. split; [done|]. by apply Hr.
    + intros H H1 H2. rewrite Hidle in Hc by done. lia.
  - split; [lia|]. split_and!.
    + exact Hflag.
    + intros i k b Hi. split_and!; try done. intros j q Hne Hj.
      pose proof (total_insert ending_of ps i _ Idle Hi) as H. cbn in H.
      pose proof (total_ge ending_of (<[i := Idle]> ps) j q) as H'.
      rewrite list_lookup_insert_ne in H' by done. specialize (H' Hj).
      apply holds_nothing; [|lia]. pose proof (total_ge refs_of ps j q Hj). lia.
    + intros _ _ H. lia.
    + intros H _ _. rewrite Hidle in He by done. lia.
  - split; [lia|]. split_and!.
    + intros i p Hi Hp0. pose proof (total_ge ending_of ps i _ Hi) as H.
      destruct Hp0 as [-> |[b ->]]; cbn in H; lia.
    + intros i k b Hi. pose proof (total_ge ending_of ps i _ Hi) as H. cbn in H. lia.
    + intros _ H. lia.
    + done.
Qed.

(** ** Two runs *)

(** Thread [i] takes the step [r]. *)
Tactic Notation "go" constr(i) uconstr(r) :=
  eapply rtc_l;
    [eapply (thread_step _ i); [reflexivity|];
     solve [eapply r; first [reflexivity|right; reflexivity|intros _; cbn; lia|intros [=]]]|
     cbn].

Definition free_slot : slot := mkSlot 0 false false 0 0 1.

(** A sender looks the session up; its client disconnects; the worker is done first, so the
    sender releases. *)
Lemma session_released_once_witness :
  rtc (sys_step true) (accepted_sys 2) (free_slot, [Idle; Idle]) /\ (frees free_slot <= 1)%nat.
Proof.
  assert (H : rtc (sys_step true) (accepted_sys 2) (free_slot, [Idle; Idle])).
  { unfold accepted_sys. cbn.
    go 1%nat (lookup true _ true). go 1%nat read_id1. go 1%nat read_rel1. go 1%nat read_id2. go 1%nat read_rel2.
    go 0%nat recv_completes. go 0%nat disconnect_won. go 0%nat read_count. go 0%nat worker_done.
    go 1%nat unlock. go 1%nat store_id. go 1%nat store_flag. go 1%nat store_count. go 1%nat push_index.
    apply rtc_refl. }
  split; [exact H|]. destruct (session_released_once 2 free_slot [Idle; Idle] H) as [Hf _]. exact Hf.
Defined.

(** C12.  Without that guard the session is released twice.  A worker has disconnected the
    session, brought its count to 0 and is entering [ReleaseSession]; a sender that looks up
    the same session now, by the identifier it still has ([live]), is refused, but its own
    decrement brings the count to 0 a second time: both threads run [ReleaseSession], the
    slot's index is pushed twice, and the next two clients accepted share one slot. *)
Theorem refused_lookup_releases_again :
  exists g1 g2,
    rtc (sys_step false) (accepted_sys 2) (g1, [Rel 0 None; Lk2]) /\ live g1 = true /\
    rtc (sys_step false) (g1, [Rel 0 None; Lk2]) (g2, [Idle; Idle]) /\ frees g2 = 2%nat.
Proof.
  exists (mkSlot 1 true true 0 0 0), (mkSlot 0 false false 0 0 2). split; [|split; [done|split; [|done]]].
  - unfold accepted_sys. cbn. go 0%nat recv_completes. go 0%nat disconnect_won. go 0%nat read_count.
    go 0%nat worker_done. go 0%nat worker_last. go 1%nat (lookup false _ true). go 1%nat read_id1. apply rtc_refl.
  - go 1%nat read_rel1. go 1%nat refuse. go 0%nat store_id. go 0%nat store_flag.
    go 0%nat store_count. go 0%nat push_index. go 1%nat store_id. go 1%nat store_flag.
    go 1%nat store_count. go 1%nat push_index. apply rtc_refl.
Qed.
