(* ===== verification/Calls.v ===== *)
(** * What the server may do to the derived object (theorems on [Iocp])

    The functions of [IOCPServer] touch the object derived from it only through
    [OnClientLeave] (when they release a session) and, in the accept thread, [OnClientJoin].
    So a relation on the derived object that holds across [OnClientLeave] holds across every
    other call into the server.  [AppRel] is that interface; [Keeps] the property of a function,
    [keeps] the tactic that follows a function down to its calls. *)

From S2P Require Import Prelude RingBuffer Packet Codec FreeList World Iocp.

(** A relation between the derived object before and after, kept by every departure. *)
Class AppRel {A} {App : ServerApp A} (Rel : relation A) := {
  rel_preorder :: PreOrder Rel;
  rel_leave : forall sid a a', OnClientLeave sid a = Ok a' -> Rel a a'
}.

Create HintDb silent.
Create HintDb keeps.

Section Kept.
Context {Q : LockfreeQueue loc 4096} {A : Type}.

Implicit Types w : World A.

(** [Silent]: the derived object is untouched. *)
Definition Silent {B} (m : M A B) : Prop := forall w b w', m w = Ok (b, w') -> app w' = app w.

(** [Keeps Rel]: it is related to what it was. *)
Definition Keeps (Rel : relation A) {B} (m : M A B) : Prop :=
  forall w b w', m w = Ok (b, w') -> Rel (app w) (app w').

Lemma silent_bind {B C} (m : M A B) (f : B -> M A C) :
  Silent m -> (forall b, Silent (f b)) -> Silent (m ≫= f).
Proof.
  intros Hm Hf w c w' H. apply bind_inv in H as (b & w1 & H1 & H2).
  by rewrite (Hf _ _ _ _ H2), (Hm _ _ _ H1).
Qed.
Lemma silent_ret {B} (b : B) : Silent (mret b : M A B).
Proof. by intros w b' w' [= _ ->]. Qed.
Lemma silent_lift {B} (r : res B) : Silent (lift r : M A B).
Proof. intros w b w' H. by apply lift_inv in H as [_ ->]. Qed.
Lemma silent_get : Silent (get : M A _).
Proof. by intros w b w' [= _ ->]. Qed.
Lemma silent_modify f : (forall w, app (f w) = app w) -> Silent (modify f).
Proof. intros Hf w b w' [= _ <-]. apply Hf. Qed.
Lemma silent_tick : Silent (tick : M A _).
Proof. by intros w b w' [= _ <-]. Qed.
Lemma silent_session i : Silent (session i : M A _).
Proof.
  intros w b w'. unfold session. destruct (slot_ok i w); [|done].
  destruct (sessionArray w !! Z.to_nat i); by intros [= _ ->].
Qed.
Lemma silent_put_session i s : Silent (put_session i s : M A _).
Proof. intros w b w'. unfold put_session. by destruct (slot_ok i w); intros [= _ <-]. Qed.
Lemma silent_packet l : Silent (packet l : M A _).
Proof. intros w p w' H. by apply packet_inv in H as [_ ->]. Qed.

Context (Rel : relation A) {HP : PreOrder Rel}.

Lemma keeps_silent {B} (m : M A B) : Silent m -> Keeps Rel m.
Proof. intros H w b w' E. rewrite (H w b w' E). reflexivity. Qed.
Lemma keeps_ret {B} (b : B) : Keeps Rel (mret b : M A B).
Proof. apply keeps_silent, silent_ret. Qed.
Lemma keeps_bind {B C} (m : M A B) (f : B -> M A C) :
  Keeps Rel m -> (forall b, Keeps Rel (f b)) -> Keeps Rel (m ≫= f).
Proof.
  intros Hm Hf w c w' H. apply bind_inv in H as (b & w1 & H1 & H2).
  etransitivity; [by eapply Hm|by eapply Hf].
Qed.
End Kept.

#[export] Hint Resolve silent_ret silent_lift silent_get silent_tick silent_session
  silent_put_session silent_packet : silent.

(** Both tactics follow the structure of a function down to its calls. *)
Ltac silent_step :=
  first
    [ apply silent_bind; [|intros ?]
    | apply silent_modify; intros ?; reflexivity
    | solve [eauto with silent]
    | match goal with
      | |- Silent (match ?x with _ => _ end) => destruct x
      | |- forall _, _ => intros ?
      end ].
Ltac silent := repeat silent_step.

Ltac keeps_step :=
  first
    [ apply keeps_ret; exact _
    | solve [apply keeps_silent; [exact _|eauto with silent]]
    | solve [eauto with keeps]
    | apply keeps_bind; [exact _| |intros ?]
    | apply keeps_silent; [exact _|]; apply silent_modify; intros ?; reflexivity
    | match goal with
      | |- Keeps _ (match ?x with _ => _ end) => destruct x
      | |- forall _, _ => intros ?
      end ].
Ltac keeps := repeat keeps_step.

(** ** Functions that never touch the derived object *)

Section SilentCalls.
Context {Q : LockfreeQueue loc 4096} {A : Type}.
Context {W : Windows} {R : Runtime}.

Lemma silent_update i f : Silent (update i f : M A _).
Proof. unfold update. silent. Qed.
Lemma silent_add_ioCount i d : Silent (add_ioCount i d : M A _).
Proof. unfold add_ioCount. silent. Qed.
Lemma silent_put_packet l p : Silent (put_packet l p : M A _).
Proof. unfold put_packet. silent. Qed.
#[local] Hint Resolve silent_update silent_add_ioCount silent_put_packet : silent.

Lemma silent_on_packet {B} l (f : CPacket -> res (CPacket * B)) : Silent (on_packet l f : M A _).
Proof. unfold on_packet. silent. Qed.
Lemma silent_on_packet_ l f : Silent (on_packet_ l f : M A _).
Proof. unfold on_packet_. silent. Qed.
#[local] Hint Resolve silent_on_packet silent_on_packet_ : silent.

Lemma silent_CPacket_Alloc : Silent (CPacket_Alloc : M A _).
Proof. unfold CPacket_Alloc. silent. Qed.
Lemma silent_CPacket_AddRef l : Silent (CPacket_AddRef l : M A _).
Proof. unfold CPacket_AddRef. silent. Qed.
Lemma silent_CPacket_SubRef l : Silent (CPacket_SubRef l : M A _).
Proof. unfold CPacket_SubRef. silent. Qed.
Lemma silent_CPacket_SetEncodingCode l : Silent (CPacket_SetEncodingCode l : M A _).
Proof. unfold CPacket_SetEncodingCode. silent. Qed.
#[local] Hint Resolve silent_CPacket_SubRef : silent.

Lemma silent_release_all n q : Silent (release_all n q : M A _).
Proof. revert q. induction n; intros q; cbn [release_all]; silent. Qed.
#[local] Hint Resolve silent_release_all : silent.
Lemma silent_drain_sendBuf i : Silent (drain_sendBuf i : M A _).
Proof. unfold drain_sendBuf. silent. Qed.
Lemma silent_drain_completeSendBuf i : Silent (drain_completeSendBuf i : M A _).
Proof. unfold drain_completeSendBuf. silent. Qed.
#[local] Hint Resolve silent_drain_sendBuf silent_drain_completeSendBuf : silent.
Lemma silent_Session_Init i : Silent (Session_Init i : M A _).
Proof. unfold Session_Init. silent. Qed.
Lemma silent_PushIndex i : Silent (PushIndex i : M A _).
Proof. unfold PushIndex. silent. Qed.
Lemma silent_PopIndex : Silent (PopIndex : M A _).
Proof. unfold PopIndex. silent. Qed.
Lemma silent_bump d : Silent (bump_sessionCount d : M A _).
Proof. unfold bump_sessionCount. silent. Qed.
#[local] Hint Resolve silent_PopIndex : silent.
Lemma silent_CreateSession sock : Silent (CreateSession sock : M A _).
Proof. unfold CreateSession, bump_accept. silent. Qed.
Lemma silent_gather n i b k p : Silent (gather n i b k p : M A _).
Proof. revert b k p. induction n; intros; cbn [gather]; silent. Qed.
Lemma silent_with_ring {B} i (f : CRingBuffer -> res (CRingBuffer * B)) :
  Silent (with_ring i f : M A _).
Proof. unfold with_ring. silent. Qed.
End SilentCalls.

#[export] Hint Resolve silent_update silent_add_ioCount silent_put_packet silent_on_packet
  silent_on_packet_ silent_CPacket_Alloc silent_CPacket_AddRef silent_CPacket_SubRef
  silent_CPacket_SetEncodingCode silent_release_all silent_drain_sendBuf
  silent_drain_completeSendBuf silent_Session_Init silent_PushIndex silent_PopIndex silent_bump
  silent_CreateSession silent_gather silent_with_ring : silent.

#[export] Hint Extern 0 (AppRel _) => typeclasses eauto : keeps.

(** ** Functions that may release a session *)

Section Calls.
Context {Q : LockfreeQueue loc 4096} {A : Type}.
Context {W : Windows} {R : Runtime} {App : ServerApp A}.
Context (Rel : relation A) {HR : AppRel Rel}.

Lemma keeps_OnClientLeave sid : Keeps Rel (call_OnClientLeave sid).
Proof.
  intros w b w' H. unfold call_OnClientLeave in H.
  apply bind_inv in H as (w1 & w1' & [= <- <-] & H). apply bind_inv in H as (a & w2 & H & E).
  apply lift_inv in H as [H ->]. injection E as <- <-. by eapply rel_leave.
Qed.
#[local] Hint Resolve keeps_OnClientLeave : keeps.

Lemma keeps_ReleaseSession i : Keeps Rel (ReleaseSession i).
Proof. unfold ReleaseSession. keeps. Qed.
#[local] Hint Resolve keeps_ReleaseSession : keeps.
Lemma keeps_DisConnect i : Keeps Rel (DisConnect i).
Proof. unfold DisConnect. keeps. Qed.
Lemma keeps_SessionLock sid : Keeps Rel (SessionLock sid).
Proof. unfold SessionLock. keeps. Qed.
Lemma keeps_SessionUnLock i : Keeps Rel (SessionUnLock i).
Proof. unfold SessionUnLock. keeps. Qed.
#[local] Hint Resolve keeps_DisConnect keeps_SessionLock keeps_SessionUnLock : keeps.
Lemma keeps_Disconnect sid : Keeps Rel (Disconnect sid).
Proof. unfold Disconnect. keeps. Qed.
Lemma keeps_PostSend i : Keeps Rel (PostSend i).
Proof. unfold PostSend. keeps. Qed.
Lemma keeps_PostRecv i : Keeps Rel (PostRecv i).
Proof. unfold PostRecv. keeps. Qed.
Lemma keeps_complete_loop n i : Keeps Rel (complete_loop n i).
Proof. revert i. induction n; intros; cbn [complete_loop]; unfold bump_sendTPS; keeps. Qed.
#[local] Hint Resolve keeps_Disconnect keeps_PostSend keeps_PostRecv keeps_complete_loop : keeps.
Lemma keeps_SendComplete i n : Keeps Rel (SendComplete i n).
Proof. unfold SendComplete. keeps. Qed.
Lemma keeps_SendPacket sid l : Keeps Rel (SendPacket sid l).
Proof. unfold SendPacket. keeps. Qed.
Lemma keeps_io_done i : Keeps Rel (io_done i).
Proof. unfold io_done. keeps. Qed.
#[local] Hint Resolve keeps_SendComplete keeps_SendPacket keeps_io_done : keeps.
Lemma keeps_worker_send i n : Keeps Rel (worker_send i n).
Proof. unfold worker_send. keeps. Qed.

(** The receive path, as far as the handler of messages keeps the relation. *)
Lemma keeps_recv_loop OnRecv n i :
  (forall sid l, Keeps Rel (OnRecv sid l)) -> Keeps Rel (recv_loop OnRecv n i).
Proof. intros HO. induction n; cbn [recv_loop]; unfold bump_recvTPS; keeps. Qed.
Lemma keeps_worker_recv OnRecv i n :
  (forall sid l, Keeps Rel (OnRecv sid l)) -> Keeps Rel (worker_recv OnRecv i n).
Proof.
  intros HO. unfold worker_recv, RecvComplete.
  pose proof (fun n => keeps_recv_loop OnRecv n i HO). keeps.
Qed.

(** The accept thread, as far as [OnClientJoin] keeps it. *)
Lemma keeps_accept_turn sock port :
  (forall sid now a a', OnClientJoin sid now a = Ok a' -> Rel a a') ->
  Keeps Rel (accept_turn sock port).
Proof.
  intros HJ. assert (Hjoin : forall sid, Keeps Rel (call_OnClientJoin sid)).
  { intros sid w b w' H. unfold call_OnClientJoin in H.
    apply bind_inv in H as (t & w1 & Ht & H). apply silent_tick in Ht.
    apply bind_inv in H as (w2 & w2' & [= <- <-] & H). apply bind_inv in H as (a & w3 & H & E).
    apply lift_inv in H as [H ->]. injection E as <- <-. rewrite <- Ht. by eapply HJ. }
  unfold accept_turn. keeps.
Qed.
End Calls.

#[export] Hint Resolve keeps_Disconnect keeps_SendPacket keeps_worker_send : keeps.
