(* ===== verification/ChatCalls.v ===== *)
(** * Following a handler down to its calls (lemmas on [Chat])

    [Calls] for the functions of the chat server: which of them leave the server's state alone,
    and what is left to show of those that change it. *)

From S2P Require Import Prelude Packet FreeList Message World Iocp Chat Calls.

Section ChatCalls.
Context {Q : LockfreeQueue loc 4096} {RQ : LockfreeQueue st_Redis 65534}.
Context {W : Windows} {R : Runtime}.

Implicit Types w : World ChatServer.
Abbreviation MC := (M ChatServer).

Lemma silent_chat : Silent chat.
Proof. unfold chat. silent. Qed.
#[local] Hint Resolve silent_chat : silent.
Lemma silent_get_player l : Silent (get_player l).
Proof. unfold get_player. silent. Qed.
Lemma silent_read l t old : Silent (read l t old).
Proof. unfold read. silent. Qed.
Lemma silent_get_data l dst n : Silent (get_data l dst n).
Proof. unfold get_data. silent. Qed.
#[local] Hint Resolve silent_get_player silent_read silent_get_data : silent.

Lemma silent_Res_SectorMove account x y : Silent (Res_SectorMove account x y).
Proof. unfold Res_SectorMove. silent. Qed.
Lemma silent_Res_Login account st : Silent (Res_Login account st).
Proof. unfold Res_Login. silent. Qed.
Lemma silent_Res_Chat pl msg len : Silent (Res_Chat pl msg len).
Proof. unfold Res_Chat. silent. Qed.
Lemma silent_MakeLoginResult account i n : Silent (MakeLoginResult account i n).
Proof. unfold MakeLoginResult. silent. Qed.

(** *** Steps on the state *)

Lemma on_chat_inv {B} (f : ChatServer -> res (ChatServer * B)) w b w' :
  on_chat f w = Ok (b, w') -> exists c, f (app w) = Ok (c, b) /\ w' = set_app w c.
Proof.
  intros H. unfold on_chat, chat in H.
  apply bind_inv in H as (c & w1 & [= <- <-] & H). apply bind_inv in H as ([c' b'] & w2 & H & E).
  apply lift_inv in H as [H ->]. injection E as <- <-. by exists c'.
Qed.

Lemma on_chat__inv f w b w' :
  on_chat_ f w = Ok (b, w') -> exists c, f (app w) = Ok c /\ w' = set_app w c.
Proof.
  intros H. unfold on_chat_, chat in H. apply bind_inv in H as (c & w1 & [= <- <-] & H).
  apply bind_inv in H as (c' & w2 & H & E). apply lift_inv in H as [H ->].
  injection E as <- <-. by exists c'.
Qed.

Lemma get_player_inv l w p w' :
  get_player l w = Ok (p, w') -> objects (app w) !! l = Some p /\ w' = w.
Proof.
  intros H. unfold get_player, chat in H. apply bind_inv in H as (c & w1 & [= <- <-] & H).
  apply lift_inv in H as [H ->]. split; [|done]. unfold player in H.
  destruct (objects (app w) !! l); [by injection H as ->|discriminate].
Qed.

Lemma update_player_inv l f w b w' :
  update_player l f w = Ok (b, w') ->
  exists p, objects (app w) !! l = Some p /\ w' = set_app w (put_player (app w) l (f p)).
Proof.
  intros H. unfold update_player in H. apply bind_inv in H as (p & w1 & H & H1).
  apply get_player_inv in H as [Hp ->]. apply on_chat__inv in H1 as (c & [= <-] & ->). by exists p.
Qed.

Lemma log_run acts w : log acts w = Ok (tt, set_app w (log_locks (app w) acts)).
Proof. done. Qed.

Context (Rel : relation ChatServer).

Lemma keeps_on_chat {B} (f : ChatServer -> res (ChatServer * B)) :
  (forall c c' b, f c = Ok (c', b) -> Rel c c') -> Keeps Rel (on_chat f).
Proof. intros Hf w b w' H. apply on_chat_inv in H as (c & H & ->). by eapply Hf. Qed.

Lemma keeps_on_chat_ f :
  (forall c c', f c = Ok c' -> Rel c c') -> Keeps Rel (on_chat_ f).
Proof. intros Hf w b w' H. apply on_chat__inv in H as (c & H & ->). by eapply Hf. Qed.
End ChatCalls.

#[export] Hint Resolve silent_chat silent_get_player silent_read silent_get_data
  silent_Res_SectorMove silent_Res_Login silent_Res_Chat silent_MakeLoginResult : silent.
