(* ===== verification/Locks.v ===== *)
(** * The locks of the handlers (theorems on [Chat] and [Iocp])

    Every function a thread of the server runs, from a completion down to the player's
    reference counts, takes and releases its locks in the order of [Sector]: what it appends
    to [lockLog] is [disciplined].  With [Sector.locks_never_deadlock] no set of threads running
    turns of the server deadlocks on its locks ([turns_never_deadlock]). *)

From S2P Require Import Prelude RingBuffer Packet Codec FreeList Sector Message World Iocp Chat Players Receive Stream Calls ChatCalls.

(** ** On the state of the chat server *)

Section State.
Context {RQ : LockfreeQueue st_Redis 65534}.

Implicit Types c : ChatServer.

Definition kept c c' : Prop :=
  exists lg, lockLog c' = lockLog c ++ lg /\ disciplined [] lg = true.

Lemma kept_same c c' : lockLog c' = lockLog c -> kept c c'.
Proof. exists []. by rewrite app_nil_r. Qed.

#[export] Instance kept_preorder : PreOrder kept.
Proof.
  split; [by intros c; apply kept_same|].
  intros c1 c2 c3 (l1 & E1 & H1) (l2 & E2 & H2). exists (l1 ++ l2).
  rewrite E2, E1, app_assoc. split; [done|by apply disciplined_app].
Qed.

Lemma kept_section c c' m l :
  lockLog c' = lockLog c ++ [Acquire m l; Release m l] -> kept c c'.
Proof.
  intros E. exists [Acquire m l; Release m l]. split; [done|]. cbn.
  rewrite bool_decide_eq_true_2 by apply list_elem_of_here. by rewrite decide_True.
Qed.

Lemma player_of c l p : player c l = Ok p -> objects c !! l = Some p.
Proof. unfold player. by destruct (objects c !! l); intros [= ->]. Qed.

Lemma AddRefPlayer_log c l c' : AddRefPlayer c l = Ok c' -> lockLog c' = lockLog c.
Proof. unfold AddRefPlayer. destruct (player c l); by intros [= <-]. Qed.

Lemma ReleasePlayer_log c l c' : ReleasePlayer c l = Ok c' -> lockLog c' = lockLog c.
Proof.
  unfold ReleasePlayer. destruct (player c l) as [p| |]; [|done|done]. cbn.
  by destruct (i32 (ref p - 1) =? 0); intros [= <-].
Qed.

Lemma sector_update_log c x y f c' : sector_update c x y f = Ok c' -> lockLog c' = lockLog c.
Proof. unfold sector_update, check. destruct (_ && _); by intros [= <-]. Qed.

Lemma AcquirePlayer_kept c sid c' r : AcquirePlayer c sid = Ok (c', r) -> kept c c'.
Proof.
  unfold AcquirePlayer. cbn. destruct (players c !! sid) as [l|].
  - destruct (AddRefPlayer _ l) as [c1| |] eqn:E1; [|done|done]. cbn.
    apply AddRefPlayer_log in E1. destruct (player _ l) as [p| |]; [|done|done]. cbn.
    assert (Hk : forall c2, lockLog c2 = lockLog c1 ++ [Release Shared playerLock] -> kept c c2).
    { intros c2 E2. eapply kept_section. rewrite E2, E1. cbn. by rewrite <- app_assoc. }
    destruct (closing p); [|intros [= <- <-]; by apply Hk].
    destruct (ReleasePlayer _ l) as [c2| |] eqn:E2; [|done|done]. intros [= <- <-].
    apply Hk. by rewrite (ReleasePlayer_log _ _ _ E2).
  - intros [= <- <-]. eapply kept_section. cbn. by rewrite <- app_assoc.
Qed.

Lemma JoinProc_kept sid now c c' b : JoinProc sid now c = Ok (c', b) -> kept c c'.
Proof.
  unfold JoinProc. destruct (Alloc _ _ _) as [[pool l]| |]; [|done|done]. cbn.
  destruct (players c !! sid); intros [= <- <-]; eapply kept_section; cbn; by rewrite <- app_assoc.
Qed.

Lemma leave_account_kept c l sid c' : leave_account c l sid = Ok c' -> kept c c'.
Proof.
  unfold leave_account. destruct (player c l) as [p| |]; [|done|done]. cbn.
  destruct (_ && _); intros [= <-]; [|by apply kept_same]. eapply kept_section. cbn.
  by destruct (decide _); cbn; rewrite <- app_assoc.
Qed.

Lemma leave_sector_kept c l c' : leave_sector c l = Ok c' -> kept c c'.
Proof.
  unfold leave_sector. destruct (player c l) as [p| |]; [|done|done]. cbn.
  destruct (IsValidSector _ _); [|intros [= <-]; by apply kept_same].
  destruct (sector_erase _ _ _ l) as [c1| |] eqn:E; [|done|done]. intros [= <-].
  apply sector_update_log in E. eapply kept_section. cbn. rewrite E. cbn. by rewrite <- app_assoc.
Qed.

Lemma LeaveProc_kept sid c c' b : LeaveProc sid c = Ok (c', b) -> kept c c'.
Proof.
  unfold LeaveProc. cbn. destruct (players c !! sid) as [l|].
  - destruct (AddRefPlayer _ l) as [c1| |] eqn:E1; [|done|done]. cbn.
    apply AddRefPlayer_log in E1. destruct (player _ l) as [p| |]; [|done|done]. cbn.
    destruct (leave_account _ l sid) as [c2| |] eqn:E2; [|done|done]. cbn.
    destruct (leave_sector c2 l) as [c3| |] eqn:E3; [|done|done]. cbn.
    destruct (player c3 l) as [p3| |]; [|done|done]. cbn.
    destruct (ReleasePlayer _ l) as [c4| |] eqn:E4; [|done|done]. intros [= <- <-].
    apply ReleasePlayer_log in E4. apply leave_account_kept in E2. apply leave_sector_kept in E3.
    transitivity c3; [|by apply kept_same]. transitivity c2; [|done].
    etransitivity; [|exact E2]. eapply kept_section. cbn. rewrite E1. cbn. by rewrite <- app_assoc.
  - intros [= <- <-]. eapply kept_section. cbn. by rewrite <- app_assoc.
Qed.
End State.

(** ** On the world *)

Section World.
Context {Q : LockfreeQueue loc 4096} {RQ : LockfreeQueue st_Redis 65534}.
Context {W : Windows} {R : Runtime} {J : Indeterminate} {RS : RedisServer}.

Implicit Types w : World ChatServer.
Abbreviation MC := (M ChatServer).
Abbreviation Keeps := (Keeps kept).

#[local] Instance kept_rel : AppRel kept.
Proof.
  split; [exact _|]. intros sid c c' H. cbn in H.
  destruct (LeaveProc sid c) as [[c1 b]| |] eqn:E; try discriminate.
  cbn in H. injection H as <-. by eapply LeaveProc_kept.
Qed.

(** *** The handlers *)

Lemma keeps_update_player l f : Keeps (update_player l f).
Proof.
  unfold update_player. apply keeps_bind; [exact _|keeps|intros p]. apply keeps_on_chat_.
  intros c c' [= <-]. by apply kept_same.
Qed.
Lemma keeps_ReleasePlayer l : Keeps (on_chat_ (fun c => ReleasePlayer c l)).
Proof. apply keeps_on_chat_. intros c c' H. by eapply kept_same, ReleasePlayer_log. Qed.
Lemma keeps_AcquirePlayer sid : Keeps (on_chat (fun c => AcquirePlayer c sid)).
Proof. apply keeps_on_chat. intros c c' b. apply AcquirePlayer_kept. Qed.
Lemma keeps_EnqueueRedis sid l : Keeps (EnqueueRedis sid l).
Proof. apply keeps_on_chat_. intros c c' [= <-]. by apply kept_same. Qed.
Lemma keeps_set_redis q e : Keeps (on_chat_ (fun c => Ok (set_redis c q (e c)))).
Proof. apply keeps_on_chat_. intros c c' [= <-]. by apply kept_same. Qed.
#[local] Hint Resolve keeps_update_player keeps_ReleasePlayer keeps_AcquirePlayer
  keeps_EnqueueRedis keeps_set_redis : keeps.

(** A section of code between [lock] and [unlock] that logs nothing else. *)
Lemma keeps_section {B C} lock unlock (m : B -> MC C) (body : MC B) :
  (forall c, Keeps (m c)) ->
  (forall w b w', body w = Ok (b, w') -> lockLog (app w') = lockLog (app w)) ->
  disciplined [] (lock ++ unlock) = true ->
  Keeps (log lock;; b ← body; log unlock;; m b).
Proof.
  intros Hm Hbody Hd w b w' H. apply bind_inv in H as ([] & w1 & H1 & H).
  apply bind_inv in H as (x & w2 & H2 & H). apply bind_inv in H as ([] & w3 & H3 & H).
  rewrite log_run in H1, H3. injection H1 as <-. injection H3 as <-.
  apply Hbody in H2. transitivity (log_locks (app w2) unlock); [|by apply Hm in H].
  exists (lock ++ unlock). split; [|done]. cbn in *. by rewrite H2, <- app_assoc.
Qed.

Lemma sector_update_grid c x y f c' : sector_update c x y f = Ok c' -> on_grid x y.
Proof.
  unfold sector_update, check, on_grid. destruct (_ && _) eqn:E; [|done]. intros _.
  rewrite !andb_true_iff, !Z.leb_le, !Z.ltb_lt in E. lia.
Qed.

(** The change of sector in [Req_SectorMove]. *)
Lemma keeps_move ox oy x y pl :
  Keeps (if IsValidSector ox oy then
      lk ← lift (LockTwoSectorsExclusive ox oy x y);
      log lk;;
      on_chat_ (fun c => sector_erase c ox oy pl);;
      on_chat_ (fun c => sector_insert c x y pl);;
      ul ← lift (UnlockTwoSectorsExclusive ox oy x y);
      log ul
    else
      log (LockSectorExclusive x y);;
      on_chat_ (fun c => sector_insert c x y pl);;
      log (UnlockSectorExclusive x y)).
Proof.
  intros w b w' H. destruct (IsValidSector ox oy).
  - apply bind_inv in H as (lk & w1 & H & H1). apply lift_inv in H as [Hlk ->].
    apply bind_inv in H1 as (u1 & w2 & H & H1). rewrite log_run in H. injection H as _ <-.
    apply bind_inv in H1 as (u2 & w3 & H & H1). apply on_chat__inv in H as (c1 & He & ->).
    apply bind_inv in H1 as (u3 & w4 & H & H1). apply on_chat__inv in H as (c2 & Hi & ->).
    apply bind_inv in H1 as (ul & w5 & H & H1). apply lift_inv in H as [Hul ->].
    rewrite log_run in H1. injection H1 as _ <-. cbn in *.
    destruct (LockTwoSectors_ok ox oy x y) as (lk' & ul' & E1 & E2 & _ & _ & _ & Hd);
      [by eapply sector_update_grid|by eapply sector_update_grid|].
    rewrite E1 in Hlk. rewrite E2 in Hul. injection Hlk as <-. injection Hul as <-.
    exists (lk' ++ ul'). split.
    + cbn. rewrite (sector_update_log _ _ _ _ _ Hi), (sector_update_log _ _ _ _ _ He).
      cbn. by rewrite <- app_assoc.
    + specialize (Hd []). rewrite app_nil_r in Hd. by rewrite Hd.
  - apply bind_inv in H as (u1 & w1 & H & H1). rewrite log_run in H. injection H as _ <-.
    apply bind_inv in H1 as (u2 & w2 & H & H1). apply on_chat__inv in H as (c1 & Hi & ->).
    rewrite log_run in H1. injection H1 as _ <-. cbn in *. eapply kept_section. cbn.
    rewrite (sector_update_log _ _ _ _ _ Hi). cbn. by rewrite <- app_assoc.
Qed.
#[local] Hint Resolve keeps_move : keeps.

Lemma keeps_collect_sectors ps : Keeps (collect_sectors ps).
Proof.
  induction ps as [|p ps IH]; cbn [collect_sectors]; [keeps|]. cbv zeta. intros w b w' H.
  apply bind_inv in H as (u1 & w1 & H & H1). rewrite log_run in H. injection H as _ <-.
  apply bind_inv in H1 as (c & w2 & H & H1). apply silent_chat in H.
  apply bind_inv in H1 as (u2 & w3 & H3 & H1). apply lift_inv in H3 as [_ ->].
  apply bind_inv in H1 as (here & w4 & H4 & H1). apply lift_inv in H4 as [_ ->].
  apply bind_inv in H1 as (u3 & w5 & H5 & H1). rewrite log_run in H5. injection H5 as _ <-.
  transitivity (log_locks (app w2) [Release Shared (sectorLock (u16 (px p)) (u16 (py p)))]).
  - eapply kept_section. cbn. rewrite H. cbn. by rewrite <- app_assoc.
  - revert H1. match goal with |- ?m ?v = _ -> _ => assert (Hk : Keeps m) by keeps end.
    intros H1. by apply Hk in H1.
Qed.

Lemma keeps_send_all sids l : Keeps (send_all sids l).
Proof. induction sids; cbn [send_all]; keeps. Qed.
Lemma keeps_disconnect_all sids : Keeps (disconnect_all sids).
Proof. induction sids; cbn [disconnect_all]; keeps. Qed.
#[local] Hint Resolve keeps_collect_sectors keeps_send_all keeps_disconnect_all : keeps.

Lemma keeps_Req_Login_Redis sid pl l : Keeps (Req_Login_Redis sid pl l).
Proof. unfold Req_Login_Redis. keeps. Qed.
Lemma keeps_Req_SectorMove sid pl l : Keeps (Req_SectorMove sid pl l).
Proof. unfold Req_SectorMove. keeps. Qed.
Lemma keeps_Req_Chat sid pl l : Keeps (Req_Chat sid pl l).
Proof. unfold Req_Chat. keeps. Qed.
#[local] Hint Resolve keeps_Req_Login_Redis keeps_Req_SectorMove keeps_Req_Chat : keeps.

Lemma keeps_RecvProc sid l : Keeps (RecvProc sid l).
Proof. unfold RecvProc. keeps. Qed.
#[local] Hint Resolve keeps_RecvProc : keeps.
Lemma keeps_OnRecv sid l : Keeps (OnRecv sid l).
Proof. unfold OnRecv. keeps. Qed.

Lemma keeps_add_account account sid {C} (m : MC C) :
  Keeps m ->
  Keeps (log [Acquire Exclusive accountLock];;
         on_chat_ (fun c => Ok (set_accounts c (<[account := sid]> (accounts c))));;
         log [Release Exclusive accountLock];;
         m).
Proof.
  intros Hm. apply (keeps_section [Acquire Exclusive accountLock] [Release Exclusive accountLock]).
  - done.
  - intros w b w' H. apply on_chat__inv in H as (c & [= <-] & ->). done.
  - reflexivity.
Qed.

Lemma keeps_CompleteLogin sid l ok : Keeps (CompleteLogin sid l ok).
Proof.
  unfold CompleteLogin. unfold SendUnicast.
  repeat first [apply keeps_add_account | keeps_step].
Qed.
#[local] Hint Resolve keeps_CompleteLogin : keeps.

Lemma keeps_redis_job : Keeps redis_job.
Proof.
  unfold redis_job. apply keeps_bind; [exact _|keeps|intros c].
  destruct (lfq_pop (redisQ c)) as [[job q]|]; [|keeps].
  apply keeps_bind; [exact _| |keeps]. apply (keeps_set_redis q redis_event).
Qed.

Lemma keeps_CheckTimeOut : Keeps CheckTimeOut.
Proof.
  unfold CheckTimeOut. apply keeps_bind; [exact _|keeps|intros t]. cbv zeta. intros w b w' H.
  apply bind_inv in H as (u1 & w1 & H & H1). rewrite log_run in H. injection H as _ <-.
  apply bind_inv in H1 as (c & w2 & H & H1). apply silent_chat in H.
  apply bind_inv in H1 as (kick & w3 & H3 & H1). apply lift_inv in H3 as [_ ->].
  apply bind_inv in H1 as (u2 & w4 & H4 & H1). rewrite log_run in H4. injection H4 as _ <-.
  transitivity (log_locks (app w2) [Release Shared playerLock]).
  - eapply kept_section. cbn. rewrite H. cbn. by rewrite <- app_assoc.
  - assert (Hk : Keeps (disconnect_all kick;; mret true)) by keeps. by apply Hk in H1.
Qed.

Lemma keeps_accept sock port : Keeps (accept_turn sock port).
Proof.
  apply keeps_accept_turn; [exact _|]. intros sid now c c' H. cbn in H.
  destruct (JoinProc sid now c) as [[c1 b]| |] eqn:E; try discriminate.
  cbn in H. injection H as <-. by eapply JoinProc_kept.
Qed.

(** The turns of the server's threads. *)
Definition thread_turn (w w' : World ChatServer) : Prop :=
  (exists i n, worker_recv OnRecv i n w = Ok (tt, w')) \/
  (exists i n, worker_send i n w = Ok (tt, w')) \/
  (exists socket port, accept_turn socket port w = Ok (tt, w')) \/
  (exists b, redis_job w = Ok (b, w')) \/
  (exists b, CheckTimeOut w = Ok (b, w')).

Lemma thread_turn_kept w w' : thread_turn w w' -> kept (app w) (app w').
Proof.
  intros [(i & n & H)|[(i & n & H)|[(i & n & H)|[(b & H)|(b & H)]]]].
  - by apply (keeps_worker_recv kept OnRecv i n keeps_OnRecv) in H.
  - by apply (keeps_worker_send kept) in H.
  - by apply keeps_accept in H.
  - by apply keeps_redis_job in H.
  - by apply keeps_CheckTimeOut in H.
Qed.

(** C10.  Every turn of every thread of the server (the accept thread, a worker with a
    completed receive or send, the Redis thread, the heartbeat), with whatever it calls,
    takes each lock above the ones it holds and holds none at the end, whatever the state it
    runs in and however the messages, the sockets and the Redis server answer. *)
Theorem turns_disciplined (w w' : World ChatServer) :
  (exists i n, worker_recv OnRecv i n w = Ok (tt, w')) \/
  (exists i n, worker_send i n w = Ok (tt, w')) \/
  (exists socket port, accept_turn socket port w = Ok (tt, w')) \/
  (exists b, redis_job w = Ok (b, w')) \/
  (exists b, CheckTimeOut w = Ok (b, w')) ->
  exists lg, lockLog (app w') = lockLog (app w) ++ lg /\ disciplined [] lg = true.
Proof. apply thread_turn_kept. Qed.

(** The locks [lg] are those of one turn, in the order in which it takes and releases them. *)
Definition turn_locks (lg : list act) : Prop :=
  exists w w', thread_turn w w' /\ lockLog (app w') = lockLog (app w) ++ lg.

Lemma turn_locks_disciplined lg : turn_locks lg -> disciplined [] lg = true.
Proof.
  intros (w & w' & H & E). destruct (thread_turn_kept w w' H) as (lg' & E' & Hd).
  rewrite E' in E. by apply app_inv_head in E as ->.
Qed.

(** C11.  The server's threads never deadlock on its locks.  Take any number of threads, each
    performing the locks of a sequence of turns of the server, of any kinds and from any
    states (so with any pairs of sectors to move between), interleaved in any way on
    the shared SRW locks: no two threads ever hold a lock one of them holds exclusively; and
    as long as a thread is not done, some thread can release a lock or acquire one that no
    thread holds (so that no policy of the locks can block it), a step is possible, and
    every step performs one of finitely many acts. *)
Theorem turns_never_deadlock ps ts :
  (forall p, p ∈ ps -> exists lgs, p = concat lgs /\ Forall turn_locks lgs) ->
  steps lstep (start ps) ts ->
  (forall i j t u l m, ts !! i = Some t -> ts !! j = Some u ->
     (l, Exclusive) ∈ held t -> (l, m) ∈ held u -> i = j) /\
  ((forall t, t ∈ ts -> prog t = []) \/
   (exists t, t ∈ ts /\ runnable ts t) /\
   (exists ts', lstep ts ts') /\
   (forall ts', lstep ts ts' -> 0 <= remaining ts' < remaining ts)).
Proof.
  intros Hps. apply locks_never_deadlock. intros p Hp. destruct (Hps p Hp) as (lgs & -> & Hlgs).
  clear Hp. induction Hlgs as [|lg lgs Hlg _ IH]; [done|]. cbn.
  apply disciplined_app; [by apply turn_locks_disciplined|done].
Qed.
End World.

(** ** Witness: a player moves from sector (3,7) to sector (2,7) *)

Lemma zeros_size (t : nat) (n : Z) : 0 <= n -> zlen (replicate (Z.to_nat n) 0) = n.
Proof. apply zlen_replicate. Qed.

Lemma zeros_bytes (t : nat) (n : Z) : bytes_ok (replicate (Z.to_nat n) 0).
Proof. apply bytes_ok_zeros. Qed.

Definition no_junk : Indeterminate := {|
  junk_word _ := 0;
  junk_block _ n := replicate (Z.to_nat n) 0;
  junk_block_size := zeros_size;
  junk_block_bytes := zeros_bytes
|}.

Definition no_redis : RedisServer := {| redis_get _ _ _ := None |}.

Definition move_message (x y : Z) : list Z :=
  le_bytes 2 (code_of en_PACKET_CS_CHAT_REQ_SECTOR_MOVE) ++ le_bytes 8 77 ++
  le_bytes 2 x ++ le_bytes 2 y.

Definition two_moves : list Z :=
  frame_bytes_of 41 (move_message 3 7) ++ frame_bytes_of 9 (move_message 2 7).

Definition mover : Session (Q := queue4096) :=
  mkSession (Q := queue4096) (Some 5) (COMBINE_ID_INDEX 1 0) 0 0 0 0 1 [] []
    (mkRing 0 0 256 (two_moves ++ replicate (256 - length two_moves) 0)) 0.

Definition moving_world : World (Q := queue4096) (ChatServer (RQ := redis_list)) :=
  mkWorld [mover] [] 1 1 1 0 0 1 1 ∅ (CLFFreeList_new [] false)
    match run_conns [Join (COMBINE_ID_INDEX 1 0) 1000] chat_new with
    | Ok c => log_locks c []
    | _ => chat_new
    end [] [] 0.

Definition moved_world : World (Q := queue4096) (ChatServer (RQ := redis_list)) :=
  match worker_recv (W := accepting_windows) (R := zero_runtime 1)
          (OnRecv (W := accepting_windows) (R := zero_runtime 1) (J := no_junk))
          0 (zlen two_moves) moving_world with
  | Ok (_, w) => w
  | _ => moving_world
  end.

Lemma turns_disciplined_witness :
  worker_recv (W := accepting_windows) (R := zero_runtime 1)
    (OnRecv (W := accepting_windows) (R := zero_runtime 1) (J := no_junk))
    0 (zlen two_moves) moving_world = Ok (tt, moved_world) /\
  exists lg, lockLog (app moved_world) = lockLog (app moving_world) ++ lg /\
    disciplined [] lg = true.
Proof.
  assert (H : worker_recv (W := accepting_windows) (R := zero_runtime 1)
    (OnRecv (W := accepting_windows) (R := zero_runtime 1) (J := no_junk))
    0 (zlen two_moves) moving_world = Ok (tt, moved_world)) by (vm_compute; reflexivity).
  split; [exact H|].
  apply (turns_disciplined (W := accepting_windows) (R := zero_runtime 1) (J := no_junk)
    (RS := no_redis) moving_world moved_world).
  left. exists 0, (zlen two_moves). exact H.
Defined.

(** Two threads, each performing the locks of that turn. *)
Definition moved_locks : list act :=
  drop (length (lockLog (app moving_world))) (lockLog (app moved_world)).

Lemma turns_never_deadlock_witness :
  turn_locks (Q := queue4096) (RQ := redis_list) (W := accepting_windows) (R := zero_runtime 1) (J := no_junk) (RS := no_redis) moved_locks /\
  Acquire Exclusive (sectorLock 2 7) ∈ moved_locks /\
  exists t, t ∈ start [moved_locks; moved_locks] /\ runnable (start [moved_locks; moved_locks]) t.
Proof.
  assert (H : turn_locks (Q := queue4096) (RQ := redis_list) (W := accepting_windows) (R := zero_runtime 1) (J := no_junk)
    (RS := no_redis) moved_locks).
  { exists moving_world, moved_world. split; [left; exists 0, (zlen two_moves)|]; vm_compute; reflexivity. }
  split; [exact H|]. split; [apply (bool_decide_unpack _); vm_compute; exact I|].
  destruct (turns_never_deadlock (Q := queue4096) (RQ := redis_list) (W := accepting_windows) (R := zero_runtime 1) (J := no_junk)
    (RS := no_redis) [moved_locks; moved_locks] (start [moved_locks; moved_locks]))
    as [_ [Hd|[Hr _]]]; [|apply steps_refl| |exact Hr].
  - intros p Hp. exists [moved_locks]. split; [|apply Forall_cons_2; [exact H|apply Forall_nil_2]].
    cbn [concat]. rewrite app_nil_r. rewrite !elem_of_cons, elem_of_nil in Hp. intuition.
  - specialize (Hd _ (list_elem_of_here _ _)). vm_compute in Hd. discriminate.
Defined.
