(* ===== verification/Room.v ===== *)
(** * The chat room: what the chat server promises (abstract specification of [Chat])

    The server as its clients see it, without players' blocks, reference counts, sectors'
    sets, locks, packets and threads: who is connected, with which account and names and in
    which sector, and which session each account belongs to.  [room] reads it off the state of
    the server; [Handlers] shows that everything the server does is a run of the steps below. *)

From S2P Require Import Prelude FreeList Sector Message World Chat Players.

(** One connected client. *)
Record Member := mkMember {
  m_account : Z;
  m_logged : Z;
  m_id : list Z;
  m_nick : list Z;
  m_where : Z * Z
}.

Record Room := mkRoom {
  members : gmap Z Member;
  owner : gmap Z Z
}.

Definition empty_room : Room := mkRoom ∅ ∅.

(** A client that has just connected: no account, no name, in no sector. *)
Definition nowhere : Z * Z := (65535, 65535).
Definition newcomer : Member := mkMember 0 0 (replicate 40 0) (replicate 40 0) nowhere.

Definition log_in (m : Member) (account : Z) (i n : list Z) : Member :=
  mkMember account 1 i n (m_where m).
Definition move_to (m : Member) (x y : Z) : Member :=
  mkMember (m_account m) (m_logged m) (m_id m) (m_nick m) (x, y).

(** The accounts once the member [m] of session [sid] is gone. *)
Definition disown (own : gmap Z Z) (m : Member) (sid : Z) : gmap Z Z :=
  if decide (m_logged m <> 0 /\ m_account m <> 0 /\ own !! m_account m = Some sid)
  then delete (m_account m) own else own.

Inductive room_step : Room -> Room -> Prop :=
| Enter sid ms own :
    ms !! sid = None -> room_step (mkRoom ms own) (mkRoom (<[sid := newcomer]> ms) own)
| Exit sid m ms own :
    ms !! sid = Some m -> room_step (mkRoom ms own) (mkRoom (delete sid ms) (disown own m sid))
| LogIn sid m account i n ms own :
    ms !! sid = Some m -> zlen i = zlen (m_id m) -> zlen n = zlen (m_nick m) ->
    room_step (mkRoom ms own) (mkRoom (<[sid := log_in m account i n]> ms) (<[account := sid]> own))
| Move sid m x y ms own :
    ms !! sid = Some m -> on_grid x y ->
    room_step (mkRoom ms own) (mkRoom (<[sid := move_to m x y]> ms) own).

(** What holds of every member of a room that started empty. *)
Record member_ok (m : Member) : Prop := {
  ok_where : m_where m = nowhere \/ on_grid (m_where m).1 (m_where m).2;
  ok_logged : (m_logged m = 0 /\ m_account m = 0) \/ m_logged m = 1;
  ok_id : zlen (m_id m) = 40;
  ok_nick : zlen (m_nick m) = 40
}.
Definition room_ok (r : Room) : Prop := map_Forall (fun _ m => member_ok m) (members r).

Lemma room_ok_step r r' : room_step r r' -> room_ok r -> room_ok r'.
Proof.
  unfold room_ok. intros H Hr. destruct H; cbn in *.
  - apply map_Forall_insert_2; [|done]. split; [by left|by left|done|done].
  - by apply map_Forall_delete.
  - apply map_Forall_insert_2; [|done]. destruct (Hr _ _ H). split; cbn; [done|by right|congruence|congruence].
  - apply map_Forall_insert_2; [|done]. destruct (Hr _ _ H). split; [by right|done|done|done].
Qed.

Lemma room_ok_run r r' : rtc room_step r r' -> room_ok r -> room_ok r'.
Proof. induction 1; eauto using room_ok_step. Qed.

Lemma empty_room_ok : room_ok empty_room.
Proof. apply map_Forall_empty. Qed.

(** ** The room a state of the server stands for *)

Definition member_of (p : Player) : Member :=
  mkMember (accountNo p) (isLogined p) (id p) (nick p) (sectorX p, sectorY p).

Section Room.
Context {RQ : LockfreeQueue st_Redis 65534}.

Implicit Types c : ChatServer.

Definition room c : Room :=
  mkRoom (omap (fun l => member_of <$> objects c !! l) (players c)) (accounts c).

Lemma room_lookup c sid l p :
  players c !! sid = Some l -> objects c !! l = Some p ->
  members (room c) !! sid = Some (member_of p).
Proof. intros Hs Hp. cbn. rewrite lookup_omap, Hs. cbn. by rewrite Hp. Qed.

Lemma room_absent c sid : players c !! sid = None -> members (room c) !! sid = None.
Proof. intros Hs. cbn. by rewrite lookup_omap, Hs. Qed.

(** A change to a player that its member does not show. *)
Lemma room_put_same c l p p' :
  objects c !! l = Some p -> member_of p' = member_of p -> room (put_player c l p') = room c.
Proof.
  intros Hp Hm. unfold room. cbn. f_equal. apply map_eq. intros sid. rewrite !lookup_omap.
  destruct (players c !! sid) as [l'|]; [|done]. cbn. destruct (decide (l = l')) as [<-|Hne].
  - by rewrite lookup_insert_eq, Hp; cbn; rewrite Hm.
  - by rewrite lookup_insert_ne.
Qed.

(** The player of a session changed. *)
Lemma room_put c c' L o sid l p' own :
  chat_inv c L o -> players c !! sid = Some l ->
  players c' = players c -> objects c' = <[l := p']> (objects c) -> accounts c' = own ->
  room c' = mkRoom (<[sid := member_of p']> (members (room c))) own.
Proof.
  intros Hi Hs Ep Eo Ea. unfold room. rewrite Ep, Eo, Ea. cbn. f_equal. apply map_eq. intros s.
  rewrite lookup_omap. destruct (decide (sid = s)) as [<-|Hne].
  - rewrite Hs. cbn. by rewrite !lookup_insert_eq.
  - rewrite (lookup_insert_ne _ sid) by done. rewrite lookup_omap.
    destruct (players c !! s) as [l'|] eqn:El; [|done]. cbn.
    rewrite lookup_insert_ne; [done|]. intros <-. eauto using players_inj.
Qed.

Lemma room_leave c c' L o sid l p :
  chat_inv c L o -> players c !! sid = Some l -> objects c !! l = Some p ->
  players c' = delete sid (players c) -> objects c' = <[l := set_closing p true]> (objects c) ->
  accounts c' = accounts_after c p sid ->
  room_step (room c) (room c').
Proof.
  intros Hi Hs Hp Ep Eo Ea.
  assert (E : room c' = mkRoom (delete sid (members (room c))) (disown (accounts c) (member_of p) sid)).
  { unfold room. rewrite Ep, Eo, Ea. cbn. f_equal. apply map_eq. intros s. rewrite lookup_omap.
    destruct (decide (sid = s)) as [<-|Hne]; [by rewrite !lookup_delete_eq|].
    rewrite !lookup_delete_ne by done. rewrite lookup_omap.
    destruct (players c !! s) as [l'|] eqn:El; [|done]. cbn.
    rewrite lookup_insert_ne; [done|]. intros <-. eauto using players_inj. }
  rewrite E. apply Exit. by apply (room_lookup c sid l p).
Qed.

Lemma room_join c c' sid l now o L :
  chat_inv c L o -> (l ∉ o) -> players c !! sid = None ->
  players c' = <[sid := l]> (players c) -> objects c' = <[l := joined sid now]> (objects c) ->
  accounts c' = accounts c ->
  room_step (room c) (room c').
Proof.
  intros Hi Hlo Hs Ep Eo Ea.
  assert (E : room c' = mkRoom (<[sid := newcomer]> (members (room c))) (accounts c)).
  { unfold room. rewrite Ep, Eo, Ea. cbn. f_equal. apply map_eq. intros s. rewrite lookup_omap.
    destruct (decide (sid = s)) as [<-|Hne].
    - rewrite !lookup_insert_eq. cbn. by rewrite lookup_insert_eq.
    - rewrite !(lookup_insert_ne _ sid) by done. rewrite lookup_omap.
      destruct (players c !! s) as [l'|] eqn:El; [|done]. cbn.
      rewrite lookup_insert_ne; [done|]. intros <-. by destruct (ci_players _ _ _ Hi _ _ El). }
  rewrite E. apply Enter. by apply room_absent.
Qed.
End Room.
