(* ===== verification/Handlers.v ===== *)
(** * The handlers keep the chat server's invariant (theorems on [Chat])

    [chat_inv] holds between any two turns of the server: the handlers of the messages, the
    login's second half and the heartbeat, with all the server calls and departures inside
    them, keep it, and give back every reference to a player they take. *)

From S2P Require Import Prelude RingBuffer Packet Codec FreeList Sector Message World Iocp Chat Players Calls ChatCalls Room.

Section State.
Context {RQ : LockfreeQueue st_Redis 65534}.

Implicit Types c : ChatServer.

Definition refs c : gmap loc Z := ref <$> objects c.

(** The invariant, the blocks in use and the reference counts are kept, and the room goes
    through a run of its steps. *)
Record evolved c c' (L : list loc) (o : gset loc) : Prop := {
  ev_inv : chat_inv c' L o;
  ev_refs : refs c' = refs c;
  ev_pool : m_lMaxCount (playerPool c') = m_lMaxCount (playerPool c);
  ev_room : rtc room_step (room c) (room c')
}.

Definition calm c c' : Prop := forall L o, chat_inv c L o -> evolved c c' L o.

Lemma evolved_trans c1 c2 c3 L o : evolved c1 c2 L o -> evolved c2 c3 L o -> evolved c1 c3 L o.
Proof. intros [] []. split; [done|congruence|congruence|by etransitivity]. Qed.

#[export] Instance calm_preorder : PreOrder calm.
Proof.
  split; [by intros c L o Hi|]. intros c1 c2 c3 H12 H23 L o Hi. specialize (H12 L o Hi).
  eapply evolved_trans; [done|]. apply H23, H12.
Qed.

(** Parts of the state the invariant does not look at. *)
Lemma calm_same c c' :
  players c' = players c -> accounts c' = accounts c -> sector c' = sector c ->
  objects c' = objects c -> playerPool c' = playerPool c -> calm c c'.
Proof.
  intros E1 Ea E2 E3 E4 L o [Hp Ho Hpl Hs].
  split; [|unfold refs; by rewrite E3|by rewrite E4|unfold room; by rewrite E1, E3, Ea].
  split; unfold sector_set; rewrite ?E1, ?E2, ?E3, ?E4; done.
Qed.

Lemma calm_log c lg : calm c (log_locks c lg).
Proof. by apply calm_same. Qed.

Lemma chat_inv_put c L o l p p' :
  chat_inv c L o -> objects c !! l = Some p ->
  (forall sid, players c !! sid = Some l -> p_sessionID p' = p_sessionID p /\
     closing p' = closing p /\ 1 <= ref p' < 1073741824) ->
  sectorX p' = sectorX p -> sectorY p' = sectorY p ->
  chat_inv (put_player c l p') L o.
Proof.
  intros [Hpool Hobj Hpl Hsec] Hp Hsame Hx Hy. split; cbn.
  - done.
  - rewrite dom_insert_L, <- Hobj. apply elem_of_dom_2 in Hp. set_solver.
  - intros sid l' Hl'. destruct (Hpl _ _ Hl') as (Hlo & q & Hq & H1 & H2 & H3 & H4 & H5).
    split; [done|]. destruct (decide (l = l')) as [<-|Hne].
    + rewrite lookup_insert_eq. exists p'. destruct (Hsame _ Hl') as (E1 & E2 & E3).
      assert (q = p) as -> by congruence. split_and!; try done; try congruence; lia.
    + rewrite lookup_insert_ne by done. exists q. split_and!; try done; lia.
  - intros x y l'. change (sector_set (put_player c l p') x y) with (sector_set c x y). rewrite Hsec.
    apply and_iff_left. intros _. destruct (decide (l = l')) as [<-|Hne].
    + rewrite lookup_insert_eq. split; intros (sid & q & H1 & H2 & H3 & H4).
      * exists sid, p'. assert (q = p) as -> by congruence. split_and!; congruence.
      * injection H2 as <-. exists sid, p. split_and!; congruence.
    + by rewrite lookup_insert_ne.
Qed.

(** Changing what the invariant does not look at in a player. *)
Lemma calm_put c l p p' :
  objects c !! l = Some p -> p_sessionID p' = p_sessionID p -> closing p' = closing p ->
  ref p' = ref p -> member_of p' = member_of p ->
  calm c (put_player c l p').
Proof.
  intros Hp H1 H2 H3 H4 L o Hi. injection H4 as Ha Hg Hid Hn Hx Hy. split.
  - apply (chat_inv_put _ _ _ _ p); try done. intros sid Hs. split_and!; try done;
      rewrite H3; destruct (ci_players _ _ _ Hi _ _ Hs) as (_ & q & Hq & _ & _ & Hr & _);
      assert (q = p) as -> by congruence; lia.
  - unfold refs. cbn. rewrite fmap_insert, H3. apply insert_id. by rewrite lookup_fmap, Hp.
  - done.
  - rewrite (room_put_same c l p p'); [done..|]. unfold member_of. congruence.
Qed.

Lemma calm_LeaveProc sid c c' b : LeaveProc sid c = Ok (c', b) -> calm c c'.
Proof.
  intros H L o Hi. destruct (players c !! sid) as [l|] eqn:Hs.
  - destruct (ci_players _ _ _ Hi _ _ Hs) as (_ & p & Hp & _).
    destruct (LeaveProc_ok c L o sid l p Hi Hs Hp)
      as (c1 & lg & E & Hi' & Hpl & Hobj & _ & Hacc & Hpool & _).
    rewrite E in H. injection H as <- <-. split; [done| |by rewrite Hpool|].
    + unfold refs. rewrite Hobj, fmap_insert. apply insert_id. by rewrite lookup_fmap, Hp.
    + apply rtc_once. by apply (room_leave c c1 L o sid l p).
  - destruct (LeaveProc_absent c sid Hs) as (lg & E & _). rewrite E in H. injection H as <- <-.
    by apply calm_log.
Qed.

#[export] Instance calm_rel : AppRel calm.
Proof.
  split; [exact _|]. intros sid c c' H. cbn in H.
  destruct (LeaveProc sid c) as [[c1 b]| |] eqn:E; try discriminate.
  cbn in H. injection H as <-. by eapply calm_LeaveProc.
Qed.

(** *** Moving to another sector *)

(** In which sector the player [l] is, after it has moved to [(x, y)]. *)
Lemma chat_inv_move c c' L o sid l p x y :
  chat_inv c L o -> players c !! sid = Some l -> objects c !! l = Some p -> on_grid x y ->
  players c' = players c -> playerPool c' = playerPool c ->
  objects c' = <[l := SetSector p x y]> (objects c) ->
  (forall a b l', l' ∈ sector_set c' a b <->
     (l' = l /\ a = x /\ b = y) \/ (l' <> l /\ l' ∈ sector_set c a b)) ->
  chat_inv c' L o.
Proof.
  intros [Hpool Hobj Hpl Hsec] Hs Hp Hg Epl Epool Eobj Eset. split.
  - by rewrite Epool.
  - rewrite Eobj, Epool, dom_insert_L, <- Hobj. apply elem_of_dom_2 in Hp. set_solver.
  - intros s' l' Hl'. rewrite Epl in Hl'. destruct (Hpl _ _ Hl') as (Hlo & q & Hq & H1 & H2 & H3 & H4 & H5).
    split; [done|]. rewrite Eobj. destruct (decide (l = l')) as [<-|Hne].
    + rewrite lookup_insert_eq. eexists. split; [done|]. assert (q = p) as -> by congruence.
      unfold on_grid in Hg. cbn. split_and!; try done; lia.
    + rewrite lookup_insert_ne by done. exists q. split_and!; try done; lia.
  - intros a b l'. rewrite Eset, Hsec, Epl, Eobj. split.
    + intros [(-> & -> & ->)|[Hne (Hab & s' & q & H1 & H2 & H3)]].
      * split; [done|]. exists sid, (SetSector p x y). by rewrite lookup_insert_eq.
      * split; [done|]. exists s', q. by rewrite lookup_insert_ne.
    + intros (Hab & s' & q & H1 & H2 & H3 & H4). destruct (decide (l = l')) as [<-|Hne].
      * rewrite lookup_insert_eq in H2. injection H2 as <-. by left.
      * rewrite lookup_insert_ne in H2 by done. right. split; [done|]. split; [done|]. by exists s', q.
Qed.

Lemma sector_update_inv c x y f c' :
  sector_update c x y f = Ok c' ->
  on_grid x y /\ c' = set_sector c (<[(x, y) := f (sector_set c x y)]> (sector c)).
Proof.
  intros H. assert (Hg : on_grid x y).
  { unfold sector_update, check in H. destruct (_ && _) eqn:E; [|discriminate].
    rewrite !andb_true_iff, !Z.leb_le, !Z.ltb_lt in E. unfold on_grid. lia. }
  rewrite sector_update_ok in H by done. injection H as <-. done.
Qed.

(** The change of sector in [Req_SectorMove], up to the player's new coordinates. *)
Lemma sector_update_accounts c x y f c' :
  sector_update c x y f = Ok c' -> accounts c' = accounts c.
Proof. intros H. by apply sector_update_inv in H as [_ ->]. Qed.

Lemma calm_move c c1 c2 sid l p x y lg1 lg2 :
  players c !! sid = Some l -> objects c !! l = Some p ->
  (if IsValidSector (sectorX p) (sectorY p) then
     sector_erase (log_locks c lg1) (sectorX p) (sectorY p) l = Ok c1
   else c1 = log_locks c lg1) ->
  sector_insert c1 x y l = Ok c2 ->
  calm c (put_player (log_locks c2 lg2) l (SetSector p x y)).
Proof.
  intros Hs Hp H1 H2 L o Hi. apply sector_update_inv in H2 as [Hg ->].
  pose proof Hi as [_ _ Hpl Hsec]. destruct (Hpl _ _ Hs) as (_ & q & Hq & _ & _ & _ & Hx & Hy).
  assert (q = p) as -> by congruence.
  assert (Hin : forall a b, l ∈ sector_set c a b -> a = sectorX p /\ b = sectorY p).
  { intros a b H. apply Hsec in H as (_ & s' & q' & E1 & E2 & E3 & E4).
    assert (q' = p) as -> by congruence. done. }
  assert (Hset : players c1 = players c /\ playerPool c1 = playerPool c /\
    accounts c1 = accounts c /\ objects c1 = objects c /\ forall a b l', l' ∈ sector_set c1 a b <-> l' <> l /\ l' ∈ sector_set c a b).
  { destruct (IsValidSector (sectorX p) (sectorY p)) eqn:Ev.
    - apply sector_update_inv in H1 as [_ ->]. split_and!; try done. intros a b l'.
      pose proof (sector_set_insert c (sectorX p) (sectorY p) (fun s => s ∖ {[l]}) a b) as E.
      change (sector_set (log_locks c lg1)) with (sector_set c). unfold sector_set at 1. cbn.
      unfold sector_set in E at 1. cbn in E. rewrite E. case_decide as Ed.
      + injection Ed as <- <-. set_solver.
      + split; [|tauto]. intros Hl'. split; [|done]. intros ->. apply Hin in Hl' as [-> ->]. done.
    - subst c1. split_and!; try done. intros a b l'. change (sector_set (log_locks c lg1)) with (sector_set c).
      split; [|tauto]. intros Hl'. split; [|done]. intros ->. apply Hsec in Hl' as Hl2.
      destruct Hl2 as [Hab _]. apply Hin in Hl' as [-> ->]. apply on_grid_valid in Hab; [congruence|done..]. }
  destruct Hset as (E1 & E2 & Ea & E3 & E4). split.
  - apply (chat_inv_move c _ L o sid l p x y); try done; [by cbn; rewrite E3|].
    intros a b l'. pose proof (sector_set_insert c1 x y (fun s => {[l]} ∪ s) a b) as E.
    unfold sector_set in E at 1. cbn in E. unfold sector_set at 1. cbn. rewrite E.
    case_decide as Ed.
    + injection Ed as <- <-. rewrite elem_of_union, elem_of_singleton, E4.
      destruct (decide (l' = l)); naive_solver.
    + rewrite E4. naive_solver.
  - unfold refs. cbn. rewrite fmap_insert, E3. apply insert_id. by rewrite lookup_fmap, Hp.
  - cbn. by rewrite E2.
  - apply rtc_once. match goal with |- room_step _ (room ?c') =>
      rewrite (room_put c c' L o sid l (SetSector p x y) (accounts c)) end; try done.
    + apply (Move sid (member_of p) x y); [|done]. by apply (room_lookup c sid l p).
    + cbn. by rewrite E3.
Qed.

(** A successful login: the account and the player's names. *)
Lemma calm_login c sid l p account i n lg :
  players c !! sid = Some l -> objects c !! l = Some p ->
  zlen i = zlen (id p) -> zlen n = zlen (nick p) ->
  calm c (put_player (log_locks (set_accounts c (<[account := sid]> (accounts c))) lg) l
            (set_login p account i n)).
Proof.
  intros Hs Hp Hzi Hzn L o Hi. pose proof Hi as [Hpool Hobj Hpl Hsec].
  destruct (Hpl _ _ Hs) as (_ & q & Hq & _ & _ & Hr & _). assert (q = p) as -> by congruence. split.
  - change (chat_inv (log_locks (set_accounts (put_player c l (set_login p account i n))
      (<[account := sid]> (accounts c))) lg) L o).
    destruct (chat_inv_put c L o l p (set_login p account i n) Hi Hp) as [? ? ? ?]; try done.
  - unfold refs. cbn. rewrite fmap_insert. apply insert_id. by rewrite lookup_fmap, Hp.
  - done.
  - apply rtc_once. match goal with |- room_step _ (room ?c') =>
      rewrite (room_put c c' L o sid l (set_login p account i n)
                 (<[account := sid]> (accounts c))) end; try done.
    apply (LogIn sid (member_of p) account i n); [|done..]. by apply (room_lookup c sid l p).
Qed.

(** *** Holding a player *)

(** No count is about to leave the range of the invariant. *)
Definition low c : Prop := map_Forall (fun _ r => r < 1073741823) (refs c).

(** Kept over a whole turn. *)
Definition steady c c' : Prop := forall L o, chat_inv c L o -> low c -> evolved c c' L o.

Lemma calm_steady c c' : calm c c' -> steady c c'.
Proof. intros H L o Hi _. by apply H. Qed.

#[export] Instance steady_preorder : PreOrder steady.
Proof.
  split; [intros c; by apply calm_steady|]. intros c1 c2 c3 H12 H23 L o Hi Hlow.
  pose proof (H12 L o Hi Hlow) as H2. eapply evolved_trans; [done|].
  apply H23; [apply H2|]. unfold low. by rewrite (ev_refs _ _ _ _ H2).
Qed.

#[export] Instance steady_rel : AppRel steady.
Proof. split; [exact _|]. intros sid c c' H. by eapply calm_steady, rel_leave. Qed.

Lemma AcquirePlayer_inv c L o sid c' r :
  chat_inv c L o -> low c -> AcquirePlayer c sid = Ok (c', r) ->
  match r with
  | None => calm c c'
  | Some l => exists p lg, players c !! sid = Some l /\ objects c !! l = Some p /\
      p_sessionID p = sid /\ closing p = false /\ 1 <= ref p < 1073741823 /\
      c' = log_locks (put_player c l (set_ref p (ref p + 1))) lg /\ chat_inv c' L o
  end.
Proof.
  intros Hi Hlow H. unfold AcquirePlayer in H. cbn [log_locks players] in H.
  destruct (players c !! sid) as [l|] eqn:Hs.
  - destruct (ci_players _ _ _ Hi _ _ Hs) as (_ & p & Hp & Hid & Hcl & Hr & _).
    assert (Hlt : ref p < 1073741823) by (apply (Hlow l); unfold refs; by rewrite lookup_fmap, Hp).
    rewrite (AddRefPlayer_ok _ l p) in H by (done || lia). cbn [mbind res_bind] in H.
    rewrite (player_ok _ l (set_ref p (ref p + 1))) in H by apply lookup_insert_eq.
    cbn [mbind res_bind closing set_ref] in H. rewrite Hcl in H. injection H as Hc' <-.
    assert (Ec : c' = log_locks (put_player c l (set_ref p (ref p + 1)))
                   ([Acquire Shared playerLock] ++ [Release Shared playerLock])).
    { rewrite <- log_locks_app, <- Hc'. done. }
    exists p, ([Acquire Shared playerLock] ++ [Release Shared playerLock]).
    split_and!; try done; try lia. rewrite Ec. apply chat_inv_log.
    apply (chat_inv_put _ _ _ _ p); try done. intros s' _. cbn. split_and!; try done; lia.
  - injection H as <- <-. by apply calm_same.
Qed.

(** Giving the reference back: the counts are what they were before it was taken. *)
Lemma ReleasePlayer_inv c c0 L o l p0 c' :
  chat_inv c L o -> objects c0 !! l = Some p0 -> 1 <= ref p0 < 1073741823 ->
  refs c = refs (put_player c0 l (set_ref p0 (ref p0 + 1))) ->
  ReleasePlayer c l = Ok c' ->
  chat_inv c' L o /\ refs c' = refs c0 /\ playerPool c' = playerPool c /\ room c' = room c.
Proof.
  intros Hi Hp0 Hr0 Eref H.
  assert (Hl : refs c !! l = Some (ref p0 + 1)).
  { rewrite Eref. unfold refs. cbn. by rewrite fmap_insert, lookup_insert_eq. }
  unfold refs in Hl. rewrite lookup_fmap in Hl. destruct (objects c !! l) as [p|] eqn:Hp; [|done].
  cbn in Hl. injection Hl as Hr. rewrite (ReleasePlayer_ok c l p) in H by (done || lia). cbn zeta in H.
  destruct (Z.eqb_spec (ref p - 1) 0); [lia|]. injection H as <-. split_and!; [|..|done|].
  - apply (chat_inv_put _ _ _ _ p); try done. intros sid _. cbn. split_and!; try done; lia.
  - unfold refs in *. cbn in Eref |- *. rewrite fmap_insert, Eref, fmap_insert, insert_insert_eq.
    cbn. apply insert_id. rewrite lookup_fmap, Hp0. cbn. f_equal. lia.
  - by apply (room_put_same c l p).
Qed.

(** A turn between taking a reference to a player and giving it back. *)
Lemma held_turn c c1 c2 c3 L o l p lg :
  objects c !! l = Some p -> 1 <= ref p < 1073741823 ->
  c1 = log_locks (put_player c l (set_ref p (ref p + 1))) lg -> chat_inv c1 L o ->
  calm c1 c2 -> ReleasePlayer c2 l = Ok c3 -> evolved c c3 L o.
Proof.
  intros Hp Hr E1 Hi1 K H. destruct (K L o Hi1) as [Hi2 R2 P2 M2].
  destruct (ReleasePlayer_inv c2 c L o l p c3) as (Hi3 & R3 & P3 & M3); try done.
  { by rewrite R2, E1. }
  split; [done..| |].
  - by rewrite P3, P2, E1.
  - rewrite M3. assert (E : room c1 = room c) by (rewrite E1; by apply (room_put_same c l p)).
    by rewrite <- E.
Qed.
End State.

(** ** The handlers *)

Section Handlers.
Context {Q : LockfreeQueue loc 4096} {RQ : LockfreeQueue st_Redis 65534}.
Context {W : Windows} {R : Runtime} {J : Indeterminate} {RS : RedisServer}.

Implicit Types w : World ChatServer.
Abbreviation MC := (M ChatServer).

Lemma calm_log_run acts : Keeps calm (log acts).
Proof. apply keeps_on_chat_. intros c c' [= <-]. apply calm_log. Qed.
Lemma kept_set_redis f e : Keeps calm (on_chat_ (fun c => Ok (set_redis c (f c) (e c)))).
Proof. apply keeps_on_chat_. intros c c' [= <-]. by apply calm_same. Qed.
Lemma kept_stamp l t : Keeps calm (update_player l (fun p => set_p_lastRecvTime p t)).
Proof.
  intros w b w' H. apply update_player_inv in H as (p & Hp & ->). by apply (calm_put _ _ p).
Qed.
#[local] Hint Resolve calm_log_run kept_set_redis kept_stamp : keeps.

Lemma kept_collect_sectors ps : Keeps calm (collect_sectors ps).
Proof. induction ps; cbn [collect_sectors]; cbv zeta; keeps. Qed.
Lemma kept_send_all sids l : Keeps calm (send_all sids l).
Proof. induction sids; cbn [send_all]; keeps. Qed.
Lemma kept_disconnect_all sids : Keeps calm (disconnect_all sids).
Proof. induction sids; cbn [disconnect_all]; keeps. Qed.
#[local] Hint Resolve kept_collect_sectors kept_send_all kept_disconnect_all : keeps.

Lemma kept_EnqueueRedis sid l : Keeps calm (EnqueueRedis sid l).
Proof. unfold EnqueueRedis. apply keeps_on_chat_. intros c c' [= <-]. by apply calm_same. Qed.
#[local] Hint Resolve kept_EnqueueRedis : keeps.
Lemma kept_Req_Login_Redis sid pl l : Keeps calm (Req_Login_Redis sid pl l).
Proof. unfold Req_Login_Redis. keeps. Qed.
Lemma kept_Req_Chat sid pl l : Keeps calm (Req_Chat sid pl l).
Proof. unfold Req_Chat. keeps. Qed.
Lemma kept_CheckTimeOut : Keeps calm CheckTimeOut.
Proof. unfold CheckTimeOut. keeps. Qed.

(** The block of [Req_SectorMove] that changes the sets, and the update of the player. *)
Lemma move_run ox oy x y pl w w1 b :
  (if IsValidSector ox oy then
      lk ← lift (LockTwoSectorsExclusive ox oy x y);
      log lk;;
      on_chat_ (fun c => sector_erase c ox oy pl);;
      on_chat_ (fun c => sector_insert c x y pl);;
      ul ← lift (UnlockTwoSectorsExclusive ox oy x y);
      log ul
    else
      log (LockSectorExclusive x y);;
      on_chat_ (fun c => sector_insert c x y pl);;
      log (UnlockSectorExclusive x y)) w = Ok (b, w1) ->
  exists lg1 lg2 c1 c2,
    (if IsValidSector ox oy then sector_erase (log_locks (app w) lg1) ox oy pl = Ok c1
     else c1 = log_locks (app w) lg1) /\
    sector_insert c1 x y pl = Ok c2 /\ app w1 = log_locks c2 lg2.
Proof.
  intros H. destruct (IsValidSector ox oy).
  - apply bind_inv in H as (lk & v & H & H1). apply lift_inv in H as [_ ->].
    apply bind_inv in H1 as (u1 & v2 & H & H1). rewrite log_run in H. injection H as _ <-.
    apply bind_inv in H1 as (u2 & v3 & H & H1). apply on_chat__inv in H as (c1 & He & ->).
    apply bind_inv in H1 as (u3 & v4 & H & H1). apply on_chat__inv in H as (c2 & Hi & ->).
    apply bind_inv in H1 as (ul & v5 & H & H1). apply lift_inv in H as [_ ->].
    rewrite log_run in H1. injection H1 as _ <-. by exists lk, ul, c1, c2.
  - apply bind_inv in H as (u1 & v1 & H & H1). rewrite log_run in H. injection H as _ <-.
    apply bind_inv in H1 as (u2 & v2 & H & H1). apply on_chat__inv in H as (c1 & Hi & ->).
    rewrite log_run in H1. injection H1 as _ <-. by exists (LockSectorExclusive x y), (UnlockSectorExclusive x y), (log_locks (app w) (LockSectorExclusive x y)), c1.
Qed.

Lemma Req_SectorMove_calm sid sid' pl l w b w' :
  players (app w) !! sid' = Some pl -> Req_SectorMove sid pl l w = Ok (b, w') ->
  calm (app w) (app w').
Proof.
  intros Hs H. unfold Req_SectorMove in H.
  apply bind_inv in H as (t & w1 & H1 & H). apply silent_tick in H1.
  apply bind_inv in H as (account & w2 & H2 & H). apply silent_read in H2.
  apply bind_inv in H as (x & w3 & H3 & H). apply silent_read in H3.
  apply bind_inv in H as (y & w4 & H4 & H). apply silent_read in H4.
  apply bind_inv in H as (t' & w5 & H5 & H). apply silent_tick in H5.
  assert (Ew : app w5 = app w) by congruence. clear H1 H2 H3 H4 H5. rewrite <- Ew in Hs |- *.
  destruct (negb (IsValidSector x y)); [injection H as <- <-; reflexivity|].
  apply bind_inv in H as (p & w6 & H6 & H). apply get_player_inv in H6 as [Hp ->]. cbv zeta in H.
  apply bind_inv in H as (u & w7 & H7 & H). apply move_run in H7 as (lg1 & lg2 & c1 & c2 & E1 & E2 & E7).
  apply bind_inv in H as (u' & w8 & H8 & H). apply update_player_inv in H8 as (p' & Hp' & ->).
  assert (p' = p) as ->.
  { rewrite E7 in Hp'. cbn in Hp'. apply sector_update_inv in E2 as [_ ->]. cbn in Hp'.
    destruct (IsValidSector (sectorX p) (sectorY p)).
    - apply sector_update_inv in E1 as [_ ->]. cbn in Hp'. congruence.
    - subst c1. cbn in Hp'. congruence. }
  transitivity (put_player (app w7) pl (SetSector p x y)).
  - rewrite E7. by eapply calm_move.
  - revert H. match goal with |- ?m ?v = _ -> _ => assert (Hk : Keeps calm m) by keeps end.
    intros H. by apply Hk in H.
Qed.

(** *** Whole turns *)

Lemma keeps_calm {B} (m : MC B) : Keeps calm m -> Keeps steady m.
Proof. intros H w b w' E. by apply calm_steady, (H w b). Qed.

Lemma kept_RecvProc sid l : Keeps steady (RecvProc sid l).
Proof.
  intros w b w' H L o Hi Hlow. unfold RecvProc in H.
  apply bind_inv in H as (found & w1 & H1 & H). apply on_chat_inv in H1 as (c1 & Ha & ->).
  pose proof (AcquirePlayer_inv _ _ _ _ _ _ Hi Hlow Ha) as Hacq. destruct found as [pl|].
  2: { injection H as <- <-. by apply Hacq. }
  destruct Hacq as (p & lg & Hs & Hp & _ & _ & Hr & Ec & Hi1).
  apply bind_inv in H as (t & w2 & H2 & H). apply silent_tick in H2. cbn in H2.
  apply bind_inv in H as (u & w3 & H3 & H). pose proof (kept_stamp _ _ _ _ _ H3) as K3.
  assert (Hpl3 : players (app w3) !! sid = Some pl).
  { apply update_player_inv in H3 as (p' & _ & ->). cbn. rewrite H2, Ec. done. }
  apply bind_inv in H as (ty & w4 & H4 & H). apply silent_read in H4.
  apply bind_inv in H as (ok & w5 & H5 & H).
  assert (K5 : calm (app w4) (app w5)).
  { rewrite <- H4 in Hpl3.
    destruct (ty =? _); [by apply kept_Req_Login_Redis in H5|].
    destruct (ty =? _); [by eapply Req_SectorMove_calm in H5|].
    destruct (ty =? _); [by apply kept_Req_Chat in H5|].
    destruct (ty =? _); injection H5 as <- <-; reflexivity. }
  apply bind_inv in H as (u' & w6 & H6 & H). injection H as <- <-.
  apply on_chat__inv in H6 as (c6 & H6 & ->). cbn.
  assert (K : calm c1 (app w5)) by (etransitivity; [|exact K5]; rewrite H4; by rewrite <- H2).
  by apply (held_turn (app w) c1 (app w5) c6 L o pl p lg).
Qed.

Lemma kept_OnRecv sid l : Keeps steady (OnRecv sid l).
Proof.
  unfold OnRecv. apply keeps_bind; [exact _|apply kept_RecvProc|]. intros ok.
  destruct (negb ok); keeps.
Qed.

(** The two answers to a login. *)
Lemma answer_calm pl sid account i n (ok : bool) w b w' :
  players (app w) !! sid = Some pl ->
  (if ok then
     log [Acquire Exclusive accountLock];;
     on_chat_ (fun c => Ok (set_accounts c (<[account := sid]> (accounts c))));;
     log [Release Exclusive accountLock];;
     p ← get_player pl;
     i' ← lift (wcscpy_s (id p) (dfID_LEN / 2) i);
     n' ← lift (wcscpy_s (nick p) (dfNiCK_LEN / 2) n);
     update_player pl (fun p => set_login p account i' n');;
     l' ← Res_Login account 1;
     SendUnicast sid l';;
     CPacket_SubRef l'
   else
     l' ← Res_Login account 0;
     SendUnicast sid l';;
     CPacket_SubRef l') w = Ok (b, w') ->
  calm (app w) (app w').
Proof.
  unfold SendUnicast. intros Hs H. destruct ok.
  - apply bind_inv in H as (u1 & w1 & H1 & H). rewrite log_run in H1. injection H1 as _ <-.
    apply bind_inv in H as (u2 & w2 & H2 & H). apply on_chat__inv in H2 as (c2 & [= <-] & ->).
    apply bind_inv in H as (u3 & w3 & H3 & H). rewrite log_run in H3. injection H3 as _ <-.
    apply bind_inv in H as (p & w4 & H4 & H). apply get_player_inv in H4 as [Hp ->].
    apply bind_inv in H as (i' & w5 & H5 & H). apply lift_inv in H5 as [Hi' ->].
    apply bind_inv in H as (n' & w6 & H6 & H). apply lift_inv in H6 as [Hn' ->].
    apply bind_inv in H as (u7 & w7 & H7 & H). apply update_player_inv in H7 as (p' & Hp' & ->).
    cbn in Hp, Hp'. assert (p' = p) as -> by congruence.
    etransitivity; [|revert H; match goal with |- ?m ?v = _ -> _ =>
      assert (Hk : Keeps calm m) by keeps end; intros H; by apply Hk in H].
    cbn. etransitivity; [apply (calm_log _ [Acquire Exclusive accountLock])|].
    apply (calm_login (log_locks (app w) [Acquire Exclusive accountLock]) sid pl p); try done; by eapply wcscpy_s_zlen.
  - revert H. match goal with |- ?m ?v = _ -> _ => assert (Hk : Keeps calm m) by keeps end.
    intros H. by apply Hk in H.
Qed.

Lemma kept_CompleteLogin sid l ok : Keeps steady (CompleteLogin sid l ok).
Proof.
  intros w b w' H L o Hi Hlow. unfold CompleteLogin in H.
  apply bind_inv in H as (found & w1 & H1 & H). apply on_chat_inv in H1 as (c1 & Ha & ->).
  pose proof (AcquirePlayer_inv _ _ _ _ _ _ Hi Hlow Ha) as Hacq. destruct found as [pl|].
  2: { injection H as <- <-. by apply Hacq. }
  destruct Hacq as (p & lg & Hs & Hp & Hid & Hcl & Hr & Ec & Hi1).
  apply bind_inv in H as (p1 & w2 & H2 & H). apply get_player_inv in H2 as [Hp1 ->].
  assert (E1 : p1 = set_ref p (ref p + 1)).
  { cbn in Hp1. rewrite Ec in Hp1. cbn in Hp1. rewrite lookup_insert_eq in Hp1. by injection Hp1. }
  rewrite E1 in H. cbn [p_sessionID closing set_ref] in H. rewrite Hid, Hcl, Z.eqb_refl in H.
  cbn [negb] in H.
  apply bind_inv in H as (t & w3 & H3 & H). apply silent_tick in H3.
  apply bind_inv in H as (account & w4 & H4 & H). apply silent_read in H4.
  apply bind_inv in H as (i & w5 & H5 & H). apply silent_get_data in H5.
  apply bind_inv in H as (n & w6 & H6 & H). apply silent_get_data in H6.
  apply bind_inv in H as (t' & w7 & H7 & H). apply silent_tick in H7.
  apply bind_inv in H as (u & w8 & H8 & H). apply (answer_calm pl sid) in H8.
  2: { rewrite H7, H6, H5, H4, H3. cbn. by rewrite Ec. }
  apply bind_inv in H as (u' & w9 & H9 & H). injection H as <- <-.
  apply on_chat__inv in H9 as (c9 & H9 & ->). cbn.
  assert (E7 : app w7 = c1) by (rewrite H7, H6, H5, H4, H3; done). rewrite E7 in H8.
  by apply (held_turn (app w) c1 (app w8) c9 L o pl p lg).
Qed.

Lemma kept_redis_job : Keeps steady redis_job.
Proof.
  unfold redis_job. apply keeps_bind; [exact _|apply keeps_calm; keeps|intros c].
  destruct (lfq_pop (redisQ c)) as [[job q]|]; [|apply keeps_calm; keeps].
  apply keeps_bind; [exact _|apply keeps_calm, (kept_set_redis (fun _ => q) redis_event)|].
  intros _. cbv zeta. pose proof kept_CompleteLogin. keeps.
Qed.

End Handlers.
