(* ===== verification/Requests.v ===== *)
(** * What the requests of a client do (theorems on [Chat])

    The handlers of the three requests and of the heartbeat, run to their end: which state of
    the chat server each leaves, which reply it composes and to whose outboxes it is added.
    The sessions are described by [Delivery], the packets by [Replies]. *)

From S2P Require Import Prelude RingBuffer Packet Codec FreeList Sector Message World PacketHeap Iocp Sends Sessions Delivery Replies Chat Players Broadcast Calls ChatCalls Locks Room Handlers.

Section Requests.
Context {Q : LockfreeQueue loc 4096} {RQ : LockfreeQueue st_Redis 65534}.
Context {W : Windows} {R : Runtime} {J : Indeterminate} {RS : RedisServer}.

Implicit Types w : World ChatServer.
Implicit Types c : ChatServer.

(** What every handler needs to compose its reply: memory, and room in the pool. *)
Record can_reply w (o : gset loc) : Prop := {
  cr_malloc : exists m, malloc eBUFFER_DEFAULT = Some m;
  cr_inv : pkt_inv w o;
  cr_room : m_lMaxCount (pktPool w) < POOL_LIMIT
}.

(** ** The primitives of the handlers, when they return *)

Lemma on_chat__run f w c : f (app w) = Ok c -> on_chat_ f w = Ok (tt, set_app w c).
Proof.
  intros H. unfold on_chat_, chat. rewrite (bind_run _ _ (app w) _ w) by done.
  by rewrite (bind_run _ _ c _ w) by (by apply lift_run).
Qed.

Lemma on_chat_run {B} (f : ChatServer -> res (ChatServer * B)) w c b :
  f (app w) = Ok (c, b) -> on_chat f w = Ok (b, set_app w c).
Proof.
  intros H. unfold on_chat, chat. rewrite (bind_run _ _ (app w) _ w) by done.
  by rewrite (bind_run _ _ (c, b) _ w) by (by apply lift_run).
Qed.

Lemma get_player_run l w p : objects (app w) !! l = Some p -> get_player l w = Ok (p, w).
Proof.
  intros H. unfold get_player, chat. rewrite (bind_run _ _ (app w) _ w) by done.
  apply lift_run. by apply player_ok.
Qed.

Lemma update_player_run l f w p :
  objects (app w) !! l = Some p ->
  update_player l f w = Ok (tt, set_app w (put_player (app w) l (f p))).
Proof.
  intros H. unfold update_player. rewrite (bind_run _ _ _ _ _ (get_player_run _ _ _ H)).
  by apply on_chat__run.
Qed.

Lemma on_packet__of l f w w' :
  on_packet l (fun p => p' ← f p; Ok (p', tt)) w = Ok (tt, w') -> on_packet_ l f w = Ok (tt, w').
Proof.
  intros H. unfold on_packet in H. apply bind_inv in H as (p & w1 & H1 & H).
  apply bind_inv in H as ([p' []] & w2 & H2 & H). apply lift_inv in H2 as [H2 ->].
  unfold on_packet_. rewrite (bind_run _ _ _ _ _ H1).
  destruct (f p) as [q| |] eqn:E; try discriminate. cbn in H2. injection H2 as <-.
  rewrite (bind_run _ _ q _ w1) by done. exact H.
Qed.

Lemma bind_same {B C} (m m' : M ChatServer B) (f : B -> M ChatServer C) w w' :
  m w = m' w' -> (m ≫= f) w = (m' ≫= f) w'.
Proof. intros H. unfold mbind, M_bind. by rewrite H. Qed.

(** ** The replies *)

Lemma Res_SectorMove_ok w o account x y :
  can_reply w o -> exists l w', Res_SectorMove account x y w = Ok (l, w') /\
    composed w o l (move_reply account x y) w'.
Proof.
  intros [Hm Hi Hl].
  destruct (compose_ok w o (fun p => p' ← Res_SectorMove_body account x y p; Ok (p', tt))
    (move_reply account x y) tt Hm Hi Hl) as (l & w1 & w2 & w' & E1 & _ & E2 & E3 & H).
  { intros p m Hc. destruct (Res_SectorMove_body_ok p m Hc account x y) as (p' & m' & -> & Hw).
    by exists p', m'. }
  exists l, w'. split; [|exact H]. unfold Res_SectorMove.
  rewrite (bind_run _ _ _ _ _ E1), (bind_run _ _ _ _ _ (on_packet__of _ _ _ _ E2)).
  by rewrite (bind_run _ _ _ _ _ E3).
Qed.

Lemma Res_Login_ok w o account status :
  can_reply w o -> exists l w', Res_Login account status w = Ok (l, w') /\
    composed w o l (login_reply account status) w'.
Proof.
  intros [Hm Hi Hl].
  destruct (compose_ok w o (fun p => p' ← Res_Login_body account status p; Ok (p', tt))
    (login_reply account status) tt Hm Hi Hl) as (l & w1 & w2 & w' & E1 & _ & E2 & E3 & H).
  { intros p m Hc. destruct (Res_Login_body_ok p m Hc account status) as (p' & m' & -> & Hw).
    by exists p', m'. }
  exists l, w'. split; [|exact H]. unfold Res_Login.
  rewrite (bind_run _ _ _ _ _ E1), (bind_run _ _ _ _ _ (on_packet__of _ _ _ _ E2)).
  by rewrite (bind_run _ _ _ _ _ E3).
Qed.

(** A reply to one session. *)
Lemma answer_one w o l bs w1 w2 sid :
  composed w o l bs w1 -> packets w2 = packets w1 -> pktPool w2 = pktPool w1 ->
  m_lMaxCount (pktPool w) < POOL_LIMIT -> reachable w2 [sid] ->
  exists w3 w', SendPacket sid l w2 = Ok (tt, w3) /\ CPacket_SubRef l w3 = Ok (tt, w') /\
    answered o l bs [sid] w2 w'.
Proof.
  intros Hc E1 E2 Hl Hre.
  destruct (reply_sent w o l bs w1 w2 [sid] Hc E1 E2 Hl Hre) as (w' & E & H);
    [by apply NoDup_singleton|done|].
  apply bind_inv in E as ([] & w3 & E & Es). cbn [send_to] in E.
  apply bind_inv in E as ([] & w4 & E & [= <-]). by exists w4, w'.
Qed.

(** *** Moving *)

(** The sectors after the player [l] has gone to [(x, y)], in any other it may have been. *)
Definition moved_to (l : loc) (x y : Z) c c' : Prop :=
  forall a b l', l' ∈ sector_set c' a b <->
    (l' = l /\ a = x /\ b = y) \/ (l' <> l /\ l' ∈ sector_set c a b).

Lemma moved_to_insert l x y c c1 :
  on_grid x y -> (forall a b l', l' ∈ sector_set c1 a b <-> l' <> l /\ l' ∈ sector_set c a b) ->
  exists s, sector_insert c1 x y l = Ok (set_sector c1 s) /\ moved_to l x y c (set_sector c1 s).
Proof.
  intros Hg H1. unfold sector_insert. rewrite sector_update_ok by done. eexists. split; [done|].
  intros a b l'. rewrite (sector_set_insert c1 x y (fun s => {[l]} ∪ s) a b).
  case_decide as E.
  - injection E as <- <-. rewrite elem_of_union, elem_of_singleton, H1. destruct (decide (l' = l)); naive_solver.
  - rewrite H1. naive_solver.
Qed.

Lemma off_sector c L o sid l p a b :
  chat_inv c L o -> players c !! sid = Some l -> objects c !! l = Some p ->
  l ∈ sector_set c a b -> on_grid a b /\ a = sectorX p /\ b = sectorY p.
Proof.
  intros Hi Hs Hp H. apply (ci_sector _ _ _ Hi) in H as (Hg & s' & q & _ & Hq & <- & <-).
  by assert (q = p) as -> by congruence.
Qed.

(** Out of the sector it was in, if any, and into the new one, under both locks. *)
Definition change_sector (ox oy x y : Z) (pl : loc) : M ChatServer unit :=
  if IsValidSector ox oy then
    lk ← lift (LockTwoSectorsExclusive ox oy x y);
    log lk;;
    on_chat_ (fun c => sector_erase c ox oy pl);;
    on_chat_ (fun c => sector_insert c x y pl);;
    ul ← lift (UnlockTwoSectorsExclusive ox oy x y);
    log ul
  else
    log (LockSectorExclusive x y);;
    on_chat_ (fun c => sector_insert c x y pl);;
    log (UnlockSectorExclusive x y).

Lemma change_sector_ok w L o sid pl p x y :
  chat_inv (app w) L o -> players (app w) !! sid = Some pl -> objects (app w) !! pl = Some p ->
  on_grid x y ->
  exists s lg, change_sector (sectorX p) (sectorY p) x y pl w
      = Ok (tt, set_app w (log_locks (set_sector (app w) s) lg)) /\
    moved_to pl x y (app w) (set_sector (app w) s) /\
    disciplined [] lg = true /\ Acquire Exclusive (sectorLock x y) ∈ lg.
Proof.
  intros Hi Hs Hp Hg. set (c := app w) in *. unfold change_sector.
  destruct (ci_players _ _ _ Hi _ _ Hs) as (_ & q & Hq & _ & _ & _ & Hx & Hy).
  assert (q = p) as -> by congruence. clear Hq.
  pose proof (fun a b => off_sector c L o sid pl p a b Hi Hs Hp) as Hoff.
  destruct (IsValidSector (sectorX p) (sectorY p)) eqn:Ev.
  - apply on_grid_valid in Ev; [|done..].
    destruct (LockTwoSectors_ok _ _ x y Ev Hg) as (lk & ul & -> & -> & _ & Hin & _ & Hd).
    set (c1 := set_sector (log_locks c lk)
      (<[(sectorX p, sectorY p) := sector_set c (sectorX p) (sectorY p) ∖ {[pl]}]> (sector c))).
    destruct (moved_to_insert pl x y c c1 Hg) as (s & Es & Hm).
    { intros a b l'.
      pose proof (sector_set_insert c (sectorX p) (sectorY p) (fun s => s ∖ {[pl]}) a b) as E.
      change (sector_set c1 a b) with (sector_set (set_sector c
        (<[(sectorX p, sectorY p) := sector_set c (sectorX p) (sectorY p) ∖ {[pl]}]> (sector c))) a b).
      rewrite E. case_decide as Ed; [injection Ed as <- <-; set_solver|].
      split; [|tauto]. intros Hl. split; [|done]. intros ->.
      apply Hoff in Hl as (_ & -> & ->). done. }
    exists s, (lk ++ ul). split_and!; [| | |apply elem_of_app; left; apply Hin; by right].
    + rewrite (bind_run _ _ lk _ w) by done. rewrite (bind_run _ _ _ _ _ (log_run lk w)).
      rewrite (bind_run _ _ _ _ _ (on_chat__run _ (set_app w (log_locks c lk)) c1
        (sector_update_ok _ _ _ _ Ev))).
      rewrite (bind_run _ _ _ _ _ (on_chat__run (fun c => sector_insert c x y pl)
        (set_app (set_app w (log_locks c lk)) c1) _ Es)).
      rewrite (bind_run _ _ ul _ _ (eq_refl : lift (Ok ul) _ = Ok (ul, _))).
      rewrite log_run. unfold log_locks, set_sector, set_app; cbn. by rewrite app_assoc.
    + exact Hm.
    + specialize (Hd []). rewrite app_nil_r in Hd. by rewrite Hd.
  - set (lk := LockSectorExclusive x y). set (ul := UnlockSectorExclusive x y).
    destruct (moved_to_insert pl x y c (log_locks c lk) Hg) as (s & Es & Hm).
    { intros a b l'. change (sector_set (log_locks c lk) a b) with (sector_set c a b).
      split; [|tauto]. intros Hl. split; [|done]. intros ->.
      apply Hoff in Hl as (Hab & -> & ->). apply on_grid_valid in Hab; [congruence|done..]. }
    exists s, (lk ++ ul). split_and!; [|exact Hm|apply section_disciplined|apply list_elem_of_here].
    rewrite (bind_run _ _ _ _ _ (log_run lk w)).
    rewrite (bind_run _ _ _ _ _ (on_chat__run (fun c => sector_insert c x y pl)
      (set_app w (log_locks c lk)) _ Es)).
    rewrite log_run. unfold log_locks, set_sector, set_app; cbn. by rewrite <- app_assoc.
Qed.

(** The state after a player's move, up to the locks. *)
Definition after_move c (pl : loc) (p : Player) (x y now : Z) (s : gmap (Z * Z) (gset loc)) (lg : list act)
    : ChatServer :=
  put_player (log_locks (set_sector c s) lg) pl (set_p_lastRecvTime (SetSector p x y) now).

Lemma after_move_inv c L o sid pl p x y now s lg :
  chat_inv c L o -> players c !! sid = Some pl -> objects c !! pl = Some p -> on_grid x y ->
  moved_to pl x y c (set_sector c s) -> chat_inv (after_move c pl p x y now s lg) L o.
Proof.
  intros Hi Hs Hp Hg Hm. set (p' := set_p_lastRecvTime p now).
  assert (Hi' : chat_inv (put_player c pl p') L o).
  { apply (chat_inv_put _ _ _ _ p); try done. intros s' Hs'.
    destruct (ci_players _ _ _ Hi _ _ Hs') as (_ & q & Hq & _ & _ & Hr & _).
    assert (q = p) as -> by congruence. done. }
  apply (chat_inv_move (put_player c pl p') _ L o sid pl p' x y Hi'); try done.
  - cbn. apply lookup_insert_eq.
  - cbn. by rewrite insert_insert_eq.
Qed.

(** [x] and [y] are read whole, and the packet is otherwise left alone. *)
Lemma read_move w l account x y t1 t2 n :
  held (packets w) l (fields_bytes [(INT64, account); (WORD, x); (WORD, y)]) ->
  in_range INT64 account -> in_range WORD x -> in_range WORD y ->
  exists w1 w2 w3, read l INT64 0 (set_clock w n) = Ok (account, w1) /\
    read l WORD t1 w1 = Ok (x, w2) /\ read l WORD t2 w2 = Ok (y, w3) /\ reads l w w3.
Proof.
  intros Hh Ha Hx Hy. rewrite !fields_bytes_cons in Hh.
  destruct (ReadValue_held (set_clock w n) l INT64 account 0 _ Hh Ha) as (w1 & E1 & Hh1 & R1).
  destruct (ReadValue_held w1 l WORD x t1 _ Hh1 Hx) as (w2 & E2 & Hh2 & R2).
  destruct (ReadValue_held w2 l WORD y t2 _ Hh2 Hy) as (w3 & E3 & _ & R3).
  exists w1, w2, w3. split_and!; try done. etransitivity; [apply (reads_tick l w n)|].
  etransitivity; [exact R1|]. by transitivity w2.
Qed.

Lemma reads_app l w w' : reads l w w' -> app w' = app w /\ sessionArray w' = sessionArray w /\
  sent w' = sent w /\ pktPool w' = pktPool w.
Proof. intros [-> _ _ _]. done. Qed.

Lemma reads_can_reply l w w' o : reads l w w' -> can_reply w o -> can_reply w' o.
Proof.
  intros Hr [H1 H2 H3]. destruct (reads_app _ _ _ Hr) as (_ & _ & _ & Hp). split; [done| |by rewrite Hp].
  by apply (rd_inv _ _ _ Hr).
Qed.

Lemma composed_app w o l bs w' : composed w o l bs w' -> app w' = app w /\ sessionArray w' = sessionArray w.
Proof. intros [_ _ _ _ _ ->]. done. Qed.

(** The handler once it has read the request. *)
Lemma Req_SectorMove_starts w sid pl l account x y :
  held (packets w) l (fields_bytes [(INT64, account); (WORD, x); (WORD, y)]) ->
  in_range INT64 account -> in_range WORD x -> in_range WORD y ->
  exists w', reads l w w' /\ Req_SectorMove sid pl l w = (if negb (IsValidSector x y) then mret false else
    p ← get_player pl;
    change_sector (sectorX p) (sectorY p) x y pl;;
    update_player pl (fun p => SetSector p x y);;
    t ← tick;
    update_player pl (fun p => set_p_lastRecvTime p (GetTickCount64 t));;
    l' ← Res_SectorMove account x y;
    SendPacket sid l';;
    CPacket_SubRef l';;
    mret true) w'.
Proof.
  intros Hh Ha Hx Hy. set (t := clock w).
  destruct (read_move w l account x y (u16 (junk_word t)) (u16 (junk_word (S t))) (S t) Hh Ha Hx Hy)
    as (w1 & w2 & w3 & E1 & E2 & E3 & R3).
  exists (set_clock w3 (S (clock w3))). split; [transitivity w3; [done|apply reads_tick]|].
  unfold Req_SectorMove. rewrite (bind_run _ _ t _ (set_clock w (S t))) by done.
  rewrite (bind_run _ _ _ _ _ E1), (bind_run _ _ _ _ _ E2), (bind_run _ _ _ _ _ E3).
  by rewrite (bind_run _ _ (clock w3) _ (set_clock w3 (S (clock w3)))) by done.
Qed.

(** The player's part of an accepted move. *)
Lemma move_player w L o sid pl p x y {B} (k : M ChatServer B) :
  chat_inv (app w) L o -> players (app w) !! sid = Some pl -> objects (app w) !! pl = Some p ->
  on_grid x y ->
  exists t s lg w', (change_sector (sectorX p) (sectorY p) x y pl;;
      update_player pl (fun p => SetSector p x y);;
      t ← tick;
      update_player pl (fun p => set_p_lastRecvTime p (GetTickCount64 t));; k) w = k w' /\
    w' = set_clock (set_app w (after_move (app w) pl p x y (GetTickCount64 t) s lg)) (clock w') /\
    moved_to pl x y (app w) (app w') /\ chat_inv (app w') L o /\
    disciplined [] lg = true /\ Acquire Exclusive (sectorLock x y) ∈ lg.
Proof.
  intros Hi Hs Hp Hg.
  destruct (change_sector_ok w L o sid pl p x y Hi Hs Hp Hg) as (s & lg & E & Hm & Hd & Hlk).
  set (w1 := set_app w _) in E. set (w2 := set_app w1 (put_player (app w1) pl (SetSector p x y))).
  set (w3 := set_clock w2 (S (clock w))).
  exists (clock w), s, lg, (set_app w3 (after_move (app w) pl p x y (GetTickCount64 (clock w)) s lg)).
  split_and!; try done; [|by apply (after_move_inv _ L o sid)].
  rewrite (bind_run _ _ _ _ _ E). rewrite (bind_run _ _ _ _ _ (update_player_run pl _ w1 p Hp)).
  rewrite (bind_run _ _ (clock w) _ w3) by done.
  assert (Hp3 : objects (app w3) !! pl = Some (SetSector p x y)) by apply lookup_insert_eq.
  rewrite (bind_run _ _ _ _ _ (update_player_run pl _ w3 _ Hp3)). f_equal.
  unfold after_move, w3, w2, w1, put_player, set_objects, set_app; cbn. by rewrite insert_insert_eq.
Qed.

(** C9.  [Req_SectorMove], for a request that holds its three fields.  A sector that is not on the
    grid is refused: the chat server and the sessions are as they were (the caller
    disconnects the client).  Otherwise the player is in exactly the new sector and its
    coordinates say so, every other player is where it was, the invariant holds again, the
    locks (the new sector's among them) were taken in order, and the reply, with the
    account and the coordinates of the request, is in the outbox of the client's session and
    of no other. *)
Theorem Req_SectorMove_spec w L oc o sid pl l p account x y :
  chat_inv (app w) L oc -> can_reply w o ->
  players (app w) !! sid = Some pl -> objects (app w) !! pl = Some p ->
  held (packets w) l (fields_bytes [(INT64, account); (WORD, x); (WORD, y)]) ->
  in_range INT64 account -> in_range WORD x -> in_range WORD y -> reachable w [sid] ->
  (~ on_grid x y -> exists w', Req_SectorMove sid pl l w = Ok (false, w') /\
     app w' = app w /\ sessionArray w' = sessionArray w /\ sent w' = sent w) /\
  (on_grid x y -> exists w' l' t s lg, Req_SectorMove sid pl l w = Ok (true, w') /\
     app w' = after_move (app w) pl p x y (GetTickCount64 t) s lg /\
     moved_to pl x y (app w) (app w') /\ chat_inv (app w') L oc /\
     disciplined [] lg = true /\ Acquire Exclusive (sectorLock x y) ∈ lg /\
     (l' ∉ o) /\ carries w' l' (move_reply account x y) /\ delivered [sid] l' w w').
Proof.
  intros Hi Hcan Hs Hp Hh Ha Hx Hy Hre.
  destruct (Req_SectorMove_starts w sid pl l account x y Hh Ha Hx Hy) as (w1 & R1 & ->).
  destruct (reads_app _ _ _ R1) as (Ea1 & Es1 & Et1 & _). cbn in Hx, Hy. split; intros Hg.
  - exists w1. destruct (IsValidSector x y) eqn:Ev; [|done].
    by apply on_grid_valid in Ev; [|lia..].
  - rewrite (proj2 (on_grid_valid x y ltac:(lia) ltac:(lia)) Hg). cbn [negb].
    rewrite <- Ea1 in Hi, Hs, Hp |- *.
    rewrite (bind_run _ _ _ _ _ (get_player_run _ _ _ Hp)).
    destruct (move_player w1 L oc sid pl p x y (l' ← Res_SectorMove account x y;
      SendPacket sid l';; CPacket_SubRef l';; mret true) Hi Hs Hp Hg)
      as (t & s & lg & w2 & -> & E2 & Hm & Hi2 & Hd & Hlk).
    assert (Hcan2 : can_reply w2 o).
    { destruct (reads_can_reply _ _ _ _ R1 Hcan) as [C1 C2 C3]. rewrite E2. split; [done| |done].
      by eapply pkt_inv_same. }
    destruct (Res_SectorMove_ok w2 o account x y Hcan2) as (l' & w3 & E3 & Hc).
    rewrite (bind_run _ _ _ _ _ E3). destruct (composed_app _ _ _ _ _ Hc) as [Ea3 Es3].
    assert (Es : sessionArray w3 = sessionArray w) by (by rewrite Es3, E2).
    destruct (answer_one w2 o l' _ w3 w3 sid Hc eq_refl eq_refl) as (w4 & w' & E4 & E5 & [A1 A2 _ _ A5]);
      [apply Hcan2|apply (reachable_mono w); [done| |done]|].
    { intros z Hz. apply (composed_live _ _ _ _ _ _ Hc). rewrite E2. by apply (rd_live _ _ _ R1). }
    rewrite (bind_run _ _ _ _ _ E4), (bind_run _ _ _ _ _ E5).
    exists w', l', t, s, lg. rewrite A5, Ea3.
    split_and!; try done; [by rewrite E2|apply Hc|by apply (delivered_slots _ _ w3)].
Qed.

(** *** Chatting *)

Lemma send_all_to sids l : send_all sids l = send_to sids l.
Proof. induction sids as [|sid sids IH]; cbn [send_all send_to]; [done|]. by rewrite IH. Qed.

(** A name as the players hold them. *)
Definition name_ok (i : list Z) : Prop := bytes_ok i /\ zlen i = 40.

Lemma Res_Chat_ok w o pl p msg len :
  can_reply w o -> objects (app w) !! pl = Some p -> name_ok (id p) -> name_ok (nick p) ->
  bytes_ok msg -> zlen msg = 2048 -> 0 <= len <= 415 ->
  exists l w', Res_Chat pl msg len w = Ok (l, w') /\
    composed w o l (chat_reply (accountNo p) (id p) (nick p) len (slice msg 0 len)) w'.
Proof.
  intros [Hm Hi Hl] Hp [Hib Hiz] [Hnb Hnz] Hmb Hmz Hlen.
  destruct (compose_ok w o (Res_Chat_body (accountNo p) (id p) (nick p) msg len)
    (chat_reply (accountNo p) (id p) (nick p) len (slice msg 0 len))
    (splice msg (2 * Z.quot len 2) [0; 0]) Hm Hi Hl) as (l & w1 & w2 & w' & E1 & Ea & E2 & E3 & H).
  { intros q m Hc. by apply Res_Chat_body_ok with m. }
  exists l, w'. split; [|exact H]. unfold Res_Chat. rewrite <- Ea in Hp.
  rewrite (bind_run _ _ _ _ _ E1), (bind_run _ _ _ _ _ (get_player_run _ _ _ Hp)).
  by rewrite (bind_run _ _ _ _ _ E2), (bind_run _ _ _ _ _ E3).
Qed.

(** As many receivers as players at most. *)
Lemma targets_few c (sids : list Z) :
  NoDup sids -> (forall s, s ∈ sids -> exists x y, stands c s x y) ->
  zlen sids <= Z.of_nat (size (players c)).
Proof.
  intros Hnd H. unfold zlen. rewrite <- size_dom, <- (size_list_to_set (C := gset Z)) by done.
  apply inj_le, subseteq_size. intros s Hs. apply elem_of_list_to_set in Hs.
  destruct (H s Hs) as (x & y & l & p & Hl & _). by apply elem_of_dom_2 in Hl.
Qed.

(** A request of 1 to 415 bytes of text. *)
Section Message.
Context (w : World ChatServer) (o : gset loc) (sid : Z) (pl l : loc) (p : Player).
Context (account : Z) (text : list Z).
Context (Hcan : can_reply w o) (Hp : objects (app w) !! pl = Some p).
Context (Hid : name_ok (id p)) (Hnick : name_ok (nick p)).
Context (Hh : held (packets w) l (bytes_of INT64 account ++ bytes_of WORD (zlen text) ++ text)).
Context (Ha : in_range INT64 account) (Htb : bytes_ok text) (Htz : 1 <= zlen text <= 415).
Context (Hlg : isLogined p <> 0).

Let reply := chat_reply (accountNo p) (id p) (nick p) (zlen text) text.

(** It is read, and its reply composed. *)
Lemma Req_Chat_starts :
  exists l' w1 w2, reads l w w1 /\
    composed w1 o l' reply w2 /\
    Req_Chat sid pl l w =
      (p ← get_player pl;
       let cx := sectorX p in
       let cy := sectorY p in
       if negb (IsValidSector cx cy) then CPacket_SubRef l';; mret false
       else
         around ← lift (MakeAround cx cy);
         targets ← collect_sectors (entries around);
         send_all targets l';;
         CPacket_SubRef l';;
         mret true) w2.
Proof.
  destruct (ReadValue_held w l INT64 account 0 _ Hh Ha) as (w1 & E1 & Hh1 & R1).
  destruct (ReadValue_held w1 l WORD (zlen text) 0 _ Hh1 ltac:(cbn; lia)) as (w2 & E2 & Hh2 & R2).
  set (t := clock w2). set (w3 := set_clock w2 (S t)).
  pose proof (junk_block_size t 2048 ltac:(lia)) as Hjz.
  rewrite <- (app_nil_r text) in Hh2.
  destruct (GetData_held w3 l text (junk_block t 2048) [] Hh2) as (w4 & E4 & _ & R4); [lia|].
  assert (Hr : reads l w w4).
  { transitivity w1; [done|]. transitivity w2; [done|]. transitivity w3; [apply reads_tick|done]. }
  destruct (reads_app _ _ _ Hr) as (Ea & _ & _ & _). set (msg := splice (junk_block t 2048) 0 text) in *.
  assert (Hp4 : objects (app w4) !! pl = Some p) by (by rewrite Ea).
  destruct (Res_Chat_ok w4 o pl p msg (zlen text)) as (l' & w5 & E5 & Hc); try done.
  { by eapply reads_can_reply. }
  { apply bytes_ok_splice; [apply junk_block_bytes|done]. }
  { unfold msg. rewrite zlen_splice; lia. }
  { lia. }
  assert (Em : slice msg 0 (zlen text) = text) by (apply slice_splice_same; lia). rewrite Em in Hc.
  exists l', w4, w5. split_and!; try done. unfold Req_Chat.
  rewrite (bind_run _ _ _ _ _ (get_player_run _ _ _ Hp)).
  destruct (Z.eqb_spec (isLogined p) 0); [done|].
  rewrite (bind_run _ _ _ _ _ E1), (bind_run _ _ _ _ _ E2).
  destruct (Z.eqb_spec (zlen text) 0); [lia|]. rewrite (bind_run _ _ t _ w3) by done.
  by rewrite (bind_run _ _ _ _ _ E4), (bind_run _ _ _ _ _ E5).
Qed.

Lemma Req_Chat_nowhere :
  IsValidSector (sectorX p) (sectorY p) = false ->
  exists w', Req_Chat sid pl l w = Ok (false, w') /\ app w' = app w /\
    sessionArray w' = sessionArray w /\ sent w' = sent w.
Proof.
  intros Hv. destruct Req_Chat_starts as (l' & w1 & w2 & R1 & Hc & ->).
  destruct (reads_app _ _ _ R1) as (Ea1 & Es1 & Et1 & Ep1).
  destruct (composed_app _ _ _ _ _ Hc) as [Ea2 Es2].
  assert (Hp2 : objects (app w2) !! pl = Some p) by (by rewrite Ea2, Ea1).
  rewrite (bind_run _ _ _ _ _ (get_player_run _ _ _ Hp2)). cbv zeta. rewrite Hv. cbn [negb].
  destruct Hc as [Hlo (q & Eq & Hr & _) _ Hinv Hmax Erest].
  destruct (CPacket_SubRef_ok w2 _ l' q Hinv) as (pool' & E & _).
  { rewrite Eq. apply lookup_insert_eq. }
  { set_solver. }
  { destruct Hcan as [_ _ H]. rewrite Ep1 in Hmax. lia. }
  rewrite (bind_run _ _ _ _ _ E). eexists. split; [reflexivity|]. rewrite Erest. cbn. done.
Qed.

Lemma Req_Chat_heard L oc :
  chat_inv (app w) L oc -> on_grid (sectorX p) (sectorY p) ->
  Z.of_nat (size (players (app w))) < 1073741822 ->
  (forall s x y, on_grid x y -> near x (sectorX p) -> near y (sectorY p) -> stands (app w) s x y ->
     reachable w [s]) ->
  exists w' l' targets lg, Req_Chat sid pl l w = Ok (true, w') /\
    (l' ∉ o) /\ carries w' l' reply /\ delivered targets l' w w' /\
    (forall s, s ∈ targets <-> exists x y, on_grid x y /\ near x (sectorX p) /\
       near y (sectorY p) /\ stands (app w) s x y) /\
    app w' = log_locks (app w) lg /\ disciplined [] lg = true.
Proof.
  intros Hi Hg Hfew Hre. destruct Req_Chat_starts as (l' & w1 & w2 & R1 & Hc & ->).
  destruct (reads_app _ _ _ R1) as (Ea1 & Es1 & Et1 & Ep1).
  destruct (composed_app _ _ _ _ _ Hc) as [Ea2 Es2].
  assert (Ea : app w2 = app w) by (by rewrite Ea2, Ea1).
  assert (Hp2 : objects (app w2) !! pl = Some p) by (by rewrite Ea). rewrite <- Ea in Hi, Hre, Hfew |- *.
  rewrite (bind_run _ _ _ _ _ (get_player_run _ _ _ Hp2)). cbv zeta.
  assert (Hx : IsValidSector (sectorX p) (sectorY p) = true).
  { apply on_grid_valid; [unfold on_grid in Hg; lia..|done]. }
  rewrite Hx. cbn [negb].
  destruct (broadcast_targets w2 L oc _ _ Hi Hg) as (around & targets & lg & E1 & E2 & Hd & Hnd & Ht).
  rewrite E1, (bind_run _ _ around _ w2) by done. rewrite (bind_run _ _ _ _ _ E2).
  set (w3 := set_app w2 _) in *. rewrite send_all_to.
  assert (Hlive : forall x, live (packets w) x -> live (packets w3) x).
  { intros x Hx'. apply (composed_live _ _ _ _ _ _ Hc). by apply (rd_live _ _ _ R1). }
  assert (Hreach : reachable w3 targets).
  { intros s Hs. destruct (proj1 (Ht s) Hs) as (x & y & H1 & H2 & H3 & H4).
    apply (reachable_mono w w3 [s]); [by cbn; rewrite Es2, Es1|done| |apply list_elem_of_here].
    by eapply Hre. }
  destruct (reply_sent w1 o l' _ w2 w3 targets Hc) as (w' & E & [A1 A2 _ _ A5]); try done.
  { rewrite Ep1. apply Hcan. }
  { pose proof (targets_few (app w2) targets Hnd) as Hz. lapply Hz; [lia|].
    intros s Hs. destruct (proj1 (Ht s) Hs) as (x & y & _ & _ & _ & H). by exists x, y. }
  apply bind_inv in E as ([] & w4 & E4 & E5).
  rewrite (bind_run _ _ _ _ _ E4), (bind_run _ _ _ _ _ E5).
  exists w', l', targets, lg. split_and!; try done; [apply Hc|].
  apply (delivered_slots _ _ w3); [by cbn; rewrite Es2, Es1|done].
Qed.
End Message.

(** C5.  [Req_Chat].  From a client that has not logged in the message is refused and nothing
    happens.  With 1 to 415 bytes of text from a logged-in player in a sector, the reply holds
    the player's account and names and the text, and it joins the outbox of exactly the sessions
    of the logged-in players in the nine sectors around the sender's own (fewer at
    the edges of the grid), the sender's included; no other session and nothing of
    the chat server changes, and the sectors' locks are taken in order.  A player that is in no
    sector yet is refused and nobody hears the message. *)
Theorem Req_Chat_spec w L oc o sid pl l p account text :
  chat_inv (app w) L oc -> can_reply w o -> objects (app w) !! pl = Some p ->
  name_ok (id p) -> name_ok (nick p) ->
  held (packets w) l (bytes_of INT64 account ++ bytes_of WORD (zlen text) ++ text) ->
  in_range INT64 account -> bytes_ok text -> 1 <= zlen text <= 415 ->
  Z.of_nat (size (players (app w))) < 1073741822 ->
  (forall s x y, on_grid x y -> near x (sectorX p) -> near y (sectorY p) -> stands (app w) s x y ->
     reachable w [s]) ->
  (isLogined p = 0 -> Req_Chat sid pl l w = Ok (false, w)) /\
  (isLogined p <> 0 -> IsValidSector (sectorX p) (sectorY p) = false ->
     exists w', Req_Chat sid pl l w = Ok (false, w') /\ app w' = app w /\
       sessionArray w' = sessionArray w /\ sent w' = sent w) /\
  (isLogined p <> 0 -> on_grid (sectorX p) (sectorY p) ->
     exists w' l' targets lg, Req_Chat sid pl l w = Ok (true, w') /\
       (l' ∉ o) /\
       carries w' l' (chat_reply (accountNo p) (id p) (nick p) (zlen text) text) /\
       delivered targets l' w w' /\
       (forall s, s ∈ targets <-> exists x y, on_grid x y /\ near x (sectorX p) /\
          near y (sectorY p) /\ stands (app w) s x y) /\
       app w' = log_locks (app w) lg /\ disciplined [] lg = true).
Proof.
  intros Hi Hcan Hp Hid Hnick Hh Ha Htb Htz Hfew Hre. split_and!.
  - intros Hlg. unfold Req_Chat. rewrite (bind_run _ _ _ _ _ (get_player_run _ _ _ Hp)).
    by rewrite Hlg.
  - intros Hlg Hv. by apply (Req_Chat_nowhere w o sid pl l p account text).
  - intros Hlg Hg. by apply (Req_Chat_heard w o sid pl l p account text) with L oc.
Qed.

(** *** The heartbeat *)

Lemma disconnect_all_each sids : disconnect_all sids = disconnect_each sids.
Proof. induction sids as [|sid sids IH]; cbn [disconnect_all disconnect_each]; [done|]. by rewrite IH. Qed.

(** The player of the session [sid] has been silent for more than 40 seconds. *)
Definition silent_too_long c (now sid : Z) : Prop :=
  exists l p, players c !! sid = Some l /\ objects c !! l = Some p /\ 40000 < now - p_lastRecvTime p.

(** C31.  [CheckTimeOut], run to its end.  With times below 2^63 milliseconds and an operation
    in progress on the sessions concerned, exactly the sessions are disconnected (marked as
    released, their socket closed) whose player's last message is more than 40000 ms old; one
    that is exactly 40000 ms old is spared.  Nothing else happens to any session, and of
    the chat server only the lock log changes. *)
Theorem CheckTimeOut_spec w L oc :
  let now := GetTickCount64 (clock w) in
  chat_inv (app w) L oc -> 0 <= now < 9223372036854775808 ->
  (forall l p, objects (app w) !! l = Some p -> 0 <= p_lastRecvTime p < 9223372036854775808) ->
  (forall sid, silent_too_long (app w) now sid -> in_progress w [sid]) ->
  exists kick lg w', CheckTimeOut w = Ok (true, w') /\
    (forall sid, sid ∈ kick <-> silent_too_long (app w) now sid) /\ NoDup kick /\
    disciplined [] lg = true /\
    disconnected kick (set_clock (set_app w (log_locks (app w) lg)) (S (clock w))) w'.
Proof.
  intros now Hi Hnow Ht Hio.
  set (a1 := [Acquire Shared playerLock]). set (a2 := [Release Shared playerLock]).
  destruct (timed_out_spec (log_locks (app w) a1) L oc now (chat_inv_log _ _ _ a1 Hi) Hnow Ht)
    as (kick & E & Hnd & Hk).
  set (w1 := set_clock w (S (clock w))). set (w2 := set_app w1 (log_locks (app w) a1)).
  set (w3 := set_app w2 (log_locks (log_locks (app w) a1) a2)).
  destruct (disconnect_each_ok kick w3 Hnd) as (w' & Ed & Hd).
  { intros sid Hs. by apply (Hio sid (proj1 (Hk sid) Hs)), list_elem_of_here. }
  exists kick, (a1 ++ a2), w'. split_and!; try done.
  - unfold CheckTimeOut. rewrite (bind_run _ _ (clock w) _ w1) by done. cbv zeta.
    rewrite (bind_run _ _ _ _ _ (log_run a1 w1)), (bind_run _ _ (app w2) _ w2) by done.
    rewrite (bind_run _ _ kick _ w2) by (by apply lift_run).
    rewrite (bind_run _ _ _ _ _ (log_run a2 w2)), disconnect_all_each.
    by rewrite (bind_run _ _ _ _ _ Ed).
  - rewrite <- log_locks_app. exact Hd.
Qed.
End Requests.

(** ** Witnesses: two clients of a server, in slots 0 and 1 *)

Section Sample.
#[local] Existing Instances accepting_windows queue4096 redis_list.
#[local] Instance no_fuel : Runtime := zero_runtime 1.

Definition first_id : Z := COMBINE_ID_INDEX 1 0.
Definition second_id : Z := COMBINE_ID_INDEX 2 1.

Definition client (socket sid i : Z) : Session :=
  mkSession (Some socket) sid i 0 0 FALSE 1 [] [] (mkRing 0 0 16 (replicate 16 0)) 0.
Definition two_clients : list Session := [client 5 first_id 0; client 6 second_id 1].

(** A world whose only packet, in use, holds [bs]. *)
Definition quiet_world (c : ChatServer) : World ChatServer :=
  mkWorld two_clients [] 2 2 2 0 0 2 2 ∅ (CLFFreeList_new [] false) c [] [] 0.
Definition asked (c : ChatServer) (bs : list Z) : World ChatServer :=
  match (l ← CPacket_Alloc; on_packet_ l (fun p => PutData p bs (zlen bs))) (quiet_world c) with
  | Ok (_, w) => w
  | _ => quiet_world c
  end.

Lemma quiet_world_inv c : pkt_inv (quiet_world c) ∅.
Proof.
  split; try done; [exists []; split; try done; constructor|..];
    intros l p H; cbn in H; by rewrite lookup_empty in H.
Qed.

Lemma asked_ok c bs :
  bytes_ok bs -> zlen bs <= 507 ->
  let w := asked c bs in
  can_reply w {[1%positive]} /\ held (packets w) 1%positive bs /\ app w = c /\
  sessionArray w = two_clients /\ clock w = 0%nat.
Proof.
  intros Hb Hz. pose proof (zlen_nonneg bs) as Hz0.
  assert (Hmal : exists m, malloc eBUFFER_DEFAULT = Some m) by (eexists; reflexivity).
  destruct (CPacket_Alloc_ok (quiet_world c) ∅ Hmal (quiet_world_inv c))
    as (l & p & m & pool' & E & Hc & Hr & _ & Hinv & Hmax); [reflexivity|].
  assert (E1 : fst <$> (match CPacket_Alloc (quiet_world c) with
    | Ok r => Some r | _ => None end) = Some 1%positive) by (vm_compute; reflexivity).
  rewrite E in E1. cbn in E1. injection E1 as ->. destruct (Hc) as [Hw F0 R0 _].
  destruct (PutData_cases p m bs (zlen bs) Hw Hb) as (Hok & _); [lia..|].
  destruct Hok as (p' & m' & Ep & [W' P' _ _ _ R']).
  { rewrite (wf_using _ _ Hw), F0, R0. unfold eBUFFER_DEFAULT. lia. }
  { unfold PAYLOAD_MAX. lia. }
  set (w1 := set_packets _ _ _) in *.
  assert (Hp1 : packets w1 !! 1%positive = Some p) by apply lookup_insert_eq.
  assert (Ew : asked c bs = set_packets w1 (<[1%positive := p']> (packets w1)) (pktPool w1)).
  { unfold asked. rewrite (bind_run _ _ _ _ _ E). unfold on_packet_.
    rewrite (bind_run _ _ p _ w1) by (by apply packet_run).
    by rewrite (bind_run _ _ p' _ w1) by (by apply lift_run). }
  cbv zeta. rewrite Ew. split; [|split; [|done]].
  - split; [exact Hmal| |].
    + apply (pkt_inv_put w1 _ _ p p'); [by rewrite union_empty_r_L in Hinv|done|by eapply wf_shape|done].
    + cbn in *. unfold POOL_LIMIT. lia.
  - exists p', m'. cbn. rewrite lookup_insert_eq. split_and!; try done; [|lia].
    by rewrite P', (cleared_payload p m Hc), slice_all.
Qed.

Lemma two_clients_reachable c bs sid :
  sid = first_id \/ sid = second_id -> bytes_ok bs -> zlen bs <= 507 ->
  reachable (asked c bs) [sid].
Proof.
  intros Hsid Hb Hz x Hx. apply list_elem_of_singleton in Hx as ->.
  destruct (asked_ok c bs Hb Hz) as (_ & _ & _ & Es & _). unfold at_slot. rewrite Es.
  exists (if decide (sid = first_id) then client 5 first_id 0 else client 6 second_id 1).
  destruct Hsid as [->| ->]; (split; [vm_compute; split; [split; [discriminate|reflexivity]|reflexivity]|]);
    (split; [vm_compute; split; [discriminate|reflexivity]|]); intros _ _; (split;
    [vm_compute; split; [discriminate|reflexivity]|reflexivity|by intros y ?%elem_of_nil]).
Qed.

(** *** The room of the two *)

Definition two_players : ChatServer :=
  match run_conns [Join first_id 1000; Join second_id 2000] chat_new with
  | Ok c => c
  | _ => chat_new
  end.

Lemma two_players_inv : exists L o, chat_inv two_players L o.
Proof.
  destruct (run_conns_ok [Join first_id 1000; Join second_id 2000] chat_new [] ∅ chat_new_inv)
    as (c & L & o & E & Hi & _); [vm_compute; reflexivity|].
  exists L, o. unfold two_players. by rewrite E.
Qed.

Definition on_player (c : ChatServer) (pl : loc) (f : Player -> ChatServer) : ChatServer :=
  match objects c !! pl with Some p => f p | None => c end.

(** The player [pl], in no sector, is put into [(x, y)], or logged in. *)
Definition placed (pl : loc) (x y : Z) (c : ChatServer) : ChatServer :=
  on_player c pl (fun p => after_move c pl p x y (p_lastRecvTime p)
    (<[(x, y) := {[pl]} ∪ sector_set c x y]> (sector c)) []).
Definition logged (pl : loc) (sid account : Z) (c : ChatServer) : ChatServer :=
  on_player c pl (fun p => log_locks (put_player (set_accounts c (<[account := sid]> (accounts c))) pl
    (set_login p account name_AB name_AB)) []).

Lemma placed_inv c L o sid pl x y :
  chat_inv c L o -> players c !! sid = Some pl -> on_grid x y ->
  match objects c !! pl with Some p => IsValidSector (sectorX p) (sectorY p) = false | None => True end ->
  chat_inv (placed pl x y c) L o.
Proof.
  intros Hi Hs Hg Hv. destruct (ci_players _ _ _ Hi _ _ Hs) as (_ & p & Hp & _ & _ & _ & Hx & Hy).
  unfold placed, on_player. rewrite Hp in *. apply (after_move_inv _ L o sid); try done.
  destruct (moved_to_insert pl x y c c Hg) as (s & E & Hm).
  { intros a b l'. split; [|tauto]. intros Hl. split; [|done]. intros ->.
    apply (off_sector c L o sid pl p) in Hl as (Hab & -> & ->); try done.
    apply on_grid_valid in Hab; [congruence|done..]. }
  unfold sector_insert in E. rewrite sector_update_ok in E by done. injection E as E. by rewrite E.
Qed.

Lemma logged_inv c L o sid pl account :
  chat_inv c L o -> players c !! sid = Some pl -> chat_inv (logged pl sid account c) L o.
Proof.
  intros Hi Hs. destruct (ci_players _ _ _ Hi _ _ Hs) as (_ & p & Hp & _ & _ & Hr & _).
  unfold logged, on_player. rewrite Hp. apply chat_inv_log.
  assert (Hi' : chat_inv (put_player c pl (set_login p account name_AB name_AB)) L o).
  { apply (chat_inv_put _ _ _ _ p); try done. }
  destruct Hi'. by split.
Qed.

(** Both logged in, in neighbouring sectors. *)
Definition two_neighbours : ChatServer :=
  logged 2%positive second_id 88 (placed 2%positive 4 8
    (logged 1%positive first_id 77 (placed 1%positive 3 7 two_players))).

Lemma two_neighbours_inv : exists L o, chat_inv two_neighbours L o.
Proof.
  destruct two_players_inv as (L & o & Hi). exists L, o.
  assert (Hg1 : on_grid 3 7) by (unfold on_grid, dfSECTOR_MAX_X, dfSECTOR_MAX_Y; lia).
  assert (Hg2 : on_grid 4 8) by (unfold on_grid, dfSECTOR_MAX_X, dfSECTOR_MAX_Y; lia).
  apply logged_inv; [|vm_compute; reflexivity].
  apply (placed_inv _ L o second_id); [|vm_compute; reflexivity|exact Hg2|vm_compute; reflexivity].
  apply logged_inv; [|vm_compute; reflexivity].
  apply (placed_inv _ L o first_id); [exact Hi|vm_compute; reflexivity|exact Hg1|vm_compute; reflexivity].
Qed.

Definition first_player : Player :=
  match objects two_neighbours !! 1%positive with Some p => p | None => Player_new end.

Lemma first_player_ok : objects two_neighbours !! 1%positive = Some first_player /\
  players two_neighbours !! first_id = Some 1%positive.
Proof. split; vm_compute; reflexivity. Qed.

Lemma two_members s x y : stands two_neighbours s x y -> s = first_id \/ s = second_id.
Proof.
  intros (l & p & Hl & _).
  assert (H : map_Forall (fun k _ => k = first_id \/ k = second_id) (players two_neighbours)).
  { apply (bool_decide_unpack _). vm_compute. exact I. }
  exact (H s l Hl).
Qed.

(** From (3,7) to (4,7); and to the sector (50,7), which does not exist. *)
Definition move_fields (x y : Z) : list Z := fields_bytes [(INT64, 77); (WORD, x); (WORD, y)].

Lemma Req_SectorMove_spec_witness :
  (exists w', Req_SectorMove (J := no_junk) first_id 1%positive 1%positive
      (asked two_neighbours (move_fields 50 7)) = Ok (false, w') /\
    app w' = two_neighbours) /\
  (exists w' l', Req_SectorMove (J := no_junk) first_id 1%positive 1%positive
      (asked two_neighbours (move_fields 4 7)) = Ok (true, w') /\
    moved_to 1%positive 4 7 two_neighbours (app w') /\ carries w' l' (move_reply 77 4 7) /\
    delivered [first_id] l' (asked two_neighbours (move_fields 4 7)) w').
Proof.
  destruct two_neighbours_inv as (L & o & Hi). destruct first_player_ok as [Hp Hs].
  assert (Hb : forall x y, bytes_ok (move_fields x y) /\ zlen (move_fields x y) = 12).
  { intros x y. unfold move_fields. rewrite !fields_bytes_cons, !zlen_app, !zlen_bytes_of.
    split; [repeat apply Forall_app_2; auto; apply Forall_nil_2|reflexivity]. }
  split.
  - destruct (Hb 50 7) as [H1 H2]. destruct (asked_ok two_neighbours _ H1 ltac:(lia)) as (Hcan & Hh & Ea & _).
    rewrite <- Ea in Hi, Hp, Hs.
    destruct (Req_SectorMove_spec (J := no_junk) _ L o _ first_id 1%positive 1%positive first_player 77 50 7
      Hi Hcan Hs Hp Hh) as [H _]; [cbn; lia..| |].
    { apply two_clients_reachable; [by left|done|lia]. }
    destruct H as (w' & E & E' & _); [unfold on_grid, dfSECTOR_MAX_X; lia|].
    exists w'. split; [exact E|]. rewrite E'. exact Ea.
  - destruct (Hb 4 7) as [H1 H2]. destruct (asked_ok two_neighbours _ H1 ltac:(lia)) as (Hcan & Hh & Ea & _).
    rewrite <- Ea in Hi, Hp, Hs.
    destruct (Req_SectorMove_spec (J := no_junk) _ L o _ first_id 1%positive 1%positive first_player 77 4 7
      Hi Hcan Hs Hp Hh) as [_ H]; [cbn; lia..| |].
    { apply two_clients_reachable; [by left|done|lia]. }
    destruct H as (w' & l' & t & s & lg & E & _ & Hm & _ & _ & _ & _ & Hc & Hd);
      [unfold on_grid, dfSECTOR_MAX_X, dfSECTOR_MAX_Y; lia|].
    exists w', l'. rewrite Ea in Hm. split_and!; [exact E|exact Hm|exact Hc|exact Hd].
Defined.

(** "AB" said in (3,7) is heard by the two. *)
Definition said : list Z := bytes_of INT64 77 ++ bytes_of WORD 4 ++ [65; 0; 66; 0].

Lemma Req_Chat_spec_witness :
  exists w' l' targets lg, Req_Chat (J := no_junk) first_id 1%positive 1%positive
      (asked two_neighbours said) = Ok (true, w') /\
    carries w' l' (chat_reply 77 name_AB name_AB 4 [65; 0; 66; 0]) /\
    delivered targets l' (asked two_neighbours said) w' /\
    (forall s, s ∈ targets <-> exists x y, on_grid x y /\ near x 3 /\ near y 7 /\
       stands two_neighbours s x y) /\
    app w' = log_locks two_neighbours lg.
Proof.
  destruct two_neighbours_inv as (L & o & Hi). destruct first_player_ok as [Hp _].
  assert (Hb : bytes_ok said /\ zlen said = 14).
  { split; [|reflexivity]. unfold said. repeat apply Forall_app_2; auto. solve_bytes. }
  destruct Hb as [H1 H2]. destruct (asked_ok two_neighbours said H1 ltac:(lia)) as (Hcan & Hh & Ea & _).
  destruct bytes_ok_sample as [Hn _].
  assert (Hname : name_ok (id first_player) /\ name_ok (nick first_player)).
  { assert (E1 : id first_player = name_AB) by (vm_compute; reflexivity).
    assert (E2 : nick first_player = name_AB) by (vm_compute; reflexivity).
    rewrite E1, E2. split; (split; [exact Hn|reflexivity]). }
  rewrite <- Ea in Hi, Hp.
  destruct (Req_Chat_spec (J := no_junk) _ L o _ first_id 1%positive 1%positive first_player 77
    [65; 0; 66; 0] Hi Hcan Hp (proj1 Hname) (proj2 Hname) Hh) as (_ & _ & H).
  - cbn. lia.
  - solve_bytes.
  - vm_compute. split; discriminate.
  - rewrite Ea. vm_compute. reflexivity.
  - intros s x y _ _ _ Hst. rewrite Ea in Hst. apply two_clients_reachable; [|done|lia].
    by apply two_members in Hst.
  - destruct H as (w' & l' & targets & lg & E & _ & Hc & Hd & Ht & El & _).
    + vm_compute. discriminate.
    + vm_compute. repeat split; discriminate.
    + assert (Er : chat_reply (accountNo first_player) (id first_player) (nick first_player)
        (zlen [65; 0; 66; 0]) [65; 0; 66; 0] = chat_reply 77 name_AB name_AB 4 [65; 0; 66; 0])
        by (vm_compute; reflexivity).
      assert (Ex : sectorX first_player = 3) by (vm_compute; reflexivity).
      assert (Ey : sectorY first_player = 7) by (vm_compute; reflexivity).
      rewrite Er in Hc. rewrite Ea, Ex, Ey in Ht. rewrite Ea in El.
      exists w', l', targets, lg. split_and!; [exact E|exact Hc|exact Hd|exact Ht|exact El].
Defined.

(** At 41500 ms the client that joined at 1000 has been silent for 40500 ms, the other for
    39500. *)
Definition late_windows : Windows := {|
  WSASend_error _ := None;
  WSARecv_error _ := None;
  GetTickCount64 _ := 41500;
  rand _ := 41
|}.

Lemma CheckTimeOut_spec_witness :
  let w := quiet_world two_players in
  exists kick lg w', CheckTimeOut (W := late_windows) w = Ok (true, w') /\
    first_id ∈ kick /\ (second_id ∉ kick) /\
    disconnected kick (set_clock (set_app w (log_locks (app w) lg)) 1) w'.
Proof.
  intros w. destruct two_players_inv as (L & o & Hi).
  assert (Ht : map_Forall (fun _ p => 0 <= p_lastRecvTime p < 9223372036854775808) (objects two_players)).
  { apply (bool_decide_unpack _). vm_compute. exact I. }
  assert (Hm : map_Forall (fun k _ => k = first_id \/ k = second_id) (players two_players)).
  { apply (bool_decide_unpack _). vm_compute. exact I. }
  destruct (CheckTimeOut_spec (W := late_windows) w L o Hi) as (kick & lg & w' & E & Hk & _ & _ & Hd).
  - cbn. lia.
  - intros l p Hl. exact (Ht l p Hl).
  - intros sid (l & p & Hl & _) x Hx. apply list_elem_of_singleton in Hx as ->.
    destruct (Hm sid l Hl) as [->| ->]; eexists; (split; [split; [vm_compute; split; [discriminate|reflexivity]|reflexivity]|]);
      vm_compute; (split; [discriminate|reflexivity]).
  - exists kick, lg, w'. split_and!; [exact E| | |exact Hd].
    + apply Hk. exists 1%positive. eexists. split_and!; vm_compute; reflexivity.
    + intros Hin. apply Hk in Hin as (l & p & Hl & Hp & Hlt). vm_compute in Hl. injection Hl as <-.
      vm_compute in Hp. injection Hp as <-. vm_compute in Hlt. discriminate.
Defined.
End Sample.
