(* ===== verification/Logins.v ===== *)
(** * What the end of a login does (theorems on [Chat])

    [CompleteLogin], run to its end for every verdict: the account, the player and the reply.
    A verdict is not checked against the player's state, so a second one is accepted, and the
    account of the first is never given up. *)

From S2P Require Import Prelude RingBuffer Packet Codec FreeList Sector Message World PacketHeap Iocp Sends Sessions Delivery Replies Chat Players Broadcast Calls ChatCalls Locks Room Handlers Requests.

Section Logins.
Context {Q : LockfreeQueue loc 4096} {RQ : LockfreeQueue st_Redis 65534}.
Context {W : Windows} {R : Runtime} {J : Indeterminate} {RS : RedisServer}.

Implicit Types w : World ChatServer.
Implicit Types c : ChatServer.

(** ** The end of a login *)

(** A character of a block of [WCHAR]s is the terminator. *)
Definition nul_at (src : list Z) (k : Z) : Prop := nthz src (2 * k) = 0 /\ nthz src (2 * k + 1) = 0.

Definition terminated (src : list Z) : Prop := exists k, 0 <= k < 20 /\ nul_at src k.

(** [out] is the string of [src], with what was behind it before. *)
Definition same_string (out src : list Z) : Prop :=
  zlen out = 40 /\ exists k, 0 <= k < 20 /\ nul_at src k /\ slice out 0 (2 * (k + 1)) = slice src 0 (2 * (k + 1)).

Lemma wcscpy_s_copies dst src :
  zlen dst = 40 -> zlen src = 40 -> terminated src ->
  exists out, wcscpy_s dst 20 src = Ok out /\ same_string out src.
Proof.
  intros Hd Hs (k0 & Hk0 & H1 & H2). unfold wcscpy_s. change (Z.to_nat 20) with 20%nat.
  pose proof (wcslen_within_spec 20 src 0) as Hl.
  destruct (wcslen_within 20 src 0) as [k|]; [|by destruct (Hl k0)].
  destruct Hl as (Hk & N1 & N2). cbn in Hk. rewrite memcpy_ok by lia. eexists. split; [reflexivity|].
  assert (Hz : zlen (slice src 0 (2 * (k + 1))) = 2 * (k + 1)) by (apply zlen_slice; lia).
  split; [by rewrite zlen_splice by lia|]. exists k. split_and!; try done; try lia.
  pose proof (slice_splice_same dst 0 (slice src 0 (2 * (k + 1)))) as E. rewrite Hz in E. apply E; lia.
Qed.

Lemma wcscpy_s_faults dst src : ~ terminated src -> wcscpy_s dst 20 src = Fault InvalidParameter.
Proof.
  intros Hn. unfold wcscpy_s. change (Z.to_nat 20) with 20%nat.
  pose proof (wcslen_within_spec 20 src 0) as Hl.
  destruct (wcslen_within 20 src 0) as [k|]; [|done]. destruct Hn. by exists k.
Qed.

#[export] Instance terminated_dec src : Decision (terminated src).
Proof.
  pose proof (wcslen_within_spec 20 src 0) as Hl. destruct (wcslen_within 20 src 0) as [k|].
  - left. by exists k.
  - right. intros (k & Hk & H1 & H2). by destruct (Hl k).
Defined.

Lemma AcquirePlayer_absent c sid :
  players c !! sid = None -> exists lg, AcquirePlayer c sid = Ok (log_locks c lg, None) /\
    disciplined [] lg = true.
Proof.
  intros Hs. unfold AcquirePlayer. cbn [log_locks players]. rewrite Hs, log_locks_app.
  by eexists.
Qed.

Definition player_section : list act := [Acquire Shared playerLock; Release Shared playerLock].

Lemma AcquirePlayer_present c L o sid pl p :
  chat_inv c L o -> players c !! sid = Some pl -> objects c !! pl = Some p ->
  AcquirePlayer c sid = Ok (log_locks (put_player c pl (set_ref p (ref p + 1))) player_section, Some pl).
Proof.
  intros Hi Hs Hp. destruct (ci_players _ _ _ Hi _ _ Hs) as (_ & q & Hq & _ & Hcl & Hr & _).
  assert (q = p) as -> by congruence. unfold AcquirePlayer. cbn [log_locks players]. rewrite Hs.
  rewrite (AddRefPlayer_ok _ pl p) by (done || lia). cbn [mbind res_bind].
  rewrite (player_ok _ pl (set_ref p (ref p + 1))) by apply lookup_insert_eq.
  cbn [mbind res_bind closing set_ref]. rewrite Hcl. do 2 f_equal.
  unfold log_locks, put_player, set_objects; cbn. by rewrite <- app_assoc.
Qed.

(** The state once a login is over, up to the locks. *)
Definition after_login c (pl : loc) (p : Player) (accts : gmap Z Z) (lg : list act) : ChatServer :=
  log_locks (put_player (set_accounts c accts) pl p) lg.

Lemma after_login_inv c L o sid pl p p' accts lg :
  chat_inv c L o -> players c !! sid = Some pl -> objects c !! pl = Some p ->
  p_sessionID p' = p_sessionID p -> closing p' = closing p -> ref p' = ref p ->
  sectorX p' = sectorX p -> sectorY p' = sectorY p -> chat_inv (after_login c pl p' accts lg) L o.
Proof.
  intros Hi Hs Hp H1 H2 H3 H4 H5.
  assert (Hi' : chat_inv (put_player c pl p') L o).
  { apply (chat_inv_put _ _ _ _ p); try done. intros s' Hs'. rewrite H3.
    destruct (ci_players _ _ _ Hi _ _ Hs') as (_ & q & Hq & _ & _ & Hr & _).
    assert (q = p) as -> by congruence. done. }
  destruct Hi'. by split.
Qed.

(** The result of a login, read in the packet [l]. *)
Section Login.
Context (w : World ChatServer) (L : list loc) (oc o : gset loc) (sid : Z) (pl l : loc) (p : Player).
Context (account : Z) (i n : list Z).
Context (Hi : chat_inv (app w) L oc) (Hcan : can_reply w o).
Context (Hs : players (app w) !! sid = Some pl) (Hp : objects (app w) !! pl = Some p).
Context (Hh : held (packets w) l (bytes_of INT64 account ++ i ++ n)).
Context (Ha : in_range INT64 account) (Hzi : zlen i = 40) (Hzn : zlen n = 40).
Context (Hre : reachable w [sid]).

Let p1 := set_ref p (ref p + 1).
Let c1 := log_locks (put_player (app w) pl p1) player_section.

(** The reply to the client, whatever the verdict. *)
Definition answer_login (status : Z) : M ChatServer unit :=
  l' ← Res_Login account status;
  SendUnicast sid l';;
  CPacket_SubRef l'.

Definition enter_account : M ChatServer unit :=
  log [Acquire Exclusive accountLock];;
  on_chat_ (fun c => Ok (set_accounts c (<[account := sid]> (accounts c))));;
  log [Release Exclusive accountLock];;
  p ← get_player pl;
  i' ← lift (wcscpy_s (id p) (dfID_LEN / 2) i);
  n' ← lift (wcscpy_s (nick p) (dfNiCK_LEN / 2) n);
  update_player pl (fun p => set_login p account i' n');;
  answer_login 1.

Lemma CompleteLogin_starts success :
  exists w1, reads l (set_app w c1) w1 /\
    CompleteLogin sid l success w =
      ((if success then enter_account else answer_login 0);;
       on_chat_ (fun c => ReleasePlayer c pl);;
       mret true) w1.
Proof.
  set (w0 := set_app w c1). set (t := clock w). set (w1 := set_clock w0 (S t)).
  assert (Hh1 : held (packets w1) l (bytes_of INT64 account ++ i ++ n)) by done.
  destruct (ReadValue_held w1 l INT64 account 0 _ Hh1 Ha) as (w2 & E2 & Hh2 & R2).
  pose proof (junk_block_size t dfID_LEN ltac:(done)) as Hj1.
  pose proof (junk_block_size (S t) dfNiCK_LEN ltac:(done)) as Hj2.
  destruct (GetData_held w2 l i (junk_block t dfID_LEN) n Hh2) as (w3 & E3 & Hh3 & R3).
  { rewrite Hj1. unfold dfID_LEN. lia. }
  rewrite <- (app_nil_r n) in Hh3.
  destruct (GetData_held w3 l n (junk_block (S t) dfNiCK_LEN) [] Hh3) as (w4 & E4 & _ & R4).
  { rewrite Hj2. unfold dfNiCK_LEN. lia. }
  rewrite splice_all in E3 by (rewrite Hj1; done). rewrite splice_all in E4 by (rewrite Hj2; done).
  exists (set_clock w4 (S (clock w4))). split.
  { transitivity w1; [apply reads_tick|]. transitivity w2; [done|]. transitivity w3; [done|].
    transitivity w4; [done|apply reads_tick]. }
  assert (Hp1 : objects (app w0) !! pl = Some p1) by apply lookup_insert_eq.
  destruct (ci_players _ _ _ Hi _ _ Hs) as (_ & q & Hq & Hid & Hcl & _).
  assert (q = p) as -> by congruence.
  unfold CompleteLogin.
  rewrite (bind_run _ _ _ _ _ (on_chat_run _ w c1 (Some pl) (AcquirePlayer_present _ L oc sid pl p Hi Hs Hp))).
  rewrite (bind_run _ _ _ _ _ (get_player_run _ w0 _ Hp1)).
  change (p_sessionID p1) with (p_sessionID p). change (closing p1) with (closing p).
  rewrite Hid, Hcl, Z.eqb_refl. cbn [negb].
  rewrite (bind_run _ _ t _ w1) by done. rewrite (bind_run _ _ _ _ _ E2).
  rewrite Hzi in E3. rewrite Hzn in E4.
  rewrite (bind_run _ _ _ _ _ (E3 : get_data l (junk_block t dfID_LEN) dfID_LEN w2 = _)).
  rewrite (bind_run _ _ _ _ _ (E4 : get_data l (junk_block (S t) dfNiCK_LEN) dfNiCK_LEN w3 = _)).
  by rewrite (bind_run _ _ (clock w4) _ (set_clock w4 (S (clock w4)))) by done.
Qed.

(** The player's reference given back. *)
Lemma give_back_player v p' accts lg :
  app v = after_login (app w) pl (set_ref p' (ref p + 1)) accts lg -> ref p' = ref p ->
  ((on_chat_ (fun c => ReleasePlayer c pl);; mret true) : M ChatServer bool) v
    = Ok (true, set_app v (after_login (app w) pl p' accts lg)).
Proof.
  intros E Hr. destruct (ci_players _ _ _ Hi _ _ Hs) as (_ & q & Hq & _ & _ & Hr1 & _).
  assert (q = p) as -> by congruence.
  assert (Hrel : ReleasePlayer (app v) pl = Ok (after_login (app w) pl p' accts lg));
    [|by rewrite (bind_run _ _ _ _ _ (on_chat__run (fun c => ReleasePlayer c pl) v _ Hrel))].
  rewrite E.
  rewrite (ReleasePlayer_ok _ pl (set_ref p' (ref p + 1))) by (apply lookup_insert_eq || (cbn; lia)).
  cbv zeta. cbn [ref set_ref]. destruct (Z.eqb_spec (ref p + 1 - 1) 0); [lia|]. f_equal.
  unfold after_login, put_player, log_locks, set_objects; cbn. rewrite insert_insert_eq.
  do 3 f_equal. destruct p'; unfold set_ref; cbn in *. f_equal. lia.
Qed.

Lemma answer_login_ok v status :
  can_reply v o -> sessionArray v = sessionArray w -> (forall x, live (packets w) x -> live (packets v) x) ->
  exists l' v', answer_login status v = Ok (tt, v') /\ (l' ∉ o) /\
    carries v' l' (login_reply account status) /\ delivered [sid] l' w v' /\ app v' = app v.
Proof.
  intros Hc Es Hl. destruct (Res_Login_ok v o account status Hc) as (l' & v1 & E1 & Hcp).
  destruct (composed_app _ _ _ _ _ Hcp) as [Ea1 Es1].
  destruct (answer_one v o l' _ v1 v1 sid Hcp eq_refl eq_refl) as (v2 & v' & E2 & E3 & [A1 A2 _ _ A5]);
    [apply Hc|apply (reachable_mono w); [by rewrite Es1, Es| |done]|].
  { intros x Hx. apply (composed_live _ _ _ _ _ _ Hcp). auto. }
  exists l', v'. split_and!; [|apply Hcp|done| |by rewrite A5].
  - unfold answer_login, SendUnicast. by rewrite (bind_run _ _ _ _ _ E1), (bind_run _ _ _ _ _ E2).
  - apply (delivered_slots _ _ v1); [by rewrite Es1, Es|done].
Qed.

Lemma CompleteLogin_fails :
  exists w' l' lg, CompleteLogin sid l false w = Ok (true, w') /\
    app w' = log_locks (app w) lg /\ disciplined [] lg = true /\
    (l' ∉ o) /\ carries w' l' (login_reply account 0) /\ delivered [sid] l' w w'.
Proof.
  destruct (CompleteLogin_starts false) as (w1 & R1 & ->).
  destruct (reads_app _ _ _ R1) as (Ea1 & Es1 & _).
  destruct (answer_login_ok w1 0) as (l' & w2 & E & Hl & Hc & Hd & Ea).
  { apply (reads_can_reply _ _ _ _ R1). destruct Hcan as [H1 H2 H3]. split; [done| |done].
    by eapply pkt_inv_same. }
  { by rewrite Es1. }
  { intros x Hx. by apply (rd_live _ _ _ R1). }
  rewrite (bind_run _ _ _ _ _ E).
  rewrite (give_back_player w2 p (accounts (app w)) player_section); [|by rewrite Ea, Ea1; destruct (app w)|done].
  eexists _, l', player_section. split_and!; try done.
  cbn. unfold after_login, put_player, set_objects, set_accounts, log_locks; cbn. rewrite (insert_id _ _ _ Hp).
  done.
Qed.

(** Up to the copy of the names. *)
Lemma enter_account_starts :
  exists w1, reads l (set_app w (log_locks (set_accounts c1 (<[account := sid]> (accounts (app w))))
      [Acquire Exclusive accountLock; Release Exclusive accountLock])) w1 /\
    CompleteLogin sid l true w =
      ((i' ← lift (wcscpy_s (id p) 20 i);
        n' ← lift (wcscpy_s (nick p) 20 n);
        update_player pl (fun p => set_login p account i' n');;
        answer_login 1);;
       on_chat_ (fun c => ReleasePlayer c pl);;
       mret true) w1.
Proof.
  destruct (CompleteLogin_starts true) as (w1 & R1 & ->).
  destruct (reads_app _ _ _ R1) as (Ea1 & _).
  set (c2 := log_locks (set_accounts _ _) _).
  exists (set_app w1 c2). split.
  { destruct R1 as [R1 R2 R3 R4]. split; [rewrite R1; done|exact R2|exact R3|].
    intros o' Ho'. assert (H : pkt_inv w1 o') by (apply R4; by eapply pkt_inv_same).
    by eapply pkt_inv_same. }
  assert (Ec2 : log_locks (set_accounts (log_locks (app w1) [Acquire Exclusive accountLock])
    (<[account := sid]> (accounts (app w1)))) [Release Exclusive accountLock] = c2).
  { rewrite Ea1. unfold c2, c1, log_locks, set_accounts; cbn. by rewrite <- !app_assoc. }
  assert (Hp2 : objects (app (set_app w1 c2)) !! pl = Some p1) by apply lookup_insert_eq.
  apply bind_same. unfold enter_account. rewrite (bind_run _ _ _ _ _ (log_run _ w1)).
  rewrite (bind_run _ _ _ _ _ (on_chat__run (fun c => Ok (set_accounts c (<[account := sid]> (accounts c))))
    _ _ eq_refl)).
  rewrite (bind_run _ _ _ _ _ (log_run _ _)). cbn [app set_app].
  change (log_locks (set_accounts (log_locks (app w1) _) _) _) with (log_locks
    (set_accounts (log_locks (app w1) [Acquire Exclusive accountLock])
    (<[account := sid]> (accounts (app w1)))) [Release Exclusive accountLock]).
  rewrite Ec2. by rewrite (bind_run _ _ _ _ _ (get_player_run _ (set_app w1 c2) _ Hp2)).
Qed.

Lemma CompleteLogin_faults :
  zlen (id p) = 40 -> ~ (terminated i /\ terminated n) ->
  CompleteLogin sid l true w = Fault InvalidParameter.
Proof.
  intros Hd Hn. destruct enter_account_starts as (w1 & _ & ->). unfold mbind, M_bind.
  destruct (decide (terminated i)) as [Hti|Hti].
  - destruct (wcscpy_s_copies (id p) i Hd Hzi Hti) as (i' & -> & _).
    by rewrite (wcscpy_s_faults (nick p) n) by tauto.
  - by rewrite (wcscpy_s_faults (id p) i Hti).
Qed.

Lemma CompleteLogin_succeeds :
  zlen (id p) = 40 -> zlen (nick p) = 40 -> terminated i -> terminated n ->
  exists w' l' i' n' lg, CompleteLogin sid l true w = Ok (true, w') /\
    same_string i' i /\ same_string n' n /\
    app w' = after_login (app w) pl (set_login p account i' n') (<[account := sid]> (accounts (app w))) lg /\
    disciplined [] lg = true /\
    (l' ∉ o) /\ carries w' l' (login_reply account 1) /\ delivered [sid] l' w w'.
Proof.
  intros Hzd Hzk Hti Htn. destruct enter_account_starts as (w1 & R1 & ->).
  destruct (reads_app _ _ _ R1) as (Ea1 & Es1 & _).
  destruct (wcscpy_s_copies (id p) i Hzd Hzi Hti) as (i' & Ei & Hi').
  destruct (wcscpy_s_copies (nick p) n Hzk Hzn Htn) as (n' & En & Hn').
  set (lg := player_section ++ [Acquire Exclusive accountLock; Release Exclusive accountLock]).
  set (c2 := after_login (app w) pl (set_ref (set_login p account i' n') (ref p + 1))
    (<[account := sid]> (accounts (app w))) lg).
  set (w2 := set_app w1 c2).
  destruct (answer_login_ok w2 1) as (l' & w3 & E & Hl & Hc & Hd & Ea).
  { destruct (reads_can_reply _ _ _ o R1) as [H1 H2 H3]; [|split; [done| |done]; by eapply pkt_inv_same].
    destruct Hcan as [H1 H2 H3]. split; [done| |done]. by eapply pkt_inv_same. }
  { cbn. by rewrite Es1. }
  { intros x Hx. by apply (rd_live _ _ _ R1). }
  assert (Hp1 : objects (app w1) !! pl = Some p1) by (rewrite Ea1; apply lookup_insert_eq).
  assert (E2 : (i' ← lift (wcscpy_s (id p) 20 i);
        n' ← lift (wcscpy_s (nick p) 20 n);
        update_player pl (fun p => set_login p account i' n');;
        answer_login 1) w1 = Ok (tt, w3)).
  { rewrite Ei, En. rewrite (bind_run _ _ i' _ w1) by done. rewrite (bind_run _ _ n' _ w1) by done.
    rewrite (bind_run _ _ _ _ _ (update_player_run pl _ w1 p1 Hp1)), <- E. f_equal. unfold w2. f_equal.
    rewrite Ea1. unfold c2, after_login, c1, put_player, log_locks, set_objects, set_accounts; cbn.
    by rewrite insert_insert_eq, <- !app_assoc. }
  rewrite (bind_run _ _ _ _ _ E2).
  rewrite (give_back_player w3 (set_login p account i' n') (<[account := sid]> (accounts (app w))) lg);
    [|by rewrite Ea|done].
  by exists (set_app w3 (after_login (app w) pl (set_login p account i' n')
    (<[account := sid]> (accounts (app w))) lg)), l', i', n', lg.
Qed.
End Login.

(** C35.  [CompleteLogin], on the result of a login that holds an account and two names of 20
    characters.  A session that has gone is ignored.  On failure only the reply with status
    0 is sent.  On success, with a terminator in each name, the account is the session's,
    the player is logged in under it with the two names, and the reply has status 1; no other
    player, account or sector changes.  A name without a terminator invokes the
    invalid-parameter handler of [wcscpy_s], after the account has been entered.  The reply is
    in the outbox of the client's session and of no other. *)
Theorem CompleteLogin_spec w L oc o sid l account i n :
  chat_inv (app w) L oc -> can_reply w o ->
  held (packets w) l (bytes_of INT64 account ++ i ++ n) -> in_range INT64 account ->
  zlen i = 40 -> zlen n = 40 -> reachable w [sid] ->
  (players (app w) !! sid = None -> forall success, exists lg,
     CompleteLogin sid l success w = Ok (true, set_app w (log_locks (app w) lg)) /\
     disciplined [] lg = true) /\
  (forall pl p, players (app w) !! sid = Some pl -> objects (app w) !! pl = Some p ->
     zlen (id p) = 40 -> zlen (nick p) = 40 ->
     (exists w' l' lg, CompleteLogin sid l false w = Ok (true, w') /\
        app w' = log_locks (app w) lg /\ disciplined [] lg = true /\
        (l' ∉ o) /\ carries w' l' (login_reply account 0) /\ delivered [sid] l' w w') /\
     (terminated i -> terminated n ->
        exists w' l' i' n' lg, CompleteLogin sid l true w = Ok (true, w') /\
          same_string i' i /\ same_string n' n /\
          app w' = after_login (app w) pl (set_login p account i' n')
                     (<[account := sid]> (accounts (app w))) lg /\
          chat_inv (app w') L oc /\ disciplined [] lg = true /\
          (l' ∉ o) /\ carries w' l' (login_reply account 1) /\ delivered [sid] l' w w') /\
     (~ (terminated i /\ terminated n) -> CompleteLogin sid l true w = Fault InvalidParameter)).
Proof.
  intros Hi Hcan Hh Ha Hzi Hzn Hre. split; [|intros pl p Hs Hp Hzd Hzk; split_and!].
  - intros Hs success. destruct (AcquirePlayer_absent (app w) sid Hs) as (lg & E & Hd).
    exists lg. split; [|done]. unfold CompleteLogin.
    by rewrite (bind_run _ _ _ _ _ (on_chat_run (fun c => AcquirePlayer c sid) w _ _ E)).
  - by apply (CompleteLogin_fails w L oc o sid pl l p account i n).
  - intros Hti Htn.
    destruct (CompleteLogin_succeeds w L oc o sid pl l p account i n)
      as (w' & l' & i' & n' & lg & E & H1 & H2 & E' & H); try done.
    exists w', l', i', n', lg. split_and!; try done; try tauto. rewrite E'.
    by apply (after_login_inv _ L oc sid pl p).
  - by apply (CompleteLogin_faults w L oc sid pl l p account i n).
Qed.

(** ** Two logins of one client *)

(** A request of a client that is not logged in is queued; the player is not touched. *)
Lemma Req_Login_Redis_ok w sid pl l p q :
  objects (app w) !! pl = Some p -> closing p = false -> p_sessionID p = sid ->
  accountNo p = 0 -> isLogined p = 0 -> packets w !! l = Some q ->
  zlen (elems (redisQ (app w))) < 65534 ->
  exists w', Req_Login_Redis sid pl l w = Ok (true, w') /\ objects (app w') = objects (app w) /\
    elems (redisQ (app w')) = elems (redisQ (app w)) ++ [mkRedis sid l] /\
    forall x, is_Some (packets w !! x) -> is_Some (packets w' !! x).
Proof.
  intros Hp Hcl Hid Hacc Hlg Hq Hroom. unfold Req_Login_Redis.
  rewrite (bind_run _ _ _ _ _ (get_player_run _ _ _ Hp)), Hcl, Hid, Hacc, Hlg, Z.eqb_refl.
  cbn [negb Z.eqb orb].
  set (w1 := set_packets w (<[l := AddRef q]> (packets w)) (pktPool w)).
  assert (E : CPacket_AddRef l w = Ok (tt, w1)).
  { unfold CPacket_AddRef, on_packet_. rewrite (bind_run _ _ q _ w) by (by apply packet_run).
    by rewrite (bind_run _ _ (AddRef q) _ w) by (by apply lift_run). }
  rewrite (bind_run _ _ _ _ _ E). unfold EnqueueRedis.
  rewrite (bind_run _ _ _ _ _ (on_chat__run (fun c => Ok (set_redis c (lfq_push (mkRedis sid l) (redisQ c)).1 true))
    w1 _ eq_refl)).
  eexists. split; [reflexivity|]. split; [done|]. split.
  - cbn. by apply push_true, push_room.
  - intros x Hx. cbn. destruct (decide (l = x)) as [<-|Hne].
    + rewrite lookup_insert_eq. by eexists.
    + by rewrite lookup_insert_ne.
Qed.

(** C22.  Two logins of one client.  The guard of [Req_Login_Redis] reads the player, which a
    request does not change: two requests in a row of a client that is not logged in are both
    queued.  And [CompleteLogin] does not look whether the player is logged in: for a
    player logged in under [a1], the verdict on [a2] gives the session [a2] as well; when
    the session then leaves, [a2] is forgotten but [a1] stays the account of a session
    that no longer exists. *)
Theorem second_login_orphans_account w L oc sid pl p :
  chat_inv (app w) L oc -> players (app w) !! sid = Some pl -> objects (app w) !! pl = Some p ->
  zlen (id p) = 40 -> zlen (nick p) = 40 ->
  (forall l1 l2, accountNo p = 0 -> isLogined p = 0 ->
     is_Some (packets w !! l1) -> is_Some (packets w !! l2) ->
     zlen (elems (redisQ (app w))) < 65533 ->
     exists w1 w2, Req_Login_Redis sid pl l1 w = Ok (true, w1) /\
       Req_Login_Redis sid pl l2 w1 = Ok (true, w2) /\
       elems (redisQ (app w2)) = elems (redisQ (app w)) ++ [mkRedis sid l1; mkRedis sid l2]) /\
  (forall o l a1 a2 i n, can_reply w o -> held (packets w) l (bytes_of INT64 a2 ++ i ++ n) ->
     in_range INT64 a2 -> zlen i = 40 -> zlen n = 40 -> terminated i -> terminated n ->
     reachable w [sid] ->
     isLogined p <> 0 -> accountNo p = a1 -> accounts (app w) !! a1 = Some sid ->
     a2 <> a1 -> a2 <> 0 ->
     exists w' c', CompleteLogin sid l true w = Ok (true, w') /\
       accounts (app w') !! a1 = Some sid /\ accounts (app w') !! a2 = Some sid /\
       LeaveProc sid (app w') = Ok (c', true) /\ players c' !! sid = None /\
       accounts c' !! a2 = None /\ accounts c' !! a1 = Some sid).
Proof.
  intros Hi Hs Hp Hzd Hzk. split.
  - intros l1 l2 Hacc Hlg [q1 Hq1] Hq2 Hroom.
    destruct (ci_players _ _ _ Hi _ _ Hs) as (_ & q & Hq & Hid & Hcl & _).
    assert (q = p) as -> by congruence.
    destruct (Req_Login_Redis_ok w sid pl l1 p q1) as (w1 & E1 & Eo1 & Er1 & Ep1); try done; [lia|].
    destruct (Ep1 l2 Hq2) as [q2 Hq2'].
    destruct (Req_Login_Redis_ok w1 sid pl l2 p q2) as (w2 & E2 & _ & Er2 & _); try done.
    { by rewrite Eo1. }
    { rewrite Er1, zlen_app. change (zlen [mkRedis sid l1]) with 1. lia. }
    exists w1, w2. split_and!; try done. by rewrite Er2, Er1, <- app_assoc.
  - intros o l a1 a2 i n Hcan Hh Ha Hzi Hzn Hti Htn Hre Hlg Hacc Ha1 Hne Hne0.
    destruct (CompleteLogin_succeeds w L oc o sid pl l p a2 i n)
      as (w' & l' & i' & n' & lg & E & _ & _ & E' & _); try done.
    set (p' := set_login p a2 i' n') in *.
    assert (Hi' : chat_inv (app w') L oc) by (rewrite E'; by apply (after_login_inv _ L oc sid pl p)).
    assert (Hs' : players (app w') !! sid = Some pl) by (by rewrite E').
    assert (Hp' : objects (app w') !! pl = Some p') by (rewrite E'; apply lookup_insert_eq).
    assert (Eacc : accounts (app w') = <[a2 := sid]> (accounts (app w))) by (by rewrite E').
    destruct (LeaveProc_ok _ L oc sid pl p' Hi' Hs' Hp') as (c' & lg' & El & _ & Ep & _ & _ & Ea & _).
    exists w', c'. rewrite Ea, Ep, Eacc. unfold accounts_after. rewrite Eacc, decide_True.
    + rewrite lookup_insert_eq, !lookup_delete_eq, lookup_delete_ne, lookup_insert_ne by done. done.
    + split_and!; try done. apply lookup_insert_eq.
Qed.
End Logins.

(** ** Witnesses: the clients of [Requests] *)

Section Sample.
#[local] Existing Instances accepting_windows queue4096 redis_list no_junk.
#[local] Instance no_fuel_login : Runtime := zero_runtime 1.

(** The verdict on a login under [account] with two names. *)
Definition verdict (account : Z) (i n : list Z) : list Z := bytes_of INT64 account ++ i ++ n.

(** A name that fills its 20 characters. *)
Definition full_name : list Z := replicate 40 65.

Definition newcomer_player : Player :=
  match objects two_players !! 1%positive with Some p => p | None => Player_new end.

Lemma newcomer_ok : objects two_players !! 1%positive = Some newcomer_player /\
  players two_players !! first_id = Some 1%positive.
Proof. split; vm_compute; reflexivity. Qed.

Lemma name_AB_terminated : terminated name_AB.
Proof. exists 2. split; [lia|]. split; reflexivity. Qed.

Lemma full_name_not : ~ terminated full_name.
Proof.
  intros (k & Hk & H & _). unfold nthz in H. rewrite nth_lookup in H.
  unfold full_name in H. rewrite lookup_replicate_2 in H by lia. discriminate.
Qed.

Lemma verdict_ok a n : zlen n = 40 -> bytes_ok n ->
  bytes_ok (verdict a name_AB n) /\ zlen (verdict a name_AB n) = 88.
Proof.
  intros Hz Hb. destruct bytes_ok_sample as [Hn _]. unfold verdict.
  split.
  - apply Forall_app_2; [apply bytes_ok_bytes_of|apply Forall_app_2; [exact Hn|exact Hb]].
  - rewrite !zlen_app, zlen_bytes_of, Hz. reflexivity.
Qed.

(** Client 1 logs in under 77; a name without a terminator ends the process. *)
Lemma CompleteLogin_spec_witness :
  (exists w' l' i' n' lg, CompleteLogin first_id 1%positive true
      (asked two_players (verdict 77 name_AB name_AB)) = Ok (true, w') /\
    same_string i' name_AB /\ same_string n' name_AB /\
    app w' = after_login two_players 1%positive (set_login newcomer_player 77 i' n')
               (<[77 := first_id]> (accounts two_players)) lg /\
    carries w' l' (login_reply 77 1)) /\
  CompleteLogin first_id 1%positive true
    (asked two_players (verdict 77 name_AB full_name)) = Fault InvalidParameter.
Proof.
  destruct two_players_inv as (L & o & Hi). destruct newcomer_ok as [Hp Hs].
  destruct bytes_ok_sample as [Hn _].
  assert (Hf : bytes_ok full_name) by (apply Forall_replicate; lia).
  assert (E1 : zlen (id newcomer_player) = 40) by (vm_compute; reflexivity).
  assert (E2 : zlen (nick newcomer_player) = 40) by (vm_compute; reflexivity).
  split.
  - destruct (verdict_ok 77 name_AB eq_refl Hn) as [H1 H2].
    destruct (asked_ok two_players _ H1 ltac:(lia)) as (Hcan & Hh & Ea & _).
    rewrite <- Ea in Hi, Hp, Hs.
    destruct (CompleteLogin_spec _ L o _ first_id 1%positive 77 name_AB name_AB Hi Hcan Hh)
      as [_ H]; [cbn; lia|reflexivity|reflexivity| |].
    { apply two_clients_reachable; [by left|done|lia]. }
    destruct (H 1%positive newcomer_player Hs Hp E1 E2) as (_ & H' & _).
    destruct (H' name_AB_terminated name_AB_terminated)
      as (w' & l' & i' & n' & lg & E & Hi' & Hn' & El & _ & _ & _ & Hc & _).
    rewrite Ea in El. exists w', l', i', n', lg.
    split_and!; [exact E|exact Hi'|exact Hn'|exact El|exact Hc].
  - destruct (verdict_ok 77 full_name eq_refl Hf) as [H1 H2].
    destruct (asked_ok two_players _ H1 ltac:(lia)) as (Hcan & Hh & Ea & _).
    rewrite <- Ea in Hi, Hp, Hs.
    destruct (CompleteLogin_spec _ L o _ first_id 1%positive 77 name_AB full_name Hi Hcan Hh)
      as [_ H]; [cbn; lia|reflexivity|reflexivity| |].
    { apply two_clients_reachable; [by left|done|lia]. }
    destruct (H 1%positive newcomer_player Hs Hp E1 E2) as (_ & _ & H').
    apply H'. intros [_ Hbad]. exact (full_name_not Hbad).
Defined.

(** Client 1, logged in under 77, is given 99 as well and leaves. *)
Lemma second_login_orphans_account_witness :
  exists w' c', CompleteLogin first_id 1%positive true
      (asked two_neighbours (verdict 99 name_AB name_AB)) = Ok (true, w') /\
    accounts (app w') !! 77 = Some first_id /\ accounts (app w') !! 99 = Some first_id /\
    LeaveProc first_id (app w') = Ok (c', true) /\ players c' !! first_id = None /\
    accounts c' !! 99 = None /\ accounts c' !! 77 = Some first_id.
Proof.
  destruct two_neighbours_inv as (L & o & Hi). destruct first_player_ok as [Hp Hs].
  destruct bytes_ok_sample as [Hn _]. destruct (verdict_ok 99 name_AB eq_refl Hn) as [H1 H2].
  destruct (asked_ok two_neighbours _ H1 ltac:(lia)) as (Hcan & Hh & Ea & _).
  assert (E1 : zlen (id first_player) = 40) by (vm_compute; reflexivity).
  assert (E2 : zlen (nick first_player) = 40) by (vm_compute; reflexivity).
  rewrite <- Ea in Hi, Hp, Hs.
  destruct (second_login_orphans_account _ L o first_id 1%positive first_player Hi Hs Hp E1 E2) as [_ H].
  apply (H _ _ 77 99 name_AB name_AB Hcan Hh); [cbn; lia|reflexivity|reflexivity|
    exact name_AB_terminated|exact name_AB_terminated| | | | |discriminate|discriminate].
  - apply two_clients_reachable; [by left|exact H1|lia].
  - vm_compute. discriminate.
  - vm_compute. reflexivity.
  - rewrite Ea. vm_compute. reflexivity.
Defined.
End Sample.
