(* ===== verification/Server.v ===== *)
(** * The server's turns, and the room they implement (theorems on [Chat] and [Iocp])

    One turn of a thread of the server is one of: the accept thread with a new connection, a
    worker with a completed receive or send, the Redis thread with a job, the heartbeat.  Every
    run of turns from the start keeps the chat server's invariant and is, seen from outside, a
    run of the chat room of [Room]. *)

From S2P Require Import Prelude RingBuffer Packet Codec FreeList Sector Message World Iocp Chat Players Broadcast Stream Calls ChatCalls Locks Room Handlers.

Section Server.
Context {Q : LockfreeQueue loc 4096} {RQ : LockfreeQueue st_Redis 65534}.
Context {W : Windows} {R : Runtime} {J : Indeterminate} {RS : RedisServer}.

Implicit Types w : World ChatServer.

(** A turn that does not take a new client; [TDone] is a worker's turn on an operation that is
    neither the slot's receive nor its send. *)
Inductive turn : World ChatServer -> World ChatServer -> Prop :=
| TRecv i n w w' : worker_recv OnRecv i n w = Ok (tt, w') -> turn w w'
| TSend i n w w' : worker_send i n w = Ok (tt, w') -> turn w w'
| TDone i w w' : io_done i w = Ok (tt, w') -> turn w w'
| TRedis b w w' : redis_job w = Ok (b, w') -> turn w w'
| THeartbeat b w w' : CheckTimeOut w = Ok (b, w') -> turn w w'.

Inductive server_turn : World ChatServer -> World ChatServer -> Prop :=
| TAccept socket port w w' : accept_turn socket port w = Ok (tt, w') -> server_turn w w'
| TTurn w w' : turn w w' -> server_turn w w'.

Lemma turn_steady w w' : turn w w' -> steady (app w) (app w').
Proof.
  intros [i n ? ? H|i n ? ? H|i ? ? H|b ? ? H|b ? ? H].
  - by apply (keeps_worker_recv steady OnRecv i n kept_OnRecv _ _ _ H).
  - by apply (keeps_worker_send steady i n _ _ _ H).
  - by apply (keeps_io_done steady i _ _ _ H).
  - by apply (kept_redis_job _ _ _ H).
  - by apply calm_steady, (kept_CheckTimeOut _ _ _ H).
Qed.

(** What a run keeps: with room for one more player. *)
Record serving (c : ChatServer) (n : Z) : Prop := {
  sv_inv : exists L o, chat_inv c L o;
  sv_low : low c;
  sv_max : m_lMaxCount (playerPool c) <= n
}.

Lemma serving_evolved c c' L o n :
  evolved c c' L o -> low c -> m_lMaxCount (playerPool c) <= n -> serving c' n.
Proof.
  intros [Hi Hr Hm _] Hl Hn. split; [by exists L, o| |by rewrite Hm].
  unfold low. by rewrite Hr.
Qed.

(** A new client: whichever branch [JoinProc] takes. *)
Lemma join_serving c c' b sid now n :
  JoinProc sid now c = Ok (c', b) -> serving c n -> n < POOL_LIMIT ->
  serving c' (n + 1) /\ rtc room_step (room c) (room c').
Proof.
  intros H [(L & o & Hi) Hl Hm] Hn. destruct (JoinProc_ok c L o sid now Hi) as [Hnew Hold]; [lia|].
  destruct (players c !! sid) as [l|] eqn:Es.
  - destruct (Hold l eq_refl) as (c1 & L1 & E & Hi1 & Hp & Ha & Hs & Ho & _ & Hm1).
    rewrite E in H. injection H as <- <-. split.
    + split; [by exists L1, o| |lia]. apply map_Forall_lookup_2. intros l' r Hr.
      unfold refs in Hr. rewrite lookup_fmap in Hr. unfold JoinProc in E.
      destruct (Alloc _ _ _) as [[pool l1]| |]; try discriminate. cbn in E. rewrite Es in E.
      injection E as <-. cbn in Hr. destruct (decide (l1 = l')) as [<-|Hne].
      * rewrite lookup_insert_eq in Hr. cbn in Hr. injection Hr as <-. lia.
      * rewrite lookup_insert_ne in Hr by done. apply (Hl l'). unfold refs.
        by rewrite lookup_fmap.
    + assert (E1 : room c1 = room c); [|by rewrite E1]. unfold room. rewrite Hp, Ha. f_equal.
      apply map_eq. intros s. rewrite !lookup_omap. destruct (players c !! s) as [l'|] eqn:El; [|done].
      cbn. rewrite Ho; [done|]. by destruct (ci_players _ _ _ Hi _ _ El).
  - destruct (Hnew eq_refl) as (c1 & l & L1 & E & Hi1 & Hlo & Hp & Hob & Ha & Hs & _ & Hm1).
    rewrite E in H. injection H as <- <-. split.
    + split; [by eexists _, _| |lia]. unfold low, refs. rewrite Hob, fmap_insert.
      apply map_Forall_insert_2; [cbn; lia|done].
    + apply rtc_once. by apply (room_join c c1 sid l now o L).
Qed.

Lemma accept_serving w w' socket port n :
  accept_turn socket port w = Ok (tt, w') -> serving (app w) n -> n < POOL_LIMIT ->
  serving (app w') (n + 1) /\ rtc room_step (room (app w)) (room (app w')).
Proof.
  assert (Hmono : forall c, serving c n -> serving c (n + 1)) by (intros c []; split; [done..|lia]).
  intros H Hsv Hn. unfold accept_turn in H. apply bind_inv in H as (v & v' & [= <- <-] & H).
  destruct (_ >=? _); [injection H as <-; split; [by apply Hmono|done]|].
  destruct (OnConnectionRequest port (app w)); [|injection H as <-; split; [by apply Hmono|done]].
  apply bind_inv in H as (i & w1 & H1 & H). apply silent_CreateSession in H1.
  apply bind_inv in H as (s & w2 & H2 & H). apply silent_session in H2.
  apply bind_inv in H as (u & w3 & H3 & H). apply bind_inv in H as (u' & w4 & H4 & H).
  injection H as <-.
  assert (K4 : calm (app w3) (app w4)) by by apply (keeps_PostRecv calm) in H4.
  unfold call_OnClientJoin in H3. apply bind_inv in H3 as (t & w5 & Ht & H3).
  apply silent_tick in Ht. apply bind_inv in H3 as (v & v' & [= <- <-] & H3).
  apply bind_inv in H3 as (c & w6 & H3 & E). apply lift_inv in H3 as [H3 ->].
  injection E as <- <-. cbn in H3.
  destruct (JoinProc _ _ _) as [[c1 b]| |] eqn:Ej; try discriminate. injection H3 as <-.
  rewrite Ht, H2, H1 in Ej. destruct (join_serving _ _ _ _ _ n Ej Hsv Hn) as [Hsv' Hroom].
  destruct Hsv' as [(L & o & Hi) Hl Hm]. pose proof (K4 L o Hi) as Hev. split.
  - by eapply serving_evolved.
  - etransitivity; [exact Hroom|]. apply Hev.
Qed.

Lemma server_turn_serving w w' n :
  server_turn w w' -> serving (app w) n -> n < POOL_LIMIT ->
  serving (app w') (n + 1) /\ rtc room_step (room (app w)) (room (app w')).
Proof.
  intros [socket port ? ? H|? ? H] Hsv Hn; [by eapply accept_serving|].
  destruct Hsv as [(L & o & Hi) Hl Hm]. pose proof (turn_steady _ _ H L o Hi Hl) as Hev.
  split; [|apply Hev]. eapply serving_evolved; [done..|lia].
Qed.

Lemma run_serving k w w' n :
  nsteps server_turn k w w' -> serving (app w) n -> n + Z.of_nat k <= POOL_LIMIT ->
  serving (app w') (n + Z.of_nat k) /\ rtc room_step (room (app w)) (room (app w')).
Proof.
  intros H. revert n. induction H as [w|k w w1 w' H1 H IH]; intros n Hsv Hn.
  - split; [|done]. by rewrite Z.add_0_r.
  - destruct (server_turn_serving _ _ n H1 Hsv) as [Hsv1 R1]; [lia|].
    destruct (IH (n + 1) Hsv1) as [Hsv' R']; [lia|]. split; [|by etransitivity].
    by replace (n + Z.of_nat (S k)) with (n + 1 + Z.of_nat k) by lia.
Qed.

Lemma new_serving : serving chat_new 0.
Proof.
  split; [by exists [], ∅; apply chat_new_inv| |done]. intros l r Hr. unfold refs in Hr.
  by rewrite lookup_fmap in Hr.
Qed.

(** C8.  The invariant of the chat server, over every turn: a worker's turn on a completed
    receive or send, a job of the Redis thread, the heartbeat, whatever they call and
    whichever sessions they release on the way.  With fewer than 2^30 - 1 references to
    each player before the turn, after it the invariant holds with the same blocks in use
    (the map sends each session to its own live player, the sectors hold exactly the players
    that stand in them), and every reference taken to a player has been given back. *)
Theorem turns_keep_invariant w w' L o :
  turn w w' -> chat_inv (app w) L o -> low (app w) ->
  chat_inv (app w') L o /\ refs (app w') = refs (app w).
Proof. intros H Hi Hl. by destruct (turn_steady _ _ H L o Hi Hl). Qed.

(** C7.  The server implements the chat room.  Take any run of fewer than [POOL_LIMIT] turns
    from a chat server that has just started, on any sessions and packets, whatever the clients
    send, however the sockets and the Redis server answer and in whatever order the threads'
    turns come: the room it then stands for (who is connected, with which account, names
    and sector; who owns each account) is reached from the empty room by a run of the room's
    steps: a client enters under a fresh identifier, exits, logs in, moves to a sector of the
    grid; nothing else ever happens to a member or to an account. *)
Theorem runs_refine_room k w w' :
  app w = chat_new -> nsteps server_turn k w w' -> Z.of_nat k <= POOL_LIMIT ->
  rtc room_step empty_room (room (app w')) /\ exists L o, chat_inv (app w') L o.
Proof.
  intros E H Hk. destruct (run_serving k w w' 0 H) as [[Hi _ _] Hr]; [|lia|].
  - rewrite E. apply new_serving.
  - split; [|exact Hi]. by rewrite E in Hr.
Qed.

(** What a player can look like.  In every state such a run reaches, the player of a
    session is either in no sector or stands on the grid; it is logged in or has no account;
    and its two names fill their 40 bytes. *)
Theorem players_well_formed k w w' sid l :
  app w = chat_new -> nsteps server_turn k w w' -> Z.of_nat k <= POOL_LIMIT ->
  players (app w') !! sid = Some l ->
  exists p, objects (app w') !! l = Some p /\
    (sectorX p = 65535 /\ sectorY p = 65535 \/ on_grid (sectorX p) (sectorY p)) /\
    (isLogined p = 0 /\ accountNo p = 0 \/ isLogined p = 1) /\
    zlen (id p) = 40 /\ zlen (nick p) = 40.
Proof.
  intros E H Hk Hs. destruct (run_serving k w w' 0 H) as [[(L & o & Hi) _ _] Hr]; [|lia|].
  - rewrite E. apply new_serving.
  - rewrite E in Hr. destruct (ci_players _ _ _ Hi _ _ Hs) as (_ & p & Hp & _).
    destruct (room_ok_run _ _ Hr empty_room_ok _ _ (room_lookup _ _ _ _ Hs Hp)) as [Hw Hg Hid Hn].
    exists p. split_and!; try done. cbn in Hw. destruct Hw as [[= -> ->]|Hw]; [by left|by right].
Qed.
End Server.

(** ** Witnesses: a client connects and walks; a client logs in twice *)

(** A server that has just started, with one slot; what the client will send is already in
    the slot's receive buffer, which [CreateSession] does not erase. *)
Definition idle_slot (bytes : list Z) : Session (Q := queue4096) :=
  mkSession (Q := queue4096) None INVALID_ID 0 FALSE 0 FALSE 0 [] []
    (mkRing 0 0 512 (bytes ++ replicate (512 - length bytes) 0)) 0.

Definition started (bytes : list Z) : World (Q := queue4096) (ChatServer (RQ := redis_list)) :=
  mkWorld [idle_slot bytes] [0] 1 1 0 0 0 0 0 ∅ (CLFFreeList_new [] false) chat_new [] [] 0.

(** A Redis server that confirms every key. *)
Definition trusting_redis : RedisServer := {| redis_get _ _ key := Some key |}.

Section Runs.
#[local] Existing Instances accepting_windows no_junk trusting_redis queue4096 redis_list.
#[local] Instance one_key : Runtime := zero_runtime 1.

Abbreviation step m := (fun w => match m w with Ok (_, w') => w' | _ => w end).

Definition connected (bytes : list Z) : World ChatServer :=
  step (accept_turn 5 6000) (started bytes).
Definition received (bytes : list Z) : World ChatServer :=
  step (worker_recv OnRecv 0 (zlen bytes)) (connected bytes).

Lemma two_moves_run : nsteps server_turn 2 (started two_moves) (received two_moves).
Proof.
  eapply nsteps_l; [apply (TAccept 5 6000 _ (connected two_moves)); vm_compute; reflexivity|].
  eapply nsteps_l; [|apply nsteps_O]. apply TTurn, (TRecv 0 (zlen two_moves)).
  vm_compute. reflexivity.
Defined.

Lemma runs_refine_room_witness :
  nsteps server_turn 2 (started two_moves) (received two_moves) /\
  (rtc room_step empty_room (room (app (received two_moves))) /\
   exists L o, chat_inv (app (received two_moves)) L o) /\
  m_where <$> members (room (app (received two_moves))) !! COMBINE_ID_INDEX 2 0 = Some (2, 7).
Proof.
  split; [exact two_moves_run|]. split; [|vm_compute; reflexivity].
  apply (runs_refine_room 2 (started two_moves)); [reflexivity|exact two_moves_run|].
  vm_compute. discriminate.
Defined.

Lemma players_well_formed_witness :
  exists l p, players (app (received two_moves)) !! COMBINE_ID_INDEX 2 0 = Some l /\
    objects (app (received two_moves)) !! l = Some p /\
    (sectorX p = 65535 /\ sectorY p = 65535 \/ on_grid (sectorX p) (sectorY p)) /\
    (isLogined p = 0 /\ accountNo p = 0 \/ isLogined p = 1) /\
    zlen (id p) = 40 /\ zlen (nick p) = 40.
Proof.
  destruct (players (app (received two_moves)) !! COMBINE_ID_INDEX 2 0) as [l|] eqn:E.
  - destruct (players_well_formed 2 (started two_moves) (received two_moves) (COMBINE_ID_INDEX 2 0) l)
      as (p & Hp & H); [reflexivity|exact two_moves_run|vm_compute; discriminate|exact E|].
    exists l, p. split; [reflexivity|]. split; [exact Hp|exact H].
  - exfalso. vm_compute in E. discriminate.
Defined.

Lemma turns_keep_invariant_witness :
  exists L o, chat_inv (app (connected two_moves)) L o /\
    chat_inv (app (received two_moves)) L o /\
    refs (app (received two_moves)) = refs (app (connected two_moves)).
Proof.
  destruct (server_turn_serving (started two_moves) (connected two_moves) 0) as [[(L & o & Hi) Hl _] _].
  - apply (TAccept 5 6000). vm_compute. reflexivity.
  - exact new_serving.
  - reflexivity.
  - exists L, o. split; [exact Hi|].
    apply (turns_keep_invariant (connected two_moves) (received two_moves) L o); [|exact Hi|exact Hl].
    apply (TRecv 0 (zlen two_moves)). vm_compute. reflexivity.
Defined.
End Runs.
