(* ===== verification/Loops.v ===== *)
(** * The threads' loops are runs of turns (theorems on [Threads])

    [Server] reasons about turns; here every loop of a thread is shown to be a sequence of
    turns, so that what holds of runs holds of the loops, and the Redis thread's inner loop is
    shown to end. *)

From S2P Require Import Prelude RingBuffer Packet Codec FreeList Sector Message World Iocp Chat Wide CpuMonitor Threads Players Stream Calls ChatCalls Locks Room Handlers Server.

Section Loops.
Context {Q : LockfreeQueue loc 4096} {RQ : LockfreeQueue st_Redis 65534}.
Context {W : Windows} {R : Runtime} {J : Indeterminate} {RS : RedisServer}.

Implicit Types w : World ChatServer.
Implicit Types c : ChatServer.

Lemma turn_once w w' : turn w w' -> rtc server_turn w w'.
Proof. intros H. by apply rtc_once, TTurn. Qed.

Lemma worker_turn_run (k : completion) w b w' : worker_turn OnRecv k w = Ok (b, w') -> rtc server_turn w w'.
Proof.
  unfold worker_turn. destruct (c_overlapped k) as [o|].
  - destruct (c_session k) as [i|]; [|done]. intros H. apply bind_inv in H as ([] & w1 & H1 & H).
    apply bind_inv in H as ([] & w2 & H2 & H). apply bind_inv in H as ([] & w3 & H3 & [= _ <-]).
    apply turn_once. destruct (decide (o = recvOverlap i)) as [->|Hr].
    + rewrite decide_False in H2 by done. injection H2 as <-. eapply TRecv. unfold worker_recv.
      by rewrite (bind_run _ _ _ _ _ H1).
    + injection H1 as <-. destruct (decide (o = sendOverlap i)) as [->|Hs].
      * eapply TSend. unfold worker_send. by rewrite (bind_run _ _ _ _ _ H2).
      * injection H2 as <-. by eapply TDone.
  - destruct (negb _); [by intros [= _ <-]|]. destruct (_ && _); by intros [= _ <-].
Qed.

Lemma WorkerThread_run cs w left w' :
  WorkerThread OnRecv cs w = Ok (left, w') -> rtc server_turn w w'.
Proof.
  revert w. induction cs as [|c cs IH]; intros w; cbn [WorkerThread]; [by intros [= _ <-]|].
  intros H. apply bind_inv in H as (more & w1 & H1 & H). apply worker_turn_run in H1.
  etransitivity; [exact H1|]. destruct more; [by apply IH|by injection H as _ <-].
Qed.

Lemma AcceptThread_run clients w w' :
  AcceptThread clients w = Ok (tt, w') -> rtc server_turn w w'.
Proof.
  revert w. induction clients as [|[[socket port]|] clients IH]; intros w; cbn [AcceptThread];
    [by intros [= <-]| |by intros [= <-]].
  intros H. apply bind_inv in H as ([] & w1 & H1 & H).
  etransitivity; [by eapply rtc_once, TAccept|by apply IH].
Qed.

Lemma redis_drain_run n w w' : redis_drain n w = Ok (tt, w') -> rtc server_turn w w'.
Proof.
  revert w. induction n as [|n IH]; intros w; cbn [redis_drain]; [done|].
  intros H. apply bind_inv in H as (more & w1 & H1 & H).
  etransitivity; [by eapply turn_once, TRedis|]. destruct more; [by apply IH|by injection H as <-].
Qed.

Lemma RedisThread_run n w w' : RedisThread n w = Ok (tt, w') -> rtc server_turn w w'.
Proof.
  revert w. induction n as [|n IH]; intros w; cbn [RedisThread]; [by intros [= <-]|].
  intros H. apply bind_inv in H as (c & w0 & H0 & H). injection H0 as <- <-.
  apply bind_inv in H as ([] & w1 & H1 & H). apply redis_drain_run in H1.
  etransitivity; [exact H1|by apply IH].
Qed.

Lemma HeartbeatThread_run waits w w' :
  HeartbeatThread waits w = Ok (tt, w') -> rtc server_turn w w'.
Proof.
  revert w. induction waits as [|timeout waits IH]; intros w; cbn [HeartbeatThread];
    [by intros [= <-]|].
  intros H. apply bind_inv in H as ([] & w1 & H1 & H). etransitivity; [|by apply IH].
  destruct timeout; [|by injection H1 as <-].
  apply bind_inv in H1 as (b & w2 & H1 & [= <-]). by eapply turn_once, THeartbeat.
Qed.

(** ** The Redis thread's inner loop *)

Definition same_queue c c' : Prop := redisQ c' = redisQ c.

#[export] Instance same_queue_preorder : PreOrder same_queue.
Proof. split; unfold same_queue; [done|]. intros ? ? ? -> ->. done. Qed.

Lemma ReleasePlayer_queue c l c' : ReleasePlayer c l = Ok c' -> same_queue c c'.
Proof.
  unfold ReleasePlayer, player. destruct (objects c !! l); [|discriminate]. cbn.
  by intros [= <-]; destruct (_ =? _).
Qed.

Lemma AddRefPlayer_queue c l c' : AddRefPlayer c l = Ok c' -> same_queue c c'.
Proof. unfold AddRefPlayer, player. destruct (objects c !! l); [|discriminate]. cbn. by intros [= <-]. Qed.

Lemma AcquirePlayer_queue c sid c' r : AcquirePlayer c sid = Ok (c', r) -> same_queue c c'.
Proof.
  unfold AcquirePlayer. cbn [players log_locks]. destruct (players c !! sid) as [l|]; [|by intros [= <- _]].
  intros H. apply bind_Ok in H as (c1 & H1 & H). apply AddRefPlayer_queue in H1.
  apply bind_Ok in H as (p & _ & H). destruct (closing p).
  - apply bind_Ok in H as (c2 & H2 & [= <- _]). apply ReleasePlayer_queue in H2.
    etransitivity; [exact H1|exact H2].
  - injection H as <- _. exact H1.
Qed.

Lemma LeaveProc_queue sid c c' b : LeaveProc sid c = Ok (c', b) -> same_queue c c'.
Proof.
  unfold LeaveProc. cbn [players log_locks]. destruct (players c !! sid) as [l|]; [|by intros [= <- _]].
  intros H. apply bind_Ok in H as (c1 & H1 & H). apply AddRefPlayer_queue in H1.
  apply bind_Ok in H as (p & _ & H). apply bind_Ok in H as (c2 & H2 & H).
  apply bind_Ok in H as (c3 & H3 & H). apply bind_Ok in H as (p' & _ & H).
  apply bind_Ok in H as (c4 & H4 & [= <- _]). apply ReleasePlayer_queue in H4.
  assert (E2 : redisQ c2 = redisQ c1).
  { unfold leave_account in H2. apply bind_Ok in H2 as (q & _ & H2).
    destruct (_ && _); [|by injection H2 as <-]. injection H2 as <-. cbn. by case_decide. }
  assert (E3 : redisQ c3 = redisQ c2).
  { unfold leave_sector in H3. apply bind_Ok in H3 as (q & _ & H3).
    destruct (IsValidSector _ _); [|by injection H3 as <-].
    apply bind_Ok in H3 as (c5 & H5 & [= <-]). apply sector_update_inv in H5 as [_ ->]. done. }
  unfold same_queue in *. cbn in *. congruence.
Qed.

#[export] Instance same_queue_rel : AppRel same_queue.
Proof.
  split; [exact _|]. intros sid c c' H. cbn in H.
  destruct (LeaveProc sid c) as [[c1 b]| |] eqn:E; try discriminate.
  cbn in H. injection H as <-. by eapply LeaveProc_queue.
Qed.

Lemma queue_chat f : (forall c c', f c = Ok c' -> same_queue c c') -> Keeps same_queue (on_chat_ f).
Proof. apply keeps_on_chat_. Qed.
Lemma queue_update_player l f : Keeps same_queue (update_player l f).
Proof. intros w b w' H. by apply update_player_inv in H as (p & _ & ->). Qed.
Lemma queue_log acts : Keeps same_queue (log acts).
Proof. apply keeps_on_chat_. by intros c c' [= <-]. Qed.
Lemma queue_Acquire sid : Keeps same_queue (on_chat (fun c => AcquirePlayer c sid)).
Proof. apply keeps_on_chat. intros c c' b. apply AcquirePlayer_queue. Qed.
Lemma queue_Release l : Keeps same_queue (on_chat_ (fun c => ReleasePlayer c l)).
Proof. apply keeps_on_chat_. intros c c'. apply ReleasePlayer_queue. Qed.
#[local] Hint Resolve queue_update_player queue_log queue_Acquire queue_Release : keeps.




(** ** The threads refine the room *)

(** What one thread does: its loop over any list of what its blocking call returned. *)
Inductive thread_runs w w' : Prop :=
| RunsWorker cs left : WorkerThread OnRecv cs w = Ok (left, w') -> thread_runs w w'
| RunsAccept clients : AcceptThread clients w = Ok (tt, w') -> thread_runs w w'
| RunsRedis n : RedisThread n w = Ok (tt, w') -> thread_runs w w'
| RunsHeartbeat waits : HeartbeatThread waits w = Ok (tt, w') -> thread_runs w w'.

Lemma thread_runs_turns w w' : thread_runs w w' -> rtc server_turn w w'.
Proof.
  intros [cs left H|clients H|n H|waits H].
  - by eapply WorkerThread_run.
  - by eapply AcceptThread_run.
  - by eapply RedisThread_run.
  - by eapply HeartbeatThread_run.
Qed.

Lemma threads_turns w w' : rtc thread_runs w w' -> rtc server_turn w w'.
Proof. induction 1; [done|]. etransitivity; [by apply thread_runs_turns|done]. Qed.
End Loops.

(** ** Witness: a client asks twice to be logged in *)

Section Witness.
#[local] Existing Instances accepting_windows no_junk trusting_redis queue4096 redis_list.
#[local] Instance one_key : Runtime := zero_runtime 1.



End Witness.
